(* ===== verification/_CoqProject ===== *)
-Q . S2P
Prelude.v
Codec.v
Frames.v
Charconv.v
Config.v
Buffer.v
Ring.v
Spsc.v
EventFd.v
Watching.v
FsApi.v
MemFs.v
FileStore.v
Reader.v
Causes.v
Producer.v
NetApi.v
Server.v
ServerSpec.v
ServerProps.v
ServerCauses.v
Sessions.v
Main.v
Load.v
Except.v
Profile.v
ProfileProps.v
System.v
