(* ===== verification/Prelude.v ===== *)
(** * telemetry-server: a verification development

    The program takes telemetry frames from TCP clients and appends them to files.
    A parent process ([Server]) validates the clients' bytes and publishes the valid
    frames to a ring in shared memory; a child process ([Reader]) takes them from
    the ring and hands them to a segmented file store.  Two event descriptors wake
    the other side.  Under [bench], a sender and a controller exercise and profile
    it.  This development models every C++ component and proves what makes each
    correct and how they fit.

    ** Files, and the code they model

    - [Prelude]: words, byte ranges, the state monad with fuel, post-conditions,
      tactics and hints.  [retry_eintr] is the loop around interrupted calls.
    - [Codec] ([Protocol/src/TelemetryCodec.cpp], [Protocol/include]): frames of 32
      bytes; [encode], [decode], [toString], the comparison of records.
    - [Frames]: byte strings as sequences of frames; the longest valid beginning.
    - [Charconv]: [std::from_chars] and [std::to_string] for unsigned numbers.
    - [Config] ([Config/src/ConfigParser.cpp], [Config/include]): [parseArguments],
      [validate], [parseUnsigned], [printUsage].
    - [Buffer] ([Server/include/Buffer.hpp]): a client's input buffer.
    - [Ring] ([Ipc/src/SharedRingBuffer.cpp]): every operation as one step, over the
      array of slots with wrapping 64-bit counters; an abstract bounded queue.
    - [Spsc]: the batch operations of [Ring] one load, copy or store at a time, for
      two processes that run at once and read each other's counters late.
    - [EventFd] ([Ipc/src/EventFd.cpp]): [notifyEvent] and [consumeEvent] on blocking
      descriptors.
    - [Watching]: worlds whose calls are watched for failures.
    - [FsApi], [MemFs]: the file system as a parameter, with laws, and an instance.
    - [FileStore] ([Storage/src/FileStore.cpp]): every member function.
    - [Reader] ([Reader/src/Reader.cpp]): [run] and its lambdas.  [Causes]: when the
      store and the reader succeed.
    - [Producer]: the ring as the server sees it, met by [Ring].
    - [NetApi]: sockets, [epoll] and [signalfd] as a parameter, with laws, and an
      instance that follows a script.
    - [Server] ([Server/src/Server.cpp]): every member function.  [ServerSpec]: the
      abstract server, the invariants and their proofs.  [ServerProps]: the
      properties and a sample run.  [ServerCauses]: when the server succeeds.
      [Sessions]: what is published, told apart by connection.
    - [Main] ([src/main.cpp]): [main] in both processes.
    - [Load] ([bench/telemetry_load.cpp]): the sender, from its options to its exit.
    - [Except]: exceptions as values, and text.  [Profile] ([bench/profile_cpu.cpp]):
      the profiling controller; [ProfileProps]: its properties and an in-memory host.
    - [System]: the wake-up protocol of server, reader and main as one step relation
      (a step per ring operation, event operation or decision; a load may be old while
      the notification of what it misses is on its way), and the composition of the
      theorems on the two runs.

    ** How code becomes definitions

    A member function or lambda is a function in the monad [M] on the state it works
    on, composed as the code composes calls; a [while] loop is a [Fixpoint] on its
    fuel, and a [return] from inside a loop is the value the loop gives.  Integers
    keep their width where they can wrap ([u16], [u32], [u64]).  Objects that are
    shared are fields of one state and are changed in place: the buffer a reference
    points to is the entry of the client map ([Server.update_client]), the variables
    [run] hands down by reference are fields of [Server.SSt].  System calls are
    classes ([EventFdApi], [FileApi], [NetApi], [MainApi], [SendApi], [HostApi]) whose laws say what the
    documentation of the calls says: what a successful call changes, that a failed
    one changes nothing, that [close] releases the descriptor even when it fails,
    that a signal interrupts finitely many calls.  Each class has an instance, so
    every hypothesis is met by something concrete.

    Calls that block are partial: they are [None] when they never return, and a law
    says when they do.  A read of an event descriptor returns when somebody has written
    or will ([Reader.ReaderWorld], below); [epoll_wait] may wait for ever;
    [Main.waitpid] returns for a child that has been told to end, which [Main.World]
    knows from the history of [main]'s calls; [Profile.waitpid] without [WNOHANG]
    returns for a child whose group has been killed.  Where the order of the calls
    decides whether a wait ends, the theorems say so: closing the ring and then waking
    the reader, killing and then waiting.  The server reads the space descriptor only
    when [epoll] reports it and nobody else reads it, so its reads do not wait
    ([EventFd.reads_at_once]); a write to an event descriptor, and the sender's
    [connect] and [send], are taken to return.

    The ring meets three interfaces.  [Ring] proves that its operations refine a
    queue; [Spsc] proves that this stays true when the two sides interleave at every
    memory access, so that the clients of the ring may treat each call as one step;
    [Reader.ReaderWorld] and [Producer.RingProducerLaws] say what one side may rely on
    while the other runs between its calls, and instances discharge them with [Ring].
    For the reader, the ring and the event descriptors are one world, because what it
    finds in the one depends on what it has heard through the other: the parent
    notifies after it publishes or closes, and in the end closes, so a reader that has
    heard everything of a parent that is still going to publish or close will be woken
    again.  [Reader.SharedRing] is such a parent, and [Reader.unnotified] one that
    does not notify, where the reader waits for ever.

    ** What the theorems show

    - Codec: round trips both ways, the wire format, the order of the checks.
    - Options: accepted configurations are valid, options fold from left to right,
      a round trip, the exact domain of numbers.
    - Ring: any session of calls is one of the queue; copies stay in bounds; no data
      race, nothing lost, reordered or repeated between the processes; a closed and
      empty ring is the end.
    - File store: appending refines a log cut into full segments; what a crash can
      lose; what a failure keeps; recovery; batching makes no difference.
    - EventFd: the calls made, exactly; interruptions are retried.
    - Reader: it returns if the parent keeps its side; on success everything published
      is stored and synced; on failure a prefix is; it reports space and sleeps only
      after what it took is written; it fails only when a system call has failed or an
      invalid frame was published.
    - Server: it publishes exactly what the abstract server makes of the history of
      its connections; one [recv] on every branch; the invariant of the event loop
      (descriptors, what [epoll] watches, buffers, headroom, signals); every
      descriptor is closed in the end; draining is final; success means drained; it
      fails only when a call has failed or the reader has ended, never for want of
      room in the ring.
    - Main: the exit status can be trusted, with every call of a successful run; the
      reader is always brought to its end, by calls in an order that cannot miss it.
    - Sessions: every connection has exactly the valid beginning of its own stream
      published, in order, whatever the others do.
    - Load: what [parseOptions] does, exactly; exactly the requested frames are sent,
      or a prefix.
    - Profile: a benchmark file is accepted exactly when it is complete; what becomes
      of a command's child, exactly; children are reaped, or killed where waiting
      fails, and the temporary directory's removal is asked for on every path.
    - System: no wake-up is lost, so a sleeping reader has nothing to take, and a
      paused or draining server is always woken; and once both runs are over and the
      reader succeeded, the files hold exactly the valid frames of the clients'
      streams after what was there before, and of a sender's connection exactly the
      whole frames that had arrived of what it sent.

    ** Fuel and bounds

    [wp t] states total ([t = true]) and partial correctness at once.  Totality
    theorems ask for more fuel than there are interruptions, happenings and bytes
    left ([ev_budget], [budget], [net_budget], [proc_budget], [h_budget], the size of a
    batch) and, for the reader, notifications still to come ([wakes_left]), which the
    laws make decrease; with that much fuel no loop runs out, and [None] is a call that
    waits for ever.
    A server has no end of its own: a call of [epoll_wait] that never returns is
    [None], and [run] then gives [None] as its status.  Loops over the clients use
    the size of the map and need no bound.

    ** What is not modelled

    Console output and diagnostics (no behaviour depends on them), the address a
    client connects from (it is only printed), the unmapping of the ring by its
    destructor, the memory model below the release and acquire pairs [Spsc] uses,
    allocation failure, and the times the benchmark tools measure.  [bench]'s Python
    and shell drivers, the tests, and the build, container and service files are not
    part of the program.  [System] keeps of the
    two processes what the wake-ups depend on (counts, flags and control points) and
    leaves their data to [Server] and [Reader]; that the two see one ring is a
    hypothesis of the composed theorem, which [Spsc] is the reason for.  Opening a store
    does not sync a file it finds intact, so the durability of what was there before
    a run is a hypothesis ([FileStore.names_known]). *)

From Stdlib Require Export ZArith Lia Strings.Byte.
From stdpp Require Export base tactics option list list_numbers gmap strings.

Declare Scope telemetry_scope.
Delimit Scope telemetry_scope with tel.
#[global] Open Scope Z_scope.

(** ** Machine words *)

(** Unsigned arithmetic of width [w]: C++ unsigned types wrap. *)
Definition uwrap (w x : Z) : Z := x mod 2 ^ w.

Definition u8 (x : Z) : Z := uwrap 8 x.
Definition u16 (x : Z) : Z := uwrap 16 x.
Definition u32 (x : Z) : Z := uwrap 32 x.
Definition u64 (x : Z) : Z := uwrap 64 x.

(** [x] is a value of an unsigned type of width [w]. *)
Definition is_u (w x : Z) : Prop := 0 <= x < 2 ^ w.

(** ** Bytes ([std::byte]) *)

(** A span, a [std::array] or a [std::vector] of bytes. *)
Abbreviation bytes := (list byte).

Definition byte_to_Z (b : byte) : Z := Z.of_N (Byte.to_N b).

Definition byte_of_Z (z : Z) : byte :=
  match Byte.of_N (Z.to_N (u8 z)) with Some b => b | None => Byte.x00 end.

#[global] Instance byte_eq_decision : EqDecision byte := Byte.byte_eq_dec.
#[global] Instance byte_inhabited : Inhabited byte := populate Byte.x00.

(** ** Byte ranges, as [memcpy] and [std::span] see them *)

(** The length of a range, as a [std::size_t]. *)
Definition zlen {A} (l : list A) : Z := Z.of_nat (length l).

Definition ztake {A} (n : Z) (l : list A) : list A := take (Z.to_nat n) l.
Definition zdrop {A} (n : Z) (l : list A) : list A := drop (Z.to_nat n) l.

(** [memcpy(&mem[off], src, |src|)]. *)
Definition blit {A} (off : Z) (src mem : list A) : list A :=
  ztake off mem ++ src ++ zdrop (off + zlen src) mem.

(** [{data + off, n}]: the sub-span of [n] elements from [off]. *)
Definition zslice {A} (off n : Z) (l : list A) : list A := ztake n (zdrop off l).

(** ** State with fuel

    [M S A] is the type of a member function or handler: it reads and writes
    a state [S] and returns an [A]; [None] is a loop that has used up its fuel, or
    a call that waits for ever, so a run that has not finished.  Every [while] loop is a [Fixpoint] on its
    fuel. *)
Definition M (S A : Type) : Type := S -> option (A * S).

#[global] Instance M_ret S : MRet (M S) := fun A a s => Some (a, s).
#[global] Instance M_bind S : MBind (M S) :=
  fun A B f m s => match m s with Some (a, s') => f a s' | None => None end.

Definition get {S} : M S S := fun s => Some (s, s).
Definition gets {S A} (f : S -> A) : M S A := fun s => Some (f s, s).
Definition put {S} (s : S) : M S unit := fun _ => Some (tt, s).
Definition modify {S} (f : S -> S) : M S unit := fun s => Some (tt, f s).
Definition out_of_fuel {S A} : M S A := fun _ => None.

(** A call that runs on a part of the state. *)
Definition lift {S T A} (proj : S -> T) (upd : T -> S -> S) (m : M T A) : M S A :=
  fun s => match m (proj s) with Some (a, t) => Some (a, upd t s) | None => None end.

(** A system call: a total function of the world. *)
Definition call {W A} (f : W -> A * W) : M W A := fun w => Some (f w).

Notation "m1 ;;; m2" := (mbind (fun _ => m2) m1)
  (at level 100, right associativity) : telemetry_scope.
#[global] Open Scope telemetry_scope.

(** The result of a system call: a value, or [-1] with [errno]. *)
Inductive sysres (A : Type) : Type :=
| Ok (a : A)
| Err (errno : Z).
Arguments Ok {A} a.
Arguments Err {A} errno.

(** Linux [errno] values the code tests. *)
Definition ESRCH : Z := 3.
Definition EINTR : Z := 4.
Definition EAGAIN : Z := 11.
Definition EWOULDBLOCK : Z := 11.
Definition EEXIST : Z := 17.

Definition EXIT_SUCCESS : Z := 0.
Definition EXIT_FAILURE : Z := 1.

Definition is_intr {A} (r : sysres A) : bool :=
  match r with Err e => Z.eqb e EINTR | Ok _ => false end.

Definition is_ok {A} (r : sysres A) : bool := match r with Ok _ => true | Err _ => false end.

(** [while (call() == -1 && errno == EINTR) continue;]: the first result that is
    not an interruption. *)
Fixpoint retry_eintr {S A} (fuel : nat) (m : M S (sysres A)) : M S (sysres A) :=
  match fuel with
  | O => out_of_fuel
  | Datatypes.S fuel => r ← m; if is_intr r then retry_eintr fuel m else mret r
  end.

(** [m], run again and again from [s], has answered [rs] and left the state [s']. *)
Inductive answers {S A} (m : M S A) : S -> list A -> S -> Prop :=
| answers_none s : answers m s [] s
| answers_one s r s1 rs s' : m s = Some (r, s1) -> answers m s1 rs s' -> answers m s (r :: rs) s'.

(** ** Post-conditions

    [wp t m Q s]: from [s], [m] ends in a state where [Q] holds; when [t] is
    [true] it also must end, and when [t] is [false] running out of fuel is
    accepted.  One proof gives both readings. *)
Definition wp {S A} (t : bool) (m : M S A) (Q : A -> S -> Prop) (s : S) : Prop :=
  match m s with
  | Some (a, s') => Q a s'
  | None => t = false
  end.

(** ** Machine-word lemmas *)

Lemma uwrap_range w x : 0 <= w -> is_u w (uwrap w x).
Proof. intros Hw. apply Z.mod_pos_bound. lia. Qed.

Lemma uwrap_small w x : is_u w x -> uwrap w x = x.
Proof. intros H. by apply Z.mod_small. Qed.

Lemma u16_small x : 0 <= x < 2 ^ 16 -> u16 x = x.
Proof. apply uwrap_small. Qed.

Lemma u32_small x : 0 <= x < 2 ^ 32 -> u32 x = x.
Proof. apply uwrap_small. Qed.

Lemma u64_small x : 0 <= x < 2 ^ 64 -> u64 x = x.
Proof. apply uwrap_small. Qed.

Lemma u64_range x : 0 <= u64 x < 2 ^ 64.
Proof. by apply uwrap_range. Qed.

(** The difference of two wrapped counters is the wrapped difference. *)
Lemma u64_sub_wrap a b : u64 (u64 a - u64 b) = u64 (a - b).
Proof. unfold u64, uwrap. by rewrite Zminus_mod_idemp_l, Zminus_mod_idemp_r. Qed.

Lemma u64_add_wrap a b : u64 (u64 a + b) = u64 (a + b).
Proof. unfold u64, uwrap. by rewrite Zplus_mod_idemp_l. Qed.

Lemma byte_to_Z_range b : 0 <= byte_to_Z b < 256.
Proof.
  unfold byte_to_Z. pose proof (Byte.to_N_bounded b). lia.
Qed.

Lemma byte_to_of_Z z : byte_to_Z (byte_of_Z z) = z mod 256.
Proof.
  unfold byte_of_Z, byte_to_Z, u8, uwrap. change (2 ^ 8) with 256.
  pose proof (Z.mod_pos_bound z 256 ltac:(lia)) as Hb.
  destruct (Byte.of_N (Z.to_N (z mod 256))) as [b|] eqn:E.
  - apply Byte.to_of_N in E. rewrite E. lia.
  - apply Byte.of_N_None_iff in E. lia.
Qed.

Lemma byte_of_to_Z b : byte_of_Z (byte_to_Z b) = b.
Proof.
  unfold byte_of_Z, u8, uwrap. pose proof (byte_to_Z_range b).
  rewrite Z.mod_small by (change (2 ^ 8) with 256; lia).
  unfold byte_to_Z. by rewrite N2Z.id, Byte.of_to_N.
Qed.

Lemma byte_to_Z_inj b1 b2 : byte_to_Z b1 = byte_to_Z b2 -> b1 = b2.
Proof. intros H. by rewrite <- (byte_of_to_Z b1), H, byte_of_to_Z. Qed.

Lemma byte_of_Z_range_inv z : 0 <= z < 256 -> byte_to_Z (byte_of_Z z) = z.
Proof. intros H. rewrite byte_to_of_Z. by apply Z.mod_small. Qed.

(** ** Byte-range lemmas *)

Lemma zlen_nonneg {A} (l : list A) : 0 <= zlen l.
Proof. unfold zlen. lia. Qed.

Lemma zlen_nil {A} : zlen (@nil A) = 0.
Proof. done. Qed.

Lemma zlen_app {A} (l k : list A) : zlen (l ++ k) = zlen l + zlen k.
Proof. unfold zlen. rewrite length_app. lia. Qed.

Lemma zlen_take {A} n (l : list A) : zlen (ztake n l) = Z.min (Z.max 0 n) (zlen l).
Proof. unfold zlen, ztake. rewrite length_take. lia. Qed.

Lemma zlen_drop {A} n (l : list A) : zlen (zdrop n l) = Z.max 0 (zlen l - Z.max 0 n).
Proof. unfold zlen, zdrop. rewrite length_drop. lia. Qed.

Lemma zlen_zero {A} (l : list A) : zlen l = 0 -> l = [].
Proof. unfold zlen. destruct l; simpl; [done | lia]. Qed.

Lemma ztake_nonpos {A} n (l : list A) : n <= 0 -> ztake n l = [].
Proof. intros H. unfold ztake. by replace (Z.to_nat n) with O by lia. Qed.

Lemma zdrop_nonpos {A} n (l : list A) : n <= 0 -> zdrop n l = l.
Proof. intros H. unfold zdrop. by replace (Z.to_nat n) with O by lia. Qed.

Lemma ztake_ge {A} n (l : list A) : zlen l <= n -> ztake n l = l.
Proof. unfold zlen, ztake. intros. apply take_ge. lia. Qed.

Lemma zdrop_ge {A} n (l : list A) : zlen l <= n -> zdrop n l = [].
Proof. unfold zlen, zdrop. intros. apply drop_ge. lia. Qed.

Lemma ztake_zdrop {A} n (l : list A) : ztake n l ++ zdrop n l = l.
Proof. apply take_drop. Qed.

Lemma ztake_app_le {A} n (l k : list A) : n <= zlen l -> ztake n (l ++ k) = ztake n l.
Proof. unfold zlen, ztake. intros. apply take_app_le. lia. Qed.

Lemma ztake_app_ge {A} n (l k : list A) :
  zlen l <= n -> ztake n (l ++ k) = l ++ ztake (n - zlen l) k.
Proof.
  unfold zlen, ztake. intros. rewrite take_app_ge by lia. do 2 f_equal. lia.
Qed.

Lemma zdrop_app_le {A} n (l k : list A) : n <= zlen l -> zdrop n (l ++ k) = zdrop n l ++ k.
Proof. unfold zlen, zdrop. intros. apply drop_app_le. lia. Qed.

Lemma zdrop_app_ge {A} n (l k : list A) :
  zlen l <= n -> zdrop n (l ++ k) = zdrop (n - zlen l) k.
Proof. unfold zlen, zdrop. intros. rewrite drop_app_ge by lia. f_equal. lia. Qed.

Lemma zdrop_zdrop {A} n m (l : list A) : 0 <= n -> 0 <= m -> zdrop m (zdrop n l) = zdrop (n + m) l.
Proof. intros. unfold zdrop. rewrite drop_drop. f_equal. lia. Qed.

Lemma ztake_ztake {A} n m (l : list A) : ztake n (ztake m l) = ztake (Z.min n m) l.
Proof. unfold ztake. rewrite take_take. f_equal. lia. Qed.

Lemma ztake_add {A} n m (l : list A) :
  0 <= n -> 0 <= m -> ztake (n + m) l = ztake n l ++ ztake m (zdrop n l).
Proof.
  intros. unfold ztake, zdrop.
  replace (Z.to_nat (n + m)) with (Z.to_nat n + Z.to_nat m)%nat by lia.
  by rewrite take_take_drop.
Qed.

Lemma zdrop_ztake {A} n m (l : list A) :
  0 <= n -> 0 <= m -> zdrop n (ztake (n + m) l) = ztake m (zdrop n l).
Proof.
  intros. unfold ztake, zdrop.
  replace (Z.to_nat (n + m)) with (Z.to_nat n + Z.to_nat m)%nat by lia.
  by rewrite take_drop_commute.
Qed.

Lemma zlen_slice {A} off n (l : list A) :
  0 <= off -> 0 <= n -> off + n <= zlen l -> zlen (zslice off n l) = n.
Proof. intros. unfold zslice. rewrite zlen_take, zlen_drop. lia. Qed.

Lemma zslice_app_l {A} off n (l k : list A) :
  0 <= off -> 0 <= n -> off + n <= zlen l -> zslice off n (l ++ k) = zslice off n l.
Proof.
  intros. unfold zslice. rewrite zdrop_app_le by lia.
  apply ztake_app_le. rewrite zlen_drop. lia.
Qed.

Lemma zslice_app_r {A} off n (l k : list A) :
  zlen l <= off -> zslice off n (l ++ k) = zslice (off - zlen l) n k.
Proof. intros. unfold zslice. by rewrite zdrop_app_ge. Qed.

Lemma zslice_all {A} (l : list A) : zslice 0 (zlen l) l = l.
Proof. unfold zslice. rewrite zdrop_nonpos by lia. by apply ztake_ge. Qed.

Lemma zslice_slice {A} off n i k (l : list A) :
  0 <= off -> 0 <= i -> 0 <= k -> i + k <= n -> off + n <= zlen l ->
  zslice i k (zslice off n l) = zslice (off + i) k l.
Proof.
  intros. unfold zslice.
  replace n with (i + (n - i)) by lia.
  rewrite zdrop_ztake by lia. rewrite ztake_ztake, zdrop_zdrop by lia.
  f_equal. lia.
Qed.

(** A slice is its first part and the rest. *)
Lemma zslice_add {A} off n m (l : list A) :
  0 <= off -> 0 <= n -> 0 <= m ->
  zslice off (n + m) l = zslice off n l ++ zslice (off + n) m l.
Proof.
  intros. unfold zslice. rewrite ztake_add by lia. by rewrite zdrop_zdrop by lia.
Qed.

Lemma zlen_blit {A} off (src mem : list A) :
  0 <= off -> off + zlen src <= zlen mem -> zlen (blit off src mem) = zlen mem.
Proof.
  intros. unfold blit. rewrite !zlen_app, zlen_take, zlen_drop.
  pose proof (zlen_nonneg src). lia.
Qed.

Lemma blit_zero {A} (src mem : list A) : blit 0 src mem = src ++ zdrop (zlen src) mem.
Proof. unfold blit. by rewrite ztake_nonpos. Qed.

(** Reading back a range that was written. *)
Lemma zslice_blit_in {A} off (src mem : list A) i n :
  0 <= off -> off + zlen src <= zlen mem -> 0 <= i -> 0 <= n -> i + n <= zlen src ->
  zslice (off + i) n (blit off src mem) = zslice i n src.
Proof.
  intros. unfold blit.
  rewrite zslice_app_r by (rewrite zlen_take; lia).
  rewrite zlen_take. replace (off + i - _) with i by lia.
  by rewrite zslice_app_l.
Qed.

(** Ranges outside the written one are untouched. *)
Lemma zslice_blit_out {A} off (src mem : list A) i n :
  0 <= off -> off + zlen src <= zlen mem -> 0 <= i -> 0 <= n -> i + n <= zlen mem ->
  i + n <= off \/ off + zlen src <= i ->
  zslice i n (blit off src mem) = zslice i n mem.
Proof.
  intros Hoff Hlen Hi Hn Hb Hor. unfold blit. pose proof (zlen_nonneg src).
  destruct Hor as [Hlt|Hge].
  - rewrite zslice_app_l by (rewrite ?zlen_take; lia).
    rewrite <- (ztake_zdrop off mem) at 2.
    by rewrite zslice_app_l by (rewrite ?zlen_take; lia).
  - rewrite app_assoc.
    rewrite zslice_app_r by (rewrite zlen_app, zlen_take; lia).
    rewrite zlen_app, zlen_take. unfold zslice.
    rewrite zdrop_zdrop by lia. do 2 f_equal. lia.
Qed.

(** ** Rules for [wp] *)

Lemma wp_ret {S A} t (a : A) Q (s : S) : Q a s -> wp t (mret a) Q s.
Proof. done. Qed.

Lemma wp_bind {S A B} t (m : M S A) (f : A -> M S B) Q s :
  wp t m (fun a s' => wp t (f a) Q s') s -> wp t (m ≫= f) Q s.
Proof. unfold wp, mbind, M_bind. by destruct (m s) as [[a s']|]. Qed.

Lemma wp_mono {S A} t (m : M S A) (P Q : A -> S -> Prop) s :
  wp t m P s -> (forall a s', P a s' -> Q a s') -> wp t m Q s.
Proof. unfold wp. destruct (m s) as [[a s']|]; auto. Qed.

Lemma wp_conj {S A} t (m : M S A) (P Q : A -> S -> Prop) s :
  wp t m P s -> wp t m Q s -> wp t m (fun a s' => P a s' /\ Q a s') s.
Proof. unfold wp. destruct (m s) as [[a s']|]; auto. Qed.

Lemma wp_get {S} t Q (s : S) : Q s s -> wp t get Q s.
Proof. done. Qed.

Lemma wp_gets {S A} t (f : S -> A) Q s : Q (f s) s -> wp t (gets f) Q s.
Proof. done. Qed.

Lemma wp_put {S} t (s' : S) Q s : Q tt s' -> wp t (put s') Q s.
Proof. done. Qed.

Lemma wp_modify {S} t (f : S -> S) Q s : Q tt (f s) -> wp t (modify f) Q s.
Proof. done. Qed.

Lemma wp_call {W A} t (f : W -> A * W) Q w :
  (forall a w', f w = (a, w') -> Q a w') -> wp t (call f) Q w.
Proof. unfold wp, call. destruct (f w) as [a w'] eqn:E. auto. Qed.

Lemma wp_lift {S T A} t (proj : S -> T) (upd : T -> S -> S) (m : M T A) Q s :
  wp t m (fun a t' => Q a (upd t' s)) (proj s) -> wp t (lift proj upd m) Q s.
Proof. unfold wp, lift. by destruct (m (proj s)) as [[a t']|]. Qed.

Lemma wp_out_of_fuel {S A} t Q (s : S) : t = false -> wp t (@out_of_fuel S A) Q s.
Proof. done. Qed.

(** A total triple gives a result. *)
Lemma wp_total {S A} (m : M S A) Q s :
  wp true m Q s -> exists a s', m s = Some (a, s') /\ Q a s'.
Proof. unfold wp. destruct (m s) as [[a s']|]; [eauto | done]. Qed.

(** A triple read on a given run. *)
Lemma wp_run {S A} t (m : M S A) Q s a s' :
  wp t m Q s -> m s = Some (a, s') -> Q a s'.
Proof. unfold wp. intros H E. by rewrite E in H. Qed.

(** The post-condition may use the run itself. *)
Lemma wp_eq {S A} t (m : M S A) (Q : A -> S -> Prop) s :
  wp t m (fun a s' => m s = Some (a, s') -> Q a s') s -> wp t m Q s.
Proof. unfold wp. destruct (m s) as [[a s']|]; auto. Qed.

(** The state a run ends in, with [s] where there is none. *)
Definition end_state {S A} (s : S) (r : option (A * S)) : S :=
  match r with Some (_, s') => s' | None => s end.

Lemma ends_in {S A} (s : S) (r : option (A * S)) a :
  fst <$> r = Some a -> r = Some (a, end_state s r).
Proof. destruct r as [[a' s']|]; [by intros [= ->]|done]. Qed.

(** A retried call keeps [I] while it is interrupted, and [n] bounds how many more
    times it can be. *)
Lemma wp_retry {S A} t fuel (m : M S (sysres A)) (I : S -> Prop) (n : S -> nat) Q s :
  (forall s, I s ->
     wp t m (fun r s' => if is_intr r then I s' /\ (n s' < n s)%nat else Q r s') s) ->
  I s -> (t = true -> (n s < fuel)%nat) -> wp t (retry_eintr fuel m) Q s.
Proof.
  intros Hm. revert s. induction fuel as [|fuel IH]; intros s Hi Hf; simpl.
  { apply wp_out_of_fuel. destruct t; [|reflexivity]. specialize (Hf eq_refl). lia. }
  apply wp_bind. eapply wp_mono; [by apply Hm|]. intros r s' H.
  cbn beta in H. destruct (is_intr r); [|exact H]. destruct H as [Hi' Hn].
  apply IH; [done|]. intros Ht. specialize (Hf Ht). lia.
Qed.

Lemma answers_app {S A} (m : M S A) s1 s2 s3 a b :
  answers m s1 a s2 -> answers m s2 b s3 -> answers m s1 (a ++ b) s3.
Proof. induction 1; [done|]. intros. econstructor; eauto. Qed.

(** The calls of [retry_eintr], when interruptions use [n] up: all but the last were
    interrupted, and the last is the result; or a call never returned. *)
Lemma retry_exact {S A} fuel (m : M S (sysres A)) (n : S -> nat) s :
  (forall s r s', m s = Some (r, s') -> is_intr r = true -> (n s' < n s)%nat) ->
  (n s < fuel)%nat ->
  match retry_eintr fuel m s with
  | Some (r, s') => exists got, answers m s (got ++ [r]) s' /\
      Forall (fun r => is_intr r = true) got /\ is_intr r = false
  | None => exists got s', answers m s got s' /\ Forall (fun r => is_intr r = true) got /\ m s' = None
  end.
Proof.
  intros Hn. revert s. induction fuel as [|fuel IH]; intros s Hf; [lia|]. cbn [retry_eintr].
  unfold mbind, M_bind. destruct (m s) as [[r s1]|] eqn:E.
  2: { exists [], s. by repeat constructor. }
  destruct (is_intr r) eqn:Ei.
  - specialize (Hn _ _ _ E Ei). specialize (IH s1 ltac:(lia)).
    destruct (retry_eintr fuel m s1) as [[r' s']|].
    + destruct IH as (got & Ha & Hg & Hr). exists (r :: got).
      split; [by econstructor|]. split; [by constructor|done].
    + destruct IH as (got & s' & Ha & Hg & Hr). exists (r :: got), s'.
      split; [by econstructor|]. split; [by constructor|done].
  - exists []. split; [econstructor; [exact E|constructor]|]. by split.
Qed.

Create HintDb tel discriminated.
#[export] Hint Resolve wp_ret wp_get wp_gets wp_put wp_modify : tel.
#[export] Hint Resolve zlen_nonneg u64_range byte_to_Z_range : tel.
Create Rewrite HintDb zlen.
#[export] Hint Rewrite @zlen_app @zlen_take @zlen_drop @zlen_nil : zlen.

(** One step of a post-condition proof. *)
Ltac wp_step :=
  lazymatch goal with
  | |- wp _ (mbind _ _) _ _ => apply wp_bind
  | |- wp _ (mret _) _ _ => apply wp_ret
  | |- wp _ get _ _ => apply wp_get
  | |- wp _ (gets _) _ _ => apply wp_gets
  | |- wp _ (put _) _ _ => apply wp_put
  | |- wp _ (modify _) _ _ => apply wp_modify
  | |- wp _ (lift _ _ _) _ _ => apply wp_lift
  | |- wp _ out_of_fuel _ _ => apply wp_out_of_fuel
  end.

(** Take the steps that need no lemma of a component. *)
Ltac wp_steps := repeat (wp_step; simpl).

(** Linear arithmetic with division and remainder by constants. *)
Ltac div_lia := Z.to_euclidean_division_equations; lia.

(** Lengths of ranges, in linear arithmetic. *)
Ltac zlen_lia :=
  autorewrite with zlen in *;
  repeat match goal with
         | |- context [zlen ?l] =>
             lazymatch goal with
             | _ : 0 <= zlen l |- _ => fail
             | _ => pose proof (zlen_nonneg l)
             end
         | _ : context [zlen ?l] |- _ =>
             lazymatch goal with
             | _ : 0 <= zlen l |- _ => fail
             | _ => pose proof (zlen_nonneg l)
             end
         end;
  lia.
