(* ===== verification/Codec.v ===== *)
(** * Protocol: the binary telemetry codec

    [Protocol/include/TelemetryRecord.hpp], [Protocol/include/TelemetryCodec.hpp]
    and [Protocol/src/TelemetryCodec.cpp]. *)

From S2P Require Import Prelude.

Module Codec.

(** [0x544C5259], "TLRY". *)
Definition kMagic : Z := 0x544C5259.
Definition kVersion : Z := 1.
Definition kFrameSize : Z := 32.

(** [struct TelemetryRecord].  [value], a [double], is its 64-bit pattern, as
    [std::bit_cast] gives it. *)
Record TelemetryRecord := {
  sensorId : Z;
  metricId : Z;
  timestampNs : Z;
  value : Z;
}.

(** [TelemetryRecord{}]. *)
Definition default_record : TelemetryRecord :=
  {| sensorId := 0; metricId := 0; timestampNs := 0; value := 0 |}.

(** The fields have their C++ types. *)
Definition record_ok (r : TelemetryRecord) : Prop :=
  is_u 32 (sensorId r) /\ is_u 32 (metricId r) /\
  is_u 64 (timestampNs r) /\ is_u 64 (value r).

Inductive DecodeError :=
| None_
| InvalidSize
| InvalidMagic
| UnsupportedVersion
| InvalidDeclaredFrameSize.

#[global] Instance DecodeError_eq_dec : EqDecision DecodeError.
Proof. solve_decision. Defined.

Record DecodeResult := { record : TelemetryRecord; error : DecodeError }.

(** [explicit operator bool]. *)
Definition result_ok (r : DecodeResult) : bool := bool_decide (error r = None_).

Definition kMagicOffset : nat := 0.
Definition kVersionOffset : nat := 4.
Definition kFrameSizeOffset : nat := 6.
Definition kSensorIdOffset : nat := 8.
Definition kMetricIdOffset : nat := 12.
Definition kTimestampOffset : nat := 16.
Definition kValueOffset : nat := 24.

(** [std::byte{static_cast<unsigned char>((value >> shift) & 0xFF)}]. *)
Definition byte_at (value shift : Z) : byte :=
  byte_of_Z (Z.land (Z.shiftr value shift) 0xFF).

Definition writeU16 (frame : bytes) (offset : nat) (value : Z) : bytes :=
  <[(offset + 1)%nat := byte_at value 0]> (<[offset := byte_at value 8]> frame).

Definition writeU32 (frame : bytes) (offset : nat) (value : Z) : bytes :=
  let frame := <[offset := byte_at value 24]> frame in
  let frame := <[(offset + 1)%nat := byte_at value 16]> frame in
  let frame := <[(offset + 2)%nat := byte_at value 8]> frame in
  <[(offset + 3)%nat := byte_at value 0]> frame.

(** The loop body of [writeU64]. *)
Definition writeU64_step (offset : nat) (value : Z) (frame : bytes) (index : nat) : bytes :=
  let shift := (7 - Z.of_nat index) * 8 in
  <[(offset + index)%nat := byte_at value shift]> frame.

Definition writeU64 (frame : bytes) (offset : nat) (value : Z) : bytes :=
  foldl (writeU64_step offset value) frame (seq 0 8).

(** [std::to_integer<T>(frame[i])]. *)
Definition to_integer (frame : bytes) (i : nat) : Z := byte_to_Z (frame !!! i).

Definition readU16 (frame : bytes) (offset : nat) : Z :=
  let byte0 := to_integer frame offset in
  let byte1 := to_integer frame (offset + 1) in
  u16 (Z.lor (Z.shiftl byte0 8) byte1).

Definition readU32 (frame : bytes) (offset : nat) : Z :=
  let byte0 := to_integer frame offset in
  let byte1 := to_integer frame (offset + 1) in
  let byte2 := to_integer frame (offset + 2) in
  let byte3 := to_integer frame (offset + 3) in
  Z.lor (Z.lor (Z.lor (u32 (Z.shiftl byte0 24)) (u32 (Z.shiftl byte1 16)))
               (u32 (Z.shiftl byte2 8)))
        byte3.

(** The loop body of [readU64]. *)
Definition readU64_step (frame : bytes) (offset : nat) (value : Z) (index : nat) : Z :=
  Z.lor (u64 (Z.shiftl value 8)) (to_integer frame (offset + index)).

Definition readU64 (frame : bytes) (offset : nat) : Z :=
  foldl (readU64_step frame offset) 0 (seq 0 8).

(** [Frame frame{}]. *)
Definition zero_frame : bytes := replicate 32 Byte.x00.

Definition encode (r : TelemetryRecord) : bytes :=
  let frame := zero_frame in
  let frame := writeU32 frame kMagicOffset kMagic in
  let frame := writeU16 frame kVersionOffset kVersion in
  let frame := writeU16 frame kFrameSizeOffset (u16 kFrameSize) in
  let frame := writeU32 frame kSensorIdOffset (sensorId r) in
  let frame := writeU32 frame kMetricIdOffset (metricId r) in
  let frame := writeU64 frame kTimestampOffset (timestampNs r) in
  let valueBits := value r in
  writeU64 frame kValueOffset valueBits.

Definition decode (frame : bytes) : DecodeResult :=
  if negb (zlen frame =? kFrameSize) then
    {| record := default_record; error := InvalidSize |}
  else if negb (readU32 frame kMagicOffset =? kMagic) then
    {| record := default_record; error := InvalidMagic |}
  else if negb (readU16 frame kVersionOffset =? kVersion) then
    {| record := default_record; error := UnsupportedVersion |}
  else if negb (readU16 frame kFrameSizeOffset =? u16 kFrameSize) then
    {| record := default_record; error := InvalidDeclaredFrameSize |}
  else
    {| record := {| sensorId := readU32 frame kSensorIdOffset;
                    metricId := readU32 frame kMetricIdOffset;
                    timestampNs := readU64 frame kTimestampOffset;
                    value := readU64 frame kValueOffset |};
       error := None_ |}.

Definition toString (e : DecodeError) : string :=
  match e with
  | None_ => "none"
  | InvalidSize => "invalid frame size"
  | InvalidMagic => "invalid magic"
  | UnsupportedVersion => "unsupported version"
  | InvalidDeclaredFrameSize => "invalid declared frame size"
  end.

(** The fields of an IEEE 754 binary64 pattern. *)
Definition double_exponent (bits : Z) : Z := Z.land (Z.shiftr bits 52) 0x7FF.
Definition double_fraction (bits : Z) : Z := Z.land bits (2 ^ 52 - 1).
Definition double_is_nan (bits : Z) : bool :=
  (double_exponent bits =? 0x7FF) && negb (double_fraction bits =? 0).
Definition double_is_zero (bits : Z) : bool :=
  (double_exponent bits =? 0) && (double_fraction bits =? 0).

(** [==] on [double]: a NaN differs from everything, the zeros are equal. *)
Definition double_eqb (a b : Z) : bool :=
  negb (double_is_nan a) && negb (double_is_nan b) &&
  ((a =? b) || (double_is_zero a && double_is_zero b)).

(** The defaulted [operator==] of [TelemetryRecord]. *)
Definition record_eqb (a b : TelemetryRecord) : bool :=
  (sensorId a =? sensorId b) && (metricId a =? metricId b) &&
  (timestampNs a =? timestampNs b) && double_eqb (value a) (value b).

(** ** The wire format, as the README's table gives it *)

(** The big-endian value of a field. *)
Fixpoint be_value (l : bytes) : Z :=
  match l with
  | [] => 0
  | b :: l => byte_to_Z b * 256 ^ zlen l + be_value l
  end.

(** The [n] big-endian bytes of a field. *)
Fixpoint be_bytes (n : nat) (v : Z) : bytes :=
  match n with
  | O => []
  | S n => byte_of_Z (v / 256 ^ Z.of_nat n) :: be_bytes n v
  end.

(** The frame of a record. *)
Definition wire (r : TelemetryRecord) : bytes :=
  be_bytes 4 kMagic ++ be_bytes 2 kVersion ++ be_bytes 2 kFrameSize ++
  be_bytes 4 (sensorId r) ++ be_bytes 4 (metricId r) ++
  be_bytes 8 (timestampNs r) ++ be_bytes 8 (value r).

(** A byte list every 32-byte frame of which decodes. *)
Definition all_valid (l : bytes) : Prop :=
  forall i, 0 <= i -> (i + 1) * kFrameSize <= zlen l ->
    error (decode (zslice (i * kFrameSize) kFrameSize l)) = None_.

(** ** Lemmas *)

Lemma be_value_range l : 0 <= be_value l < 256 ^ zlen l.
Proof.
  induction l as [|b l IH]; [unfold zlen; simpl; lia|].
  cbn [be_value]. pose proof (byte_to_Z_range b).
  replace (zlen (b :: l)) with (zlen l + 1) by (unfold zlen; simpl; lia).
  rewrite Z.pow_add_r by zlen_lia. nia.
Qed.

Lemma length_be_bytes n v : length (be_bytes n v) = n.
Proof. induction n; simpl; congruence. Qed.

Lemma zlen_be_bytes n v : zlen (be_bytes n v) = Z.of_nat n.
Proof. unfold zlen. by rewrite length_be_bytes. Qed.

Lemma be_value_bytes n v : be_value (be_bytes n v) = v mod 256 ^ Z.of_nat n.
Proof.
  induction n as [|n IH]; [by rewrite Z.mod_1_r|].
  cbn [be_bytes be_value]. rewrite IH, byte_to_of_Z, zlen_be_bytes.
  rewrite Nat2Z.inj_succ, Z.pow_succ_r by lia.
  rewrite (Z.mul_comm 256), Z.rem_mul_r by lia. lia.
Qed.

Lemma be_value_inj l1 l2 :
  length l1 = length l2 -> be_value l1 = be_value l2 -> l1 = l2.
Proof.
  revert l2. induction l1 as [|b1 l1 IH]; intros [|b2 l2]; try done.
  simpl. intros [= Hlen]. assert (zlen l1 = zlen l2) as Hz by (unfold zlen; lia).
  rewrite <- Hz. pose proof (be_value_range l1). pose proof (be_value_range l2).
  rewrite <- Hz in *. intros Heq.
  destruct (Z.div_mod_unique (256 ^ zlen l1) (byte_to_Z b1) (byte_to_Z b2)
              (be_value l1) (be_value l2)) as [Hb Hl]; [lia..|].
  f_equal; [by apply byte_to_Z_inj | by apply IH].
Qed.

Lemma be_bytes_value n l : length l = n -> be_bytes n (be_value l) = l.
Proof.
  intros <-. apply be_value_inj; [apply length_be_bytes|].
  rewrite be_value_bytes. apply Z.mod_small. apply be_value_range.
Qed.

Lemma byte_at_div v s : 0 <= s -> byte_at v s = byte_of_Z (v / 2 ^ s).
Proof.
  intros Hs. unfold byte_at. apply byte_to_Z_inj. rewrite !byte_to_of_Z.
  change 255 with (Z.ones 8). rewrite Z.land_ones, Z.shiftr_div_pow2 by lia.
  change (2 ^ 8) with 256. apply Z.mod_mod. lia.
Qed.

(** Shifting a byte in is multiplying and adding. *)
Lemma lor_shiftl_byte x b :
  0 <= b < 256 -> Z.lor (Z.shiftl x 8) b = x * 256 + b.
Proof.
  intros Hb. rewrite <- Z.add_lor_land. rewrite Z.shiftl_mul_pow2 by lia.
  change (2 ^ 8) with 256.
  replace (Z.land (x * 256) b) with 0; [lia|]. symmetry. apply Z.bits_inj'.
  intros n Hn. rewrite Z.land_spec, Z.bits_0. change 256 with (2 ^ 8).
  destruct (decide (n < 8)).
  - by rewrite Z.mul_pow2_bits_low.
  - rewrite <- (Z.mod_small b (2 ^ 8)) by lia.
    rewrite Z.mod_pow2_bits_high by lia. apply andb_false_r.
Qed.

Lemma to_integer_range f i : 0 <= to_integer f i < 256.
Proof. apply byte_to_Z_range. Qed.

(** Evaluate [be_value] of a list of known length. *)
Ltac be_compute :=
  cbn [be_value]; unfold zlen; cbn [length];
  change (256 ^ Z.of_nat 3) with (256 * 256 * 256);
  change (256 ^ Z.of_nat 2) with (256 * 256);
  change (256 ^ Z.of_nat 1) with 256; change (256 ^ Z.of_nat 0) with 1.

Lemma readU16_value f o : readU16 f o = be_value [f !!! o; f !!! (o + 1)%nat].
Proof.
  unfold readU16. pose proof (to_integer_range f o).
  pose proof (to_integer_range f (o + 1)). rewrite lor_shiftl_byte by done.
  rewrite u16_small by lia. unfold to_integer. be_compute. lia.
Qed.

Lemma readU32_value f o :
  readU32 f o = be_value [f !!! o; f !!! (o + 1)%nat; f !!! (o + 2)%nat; f !!! (o + 3)%nat].
Proof.
  unfold readU32. pose proof (to_integer_range f o).
  pose proof (to_integer_range f (o + 1)). pose proof (to_integer_range f (o + 2)).
  pose proof (to_integer_range f (o + 3)).
  rewrite !u32_small by (rewrite Z.shiftl_mul_pow2 by lia; lia).
  change 24 with (8 + 8 + 8). change 16 with (8 + 8).
  rewrite <- !Z.shiftl_shiftl by lia. rewrite <- !Z.shiftl_lor.
  rewrite !lor_shiftl_byte by (rewrite ?lor_shiftl_byte; lia).
  unfold to_integer. be_compute. lia.
Qed.

Lemma readU64_loop f o k i acc :
  0 <= acc < 256 ^ Z.of_nat i -> (i + k <= 8)%nat ->
  foldl (readU64_step f o) acc (seq i k) =
  acc * 256 ^ Z.of_nat k + be_value (map (fun j => f !!! (o + j)%nat) (seq i k)).
Proof.
  revert i acc. induction k as [|k IH]; intros i acc Hacc Hk; [simpl; lia|].
  cbn [seq foldl map be_value].
  assert (256 ^ Z.of_nat i <= 256 ^ 7) by (apply Z.pow_le_mono_r; lia).
  assert (readU64_step f o acc i = acc * 256 + byte_to_Z (f !!! (o + i)%nat)) as ->.
  { unfold readU64_step. rewrite Z.shiftl_mul_pow2 by lia.
    rewrite u64_small by lia. rewrite <- Z.shiftl_mul_pow2 by lia.
    apply lor_shiftl_byte, to_integer_range. }
  pose proof (byte_to_Z_range (f !!! (o + i)%nat)).
  rewrite IH; [|rewrite Nat2Z.inj_succ, Z.pow_succ_r by lia; nia|lia].
  unfold zlen. rewrite length_map, length_seq, Nat2Z.inj_succ, Z.pow_succ_r by lia. ring.
Qed.

Lemma readU64_value f o :
  readU64 f o = be_value (map (fun j => f !!! (o + j)%nat) (seq 0 8)).
Proof. unfold readU64. by rewrite readU64_loop by lia. Qed.

(** [encode] writes the wire format. *)
Lemma encode_eq_wire r : encode r = wire r.
Proof.
  unfold encode, wire, writeU64, writeU32, writeU16, writeU64_step.
  rewrite !byte_at_div by lia.
  cbn [foldl seq]. rewrite !byte_at_div by lia. reflexivity.
Qed.

(** The bytes of a field. *)
Definition field (f : bytes) (o k : nat) : bytes := take k (drop o f).

Lemma field_lookup f o k :
  (o + k <= length f)%nat -> map (fun j => f !!! (o + j)%nat) (seq 0 k) = field f o k.
Proof.
  intros Hlen. change (@map nat byte) with (@fmap list list_fmap nat byte). apply list_eq. intros i.
  unfold field. destruct (decide (i < k)%nat) as [Hi|Hi].
  - rewrite list_lookup_fmap, lookup_seq_lt, lookup_take_lt, lookup_drop by done. simpl.
    symmetry. apply list_lookup_lookup_total_lt. lia.
  - rewrite !lookup_ge_None_2; [done|rewrite length_take; lia|].
    rewrite length_fmap, length_seq. lia.
Qed.

Lemma readU16_field f o : (o + 2 <= length f)%nat -> readU16 f o = be_value (field f o 2).
Proof.
  intros H. rewrite readU16_value, <- field_lookup by done. cbn [seq map].
  by rewrite Nat.add_0_r.
Qed.

Lemma readU32_field f o : (o + 4 <= length f)%nat -> readU32 f o = be_value (field f o 4).
Proof.
  intros H. rewrite readU32_value, <- field_lookup by done. cbn [seq map].
  by rewrite Nat.add_0_r.
Qed.

Lemma readU64_field f o : (o + 8 <= length f)%nat -> readU64 f o = be_value (field f o 8).
Proof. intros H. by rewrite readU64_value, <- field_lookup. Qed.

Lemma length_field f o k : (o + k <= length f)%nat -> length (field f o k) = k.
Proof. intros. unfold field. rewrite length_take, length_drop. lia. Qed.

Lemma field_range f o k :
  (o + k <= length f)%nat -> is_u (8 * Z.of_nat k) (be_value (field f o k)).
Proof.
  intros H. unfold is_u. rewrite Z.pow_mul_r by lia.
  replace (Z.of_nat k) with (zlen (field f o k)) by (unfold zlen; by rewrite length_field).
  apply be_value_range.
Qed.

(** What [decode] returns on a 32-byte frame, in terms of the header's fields. *)
Lemma decode_fields f :
  zlen f = kFrameSize ->
  decode f =
    if negb (be_value (field f 0 4) =? kMagic) then
      {| record := default_record; error := InvalidMagic |}
    else if negb (be_value (field f 4 2) =? kVersion) then
      {| record := default_record; error := UnsupportedVersion |}
    else if negb (be_value (field f 6 2) =? kFrameSize) then
      {| record := default_record; error := InvalidDeclaredFrameSize |}
    else
      {| record := {| sensorId := be_value (field f 8 4);
                      metricId := be_value (field f 12 4);
                      timestampNs := be_value (field f 16 8);
                      value := be_value (field f 24 8) |};
         error := None_ |}.
Proof.
  intros Hlen. assert (length f = 32%nat) as Hn by (unfold zlen, kFrameSize in Hlen; lia).
  unfold decode. rewrite Hlen.
  rewrite !readU32_field, !readU16_field, !readU64_field by (rewrite Hn; compute; lia).
  done.
Qed.

Lemma decode_short f : zlen f <> kFrameSize ->
  decode f = {| record := default_record; error := InvalidSize |}.
Proof. intros H. unfold decode. apply Z.eqb_neq in H. by rewrite H. Qed.

Lemma length_encode r : length (encode r) = 32%nat.
Proof. rewrite encode_eq_wire. done. Qed.

Lemma zlen_encode r : zlen (encode r) = kFrameSize.
Proof. unfold zlen. by rewrite length_encode. Qed.

Lemma decode_encode_eq r :
  record_ok r -> decode (encode r) = {| record := r; error := None_ |}.
Proof.
  intros (Hs & Hm & Ht & Hv). rewrite encode_eq_wire, decode_fields by done.
  change (field (wire r) 0 4) with (be_bytes 4 kMagic).
  change (field (wire r) 4 2) with (be_bytes 2 kVersion).
  change (field (wire r) 6 2) with (be_bytes 2 kFrameSize).
  change (field (wire r) 8 4) with (be_bytes 4 (sensorId r)).
  change (field (wire r) 12 4) with (be_bytes 4 (metricId r)).
  change (field (wire r) 16 8) with (be_bytes 8 (timestampNs r)).
  change (field (wire r) 24 8) with (be_bytes 8 (value r)).
  rewrite !be_value_bytes.
  change (256 ^ Z.of_nat 4) with (2 ^ 32). change (256 ^ Z.of_nat 8) with (2 ^ 64).
  rewrite !(Z.mod_small (_ r)) by done. by destruct r.
Qed.

(** ** Properties *)

(** C12: every record whose fields have their C++ types is decoded back, bit for
    bit, from the frame [encode] makes of it. *)
Theorem decode_encode r :
  record_ok r -> decode (encode r) = {| record := r; error := None_ |}.
Proof. apply decode_encode_eq. Qed.

Definition sample : TelemetryRecord :=
  {| sensorId := 1; metricId := 2; timestampNs := 3; value := 0x3FF0000000000000 |}.

Lemma decode_encode_witness :
  record_ok sample /\ decode (encode sample) = {| record := sample; error := None_ |}.
Proof.
  assert (record_ok sample) as H by (unfold record_ok, is_u; simpl; lia).
  split; [exact H | exact (decode_encode sample H)].
Defined.

(** C26: a frame [decode] accepts has 32 bytes, its record has fields of their
    C++ types, and it is exactly the frame [encode] makes of that record: no two
    frames decode to the same record. *)
Theorem decode_accepts_encoding f :
  error (decode f) = None_ ->
  zlen f = kFrameSize /\ record_ok (record (decode f)) /\ encode (record (decode f)) = f.
Proof.
  intros Herr. destruct (decide (zlen f = kFrameSize)) as [Hlen|Hlen];
    [|by rewrite decode_short in Herr].
  assert (length f = 32%nat) as Hn by (unfold zlen, kFrameSize in Hlen; lia).
  rewrite decode_fields in * by done.
  repeat (case_match; [done|]). simpl in *.
  repeat match goal with H : negb _ = false |- _ => apply negb_false_iff, Z.eqb_eq in H end.
  split; [done|]. split.
  { unfold record_ok. simpl.
    split; [|split; [|split]]; apply field_range; rewrite Hn; lia. }
  rewrite encode_eq_wire. unfold wire. simpl sensorId. simpl metricId.
  simpl timestampNs. simpl value.
  repeat match goal with H : be_value _ = _ |- _ => rewrite <- H; clear H end.
  rewrite !be_bytes_value by (apply length_field; rewrite Hn; lia).
  do 32 (destruct f as [|? f]; [done|]). by destruct f.
Qed.

Lemma decode_accepts_encoding_witness :
  error (decode (encode sample)) = None_ /\
  encode (record (decode (encode sample))) = encode sample.
Proof.
  assert (error (decode (encode sample)) = None_) as H by (vm_compute; reflexivity).
  split; [exact H | exact (proj2 (proj2 (decode_accepts_encoding _ H)))].
Defined.

(** C37: the checks are made in the order size, magic, version, declared size,
    on the big-endian header fields; the first that fails is reported, with the
    default record, and a frame that passes all four is accepted. *)
Theorem decode_check_order f :
  (error (decode f) = InvalidSize <-> zlen f <> kFrameSize) /\
  (zlen f = kFrameSize ->
   (error (decode f) = InvalidMagic <-> be_value (field f 0 4) <> kMagic) /\
   (be_value (field f 0 4) = kMagic ->
    (error (decode f) = UnsupportedVersion <-> be_value (field f 4 2) <> kVersion) /\
    (be_value (field f 4 2) = kVersion ->
     (error (decode f) = InvalidDeclaredFrameSize <-> be_value (field f 6 2) <> kFrameSize) /\
     (error (decode f) = None_ <-> be_value (field f 6 2) = kFrameSize)))) /\
  (error (decode f) <> None_ -> record (decode f) = default_record).
Proof.
  destruct (decide (zlen f = kFrameSize)) as [Hlen|Hlen].
  - rewrite decode_fields by done.
    destruct (Z.eqb_spec (be_value (field f 0 4)) kMagic);
      destruct (Z.eqb_spec (be_value (field f 4 2)) kVersion);
      destruct (Z.eqb_spec (be_value (field f 6 2)) kFrameSize); simpl; naive_solver.
  - rewrite decode_short by done. simpl. naive_solver.
Qed.

(** [encode] writes the README's wire table: magic, version, declared size,
    sensor, metric, timestamp and value bits, each big-endian, 32 bytes in all. *)
Theorem encode_wire_format r :
  encode r = wire r /\ zlen (encode r) = kFrameSize /\
  (forall x, is_u 32 x -> be_value (be_bytes 4 x) = x) /\
  (forall x, is_u 64 x -> be_value (be_bytes 8 x) = x).
Proof.
  split; [apply encode_eq_wire|]. split; [apply zlen_encode|].
  split; intros x Hx; rewrite be_value_bytes; by apply Z.mod_small.
Qed.

(** The codec keeps the bits of [value] also where the defaulted [==] of
    the record cannot see them: after a round trip the record is [==] to the
    original exactly when [value] is not a NaN. *)
Theorem round_trip_eqb r :
  record_ok r ->
  record_eqb r (record (decode (encode r))) = negb (double_is_nan (value r)).
Proof.
  intros Hr. rewrite decode_encode_eq by done.
  unfold record_eqb, double_eqb, record. rewrite !Z.eqb_refl.
  destruct (double_is_nan (value r)); reflexivity.
Qed.

(** A signalling NaN with a payload. *)
Definition nan_sample : TelemetryRecord :=
  {| sensorId := 1; metricId := 2; timestampNs := 3; value := 0x7FF4000000000001 |}.

Lemma round_trip_eqb_witness :
  record_ok nan_sample /\
  record_eqb nan_sample (record (decode (encode nan_sample))) = false.
Proof.
  assert (record_ok nan_sample) as H by (unfold record_ok, is_u; simpl; lia).
  split; [exact H|]. rewrite (round_trip_eqb nan_sample H). reflexivity.
Defined.

End Codec.
