(* ===== verification/Frames.v ===== *)
(** * Byte strings as sequences of frames

    What the ring, the server, the reader and the store mean by the frames of a byte
    string, its valid frames, and its longest valid beginning. *)

From S2P Require Import Prelude Codec.
Import Codec.

Module Frames.

(** The frames of a batch, [n] of them. *)
Fixpoint split_frames (n : nat) (b : bytes) : list bytes :=
  match n with
  | O => []
  | S n => ztake kFrameSize b :: split_frames n (zdrop kFrameSize b)
  end.

Definition frames_of (b : bytes) : list bytes := split_frames (Z.to_nat (zlen b / kFrameSize)) b.

Definition valid_frames (b : bytes) : Prop :=
  Forall (fun f => result_ok (decode f) = true) (frames_of b).

(** The number of frames before the first that [decode] rejects. *)
Fixpoint leading_valid (fs : list bytes) : nat :=
  match fs with
  | [] => O
  | f :: fs => if result_ok (decode f) then S (leading_valid fs) else O
  end.

(** The bytes they take. *)
Definition valid_bytes (b : bytes) : Z := Z.of_nat (leading_valid (frames_of b)) * kFrameSize.

(** A chunk and the frames after it. *)
Lemma split_frames_add a b bs :
  split_frames (a + b) bs =
  split_frames a (ztake (Z.of_nat a * kFrameSize) bs) ++
  split_frames b (zdrop (Z.of_nat a * kFrameSize) bs).
Proof.
  revert bs. induction a as [|a IH]; intros bs; [by rewrite zdrop_nonpos|].
  cbn [Nat.add split_frames app]. f_equal.
  - rewrite ztake_ztake. f_equal. unfold kFrameSize. lia.
  - rewrite IH. replace (Z.of_nat (S a) * kFrameSize) with (kFrameSize + Z.of_nat a * kFrameSize)
      by (unfold kFrameSize; lia).
    rewrite zdrop_ztake, zdrop_zdrop by (unfold kFrameSize; lia). done.
Qed.

Lemma frames_of_chunk n bs :
  0 <= n <= zlen bs -> (kFrameSize | n) ->
  frames_of bs = frames_of (ztake n bs) ++ frames_of (zdrop n bs).
Proof.
  intros Hn [k ->]. unfold frames_of.
  assert (zlen (ztake (k * kFrameSize) bs) = k * kFrameSize) as -> by (rewrite zlen_take; lia).
  assert (zlen (zdrop (k * kFrameSize) bs) = zlen bs - k * kFrameSize) as ->
    by (rewrite zlen_drop; lia).
  rewrite Z.div_mul by done.
  replace (zlen bs - k * kFrameSize) with (zlen bs + (- k) * kFrameSize) by lia.
  rewrite Z.div_add by done.
  assert (0 <= k <= zlen bs / kFrameSize) by (unfold kFrameSize in *; div_lia).
  replace (Z.to_nat (zlen bs / kFrameSize))
    with (Z.to_nat k + Z.to_nat (zlen bs / kFrameSize + - k))%nat by lia.
  rewrite split_frames_add, Z2Nat.id by lia. done.
Qed.

Lemma split_frames_length n b :
  Z.of_nat n * kFrameSize <= zlen b -> Forall (fun f => zlen f = kFrameSize) (split_frames n b).
Proof.
  revert b. induction n as [|n IH]; intros b Hb; [constructor|]. cbn [split_frames].
  constructor.
  - rewrite zlen_take. unfold kFrameSize in *. lia.
  - apply IH. rewrite zlen_drop. unfold kFrameSize in *. lia.
Qed.

Lemma frames_of_length b : Forall (fun f => zlen f = kFrameSize) (frames_of b).
Proof.
  apply split_frames_length. pose proof (zlen_nonneg b). unfold kFrameSize. div_lia.
Qed.

Lemma frames_of_nonempty b : kFrameSize <= zlen b -> frames_of b <> [].
Proof.
  intros H. unfold frames_of. assert (0 < zlen b / kFrameSize) by (unfold kFrameSize in *; div_lia).
  destruct (Z.to_nat (zlen b / kFrameSize)) eqn:E; [lia|done].
Qed.

Lemma split_frames_concat n b :
  zlen b = Z.of_nat n * kFrameSize -> concat (split_frames n b) = b.
Proof.
  revert b. induction n as [|n IH]; intros b Hb.
  - cbn. symmetry. by apply zlen_zero.
  - cbn [split_frames concat]. rewrite IH; [apply ztake_zdrop|].
    rewrite zlen_drop. unfold kFrameSize in *. lia.
Qed.

Lemma frames_of_app a b :
  (kFrameSize | zlen a) -> frames_of (a ++ b) = frames_of a ++ frames_of b.
Proof.
  intros Hd. pose proof (zlen_nonneg a). pose proof (zlen_nonneg b).
  rewrite (frames_of_chunk (zlen a) (a ++ b)) by (rewrite ?zlen_app; lia || done).
  by rewrite ztake_app_le, ztake_ge, zdrop_app_ge, Z.sub_diag, zdrop_nonpos by lia.
Qed.

Lemma frames_of_one f : zlen f = kFrameSize -> frames_of f = [f].
Proof.
  intros Hf. unfold frames_of. rewrite Hf. change (Z.to_nat (kFrameSize / kFrameSize)) with 1%nat.
  cbn [split_frames]. by rewrite ztake_ge by lia.
Qed.

Lemma valid_frames_app a b :
  (kFrameSize | zlen a) -> valid_frames (a ++ b) <-> valid_frames a /\ valid_frames b.
Proof. intros Hd. unfold valid_frames. rewrite frames_of_app by done. apply Forall_app. Qed.

Lemma split_frames_count n b : length (split_frames n b) = n.
Proof. revert b. induction n as [|n IH]; intros b; [done|]. cbn [split_frames length]. by rewrite IH. Qed.

Lemma leading_valid_le fs : (leading_valid fs <= length fs)%nat.
Proof. induction fs as [|f fs IH]; cbn [leading_valid length]; [done|]. destruct (result_ok _); lia. Qed.

Lemma take_split_frames k n b :
  (k <= n)%nat -> take k (split_frames n b) = split_frames k b.
Proof.
  revert n b. induction k as [|k IH]; intros [|n] b Hk; try (done || lia).
  cbn [split_frames take]. by rewrite IH by lia.
Qed.

Lemma split_frames_prefix n m b :
  Z.of_nat n * kFrameSize <= m -> split_frames n (ztake m b) = split_frames n b.
Proof.
  revert m b. induction n as [|n IH]; intros m b Hm; [done|]. cbn [split_frames].
  unfold kFrameSize in *. rewrite ztake_ztake. f_equal; [f_equal; lia|].
  replace m with (32 + (m - 32)) by lia. rewrite zdrop_ztake by lia. apply IH. lia.
Qed.

Lemma leading_valid_take fs :
  Forall (fun f => result_ok (decode f) = true) (take (leading_valid fs) fs).
Proof.
  induction fs as [|f fs IH]; cbn [leading_valid]; [constructor|].
  destruct (result_ok (decode f)) eqn:E; [by constructor|constructor].
Qed.

Lemma leading_valid_app fs gs :
  leading_valid fs = length fs -> leading_valid (fs ++ gs) = (length fs + leading_valid gs)%nat.
Proof.
  induction fs as [|f fs IH]; [done|]. cbn [leading_valid length app Nat.add].
  destruct (result_ok (decode f)); [|done]. intros [= E]. by rewrite IH.
Qed.

Lemma leading_valid_all fs :
  Forall (fun f => result_ok (decode f) = true) fs -> leading_valid fs = length fs.
Proof. induction 1 as [|f fs Hf _ IH]; [done|]. cbn [leading_valid length]. by rewrite Hf, IH. Qed.

Lemma length_frames_of b : Z.of_nat (length (frames_of b)) = zlen b / kFrameSize.
Proof.
  unfold frames_of. rewrite split_frames_count. pose proof (zlen_nonneg b).
  unfold kFrameSize. div_lia.
Qed.

Lemma valid_bytes_range b :
  0 <= valid_bytes b <= zlen b /\ (kFrameSize | valid_bytes b).
Proof.
  unfold valid_bytes. pose proof (leading_valid_le (frames_of b)).
  pose proof (length_frames_of b). pose proof (zlen_nonneg b).
  split; [unfold kFrameSize in *; div_lia|apply Z.divide_factor_r].
Qed.

(** The valid beginning is made of valid frames. *)
Lemma valid_bytes_valid b : valid_frames (ztake (valid_bytes b) b).
Proof.
  destruct (valid_bytes_range b) as [Hr [k Hk]]. unfold valid_frames, frames_of.
  rewrite zlen_take, Z.max_r, Z.min_l by lia. rewrite Hk, Z.div_mul by done.
  assert (Z.to_nat k = leading_valid (frames_of b)) as ->
    by (unfold valid_bytes, kFrameSize in Hk; lia).
  rewrite split_frames_prefix by (unfold valid_bytes, kFrameSize in *; lia).
  pose proof (leading_valid_take (frames_of b)) as Hv. unfold frames_of in Hv at 2.
  rewrite take_split_frames in Hv; [done|].
  pose proof (leading_valid_le (frames_of b)) as Hl.
  unfold frames_of in Hl at 2. by rewrite split_frames_count in Hl.
Qed.

Lemma valid_bytes_all b :
  valid_frames b -> (kFrameSize | zlen b) -> valid_bytes b = zlen b.
Proof.
  intros Hv [k Hk]. unfold valid_bytes. rewrite leading_valid_all by done.
  rewrite length_frames_of, Hk, Z.div_mul; done.
Qed.

(** A valid beginning, and the valid beginning of what follows. *)
Lemma valid_bytes_app a b :
  valid_frames a -> (kFrameSize | zlen a) -> valid_bytes (a ++ b) = zlen a + valid_bytes b.
Proof.
  intros Hv Hd. unfold valid_bytes. rewrite frames_of_app by done.
  rewrite leading_valid_app by (by apply leading_valid_all). rewrite Nat2Z.inj_add.
  rewrite length_frames_of. destruct Hd as [k ->]. rewrite Z.div_mul by done.
  unfold kFrameSize. lia.
Qed.

End Frames.
