(* ===== verification/Charconv.v ===== *)
(** * The number conversions of the C++ standard library that the code uses

    [std::from_chars] on unsigned integers ([Config]) and [std::to_string]
    ([Storage]), with the round trip between them. *)

From Stdlib Require Import Ascii.
From S2P Require Import Prelude.

Module Charconv.

Definition char_code (c : ascii) : Z := Z.of_N (N_of_ascii c).
Definition is_digit (c : ascii) : bool := (48 <=? char_code c) && (char_code c <=? 57).
Definition digit_of (d : Z) : ascii := ascii_of_N (Z.to_N (48 + d)).

(** The longest prefix of digits, and the rest. *)
Fixpoint span_digits (s : string) : string * string :=
  match s with
  | EmptyString => (EmptyString, EmptyString)
  | String c s' =>
      if is_digit c then let '(d, r) := span_digits s' in (String c d, r)
      else (EmptyString, s)
  end.

(** The value of a digit string, after a prefix of value [acc]. *)
Fixpoint digits_value (acc : Z) (s : string) : Z :=
  match s with
  | EmptyString => acc
  | String c s => digits_value (10 * acc + (char_code c - 48)) s
  end.

Inductive errc := errc_ok | invalid_argument | result_out_of_range.

(** [std::from_chars(first, last, value)] in base 10 for an unsigned type of
    [w] bits: [ptr] is what is left from the returned pointer on; the value is
    written only when [ec] is zero. *)
Record from_chars_result := { ptr : string; ec : errc; parsed : option Z }.

Definition from_chars (w : Z) (s : string) : from_chars_result :=
  let '(d, r) := span_digits s in
  match d with
  | EmptyString => {| ptr := s; ec := invalid_argument; parsed := None |}
  | String _ _ =>
      let v := digits_value 0 d in
      if v <? 2 ^ w then {| ptr := r; ec := errc_ok; parsed := Some v |}
      else {| ptr := r; ec := result_out_of_range; parsed := None |}
  end.

(** The decimal digits of [n], before [acc]; a number below [2^fuel] has at
    most [fuel] digits. *)
Fixpoint digits_from (fuel : nat) (n : Z) (acc : string) : string :=
  match fuel with
  | O => acc
  | S fuel =>
      let acc := String (digit_of (n mod 10)) acc in
      if n / 10 =? 0 then acc else digits_from fuel (n / 10) acc
  end.

(** [std::to_string] of an unsigned and of a signed integer. *)
Definition to_string_u (n : Z) : string :=
  digits_from (S (Z.to_nat (Z.log2 n))) n EmptyString.

Definition to_string (n : Z) : string :=
  if n <? 0 then String "-" (to_string_u (- n)) else to_string_u n.

(** A string of digits only. *)
Fixpoint all_digits (s : string) : bool :=
  match s with EmptyString => true | String c s => is_digit c && all_digits s end.

(** The value of a text that is one decimal number of [w] bits and nothing else. *)
Definition whole_number (w : Z) (text : string) : option Z :=
  if bool_decide (text <> EmptyString) && all_digits text && (digits_value 0 text <? 2 ^ w)
  then Some (digits_value 0 text) else None.

(** [s] does not begin with a digit. *)
Definition stops (s : string) : Prop :=
  match s with EmptyString => True | String c _ => is_digit c = false end.

(** ** Lemmas *)

Lemma digit_of_code d : 0 <= d < 10 -> char_code (digit_of d) = 48 + d.
Proof.
  intros H. unfold char_code, digit_of. rewrite N_ascii_embedding by lia. lia.
Qed.

Lemma digit_of_digit d : 0 <= d < 10 -> is_digit (digit_of d) = true.
Proof. intros H. unfold is_digit. rewrite digit_of_code by done. lia. Qed.

Lemma digits_from_value fuel n acc :
  0 <= n < 2 ^ Z.of_nat fuel ->
  digits_value 0 (digits_from fuel n acc) = digits_value n acc.
Proof.
  revert n acc. induction fuel as [|fuel IH]; intros n acc Hn.
  { simpl in *. by replace n with 0 by lia. }
  cbn [digits_from]. pose proof (Z.div_mod n 10 ltac:(lia)) as Hdm.
  pose proof (Z.mod_pos_bound n 10 ltac:(lia)).
  destruct (Z.eqb_spec (n / 10) 0) as [E|E].
  - cbn [digits_value]. rewrite digit_of_code by done. f_equal. lia.
  - rewrite IH.
    + cbn [digits_value]. rewrite digit_of_code by done. f_equal. lia.
    + rewrite Nat2Z.inj_succ, Z.pow_succ_r in Hn by lia.
      split; [apply Z.div_pos; lia|]. apply Z.div_lt_upper_bound; lia.
Qed.

Lemma digits_from_all fuel n acc :
  all_digits (digits_from fuel n acc) = all_digits acc.
Proof.
  revert n acc. induction fuel as [|fuel IH]; intros n acc; [done|].
  cbn [digits_from]. pose proof (Z.mod_pos_bound n 10 ltac:(lia)).
  case_match; [|rewrite IH]; simpl; by rewrite digit_of_digit.
Qed.

Lemma digits_from_nonempty fuel n acc :
  acc <> EmptyString -> digits_from fuel n acc <> EmptyString.
Proof.
  revert n acc. induction fuel as [|fuel IH]; intros n acc H; [done|].
  cbn [digits_from]. case_match; [done | by apply IH].
Qed.

Lemma to_string_u_value n : 0 <= n -> digits_value 0 (to_string_u n) = n.
Proof.
  intros Hn. unfold to_string_u. rewrite digits_from_value; [done|].
  split; [done|]. rewrite Nat2Z.inj_succ, Z2Nat.id by apply Z.log2_nonneg.
  destruct (Z.eq_dec n 0) as [->|]; [done|]. apply Z.log2_spec. lia.
Qed.

Lemma to_string_u_digits n : all_digits (to_string_u n) = true.
Proof. unfold to_string_u. by rewrite digits_from_all. Qed.

Lemma to_string_u_nonempty n : to_string_u n <> EmptyString.
Proof.
  unfold to_string_u. cbn [digits_from]. case_match; [done|].
  by apply digits_from_nonempty.
Qed.

Lemma span_digits_app d r :
  all_digits d = true -> stops r -> span_digits (d +:+ r) = (d, r).
Proof.
  induction d as [|c d IH]; simpl; intros Hd Hr.
  - destruct r as [|c r]; [done|]. simpl in *. by rewrite Hr.
  - apply andb_true_iff in Hd as [Hc Hd]. by rewrite Hc, IH.
Qed.

Lemma span_digits_spec s d r :
  span_digits s = (d, r) -> s = d +:+ r /\ all_digits d = true /\ stops r.
Proof.
  revert d r. induction s as [|c s IH]; simpl; intros d r H; [by simplify_eq|].
  destruct (is_digit c) eqn:Hc; [|simplify_eq; by simpl].
  destruct (span_digits s) as [d' r'] eqn:E. simplify_eq.
  destruct (IH d' r eq_refl) as (-> & Hd & Hr). simpl. by rewrite Hc.
Qed.

Lemma digits_value_nonneg s acc :
  0 <= acc -> all_digits s = true -> 0 <= digits_value acc s.
Proof.
  revert acc. induction s as [|c s IH]; simpl; intros acc Ha Hs; [done|].
  apply andb_true_iff in Hs as [Hc Hs]. unfold is_digit in Hc.
  apply andb_true_iff in Hc as [? ?]. apply IH; [lia|done].
Qed.

(** A value that is stored has the type it is stored in. *)
Lemma from_chars_typed w s v : parsed (from_chars w s) = Some v -> is_u w v.
Proof.
  unfold from_chars. destruct (span_digits s) as [d r] eqn:E.
  apply span_digits_spec in E as (_ & Hd & _). destruct d as [|c d]; [done|].
  pose proof (digits_value_nonneg _ 0 ltac:(done) Hd) as Hn. cbv zeta.
  destruct (_ <? 2 ^ w) eqn:Hlt; [|done]. apply Z.ltb_lt in Hlt. cbn [parsed].
  set (n := digits_value _ _) in *. by intros [= <-].
Qed.

(** [from_chars] reads back what [to_string] printed, up to the next character. *)
Lemma from_chars_to_string_app w n r :
  is_u w n -> stops r ->
  from_chars w (to_string_u n +:+ r) = {| ptr := r; ec := errc_ok; parsed := Some n |}.
Proof.
  intros [Hn Hw] Hr. unfold from_chars.
  rewrite span_digits_app by (done || apply to_string_u_digits).
  pose proof (to_string_u_nonempty n). destruct (to_string_u n) eqn:E; [done|].
  rewrite <- E, to_string_u_value by done.
  destruct (Z.ltb_spec n (2 ^ w)); [done | lia].
Qed.

Lemma string_app_assoc (a b c : string) : (a +:+ b) +:+ c = a +:+ (b +:+ c).
Proof.
  induction a as [|x a IH]; [done|].
  change (String x ((a +:+ b) +:+ c) = String x (a +:+ (b +:+ c))). by rewrite IH.
Qed.

Lemma string_length_app a b :
  String.length (a +:+ b) = (String.length a + String.length b)%nat.
Proof.
  induction a as [|x a IH]; [done|].
  change (S (String.length (a +:+ b)) = S (String.length a + String.length b)). by rewrite IH.
Qed.

Lemma string_app_empty s : s +:+ EmptyString = s.
Proof. induction s as [|c s IH]; [done|]. change (String c (s +:+ EmptyString) = String c s). by rewrite IH. Qed.

(** A text is read to its end without an error exactly when it is a whole number. *)
Lemma from_chars_whole w text :
  whole_number w text =
    match text, ec (from_chars w text), ptr (from_chars w text) with
    | String _ _, errc_ok, EmptyString => parsed (from_chars w text)
    | _, _, _ => None
    end.
Proof.
  unfold whole_number. destruct text as [|c s] eqn:Et; [done|]. rewrite <- Et.
  rewrite bool_decide_eq_true_2 by (by rewrite Et). rewrite !andb_true_l.
  unfold from_chars.
  destruct (span_digits text) as [d r] eqn:E.
  apply span_digits_spec in E as (Es & Hd & Hr).
  destruct d as [|c' d'] eqn:Ed.
  - change (text = r) in Es. rewrite <- Es, Et in Hr. rewrite Et. simpl in *. by rewrite Hr.
  - rewrite <- Ed in *. clear c' d' Ed. destruct r as [|c' r].
    + rewrite string_app_empty in Es. rewrite Es, Hd, andb_true_l.
      by destruct (digits_value 0 d <? 2 ^ w).
    + assert (all_digits text = false) as ->.
      { rewrite Es. clear -Hr. simpl in Hr. induction d as [|x d IH]; simpl.
        - by rewrite Hr.
        - change (is_digit x && all_digits (d +:+ String c' r) = false).
          rewrite IH. apply andb_false_r. }
      rewrite andb_false_l. by destruct (digits_value 0 d <? 2 ^ w).
Qed.

Lemma whole_number_typed w text v : whole_number w text = Some v -> is_u w v.
Proof.
  unfold whole_number. destruct (_ && _) eqn:E; [|done]. intros [= <-].
  apply andb_true_iff in E as [[_ Hd]%andb_true_iff Hv%Z.ltb_lt].
  split; [by apply digits_value_nonneg|done].
Qed.

Lemma from_chars_to_string w n :
  is_u w n ->
  from_chars w (to_string_u n) = {| ptr := EmptyString; ec := errc_ok; parsed := Some n |}.
Proof.
  intros Hn. rewrite <- (string_app_empty (to_string_u n)).
  by apply from_chars_to_string_app.
Qed.

(** A printed number is determined by the string and what follows it. *)
Lemma to_string_u_app_inj n m r1 r2 :
  0 <= n -> 0 <= m -> stops r1 -> stops r2 ->
  to_string_u n +:+ r1 = to_string_u m +:+ r2 -> n = m /\ r1 = r2.
Proof.
  intros Hn Hm H1 H2 E.
  pose proof (span_digits_app _ r1 (to_string_u_digits n) H1) as S1.
  pose proof (span_digits_app _ r2 (to_string_u_digits m) H2) as S2.
  rewrite E, S2 in S1. injection S1 as Ed Er. split; [|done].
  by rewrite <- (to_string_u_value n), <- (to_string_u_value m), Ed.
Qed.

Lemma string_app_inj_l a b c : a +:+ b = a +:+ c -> b = c.
Proof.
  induction a as [|x a IH]; [done|].
  change (String x (a +:+ b) = String x (a +:+ c) -> b = c). intros [= H]. by apply IH.
Qed.

Lemma to_string_u_head n : exists c r, to_string_u n = String c r /\ is_digit c = true.
Proof.
  pose proof (to_string_u_nonempty n). pose proof (to_string_u_digits n) as H1.
  destruct (to_string_u n) as [|c r]; [done|]. simpl in H1.
  apply andb_true_iff in H1 as [H1 _]. eauto.
Qed.

(** The same for signed numbers. *)
Lemma to_string_app_inj n m r1 r2 :
  stops r1 -> stops r2 ->
  to_string n +:+ r1 = to_string m +:+ r2 -> n = m /\ r1 = r2.
Proof.
  intros H1 H2. unfold to_string.
  destruct (to_string_u_head n) as (cn & sn & En & Dn).
  destruct (to_string_u_head m) as (cm & sm & Em & Dm).
  destruct (Z.ltb_spec n 0) as [Hn|Hn], (Z.ltb_spec m 0) as [Hm|Hm]; intros E.
  - change (String "-" (to_string_u (- n) +:+ r1) = String "-" (to_string_u (- m) +:+ r2)) in E.
    injection E as E.
    destruct (to_string_u_app_inj (- n) (- m) r1 r2) as [E' ->]; try done; try lia.
    split; [lia|done].
  - rewrite Em in E. injection E as E _. by rewrite <- E in Dm.
  - rewrite En in E. injection E as E _. by rewrite E in Dn.
  - by apply to_string_u_app_inj.
Qed.

End Charconv.
