(* ===== verification/Config.v ===== *)
(** * Config: command-line options

    [Config/include/AppConfig.hpp] and [Config/src/ConfigParser.cpp]: the
    defaults, the option parser, the validation and the usage text.  The output
    stream is the string written to it so far. *)

From Stdlib Require Import Ascii.
From S2P Require Import Prelude Codec Charconv.
Import Codec Charconv.

Module Config.

Record AppConfig := {
  port : Z;
  dataFilePath : string;
  maxSegmentBytes : Z;
  syncEveryBytes : Z;
  quiet : bool;
}.

(** [AppConfig config;]. *)
Definition default_config : AppConfig :=
  {| port := 9000; dataFilePath := "telemetry.bin";
     maxSegmentBytes := 64 * 1024 * 1024; syncEveryBytes := 1 * 1024 * 1024;
     quiet := false |}.

Inductive ParseStatus := Success | HelpRequested | Error.

#[global] Instance ParseStatus_eq_dec : EqDecision ParseStatus.
Proof. solve_decision. Defined.

Definition set_port p c := {| port := p; dataFilePath := dataFilePath c;
  maxSegmentBytes := maxSegmentBytes c; syncEveryBytes := syncEveryBytes c; quiet := quiet c |}.
Definition set_dataFilePath p c := {| port := port c; dataFilePath := p;
  maxSegmentBytes := maxSegmentBytes c; syncEveryBytes := syncEveryBytes c; quiet := quiet c |}.
Definition set_maxSegmentBytes n c := {| port := port c; dataFilePath := dataFilePath c;
  maxSegmentBytes := n; syncEveryBytes := syncEveryBytes c; quiet := quiet c |}.
Definition set_syncEveryBytes n c := {| port := port c; dataFilePath := dataFilePath c;
  maxSegmentBytes := maxSegmentBytes c; syncEveryBytes := n; quiet := quiet c |}.
Definition set_quiet q c := {| port := port c; dataFilePath := dataFilePath c;
  maxSegmentBytes := maxSegmentBytes c; syncEveryBytes := syncEveryBytes c; quiet := q |}.

(** The character [\n]. *)
Definition nl : string := String (ascii_of_nat 10) EmptyString.

(** [parseUnsigned<T>] for a [T] of [w] bits: the result and the new value of
    the variable passed by reference. *)
Definition parseUnsigned (w : Z) (text : string) (result : Z) : bool * Z :=
  match text with
  | EmptyString => (false, result)
  | String _ _ =>
      let r := from_chars w text in
      match ec r, ptr r, parsed r with
      | errc_ok, EmptyString, Some v => (true, v)
      | _, _, _ => (false, result)
      end
  end.

(** [validate]: the verdict and what it writes to [errorOutput]. *)
Definition validate (config : AppConfig) : bool * string :=
  if port config =? 0 then (false, "port must be between 1 and 65535" +:+ nl)
  else if bool_decide (dataFilePath config = EmptyString) then
    (false, "data file path cannot be empty" +:+ nl)
  else if maxSegmentBytes config <? kFrameSize then
    (false, "segment size must be at least " +:+ to_string_u kFrameSize +:+ " bytes" +:+ nl)
  else if negb (maxSegmentBytes config mod kFrameSize =? 0) then
    (false, "segment size must be a multiple of " +:+ to_string_u kFrameSize +:+ " bytes" +:+ nl)
  else if negb (syncEveryBytes config =? 0) && (maxSegmentBytes config <? syncEveryBytes config)
  then (false, "sync interval cannot exceed " +:+ "segment size" +:+ nl)
  else (true, EmptyString).

(** What [nextValue] writes when no argument is left. *)
Definition missing_value (argument : string) : string :=
  "missing value for " +:+ argument +:+ nl.

(** The [for] loop of [parseArguments] over the arguments from [index] on, and
    the validation after it.  [config] and [err] are the two arguments passed by
    reference. *)
Fixpoint parse_loop (args : list string) (config : AppConfig) (err : string)
  : ParseStatus * AppConfig * string :=
  match args with
  | [] =>
      let '(ok, msg) := validate config in
      if ok then (Success, config, err +:+ msg) else (Error, config, err +:+ msg)
  | argument :: rest =>
      if bool_decide (argument = "--help") || bool_decide (argument = "-h") then
        (HelpRequested, config, err)
      else if bool_decide (argument = "--quiet") then
        parse_loop rest (set_quiet true config) err
      else if bool_decide (argument = "--port") then
        match rest with
        | [] => (Error, config, err +:+ missing_value argument)
        | value :: rest =>
            let '(ok, p) := parseUnsigned 16 value (port config) in
            let config := set_port p config in
            if negb ok || (port config =? 0) then
              (Error, config, err +:+ "invalid port: " +:+ value +:+ nl)
            else parse_loop rest config err
        end
      else if bool_decide (argument = "--data-file") then
        match rest with
        | [] => (Error, config, err +:+ missing_value argument +:+ "invalid data file path" +:+ nl)
        | value :: rest =>
            if bool_decide (value = EmptyString) then
              (Error, config, err +:+ "invalid data file path" +:+ nl)
            else parse_loop rest (set_dataFilePath value config) err
        end
      else if bool_decide (argument = "--segment-bytes") then
        match rest with
        | [] => (Error, config, err +:+ missing_value argument +:+ "invalid segment size" +:+ nl)
        | value :: rest =>
            let '(ok, n) := parseUnsigned 64 value (maxSegmentBytes config) in
            let config := set_maxSegmentBytes n config in
            if negb ok then (Error, config, err +:+ "invalid segment size" +:+ nl)
            else parse_loop rest config err
        end
      else if bool_decide (argument = "--sync-bytes") then
        match rest with
        | [] => (Error, config, err +:+ missing_value argument +:+ "invalid sync interval" +:+ nl)
        | value :: rest =>
            let '(ok, n) := parseUnsigned 64 value (syncEveryBytes config) in
            let config := set_syncEveryBytes n config in
            if negb ok then (Error, config, err +:+ "invalid sync interval" +:+ nl)
            else parse_loop rest config err
        end
      else (Error, config, err +:+ "unknown argument: " +:+ argument +:+ nl)
  end.

(** [parseArguments(argc, argv, config, errorOutput)]: [argv[0]] is skipped. *)
Definition parseArguments (argv : list string) (config : AppConfig) (err : string)
  : ParseStatus * AppConfig * string :=
  parse_loop (tail argv) config err.

Definition printUsage (programName : string) : string :=
  "usage: " +:+ programName +:+ " [options]" +:+ nl +:+ nl +:+
  "options:" +:+ nl +:+
  "  --port PORT" +:+ nl +:+
  "  --data-file PATH" +:+ nl +:+
  "  --segment-bytes BYTES" +:+ nl +:+
  "  --sync-bytes BYTES" +:+ nl +:+
  "  --quiet (suppress per-record logs)" +:+ nl +:+
  "  -h, --help" +:+ nl.

(** ** What the parser promises *)

(** The fields have their C++ types. *)
Definition config_typed (c : AppConfig) : Prop :=
  is_u 16 (port c) /\ is_u 64 (maxSegmentBytes c) /\ is_u 64 (syncEveryBytes c).

(** The README's requirements on the options. *)
Definition config_valid (c : AppConfig) : Prop :=
  1 <= port c <= 65535 /\ dataFilePath c <> EmptyString /\
  kFrameSize <= maxSegmentBytes c /\ (kFrameSize | maxSegmentBytes c) /\
  (syncEveryBytes c = 0 \/ syncEveryBytes c <= maxSegmentBytes c).

(** The arguments that ask for the configuration [c]. *)
Definition render (c : AppConfig) : list string :=
  ["--port"; to_string_u (port c); "--data-file"; dataFilePath c;
   "--segment-bytes"; to_string_u (maxSegmentBytes c);
   "--sync-bytes"; to_string_u (syncEveryBytes c)] ++
  (if quiet c then ["--quiet"%string] else []).

(** A well-formed option of the command line. *)
Inductive opt :=
| OPort (n : Z)
| ODataFile (path : string)
| OSegmentBytes (n : Z)
| OSyncBytes (n : Z)
| OQuiet.

Definition opt_ok (o : opt) : Prop :=
  match o with
  | OPort n => 1 <= n <= 65535
  | ODataFile path => path <> EmptyString
  | OSegmentBytes n | OSyncBytes n => is_u 64 n
  | OQuiet => True
  end.

Definition opt_args (o : opt) : list string :=
  match o with
  | OPort n => ["--port"; to_string_u n]
  | ODataFile path => ["--data-file"; path]
  | OSegmentBytes n => ["--segment-bytes"; to_string_u n]
  | OSyncBytes n => ["--sync-bytes"; to_string_u n]
  | OQuiet => ["--quiet"]
  end%string.

Definition apply_opt (c : AppConfig) (o : opt) : AppConfig :=
  match o with
  | OPort n => set_port n c
  | ODataFile path => set_dataFilePath path c
  | OSegmentBytes n => set_maxSegmentBytes n c
  | OSyncBytes n => set_syncEveryBytes n c
  | OQuiet => set_quiet true c
  end.

(** ** Lemmas *)

Lemma parseUnsigned_spec w text old :
  parseUnsigned w text old =
    match whole_number w text with Some n => (true, n) | None => (false, old) end.
Proof.
  rewrite from_chars_whole. unfold parseUnsigned.
  destruct text as [|c s]; [done|]. unfold from_chars. destruct (span_digits _) as [[|c' d] r]; [done|]. cbv zeta.
  destruct (_ <? _); [|done]. by destruct r.
Qed.

Lemma parseUnsigned_typed w text old ok v :
  0 <= w -> is_u w old -> parseUnsigned w text old = (ok, v) -> is_u w v.
Proof.
  intros Hw Hold. rewrite parseUnsigned_spec.
  destruct (whole_number w text) eqn:E; intros [= <- <-]; [by eapply whole_number_typed|done].
Qed.

Lemma parseUnsigned_render w n old :
  is_u w n -> parseUnsigned w (to_string_u n) old = (true, n).
Proof.
  intros Hn. unfold parseUnsigned. rewrite from_chars_to_string by done.
  pose proof (to_string_u_nonempty n). by destruct (to_string_u n).
Qed.

Lemma validate_spec c :
  config_typed c ->
  (config_valid c /\ validate c = (true, EmptyString)) \/
  (~ config_valid c /\ exists msg, validate c = (false, msg) /\ msg <> EmptyString).
Proof.
  unfold config_typed, config_valid, validate, is_u. intros (Hp & Hm & Hs).
  change kFrameSize with 32. rewrite <- Z.mod_divide by lia.
  destruct (Z.eqb_spec (port c) 0).
  { right. split; [lia | by eexists]. }
  case_bool_decide.
  { right. split; [tauto | by eexists]. }
  destruct (Z.ltb_spec (maxSegmentBytes c) 32).
  { right. split; [lia | by eexists]. }
  destruct (Z.eqb_spec (maxSegmentBytes c mod 32) 0).
  2: { right. split; [tauto | by eexists]. }
  destruct (Z.eqb_spec (syncEveryBytes c) 0);
    destruct (Z.ltb_spec (maxSegmentBytes c) (syncEveryBytes c)).
  2: { left. split; [|done]. split_and!; auto; lia. }
  1: { left. split; [|done]. split_and!; auto; lia. }
  - right. split; [lia | by eexists].
  - left. split; [|done]. split_and!; auto; lia.
Qed.

Lemma missing_value_nonempty a : missing_value a <> EmptyString.
Proof. done. Qed.

Lemma set_typed c :
  config_typed c ->
  (forall n, is_u 16 n -> config_typed (set_port n c)) /\
  (forall p, config_typed (set_dataFilePath p c)) /\
  (forall n, is_u 64 n -> config_typed (set_maxSegmentBytes n c)) /\
  (forall n, is_u 64 n -> config_typed (set_syncEveryBytes n c)) /\
  (forall q, config_typed (set_quiet q c)).
Proof. unfold config_typed. intros (? & ? & ?). simpl. auto 10. Qed.

(** The outcome of a parse that started from [err]. *)
Definition parse_post (err : string) (r : ParseStatus * AppConfig * string) : Prop :=
  let '(st, c, err') := r in
  config_typed c /\
  match st with
  | Success => config_valid c /\ err' = err
  | HelpRequested => err' = err
  | Error => exists msg, msg <> EmptyString /\ err' = err +:+ msg
  end.

Lemma parse_post_error err c msg :
  config_typed c -> msg <> EmptyString -> parse_post err (Error, c, err +:+ msg).
Proof. simpl. eauto. Qed.

(** Read a number and go on: the common case of the three numeric options. *)
Lemma parse_number_post err w value old (set : Z -> AppConfig -> AppConfig) c
    (bad : bool -> AppConfig -> bool) msg k :
  0 <= w -> is_u w old -> msg <> EmptyString ->
  (forall n, is_u w n -> config_typed (set n c)) ->
  (forall c', config_typed c' -> parse_post err (k c')) ->
  parse_post err
    (let '(ok, n) := parseUnsigned w value old in
     if bad ok (set n c) then (Error, set n c, err +:+ msg) else k (set n c)).
Proof.
  intros Hw Hold Hmsg Hset Hk. destruct (parseUnsigned w value old) as [ok n] eqn:E.
  pose proof (parseUnsigned_typed _ _ _ _ _ Hw Hold E) as Hn.
  destruct (bad ok (set n c)); [by apply parse_post_error; auto | auto].
Qed.

Lemma parse_loop_post args c err :
  config_typed c -> parse_post err (parse_loop args c err).
Proof.
  remember (length args) as n eqn:Hn.
  revert args c Hn. induction (lt_wf n) as [n _ IH]. intros args c Hn Hc.
  destruct (set_typed c Hc) as (Tp & Tf & Tm & Ts & Tq).
  pose proof Hc as (Hp & Hm & Hs).
  destruct args as [|a rest]; cbn [parse_loop].
  { destruct (validate_spec c Hc) as [[Hv ->]|(_ & msg & -> & Hmsg)].
    - rewrite string_app_empty. by simpl.
    - by apply parse_post_error. }
  simpl in Hn. destruct (bool_decide (a = "--help") || _); [by simpl|].
  destruct (bool_decide (a = "--quiet")); [apply (IH (length rest)); auto; lia|].
  assert (forall v rest' c', rest = v :: rest' -> config_typed c' ->
            parse_post err (parse_loop rest' c' err)) as IH2.
  { intros v rest' c' -> Hc'. apply (IH (length rest')); auto. simpl in *. lia. }
  destruct (bool_decide (a = "--port")); [|destruct (bool_decide (a = "--data-file"));
    [|destruct (bool_decide (a = "--segment-bytes"));
      [|destruct (bool_decide (a = "--sync-bytes"))]]].
  - destruct rest as [|v rest]; [by apply parse_post_error|].
    apply (parse_number_post err 16 v (port c) set_port c (fun ok c' => negb ok || (port c' =? 0))
             ("invalid port: " +:+ v +:+ nl) (fun c' => parse_loop rest c' err)); eauto; done.
  - destruct rest as [|v rest]; [by apply parse_post_error|].
    destruct (bool_decide (v = EmptyString)); [by apply parse_post_error | eauto].
  - destruct rest as [|v rest]; [by apply parse_post_error|].
    apply (parse_number_post err 64 v (maxSegmentBytes c) set_maxSegmentBytes c (fun ok _ => negb ok)
             ("invalid segment size" +:+ nl) (fun c' => parse_loop rest c' err)); eauto; done.
  - destruct rest as [|v rest]; [by apply parse_post_error|].
    apply (parse_number_post err 64 v (syncEveryBytes c) set_syncEveryBytes c (fun ok _ => negb ok)
             ("invalid sync interval" +:+ nl) (fun c' => parse_loop rest c' err)); eauto; done.
  - by apply parse_post_error.
Qed.

Lemma parse_opt o rest c err :
  opt_ok o -> parse_loop (opt_args o ++ rest) c err = parse_loop rest (apply_opt c o) err.
Proof.
  destruct o as [n|path|n|n|]; intros Ho; simpl in Ho; cbn [opt_args app parse_loop apply_opt].
  - rewrite parseUnsigned_render by (unfold is_u; lia). simpl.
    destruct (Z.eqb_spec n 0); [lia | done].
  - simpl. by rewrite bool_decide_eq_false_2.
  - rewrite (parseUnsigned_render 64 n (maxSegmentBytes c)) by exact Ho. reflexivity.
  - rewrite (parseUnsigned_render 64 n (syncEveryBytes c)) by exact Ho. reflexivity.
  - reflexivity.
Qed.

Lemma parse_opts os rest c err :
  Forall opt_ok os ->
  parse_loop (concat (map opt_args os) ++ rest) c err =
  parse_loop rest (foldl apply_opt c os) err.
Proof.
  revert c. induction os as [|o os IH]; intros c Hos; [done|].
  inversion Hos; subst. cbn [map concat foldl].
  rewrite <- app_assoc, parse_opt by done. by apply IH.
Qed.

(** ** Properties *)

(** C13: a parse that succeeds leaves a configuration that meets every requirement
    of the README's table and writes no diagnostic; a help request writes none
    either; a parse that fails writes a nonempty diagnostic. *)
Theorem parse_outcome argv c err :
  config_typed c ->
  let '(st, c', err') := parseArguments argv c err in
  config_typed c' /\
  match st with
  | Success => config_valid c' /\ err' = err
  | HelpRequested => err' = err
  | Error => exists msg, msg <> EmptyString /\ err' = err +:+ msg
  end.
Proof. apply parse_loop_post. Qed.

Lemma parse_outcome_witness :
  config_typed default_config /\
  parseArguments ["telemetry-server"; "--segment-bytes"; "32"] default_config EmptyString =
    (Error, set_maxSegmentBytes 32 default_config,
     "sync interval cannot exceed segment size" +:+ nl) /\
  exists msg, msg <> EmptyString /\
    "sync interval cannot exceed segment size" +:+ nl = EmptyString +:+ msg.
Proof.
  assert (config_typed default_config) as H
    by (unfold config_typed, is_u; simpl; lia).
  split; [exact H|]. split; [reflexivity|].
  exact (proj2 (parse_outcome ["telemetry-server"; "--segment-bytes"; "32"]
                  default_config EmptyString H)).
Defined.

(** C27: well-formed options may come in any order and be repeated: parsing them
    is applying them from left to right to the configuration, the last of a kind
    winning, then reading on; at the end only the resulting configuration is
    validated, and a help flag stops the parse before validation. *)
Theorem parse_options_fold prog os c err :
  Forall opt_ok os -> config_typed (foldl apply_opt c os) ->
  let args := concat (map opt_args os) in
  let c' := foldl apply_opt c os in
  (config_valid c' -> parseArguments (prog :: args) c err = (Success, c', err)) /\
  (~ config_valid c' -> fst (fst (parseArguments (prog :: args) c err)) = Error) /\
  (forall rest, parseArguments (prog :: args ++ "--help"%string :: rest) c err =
                (HelpRequested, c', err)).
Proof.
  intros Hos Ht args c'. unfold parseArguments. simpl tail.
  assert (parse_loop args c err = parse_loop [] c' err) as ->.
  { unfold args, c'. rewrite <- (parse_opts os []) by done. by rewrite app_nil_r. }
  unfold args. split; [|split].
  - intros Hv. simpl. destruct (validate_spec c' Ht) as [[_ ->]|[Hn _]]; [|done].
    by rewrite string_app_empty.
  - intros Hv. simpl. by destruct (validate_spec c' Ht) as [[? _]|(_ & msg & -> & _)].
  - intros rest. by rewrite parse_opts.
Qed.

Definition sample_opts : list opt :=
  [OSyncBytes 0; OPort 9100; OQuiet; OSegmentBytes 32; OPort 9200].

Lemma parse_options_fold_witness :
  Forall opt_ok sample_opts /\
  parseArguments ("telemetry-server"%string :: concat (map opt_args sample_opts))
    default_config EmptyString =
  (Success, {| port := 9200; dataFilePath := "telemetry.bin"; maxSegmentBytes := 32;
               syncEveryBytes := 0; quiet := true |}, EmptyString).
Proof.
  assert (Forall opt_ok sample_opts) as H
    by (repeat constructor; simpl; unfold is_u; lia).
  assert (config_typed (foldl apply_opt default_config sample_opts)) as Ht
    by (unfold config_typed, is_u; simpl; lia).
  split; [exact H|].
  refine (proj1 (parse_options_fold "telemetry-server"%string sample_opts default_config
                   EmptyString H Ht) _).
  unfold config_valid, kFrameSize. simpl. split_and!; [lia|lia|done|lia|by exists 1|lia].
Defined.

(** C38: round trip: for every valid configuration, the arguments that spell it
    parse back to it from the defaults. *)
Theorem parse_render prog c :
  config_typed c -> config_valid c ->
  parseArguments (prog :: render c) default_config EmptyString = (Success, c, EmptyString).
Proof.
  intros Ht Hv. unfold parseArguments, render. simpl tail.
  set (os := [OPort (port c); ODataFile (dataFilePath c); OSegmentBytes (maxSegmentBytes c);
              OSyncBytes (syncEveryBytes c)] ++ (if quiet c then [OQuiet] else [])).
  match goal with |- parse_loop ?l _ _ = _ =>
    replace l with (concat (map opt_args os) ++ []) by (unfold os; by destruct (quiet c))
  end.
  assert (foldl apply_opt default_config os = c) as Hc
    by (unfold os; destruct c as [p f m s []]; done).
  rewrite parse_opts, Hc.
  - simpl. destruct (validate_spec c Ht) as [[_ ->]|[Hn _]]; done.
  - unfold os. destruct Ht as (? & ? & ?), Hv as (? & ? & _).
    destruct (quiet c); cbn [app]; repeat (apply Forall_cons_2; [done|]); by apply Forall_nil_2.
Qed.

Lemma parse_render_witness :
  config_valid default_config /\
  parseArguments ("telemetry-server"%string :: render default_config)
    default_config EmptyString = (Success, default_config, EmptyString).
Proof.
  assert (config_typed default_config) as Ht
    by (unfold config_typed, is_u; simpl; lia).
  assert (config_valid default_config) as Hv.
  { unfold config_valid, kFrameSize. simpl.
    split_and!; [lia|lia|done|lia|by exists 2097152|lia]. }
  split; [exact Hv | exact (parse_render "telemetry-server" default_config Ht Hv)].
Defined.

(** [parseUnsigned] accepts exactly the nonempty strings of decimal digits
    whose value fits the type, and then stores that value; any other string (a
    sign, a space, a suffix, an overflow) is rejected and nothing is stored. *)
Theorem parseUnsigned_exact w text old :
  parseUnsigned w text old =
    if bool_decide (text <> EmptyString) && all_digits text &&
       (digits_value 0 text <? 2 ^ w)
    then (true, digits_value 0 text) else (false, old).
Proof. rewrite parseUnsigned_spec. unfold whole_number. by destruct (_ && _). Qed.

End Config.
