(* ===== verification/Buffer.v ===== *)
(** * Server/include/Buffer.hpp: a client's input buffer

    Bytes are appended at the end; [offset] counts the consumed prefix, which
    [compact] drops. *)

From S2P Require Import Prelude.

Module Buffer.

Record Buffer := { data : list byte; offset : Z }.

(** [Buffer{}]. *)
Definition new_buffer : Buffer := {| data := []; offset := 0 |}.

Definition empty (b : Buffer) : bool := zlen (data b) <=? offset b.

Definition pendingBytes (b : Buffer) : Z :=
  if empty b then 0 else u64 (zlen (data b) - offset b).

Definition compact (threshold : Z) (b : Buffer) : Buffer :=
  if offset b =? 0 then b
  else if empty b then {| data := []; offset := 0 |}
  else if threshold <=? offset b then {| data := zdrop (offset b) (data b); offset := 0 |}
  else b.

(** The default [threshold]. *)
Definition kCompactThreshold : Z := 4096.

(** [data.insert(data.end(), first, last)], as [Server::readClient] appends. *)
Definition append (bs : list byte) (b : Buffer) : Buffer :=
  {| data := data b ++ bs; offset := offset b |}.

(** [offset += n]. *)
Definition consume (n : Z) (b : Buffer) : Buffer :=
  {| data := data b; offset := u64 (offset b + n) |}.

(** ** What a buffer holds *)

(** The bytes not consumed yet. *)
Definition unread (b : Buffer) : list byte := zdrop (offset b) (data b).

(** The offset is in the data and the data fits a [std::size_t]. *)
Definition buffer_ok (b : Buffer) : Prop := 
  0 <= offset b <= zlen (data b) /\ zlen (data b) < 2 ^ 64.

Lemma new_buffer_ok : buffer_ok new_buffer.
Proof. unfold buffer_ok. simpl. zlen_lia. Qed.

Lemma zlen_unread b : buffer_ok b -> zlen (unread b) = zlen (data b) - offset b.
Proof. unfold buffer_ok, unread. intros. rewrite zlen_drop. lia. Qed.

Lemma pendingBytes_unread b : buffer_ok b -> pendingBytes b = zlen (unread b).
Proof.
  intros H. pose proof (zlen_unread b H). unfold buffer_ok in H.
  unfold pendingBytes, empty. destruct (Z.leb_spec (zlen (data b)) (offset b)); [lia|].
  rewrite u64_small; lia.
Qed.

Lemma unread_append b bs : buffer_ok b -> unread (append bs b) = unread b ++ bs.
Proof. unfold buffer_ok, unread. intros. simpl. apply zdrop_app_le. lia. Qed.

Lemma append_ok b bs : buffer_ok b -> zlen (data b) + zlen bs < 2 ^ 64 -> buffer_ok (append bs b).
Proof. unfold buffer_ok. simpl. intros. zlen_lia. Qed.

Lemma consume_spec b n :
  buffer_ok b -> 0 <= n <= zlen (unread b) ->
  buffer_ok (consume n b) /\ unread (consume n b) = zdrop n (unread b).
Proof.
  intros Hb Hn. rewrite zlen_unread in Hn by done. unfold buffer_ok in *.
  unfold consume, unread. simpl. rewrite u64_small by lia.
  split; [lia|]. rewrite zdrop_zdrop; [done|lia..].
Qed.

Lemma unread_compact b t : buffer_ok b -> unread (compact t b) = unread b.
Proof.
  unfold buffer_ok, compact, empty. intros H.
  destruct (Z.eqb_spec (offset b) 0); [done|].
  destruct (Z.leb_spec (zlen (data b)) (offset b)).
  - unfold unread. simpl. rewrite (zdrop_ge _ (data b)) by lia. done.
  - destruct (Z.leb_spec t (offset b)); [|done]. done.
Qed.

Lemma compact_ok b t : buffer_ok b -> buffer_ok (compact t b).
Proof.
  intros H. unfold compact, empty.
  destruct (Z.eqb_spec (offset b) 0); [done|].
  destruct (Z.leb_spec (zlen (data b)) (offset b)); [apply new_buffer_ok|].
  destruct (Z.leb_spec t (offset b)); [|done].
  unfold buffer_ok in *. simpl. zlen_lia.
Qed.

Lemma compact_offset b t : 0 < t -> offset (compact t b) < t \/ offset (compact t b) < 0.
Proof.
  intros. unfold compact. destruct (Z.eqb_spec (offset b) 0); [left; lia|].
  destruct (empty b); [left; simpl; lia|].
  destruct (Z.leb_spec t (offset b)); simpl; left; lia.
Qed.

(** ** Properties *)

(** C39: [compact] never loses or reorders an unread byte, keeps the buffer well
    formed, and leaves a consumed prefix shorter than the threshold, so that a
    buffer holds at most [threshold - 1] bytes more than it has unread;
    [pendingBytes] is the number of unread bytes before and after. *)
Theorem compact_preserves_unread b t :
  buffer_ok b -> 0 < t ->
  let b' := compact t b in
  buffer_ok b' /\ unread b' = unread b /\
  pendingBytes b' = pendingBytes b /\ pendingBytes b = zlen (unread b) /\
  zlen (data b') < zlen (unread b) + t.
Proof.
  intros H Ht b'. pose proof (compact_ok b t H) as H'.
  pose proof (unread_compact b t H) as Hu.
  split; [done|]. split; [done|].
  rewrite !pendingBytes_unread by done. unfold b'. rewrite Hu.
  split; [done|]. split; [done|].
  rewrite <- Hu. rewrite zlen_unread by done.
  pose proof (compact_offset b t Ht). unfold buffer_ok in H'. lia.
Qed.

Definition sample_buffer : Buffer := {| data := replicate 40 Byte.x2a; offset := 32 |}.

Lemma compact_preserves_unread_witness :
  buffer_ok sample_buffer /\ unread (compact 32 sample_buffer) = replicate 8 Byte.x2a.
Proof.
  assert (buffer_ok sample_buffer) as H by 
    (unfold buffer_ok; vm_compute; split; [split; discriminate | reflexivity]).
  split; [exact H|].
  destruct (compact_preserves_unread sample_buffer 32 H eq_refl) as (_ & Hu & _).
  rewrite Hu. reflexivity.
Defined.

End Buffer.
