(* ===== verification/Ring.v ===== *)
(** * Ipc: the shared ring of frames

    [Ipc/include/SharedRingBuffer.hpp] and [Ipc/src/SharedRingBuffer.cpp], each
    operation as one atomic step; [Spsc.v] runs their loads, copies and stores
    one at a time. *)

From S2P Require Import Prelude Codec.
Import Codec.

Module Ring.

Definition capacityBytes : Z := 4 * 1024 * 1024.
Definition capacityFrames : Z := capacityBytes / kFrameSize.

(** [SharedRingBuffer::Layout]: two free-running counters, the close flag, and
    [std::array<Frame, capacityFrames>] as its bytes. *)
Record Layout := {
  head : Z;
  tail : Z;
  producerClosedFlag : Z;
  slots : bytes;
}.

(** [slots{}]. *)
Definition zero_slots : bytes := replicate (Z.to_nat capacityBytes) Byte.x00.

(** [Layout{}], as [std::construct_at] makes it. *)
Definition new_layout : Layout :=
  {| head := 0; tail := 0; producerClosedFlag := 0;
     slots := zero_slots |}.

(** [sizeof(Layout)]: three cache lines and the slots. *)
Definition sizeof_Layout : Z := 3 * 64 + capacityBytes.

(** [m_layout] is [None] for a null pointer. *)
Record SharedRingBuffer := { m_layout : option Layout; m_mappingSize : Z }.

Definition new_ring : SharedRingBuffer := {| m_layout := None; m_mappingSize := 0 |}.

(** [create]: [mapped] tells whether [mmap] succeeded. *)
Definition create (mapped : bool) (r : SharedRingBuffer) : bool * SharedRingBuffer :=
  match m_layout r with
  | Some _ => (false, r)
  | None =>
      if negb mapped then (false, r)
      else (true, {| m_layout := Some new_layout; m_mappingSize := sizeof_Layout |})
  end.

Definition set_layout (l : Layout) (r : SharedRingBuffer) : SharedRingBuffer :=
  {| m_layout := Some l; m_mappingSize := m_mappingSize r |}.

Definition set_head (h : Z) (l : Layout) : Layout :=
  {| head := h; tail := tail l; producerClosedFlag := producerClosedFlag l; slots := slots l |}.
Definition set_tail (t : Z) (l : Layout) : Layout :=
  {| head := head l; tail := t; producerClosedFlag := producerClosedFlag l; slots := slots l |}.
Definition set_slots (s : bytes) (l : Layout) : Layout :=
  {| head := head l; tail := tail l; producerClosedFlag := producerClosedFlag l; slots := s |}.
Definition set_closed (c : Z) (l : Layout) : Layout :=
  {| head := head l; tail := tail l; producerClosedFlag := c; slots := slots l |}.

Definition producerClosed (r : SharedRingBuffer) : bool :=
  match m_layout r with
  | None => true
  | Some l => negb (producerClosedFlag l =? 0)
  end.

Definition closeProducer (r : SharedRingBuffer) : SharedRingBuffer :=
  match m_layout r with
  | None => r
  | Some l => set_layout (set_closed 1 l) r
  end.

(** [pendingFrames] from the two values it loads. *)
Definition pending_of (head tail : Z) : Z := u64 (head - tail).

Definition pendingFrames (r : SharedRingBuffer) : Z :=
  match m_layout r with
  | None => 0
  | Some l => pending_of (head l) (tail l)
  end.

Definition pendingBytes (r : SharedRingBuffer) : Z := u64 (pendingFrames r * kFrameSize).
Definition empty (r : SharedRingBuffer) : bool := pendingFrames r =? 0.
Definition full (r : SharedRingBuffer) : bool := capacityFrames <=? pendingFrames r.

(** The byte offset of [slots[i]]. *)
Definition slot_offset (i : Z) : Z := i * kFrameSize.

Definition tryPush (frame : bytes) (r : SharedRingBuffer) : bool * SharedRingBuffer :=
  match m_layout r with
  | None => (false, r)
  | Some l =>
      if negb (zlen frame =? kFrameSize) then (false, r)
      else if producerClosed r then (false, r)
      else if capacityFrames <=? u64 (head l - tail l) then (false, r)
      else
        let i := head l mod capacityFrames in
        let l := set_slots (blit (slot_offset i) frame (slots l)) l in
        (true, set_layout (set_head (u64 (head l + 1)) l) r)
  end.

(** [frame] is the destination span; the second result is its new contents. *)
Definition tryPop (frame : bytes) (r : SharedRingBuffer) : bool * bytes * SharedRingBuffer :=
  match m_layout r with
  | None => (false, frame, r)
  | Some l =>
      if negb (zlen frame =? kFrameSize) then (false, frame, r)
      else if tail l =? head l then (false, frame, r)
      else
        let i := tail l mod capacityFrames in
        let frame := zslice (slot_offset i) kFrameSize (slots l) in
        (true, frame, set_layout (set_tail (u64 (tail l + 1)) l) r)
  end.

(** The number of frames [tryPushBatch] takes, from the counters it loads. *)
Definition push_count (head tail size : Z) : Z :=
  let freeFrames := u64 (capacityFrames - u64 (head - tail)) in
  Z.min (size / kFrameSize) freeFrames.

(** The number of frames up to the end of the array. *)
Definition first_part (index count : Z) : Z := Z.min count (capacityFrames - index).

(** The two copies of [tryPushBatch]. *)
Definition push_copy_first (index count : Z) (frames mem : bytes) : bytes :=
  blit (slot_offset index) (ztake (first_part index count * kFrameSize) frames) mem.

Definition push_copy_rest (index count : Z) (frames mem : bytes) : bytes :=
  let first := first_part index count in
  if first =? count then mem
  else blit (slot_offset 0)
         (zslice (first * kFrameSize) ((count - first) * kFrameSize) frames) mem.

(** The number of frames transferred, and the ring. *)
Definition tryPushBatch (frames : bytes) (r : SharedRingBuffer) : Z * SharedRingBuffer :=
  match m_layout r with
  | None => (0, r)
  | Some l =>
      if (zlen frames =? 0) || negb (zlen frames mod kFrameSize =? 0) || producerClosed r
      then (0, r)
      else
        let count := push_count (head l) (tail l) (zlen frames) in
        if count =? 0 then (0, r)
        else
          let index := head l mod capacityFrames in
          let mem := push_copy_first index count frames (slots l) in
          let mem := push_copy_rest index count frames mem in
          let l := set_slots mem l in
          (count, set_layout (set_head (u64 (head l + count)) l) r)
  end.

(** The number of frames [tryPopBatch] takes, from the counters it loads. *)
Definition pop_count (head tail size : Z) : Z :=
  Z.min (size / kFrameSize) (u64 (head - tail)).

(** The two copies of [tryPopBatch], into the destination [out]. *)
Definition pop_copy_first (index count : Z) (mem out : bytes) : bytes :=
  blit 0 (zslice (slot_offset index) (first_part index count * kFrameSize) mem) out.

Definition pop_copy_rest (index count : Z) (mem out : bytes) : bytes :=
  let first := first_part index count in
  if first =? count then out
  else blit (first * kFrameSize)
         (zslice (slot_offset 0) ((count - first) * kFrameSize) mem) out.

(** The number of frames transferred, the destination span, and the ring. *)
Definition tryPopBatch (frames : bytes) (r : SharedRingBuffer) : Z * bytes * SharedRingBuffer :=
  match m_layout r with
  | None => (0, frames, r)
  | Some l =>
      if (zlen frames =? 0) || negb (zlen frames mod kFrameSize =? 0) then (0, frames, r)
      else
        let count := pop_count (head l) (tail l) (zlen frames) in
        if count =? 0 then (0, frames, r)
        else
          let index := tail l mod capacityFrames in
          let out := pop_copy_first index count (slots l) frames in
          let out := pop_copy_rest index count (slots l) out in
          (count, out, set_layout (set_tail (u64 (tail l + count)) l) r)
  end.

(** ** What the slots hold *)

(** The frame in the slot of counter value [i]. *)
Definition slot_frame (mem : bytes) (i : Z) : bytes :=
  zslice (slot_offset (i mod capacityFrames)) kFrameSize mem.

(** The [n] frames from counter value [i] on. *)
Fixpoint ring_read (mem : bytes) (i : Z) (n : nat) : bytes :=
  match n with
  | O => []
  | S n => slot_frame mem i ++ ring_read mem (i + 1) n
  end.

(** The slots after a push of [count] frames at counter value [i]. *)
Definition pushed (i count : Z) (frames mem : bytes) : bytes :=
  let index := i mod capacityFrames in
  push_copy_rest index count frames (push_copy_first index count frames mem).

(** The queued bytes, oldest first. *)
Definition contents (l : Layout) : bytes :=
  ring_read (slots l) (tail l) (Z.to_nat (pending_of (head l) (tail l))).

Definition layout_ok (l : Layout) : Prop :=
  is_u 64 (head l) /\ is_u 64 (tail l) /\
  pending_of (head l) (tail l) <= capacityFrames /\ zlen (slots l) = capacityBytes.

(** ** The abstract queue *)

(** A bounded queue of bytes in whole frames, which can be closed. *)
Record Queue := { queued : bytes; closed : bool }.

(** Put as many whole frames of [frames] as fit. *)
Definition queue_push (frames : bytes) (q : Queue) : Z * Queue :=
  if closed q || (zlen frames =? 0) || negb (zlen frames mod kFrameSize =? 0) then (0, q)
  else
    let n := (Z.min (zlen frames) (capacityBytes - zlen (queued q))) / kFrameSize in
    (n, {| queued := queued q ++ ztake (n * kFrameSize) frames; closed := closed q |}).

(** Take as many frames as fit in [size] bytes. *)
Definition queue_pop (size : Z) (q : Queue) : Z * bytes * Queue :=
  if (size =? 0) || negb (size mod kFrameSize =? 0) then (0, [], q)
  else
    let n := (Z.min size (zlen (queued q))) / kFrameSize in
    (n, ztake (n * kFrameSize) (queued q),
     {| queued := zdrop (n * kFrameSize) (queued q); closed := closed q |}).

(** The queue a ring implements. *)
Definition abs (l : Layout) : Queue :=
  {| queued := contents l; closed := negb (producerClosedFlag l =? 0) |}.

(** A ring implements the queue [q]; a ring without a mapping is a closed, empty
    queue. *)
Definition ring_rep (r : SharedRingBuffer) (q : Queue) : Prop :=
  match m_layout r with
  | Some l => layout_ok l /\ abs l = q
  | None => q = {| queued := []; closed := true |}
  end.

(** ** Sessions: sequences of calls and their results *)

Inductive op :=
| OPush (frame : bytes)
| OPop (dest : bytes)
| OPushBatch (frames : bytes)
| OPopBatch (dest : bytes)
| OClose
| OPendingFrames
| OPendingBytes
| OEmpty
| OFull
| OProducerClosed.

(** Spans fit the address space. *)
Definition op_ok (o : op) : Prop :=
  match o with
  | OPush b | OPop b | OPushBatch b | OPopBatch b => zlen b < 2 ^ 64
  | _ => True
  end.

(** The value a call returns (a [bool] as 0 or 1), its destination span after
    the call, and the ring. *)
Definition ring_step (o : op) (r : SharedRingBuffer) : Z * bytes * SharedRingBuffer :=
  match o with
  | OPush frame => let '(b, r) := tryPush frame r in (Z.b2z b, [], r)
  | OPop dest => let '(b, out, r) := tryPop dest r in (Z.b2z b, out, r)
  | OPushBatch frames => let '(n, r) := tryPushBatch frames r in (n, [], r)
  | OPopBatch dest => tryPopBatch dest r
  | OClose => (0, [], closeProducer r)
  | OPendingFrames => (pendingFrames r, [], r)
  | OPendingBytes => (pendingBytes r, [], r)
  | OEmpty => (Z.b2z (empty r), [], r)
  | OFull => (Z.b2z (full r), [], r)
  | OProducerClosed => (Z.b2z (producerClosed r), [], r)
  end.

Definition queue_pop_to (dest : bytes) (q : Queue) : Z * bytes * Queue :=
  let '(n, popped, q) := queue_pop (zlen dest) q in
  (n, popped ++ zdrop (n * kFrameSize) dest, q).

Definition queue_step (o : op) (q : Queue) : Z * bytes * Queue :=
  match o with
  | OPush frame =>
      if zlen frame =? kFrameSize then let '(n, q) := queue_push frame q in (n, [], q)
      else (0, [], q)
  | OPop dest => if zlen dest =? kFrameSize then queue_pop_to dest q else (0, dest, q)
  | OPushBatch frames => let '(n, q) := queue_push frames q in (n, [], q)
  | OPopBatch dest => queue_pop_to dest q
  | OClose => (0, [], {| queued := queued q; closed := true |})
  | OPendingFrames => (zlen (queued q) / kFrameSize, [], q)
  | OPendingBytes => (zlen (queued q), [], q)
  | OEmpty => (Z.b2z (zlen (queued q) =? 0), [], q)
  | OFull => (Z.b2z (capacityBytes <=? zlen (queued q)), [], q)
  | OProducerClosed => (Z.b2z (closed q), [], q)
  end.

(** Run a session and collect the results. *)
Fixpoint run {St} (step : op -> St -> Z * bytes * St) (ops : list op) (s : St)
  : list (Z * bytes) * St :=
  match ops with
  | [] => ([], s)
  | o :: ops =>
      let '(n, out, s) := step o s in
      let '(rs, s) := run step ops s in ((n, out) :: rs, s)
  end.

(** The bytes a session put in and took out, from its calls and results. *)
Definition accepted (o : op) (res : Z * bytes) : bytes :=
  match o with
  | OPush b | OPushBatch b => ztake (fst res * kFrameSize) b
  | _ => []
  end.

Definition delivered (o : op) (res : Z * bytes) : bytes :=
  match o with
  | OPop _ | OPopBatch _ => ztake (fst res * kFrameSize) (snd res)
  | _ => []
  end.

Definition all_of (f : op -> Z * bytes -> bytes) (ops : list op) (rs : list (Z * bytes)) : bytes :=
  concat (zip_with f ops rs).

(** ** Lemmas *)

Lemma capacityFrames_val : capacityFrames = 131072.
Proof. reflexivity. Qed.

Lemma capacityBytes_frames : capacityBytes = capacityFrames * kFrameSize.
Proof. reflexivity. Qed.

(** The slot of a counter does not see the counter wrap: the capacity divides
    [2 ^ 64]. *)
Lemma u64_mod_capacity i : u64 i mod capacityFrames = i mod capacityFrames.
Proof.
  unfold u64, uwrap. apply Z.mod_mod_divide. by exists (2 ^ 47).
Qed.

Lemma pending_of_range h t : 0 <= pending_of h t < 2 ^ 64.
Proof. apply u64_range. Qed.

Lemma slot_frame_mod mem i j :
  i mod capacityFrames = j mod capacityFrames -> slot_frame mem i = slot_frame mem j.
Proof. unfold slot_frame. by intros ->. Qed.

Lemma ring_read_mod mem i j n :
  i mod capacityFrames = j mod capacityFrames -> ring_read mem i n = ring_read mem j n.
Proof.
  revert i j. induction n as [|n IH]; intros i j H; [done|]. simpl.
  rewrite (slot_frame_mod mem i j H). f_equal. apply IH.
  by rewrite <- (Zplus_mod_idemp_l i), H, Zplus_mod_idemp_l.
Qed.

Lemma ring_read_app mem i a b :
  ring_read mem i (a + b) = ring_read mem i a ++ ring_read mem (i + Z.of_nat a) b.
Proof.
  revert i. induction a as [|a IH]; intros i; simpl; [by rewrite Z.add_0_r|].
  rewrite IH, app_assoc. do 2 f_equal. lia.
Qed.

(** Ranges of slots, in bytes. *)
Ltac slots_lia :=
  unfold slot_offset, first_part in *; rewrite ?capacityBytes_frames in *;
  rewrite ?capacityFrames_val in *; unfold kFrameSize in *; lia.

Lemma zlen_slot_frame mem i : zlen mem = capacityBytes -> zlen (slot_frame mem i) = kFrameSize.
Proof.
  intros H. unfold slot_frame.
  pose proof (Z.mod_pos_bound i capacityFrames ltac:(done)).
  apply zlen_slice; slots_lia.
Qed.

Lemma zlen_ring_read mem i n :
  zlen mem = capacityBytes -> zlen (ring_read mem i n) = Z.of_nat n * kFrameSize.
Proof.
  intros H. revert i. induction n as [|n IH]; intros i; [done|]. simpl.
  rewrite zlen_app, zlen_slot_frame, IH by done. slots_lia.
Qed.

(** Slots that do not wrap are contiguous. *)
Lemma ring_read_contiguous mem i n :
  0 <= i -> i + Z.of_nat n <= capacityFrames ->
  ring_read mem i n = zslice (slot_offset i) (Z.of_nat n * kFrameSize) mem.
Proof.
  revert i. induction n as [|n IH]; intros i Hi Hn.
  { unfold zslice. by rewrite ztake_nonpos. }
  simpl ring_read. rewrite IH by lia.
  unfold slot_frame. rewrite (Z.mod_small i) by lia.
  replace (Z.of_nat (S n) * kFrameSize) with (kFrameSize + Z.of_nat n * kFrameSize)
    by slots_lia.
  rewrite zslice_add by slots_lia. do 2 f_equal. slots_lia.
Qed.

Lemma first_part_bounds i count :
  0 <= count <= capacityFrames ->
  let index := i mod capacityFrames in
  let first := first_part index count in
  0 <= index < capacityFrames /\ 0 <= first <= count /\
  index + first <= capacityFrames /\ count - first <= index /\
  (first = count \/ index + first = capacityFrames).
Proof.
  intros Hc. cbv zeta. pose proof (Z.mod_pos_bound i capacityFrames ltac:(done)). slots_lia.
Qed.

(** Reading [count] frames is at most two copies. *)
Lemma ring_read_split mem i count :
  0 <= count <= capacityFrames ->
  let index := i mod capacityFrames in
  let first := first_part index count in
  ring_read mem i (Z.to_nat count) =
    zslice (slot_offset index) (first * kFrameSize) mem ++
    zslice (slot_offset 0) ((count - first) * kFrameSize) mem.
Proof.
  intros Hc index first. destruct (first_part_bounds i count Hc) as (Hi & Hf & Hw & _ & Hor).
  fold index first in Hi, Hf, Hw, Hor.
  replace (Z.to_nat count) with (Z.to_nat first + Z.to_nat (count - first))%nat by lia.
  rewrite ring_read_app, Z2Nat.id by lia. f_equal.
  - rewrite (ring_read_mod mem i index) by (unfold index; by rewrite Z.mod_mod).
    rewrite ring_read_contiguous by lia. by rewrite Z2Nat.id by lia.
  - destruct Hor as [->|Hw'].
    { rewrite Z.sub_diag. unfold zslice. by rewrite ztake_nonpos. }
    rewrite (ring_read_mod mem _ 0).
    + rewrite ring_read_contiguous by lia. by rewrite Z2Nat.id by lia.
    + rewrite <- Zplus_mod_idemp_l. fold index. by rewrite Hw', Z.mod_same.
Qed.

(** Lengths of the two copies of a push, and that they stay in the array. *)
Lemma push_copy_lengths i count frames mem :
  0 <= count <= capacityFrames -> count * kFrameSize <= zlen frames ->
  zlen mem = capacityBytes ->
  let index := i mod capacityFrames in
  let first := first_part index count in
  zlen (ztake (first * kFrameSize) frames) = first * kFrameSize /\
  zlen (zslice (first * kFrameSize) ((count - first) * kFrameSize) frames) =
    (count - first) * kFrameSize /\
  zlen (push_copy_first index count frames mem) = capacityBytes.
Proof.
  intros Hc Hf Hm index first.
  destruct (first_part_bounds i count Hc) as (Hi & Hfi & Hw & _ & _).
  fold index first in Hi, Hfi, Hw.
  assert (zlen (ztake (first * kFrameSize) frames) = first * kFrameSize) as E
    by (rewrite zlen_take; slots_lia).
  split; [done|]. split; [apply zlen_slice; slots_lia|].
  unfold push_copy_first. fold first. rewrite zlen_blit; [done|slots_lia|].
  rewrite E, Hm. slots_lia.
Qed.

Lemma zlen_pushed i count frames mem :
  0 <= count <= capacityFrames -> count * kFrameSize <= zlen frames ->
  zlen mem = capacityBytes -> zlen (pushed i count frames mem) = capacityBytes.
Proof.
  intros Hc Hf Hm. destruct (push_copy_lengths i count frames mem Hc Hf Hm) as (_ & E2 & E3).
  destruct (first_part_bounds i count Hc) as (Hi & Hfi & Hw & Hr & _).
  unfold pushed, push_copy_rest.
  destruct (Z.eqb_spec (first_part (i mod capacityFrames) count) count); [done|].
  rewrite zlen_blit; [done|slots_lia|]. rewrite E2, E3. slots_lia.
Qed.

(** A range of slots that neither copy touches. *)
Lemma pushed_out i count frames mem a n :
  0 <= count <= capacityFrames -> count * kFrameSize <= zlen frames ->
  zlen mem = capacityBytes ->
  let index := i mod capacityFrames in
  let first := first_part index count in
  0 <= a -> 0 <= n -> a + n <= capacityFrames ->
  a + n <= index \/ index + first <= a -> count - first <= a \/ n = 0 ->
  zslice (slot_offset a) (n * kFrameSize) (pushed i count frames mem) =
  zslice (slot_offset a) (n * kFrameSize) mem.
Proof.
  intros Hc Hf Hm index first Ha Hn Hb Hout Hrest.
  destruct (push_copy_lengths i count frames mem Hc Hf Hm) as (E1 & E2 & E3).
  destruct (first_part_bounds i count Hc) as (Hi & Hfi & Hw & Hr & _).
  fold index first in E1, E2, E3, Hi, Hfi, Hw, Hr.
  destruct Hrest as [Hrest| ->]; [|unfold zslice; by rewrite !ztake_nonpos].
  assert (zslice (slot_offset a) (n * kFrameSize) (push_copy_first index count frames mem) =
          zslice (slot_offset a) (n * kFrameSize) mem) as Hfirst.
  { unfold push_copy_first. fold first.
    apply zslice_blit_out; rewrite ?E1, ?Hm; slots_lia. }
  unfold pushed. fold index. unfold push_copy_rest. fold first.
  destruct (Z.eqb_spec first count); [done|]. rewrite <- Hfirst.
  apply zslice_blit_out; rewrite ?E2, ?E3; slots_lia.
Qed.

(** The frames just pushed are read back. *)
Lemma ring_read_pushed i count frames mem :
  0 <= count <= capacityFrames -> count * kFrameSize <= zlen frames ->
  zlen mem = capacityBytes ->
  ring_read (pushed i count frames mem) i (Z.to_nat count) = ztake (count * kFrameSize) frames.
Proof.
  intros Hc Hf Hm. destruct (push_copy_lengths i count frames mem Hc Hf Hm) as (E1 & E2 & E3).
  destruct (first_part_bounds i count Hc) as (Hi & Hfi & Hw & Hr & _).
  rewrite ring_read_split by done.
  set (index := i mod capacityFrames) in *. set (first := first_part index count) in *.
  assert (zslice (slot_offset index) (first * kFrameSize)
            (push_copy_first index count frames mem) = ztake (first * kFrameSize) frames) as Hfst.
  { unfold push_copy_first. fold first.
    replace (slot_offset index) with (slot_offset index + 0) at 1 by lia.
    rewrite zslice_blit_in; rewrite ?E1, ?Hm; try slots_lia.
    rewrite <- E1 at 1. apply zslice_all. }
  replace (count * kFrameSize) with (first * kFrameSize + (count - first) * kFrameSize) by slots_lia.
  rewrite ztake_add by slots_lia. unfold pushed. fold index. unfold push_copy_rest. fold first.
  destruct (Z.eqb_spec first count) as [E|E]; f_equal.
  - done.
  - rewrite E, Z.sub_diag. unfold zslice. by rewrite !ztake_nonpos.
  - rewrite zslice_blit_out; [done|..]; rewrite ?E2, ?E3; slots_lia.
  - replace (slot_offset 0) with (slot_offset 0 + 0) at 1 by lia.
    rewrite zslice_blit_in; rewrite ?E2, ?E3; try slots_lia.
    rewrite <- E2 at 1. apply zslice_all.
Qed.

(** The frames already in the ring are not touched by a push. *)
Lemma slot_frame_pushed i count frames mem j :
  0 <= count -> count * kFrameSize <= zlen frames -> zlen mem = capacityBytes ->
  i + count - capacityFrames <= j < i ->
  slot_frame (pushed i count frames mem) j = slot_frame mem j.
Proof.
  intros Hc Hf Hm Hj. unfold slot_frame.
  replace kFrameSize with (1 * kFrameSize) by lia.
  pose proof (Z.div_mod i capacityFrames ltac:(done)) as Di.
  pose proof (Z.div_mod j capacityFrames ltac:(done)) as Dj.
  pose proof (Z.mod_pos_bound i capacityFrames ltac:(done)).
  pose proof (Z.mod_pos_bound j capacityFrames ltac:(done)).
  apply pushed_out; try done; slots_lia.
Qed.

Lemma ring_read_pushed_before i count frames mem j n :
  0 <= count -> count * kFrameSize <= zlen frames -> zlen mem = capacityBytes ->
  i + count - capacityFrames <= j -> j + Z.of_nat n <= i ->
  ring_read (pushed i count frames mem) j n = ring_read mem j n.
Proof.
  intros Hc Hf Hm. revert j. induction n as [|n IH]; intros j Hj Hn; [done|]. simpl.
  rewrite slot_frame_pushed by lia. f_equal. apply IH; lia.
Qed.

(** The destination of a pop of [count] frames from counter value [i]. *)
Lemma pop_copies i count mem out :
  0 <= count <= capacityFrames -> count * kFrameSize <= zlen out ->
  zlen mem = capacityBytes ->
  let index := i mod capacityFrames in
  pop_copy_rest index count mem (pop_copy_first index count mem out) =
  ring_read mem i (Z.to_nat count) ++ zdrop (count * kFrameSize) out.
Proof.
  intros Hc Ho Hm index. destruct (first_part_bounds i count Hc) as (Hi & Hfi & Hw & Hr & Hor).
  fold index in Hi, Hfi, Hw, Hr, Hor.
  rewrite ring_read_split by done. fold index.
  unfold pop_copy_rest, pop_copy_first. set (first := first_part index count) in *.
  assert (zlen (zslice (slot_offset index) (first * kFrameSize) mem) = first * kFrameSize) as E1
    by (apply zlen_slice; slots_lia).
  assert (zlen (zslice (slot_offset 0) ((count - first) * kFrameSize) mem) =
          (count - first) * kFrameSize) as E2 by (apply zlen_slice; slots_lia).
  rewrite blit_zero, E1. destruct (Z.eqb_spec first count) as [E|E].
  - rewrite E, Z.sub_diag.
    replace (zslice (slot_offset 0) (0 * kFrameSize) mem) with (@nil byte)
      by (unfold zslice; by rewrite ztake_nonpos).
    by rewrite app_nil_r.
  - unfold blit. rewrite E2, ztake_app_le, ztake_ge by lia.
    rewrite <- app_assoc. do 2 f_equal. rewrite zdrop_app_ge, E1 by slots_lia.
    rewrite zdrop_zdrop by slots_lia. f_equal. slots_lia.
Qed.

(** ** The operations implement the queue's *)

Lemma zlen_contents l :
  zlen (slots l) = capacityBytes ->
  zlen (contents l) = pending_of (head l) (tail l) * kFrameSize.
Proof.
  intros H. unfold contents. rewrite zlen_ring_read by done.
  pose proof (pending_of_range (head l) (tail l)). by rewrite Z2Nat.id by lia.
Qed.

(** The producer's counter is the consumer's plus what is pending. *)
Lemma head_from_tail h t :
  is_u 64 h -> h = u64 (t + pending_of h t).
Proof.
  intros H. unfold pending_of. rewrite Z.add_comm, u64_add_wrap.
  replace (h - t + t) with h by lia. symmetry. by apply u64_small.
Qed.

Lemma pending_of_push h t n :
  0 <= n -> pending_of h t + n < 2 ^ 64 -> pending_of (u64 (h + n)) t = pending_of h t + n.
Proof.
  intros Hn Hb. pose proof (pending_of_range h t). unfold pending_of in *.
  replace (u64 (u64 (h + n) - t)) with (u64 (u64 (h - t) + n)).
  - apply u64_small. lia.
  - rewrite u64_add_wrap. unfold u64, uwrap. rewrite Zminus_mod_idemp_l. f_equal. lia.
Qed.

Lemma pending_of_pop h t n :
  0 <= n <= pending_of h t -> pending_of h (u64 (t + n)) = pending_of h t - n.
Proof.
  intros Hn. pose proof (pending_of_range h t). unfold pending_of in *.
  replace (u64 (h - u64 (t + n))) with (u64 (u64 (h - t) - n)).
  - apply u64_small. lia.
  - unfold u64, uwrap. rewrite Zminus_mod_idemp_l, Zminus_mod_idemp_r. f_equal. lia.
Qed.

(** Publishing [n] more frames. *)
Lemma push_layout l n frames c :
  layout_ok l -> c = producerClosedFlag l ->
  0 <= n -> pending_of (head l) (tail l) + n <= capacityFrames ->
  n * kFrameSize <= zlen frames ->
  let l' := {| head := u64 (head l + n); tail := tail l; producerClosedFlag := c;
               slots := pushed (head l) n frames (slots l) |} in
  layout_ok l' /\ contents l' = contents l ++ ztake (n * kFrameSize) frames.
Proof.
  intros (Hh & Ht & Hp & Hs) Hc Hn Hb Hf l'.
  pose proof (pending_of_range (head l) (tail l)) as Hr.
  assert (pending_of (u64 (head l + n)) (tail l) = pending_of (head l) (tail l) + n) as E
    by (apply pending_of_push; slots_lia).
  split.
  - unfold layout_ok, l'. simpl. rewrite E, zlen_pushed by lia. split_and!; try done.
    apply uwrap_range. lia.
  - unfold contents, l'. simpl. rewrite E.
    set (p := pending_of (head l) (tail l)) in *.
    replace (Z.to_nat (p + n)) with (Z.to_nat p + Z.to_nat n)%nat by lia.
    assert (head l mod capacityFrames = (tail l + p) mod capacityFrames) as Hm.
    { rewrite (head_from_tail (head l) (tail l) Hh) at 1. apply u64_mod_capacity. }
    assert (pushed (head l) n frames (slots l) = pushed (tail l + p) n frames (slots l)) as ->
      by (unfold pushed; by rewrite Hm).
    rewrite ring_read_app, Z2Nat.id by lia. f_equal.
    + apply ring_read_pushed_before; lia.
    + apply ring_read_pushed; lia.
Qed.

(** Releasing the [n] oldest frames. *)
Lemma pop_layout l n :
  layout_ok l -> 0 <= n <= pending_of (head l) (tail l) ->
  let l' := set_tail (u64 (tail l + n)) l in
  layout_ok l' /\ contents l = ring_read (slots l) (tail l) (Z.to_nat n) ++ contents l' /\
  zlen (ring_read (slots l) (tail l) (Z.to_nat n)) = n * kFrameSize.
Proof.
  intros (Hh & Ht & Hp & Hs) Hn l'.
  pose proof (pending_of_pop (head l) (tail l) n Hn) as E.
  split; [|split].
  - unfold layout_ok, l'. simpl. rewrite E. split_and!; try done; try lia.
    apply uwrap_range. lia.
  - unfold contents, l'. simpl. rewrite E.
    replace (Z.to_nat (pending_of (head l) (tail l)))
      with (Z.to_nat n + Z.to_nat (pending_of (head l) (tail l) - n))%nat by lia.
    rewrite ring_read_app, Z2Nat.id by lia. f_equal.
    apply ring_read_mod. symmetry. apply u64_mod_capacity.
  - rewrite zlen_ring_read by done. by rewrite Z2Nat.id by lia.
Qed.

(** A refused transfer leaves the ring and the queue as they are. *)
Ltac no_transfer l El :=
  cbn [negb orb]; rewrite ?orb_true_r; exists (abs l); rewrite El; by split_and!.

Lemma pushBatch_refines r q frames :
  ring_rep r q -> zlen frames < 2 ^ 64 ->
  let '(n, r') := tryPushBatch frames r in
  exists q', queue_push frames q = (n, q') /\ ring_rep r' q'.
Proof.
  unfold ring_rep, tryPushBatch, producerClosed.
  destruct (m_layout r) as [l|] eqn:El; [|intros -> _; exists {| queued := []; closed := true |};
    by rewrite El].
  intros [Hl <-] Hlen. pose proof Hl as (Hh & Ht & Hp & Hs).
  pose proof (zlen_nonneg frames). pose proof (pending_of_range (head l) (tail l)).
  unfold queue_push. change (queued (abs l)) with (contents l).
  change (closed (abs l)) with (negb (producerClosedFlag l =? 0)).
  rewrite (zlen_contents l Hs).
  destruct (Z.eqb_spec (zlen frames) 0) as [E0|E0]; 
    [no_transfer l El|].
  destruct (Z.eqb_spec (zlen frames mod kFrameSize) 0) as [Em|Em];
    [|no_transfer l El].
  destruct (Z.eqb_spec (producerClosedFlag l) 0) as [Ec|Ec]; cbn [negb orb];
    [|no_transfer l El].
  set (n := push_count (head l) (tail l) (zlen frames)).
  assert (n = Z.min (zlen frames) (capacityBytes - pending_of (head l) (tail l) * kFrameSize)
              / kFrameSize) as Hn.
  { unfold n, push_count. fold (pending_of (head l) (tail l)).
    rewrite u64_small by slots_lia. clear n. unfold kFrameSize in *.
    rewrite capacityBytes_frames in *. rewrite capacityFrames_val in *. unfold kFrameSize.
    div_lia. }
  rewrite <- Hn.
  assert (0 <= n /\ n * kFrameSize <= zlen frames /\
          pending_of (head l) (tail l) + n <= capacityFrames) as (Hn0 & Hnf & Hnc).
  { rewrite Hn. clear Hn n. unfold kFrameSize in *.
    rewrite capacityBytes_frames in *. rewrite capacityFrames_val in *. unfold kFrameSize.
    div_lia. }
  destruct (push_layout l n frames (producerClosedFlag l) Hl eq_refl Hn0 Hnc Hnf) as [Hl' Hc'].
  destruct (Z.eqb_spec n 0) as [En|En]; eexists; split.
  - rewrite En. reflexivity.
  - rewrite El. split; [done|]. unfold abs. rewrite Ec.
    by rewrite (ztake_nonpos (0 * kFrameSize)), app_nil_r by lia.
  - reflexivity.
  - simpl. split; [exact Hl'|]. unfold abs. simpl. rewrite <- Hc'. by rewrite Ec.
Qed.

Ltac no_pop El Hd0 :=
  eexists _, _; rewrite El; split_and!; first [reflexivity | done | by rewrite Hd0].

Lemma popBatch_refines r q out :
  ring_rep r q -> zlen out < 2 ^ 64 ->
  let '(n, out', r') := tryPopBatch out r in
  exists popped q', queue_pop (zlen out) q = (n, popped, q') /\ ring_rep r' q' /\
    out' = popped ++ zdrop (n * kFrameSize) out.
Proof.
  unfold ring_rep, tryPopBatch, queue_pop. pose proof (zlen_nonneg out) as Hlen0.
  assert (zdrop (0 * kFrameSize) out = out) as Hd0 by (by apply zdrop_nonpos).
  destruct (m_layout r) as [l|] eqn:El.
  2: { intros -> _. cbn [queued closed].
       change (zlen (@nil byte)) with 0. rewrite Z.min_r by done.
       change (0 / kFrameSize) with 0.
       destruct ((zlen out =? 0) || negb (zlen out mod kFrameSize =? 0));
         no_pop El Hd0. }
  intros [Hl <-] Hlen. pose proof Hl as (Hh & Ht & Hp & Hs).
  pose proof (pending_of_range (head l) (tail l)).
  change (queued (abs l)) with (contents l). rewrite (zlen_contents l Hs).
  destruct (Z.eqb_spec (zlen out) 0) as [E0|E0]; cbn [orb].
  { no_pop El Hd0. }
  destruct (Z.eqb_spec (zlen out mod kFrameSize) 0) as [Em|Em]; cbn [negb].
  2: { no_pop El Hd0. }
  set (n := pop_count (head l) (tail l) (zlen out)).
  assert (n = Z.min (zlen out) (pending_of (head l) (tail l) * kFrameSize) / kFrameSize) as Hn.
  { unfold n, pop_count. fold (pending_of (head l) (tail l)). clear n.
    unfold kFrameSize in *. div_lia. }
  rewrite <- Hn.
  assert (0 <= n <= pending_of (head l) (tail l) /\ n * kFrameSize <= zlen out) as (Hn0 & Hno).
  { rewrite Hn. clear Hn n. unfold kFrameSize in *. div_lia. }
  destruct (pop_layout l n Hl Hn0) as (Hl' & Hc' & Hzl).
  assert (ztake (n * kFrameSize) (contents l) = ring_read (slots l) (tail l) (Z.to_nat n)) as Ht'
    by (rewrite Hc', <- Hzl, ztake_app_le by lia; by apply ztake_ge).
  assert (zdrop (n * kFrameSize) (contents l) = contents (set_tail (u64 (tail l + n)) l)) as Hd'.
  { rewrite Hc', <- Hzl, zdrop_app_ge by lia. by rewrite Z.sub_diag, zdrop_nonpos. }
  rewrite Ht', Hd'. destruct (Z.eqb_spec n 0) as [En|En]; eexists _, _; split.
  - rewrite En. reflexivity.
  - rewrite El, Z.add_0_r, u64_small by done. split; [|by rewrite Hd0].
    split; [done|]. by destruct l.
  - reflexivity.
  - simpl. split; [by split|]. apply pop_copies; try done. lia.
Qed.

(** The single-frame operations are batches of one frame. *)
Lemma tryPush_batch r q frame :
  ring_rep r q -> zlen frame = kFrameSize ->
  tryPush frame r = (bool_decide (fst (tryPushBatch frame r) = 1), snd (tryPushBatch frame r)).
Proof.
  unfold ring_rep, tryPush, tryPushBatch. intros Hr Hf.
  destruct (m_layout r) as [l|]; [|done]. rewrite Hf.
  change (kFrameSize =? kFrameSize) with true. change (kFrameSize =? 0) with false.
  change (kFrameSize mod kFrameSize =? 0) with true. cbn [negb orb].
  destruct (producerClosed r); [done|].
  destruct Hr as [(Hh & Ht & Hp & Hs) _]. fold (pending_of (head l) (tail l)).
  pose proof (pending_of_range (head l) (tail l)).
  set (n := push_count (head l) (tail l) kFrameSize).
  assert (n = if capacityFrames <=? pending_of (head l) (tail l) then 0 else 1) as Hn.
  { unfold n, push_count. fold (pending_of (head l) (tail l)).
    rewrite u64_small by slots_lia. change (kFrameSize / kFrameSize) with 1.
    destruct (Z.leb_spec capacityFrames (pending_of (head l) (tail l))); slots_lia. }
  rewrite Hn. destruct (capacityFrames <=? pending_of (head l) (tail l)); [done|].
  cbn [Z.eqb fst snd]. rewrite bool_decide_eq_true_2 by done. do 2 f_equal.
  pose proof (Z.mod_pos_bound (head l) capacityFrames ltac:(done)).
  assert (first_part (head l mod capacityFrames) 1 = 1) as Hfp by slots_lia.
  unfold push_copy_rest, push_copy_first. rewrite Hfp.
  change (1 =? 1) with true. cbn iota. by rewrite ztake_ge by slots_lia.
Qed.

Lemma tryPop_batch r q dest :
  ring_rep r q -> zlen dest = kFrameSize ->
  tryPop dest r =
    (bool_decide (fst (fst (tryPopBatch dest r)) = 1), snd (fst (tryPopBatch dest r)),
     snd (tryPopBatch dest r)).
Proof.
  unfold ring_rep, tryPop, tryPopBatch. intros Hr Hf.
  destruct (m_layout r) as [l|]; [|done]. rewrite Hf.
  change (kFrameSize =? kFrameSize) with true. change (kFrameSize =? 0) with false.
  change (kFrameSize mod kFrameSize =? 0) with true. cbn [negb orb].
  destruct Hr as [(Hh & Ht & Hp & Hs) _].
  pose proof (pending_of_range (head l) (tail l)).
  set (n := pop_count (head l) (tail l) kFrameSize).
  assert (n = if tail l =? head l then 0 else 1) as Hn.
  { unfold n, pop_count. fold (pending_of (head l) (tail l)).
    change (kFrameSize / kFrameSize) with 1.
    destruct (Z.eqb_spec (tail l) (head l)) as [E|E].
    - unfold pending_of. rewrite E, Z.sub_diag. done.
    - assert (pending_of (head l) (tail l) <> 0); [|lia]. intros E0.
      pose proof (head_from_tail _ (tail l) Hh) as Eh. rewrite E0, Z.add_0_r in Eh.
      rewrite u64_small in Eh by done. done. }
  rewrite Hn. destruct (tail l =? head l); [done|].
  cbn [Z.eqb fst snd]. rewrite bool_decide_eq_true_2 by done. do 2 f_equal.
  rewrite pop_copies by (done || slots_lia).
  rewrite zdrop_ge by slots_lia. rewrite app_nil_r. change (Z.to_nat 1) with 1%nat.
  simpl. by rewrite app_nil_r.
Qed.

Lemma pendingFrames_rep r q :
  ring_rep r q -> pendingFrames r * kFrameSize = zlen (queued q) /\
                  0 <= pendingFrames r <= capacityFrames.
Proof.
  unfold ring_rep, pendingFrames. destruct (m_layout r) as [l|]; [|intros ->; done].
  intros [(Hh & Ht & Hp & Hs) <-]. simpl. rewrite zlen_contents by done.
  pose proof (pending_of_range (head l) (tail l)). split; [done | lia].
Qed.

Lemma producerClosed_rep r q : ring_rep r q -> producerClosed r = closed q.
Proof.
  unfold ring_rep, producerClosed. destruct (m_layout r); [|by intros ->]. by intros [_ <-].
Qed.

Lemma closeProducer_rep r q :
  ring_rep r q -> ring_rep (closeProducer r) {| queued := queued q; closed := true |}.
Proof.
  unfold ring_rep, closeProducer. destruct (m_layout r) as [l|] eqn:El.
  - intros [Hl <-]. simpl. by split.
  - intros ->. by rewrite El.
Qed.

Lemma zlen_zero_slots : zlen zero_slots = capacityBytes.
Proof. unfold zlen, zero_slots. rewrite length_replicate. by apply Z2Nat.id. Qed.

#[global] Opaque zero_slots.

Lemma new_layout_ok : layout_ok new_layout.
Proof.
  unfold layout_ok, new_layout, is_u. cbn [head tail slots].
  rewrite zlen_zero_slots. split_and!; [lia|lia|lia|lia|done|done].
Qed.

Lemma create_rep : ring_rep (snd (create true new_ring)) {| queued := []; closed := false |}.
Proof.
  unfold ring_rep, create, new_ring. cbn [m_layout negb snd].
  split; [apply new_layout_ok|]. unfold abs, contents, new_layout.
  cbn [head tail slots producerClosedFlag].
  change (Z.to_nat (pending_of 0 0)) with O. done.
Qed.

Lemma queue_push_frame q frame n q' :
  zlen frame = kFrameSize -> queue_push frame q = (n, q') -> zlen (queued q) <= capacityBytes ->
  n = 0 \/ n = 1.
Proof.
  unfold queue_push. intros -> H Hq. destruct (_ || _); simplify_eq; [by left|].
  unfold kFrameSize. pose proof (zlen_nonneg (queued q)). div_lia.
Qed.

Lemma queue_pop_frame q n popped q' :
  queue_pop kFrameSize q = (n, popped, q') -> n = 0 \/ n = 1.
Proof.
  unfold queue_pop. intros H. destruct (_ || _); simplify_eq; [by left|].
  unfold kFrameSize. pose proof (zlen_nonneg (queued q)). div_lia.
Qed.

Lemma b2z_decide_one n : n = 0 \/ n = 1 -> Z.b2z (bool_decide (n = 1)) = n.
Proof. by intros [-> | ->]. Qed.

(** Forward simulation of one call. *)
Lemma ring_step_refines o r q :
  ring_rep r q -> op_ok o ->
  let '(n, out, r') := ring_step o r in
  exists q', queue_step o q = (n, out, q') /\ ring_rep r' q'.
Proof.
  intros Hr Ho. destruct (pendingFrames_rep r q Hr) as [Hpf Hpb].
  destruct o as [frame|dest|frames|dest| | | | | |]; simpl in Ho; simpl.
  - pose proof (pushBatch_refines r q frame Hr Ho) as H.
    destruct (Z.eqb_spec (zlen frame) kFrameSize) as [E|E].
    + rewrite (tryPush_batch r q frame Hr E).
      destruct (tryPushBatch frame r) as [n r']. destruct H as (q' & Hq & Hr').
      rewrite Hq. simpl. exists q'. split; [|done]. rewrite b2z_decide_one; [done|].
      apply (queue_push_frame q frame n q' E Hq). slots_lia.
    + unfold tryPush. apply Z.eqb_neq in E. rewrite E.
      destruct (m_layout r); by exists q.
  - pose proof (popBatch_refines r q dest Hr Ho) as H.
    destruct (Z.eqb_spec (zlen dest) kFrameSize) as [E|E].
    + rewrite (tryPop_batch r q dest Hr E).
      destruct (tryPopBatch dest r) as [[n out'] r'].
      destruct H as (popped & q' & Hq & Hr' & ->). unfold queue_pop_to. rewrite Hq. simpl.
      exists q'. split; [|done]. rewrite b2z_decide_one; [done|].
      rewrite E in Hq. by apply (queue_pop_frame q n popped q').
    + unfold tryPop. apply Z.eqb_neq in E. rewrite E.
      destruct (m_layout r); by exists q.
  - pose proof (pushBatch_refines r q frames Hr Ho) as H.
    destruct (tryPushBatch frames r) as [n r']. destruct H as (q' & -> & Hr'). by exists q'.
  - pose proof (popBatch_refines r q dest Hr Ho) as H.
    destruct (tryPopBatch dest r) as [[n out'] r'].
    destruct H as (popped & q' & Hq & Hr' & ->). unfold queue_pop_to. rewrite Hq. by exists q'.
  - eexists. split; [done|]. by apply closeProducer_rep.
  - exists q. split; [|done]. rewrite <- Hpf. by rewrite Z.div_mul.
  - exists q. split; [|done]. unfold pendingBytes. rewrite Hpf, u64_small; [done|slots_lia].
  - exists q. split; [|done]. do 3 f_equal. unfold empty. rewrite <- Hpf.
    destruct (Z.eqb_spec (pendingFrames r) 0); slots_lia.
  - exists q. split; [|done]. do 3 f_equal. unfold full. rewrite <- Hpf.
    destruct (Z.leb_spec capacityFrames (pendingFrames r)); slots_lia.
  - exists q. split; [|done]. by rewrite (producerClosed_rep r q Hr).
Qed.

Lemma run_refines ops r q :
  ring_rep r q -> Forall op_ok ops ->
  fst (run ring_step ops r) = fst (run queue_step ops q) /\
  ring_rep (snd (run ring_step ops r)) (snd (run queue_step ops q)).
Proof.
  revert r q. induction ops as [|o ops IH]; intros r q Hr Hok; [done|].
  inversion Hok as [|? ? Ho Hops]; subst. simpl.
  pose proof (ring_step_refines o r q Hr Ho) as H.
  destruct (ring_step o r) as [[n out] r']. destruct H as (q' & Hq & Hr').
  rewrite Hq. destruct (IH r' q' Hr' Hops) as [E1 E2].
  destruct (run ring_step ops r') as [rs r'']. destruct (run queue_step ops q') as [rs' q''].
  simpl in *. by rewrite E1.
Qed.

(** The queue is first in, first out: one call, and a session. *)
Lemma queue_push_fifo frames q n q' :
  queue_push frames q = (n, q') -> queued q' = queued q ++ ztake (n * kFrameSize) frames.
Proof.
  unfold queue_push. intros H. destruct (_ || _); simplify_eq/=; [|done].
  by rewrite ztake_nonpos, app_nil_r.
Qed.

Lemma queue_pop_fifo size q n popped q' :
  0 <= size -> queue_pop size q = (n, popped, q') ->
  queued q = popped ++ queued q' /\ zlen popped = n * kFrameSize.
Proof.
  unfold queue_pop. intros Hs H. pose proof (zlen_nonneg (queued q)).
  destruct (_ || _); simplify_eq/=; [done|].
  rewrite ztake_zdrop. split; [done|]. rewrite zlen_take. unfold kFrameSize. div_lia.
Qed.

Lemma queue_pop_to_fifo dest q n out q' :
  queue_pop_to dest q = (n, out, q') ->
  queued q = ztake (n * kFrameSize) out ++ queued q'.
Proof.
  unfold queue_pop_to. destruct (queue_pop (zlen dest) q) as [[k popped] q1] eqn:E.
  intros H. simplify_eq.
  destruct (queue_pop_fifo _ _ _ _ _ (zlen_nonneg dest) E) as [-> Hl].
  rewrite ztake_app_le, ztake_ge by lia. done.
Qed.

Lemma queue_step_fifo o q n out q' :
  queue_step o q = (n, out, q') ->
  queued q ++ accepted o (n, out) = delivered o (n, out) ++ queued q'.
Proof.
  destruct o; simpl; intros H.
  - destruct (_ =? _).
    + destruct (queue_push frame q) as [m q1] eqn:E. simplify_eq.
      by rewrite (queue_push_fifo _ _ _ _ E).
    + simplify_eq. by rewrite ztake_nonpos, app_nil_r.
  - destruct (_ =? _); [|simplify_eq; by rewrite ztake_nonpos, app_nil_r].
    rewrite app_nil_r. by apply queue_pop_to_fifo in H.
  - destruct (queue_push frames q) as [m q1] eqn:E. simplify_eq.
    by rewrite (queue_push_fifo _ _ _ _ E).
  - rewrite app_nil_r. by apply queue_pop_to_fifo in H.
  - simplify_eq/=. by rewrite app_nil_r.
  - simplify_eq/=. by rewrite app_nil_r.
  - simplify_eq/=. by rewrite app_nil_r.
  - simplify_eq/=. by rewrite app_nil_r.
  - simplify_eq/=. by rewrite app_nil_r.
  - simplify_eq/=. by rewrite app_nil_r.
Qed.

Lemma queue_run_fifo ops q :
  queued q ++ all_of accepted ops (fst (run queue_step ops q)) =
  all_of delivered ops (fst (run queue_step ops q)) ++ queued (snd (run queue_step ops q)).
Proof.
  revert q. induction ops as [|o ops IH]; intros q; simpl; [by rewrite app_nil_r|].
  destruct (queue_step o q) as [[n out] q1] eqn:E. apply queue_step_fifo in E.
  specialize (IH q1). destruct (run queue_step ops q1) as [rs q2]. simpl in *.
  unfold all_of in *. simpl. rewrite app_assoc, E, <- !app_assoc. by rewrite IH.
Qed.

(** No call unmaps a ring. *)
Lemma ring_step_mapped o r : m_layout r <> None -> m_layout (snd (ring_step o r)) <> None.
Proof.
  intros Hr. destruct o; simpl; try done.
  - unfold tryPush. destruct (m_layout r) eqn:E; [|done].
    repeat case_match; simplify_eq/=; congruence.
  - unfold tryPop. destruct (m_layout r) eqn:E; [|done].
    repeat case_match; simplify_eq/=; congruence.
  - unfold tryPushBatch. destruct (m_layout r) eqn:E; [|done].
    repeat case_match; simplify_eq/=; congruence.
  - unfold tryPopBatch. destruct (m_layout r) eqn:E; [|done].
    repeat case_match; simplify_eq/=; congruence.
  - unfold closeProducer. by destruct (m_layout r).
Qed.

Lemma run_mapped ops r :
  m_layout r <> None -> m_layout (snd (run ring_step ops r)) <> None.
Proof.
  revert r. induction ops as [|o ops IH]; intros r Hr; [done|]. simpl.
  pose proof (ring_step_mapped o r Hr) as H. destruct (ring_step o r) as [[n out] r1].
  specialize (IH r1 H). by destruct (run ring_step ops r1).
Qed.

(** ** Properties *)

(** C3: every session of calls on a ring, whatever the values of its wrapping
    64-bit counters, returns the same values, fills the same destination bytes and
    leaves the same state as the session on the bounded queue of frames; a ring
    without a mapping behaves as a closed, empty queue. *)
Theorem session_refines_queue ops r q :
  ring_rep r q -> Forall op_ok ops ->
  fst (run ring_step ops r) = fst (run queue_step ops q) /\
  ring_rep (snd (run ring_step ops r)) (snd (run queue_step ops q)).
Proof. apply run_refines. Qed.

(** An empty ring whose counters are about to wrap. *)
Definition wrapping_layout : Layout :=
  {| head := 2 ^ 64 - 1; tail := 2 ^ 64 - 1; producerClosedFlag := 0;
     slots := zero_slots |}.

Definition sample_session : list op :=
  [OPushBatch (replicate 96 Byte.x2a); OPendingFrames; OClose;
   OPushBatch (replicate 32 Byte.x2b); OPopBatch (replicate 64 Byte.x00);
   OPop (replicate 32 Byte.x00); OEmpty].

Lemma wrapping_rep :
  ring_rep {| m_layout := Some wrapping_layout; m_mappingSize := sizeof_Layout |}
           {| queued := []; closed := false |}.
Proof.
  unfold ring_rep, wrapping_layout.
  cbn [m_layout]. split.
  - unfold layout_ok, is_u. cbn [head tail slots].
    rewrite zlen_zero_slots. split_and!; [lia|lia|lia|lia|done|done].
  - unfold abs, contents. cbn [head tail slots producerClosedFlag].
    change (Z.to_nat (pending_of (2 ^ 64 - 1) (2 ^ 64 - 1))) with O. done.
Qed.

Lemma session_refines_queue_witness :
  Forall op_ok sample_session /\
  fst (run ring_step sample_session
         {| m_layout := Some wrapping_layout; m_mappingSize := sizeof_Layout |}) =
  [(3, []); (3, []); (0, []); (0, []); (2, replicate 64 Byte.x2a);
   (1, replicate 32 Byte.x2a); (1, [])].
Proof.
  assert (Forall op_ok sample_session) as H by (repeat constructor).
  split; [exact H|].
  rewrite (proj1 (session_refines_queue sample_session _ _ wrapping_rep H)).
  vm_compute. reflexivity.
Defined.

(** First in, first out, nothing lost or duplicated: over any session on a
    ring just created, the bytes taken out followed by the bytes still queued are
    the bytes put in. *)
Theorem session_fifo ops :
  Forall op_ok ops ->
  let '(rs, r) := run ring_step ops (snd (create true new_ring)) in
  exists l, m_layout r = Some l /\ layout_ok l /\
    all_of delivered ops rs ++ contents l = all_of accepted ops rs.
Proof.
  intros Hok. destruct (run_refines ops _ _ create_rep Hok) as [E Hr].
  pose proof (queue_run_fifo ops {| queued := []; closed := false |}) as F.
  rewrite <- E in F. cbn [queued app] in F.
  pose proof (run_mapped ops (snd (create true new_ring)) ltac:(done)) as Hrun.
  destruct (run ring_step ops (snd (create true new_ring))) as [rs r]. cbn [fst snd] in *.
  unfold ring_rep in Hr. destruct (m_layout r) as [l|]; [|done].
  exists l. destruct Hr as [Hl Ha]. split_and!; try done. rewrite <- Ha in F. by rewrite F.
Qed.

Lemma session_fifo_witness :
  Forall op_ok sample_session /\
  let '(rs, r) := run ring_step sample_session (snd (create true new_ring)) in
  exists l, m_layout r = Some l /\ layout_ok l /\
    all_of delivered sample_session rs ++ contents l = all_of accepted sample_session rs.
Proof.
  assert (Forall op_ok sample_session) as H by (repeat constructor).
  split; [exact H | exact (session_fifo sample_session H)].
Defined.

(** [tryPush] and [tryPop] are batches of one frame: same verdict, same
    bytes, same ring. *)
Theorem single_frame_is_batch r q frame :
  ring_rep r q -> zlen frame = kFrameSize ->
  tryPush frame r =
    (bool_decide (fst (tryPushBatch frame r) = 1), snd (tryPushBatch frame r)) /\
  tryPop frame r =
    (bool_decide (fst (fst (tryPopBatch frame r)) = 1), snd (fst (tryPopBatch frame r)),
     snd (tryPopBatch frame r)).
Proof. intros. split; [by apply (tryPush_batch r q) | by apply (tryPop_batch r q)]. Qed.

Lemma single_frame_is_batch_witness :
  zlen (replicate 32 Byte.x2a) = kFrameSize /\
  fst (tryPush (replicate 32 Byte.x2a) (snd (create true new_ring))) =
  bool_decide (fst (tryPushBatch (replicate 32 Byte.x2a) (snd (create true new_ring))) = 1).
Proof.
  assert (zlen (replicate 32 Byte.x2a) = kFrameSize) as H by reflexivity.
  split; [exact H|].
  by rewrite (proj1 (single_frame_is_batch _ _ _ create_rep H)).
Defined.

(** C40: no copy of a batch leaves its array: for counters at most a capacity
    apart, the number of frames is at most the free (or queued) space, and both
    [memcpy]s of a push and of a pop stay in the slots and in the caller's span. *)
Theorem batch_copies_in_bounds h t size :
  is_u 64 h -> is_u 64 t -> pending_of h t <= capacityFrames -> 0 <= size < 2 ^ 64 ->
  (let n := push_count h t size in
   let index := h mod capacityFrames in
   let first := first_part index n in
   0 <= n /\ pending_of h t + n <= capacityFrames /\
   0 <= first <= n /\ n * kFrameSize <= size /\
   slot_offset index + first * kFrameSize <= capacityBytes /\
   slot_offset 0 + (n - first) * kFrameSize <= capacityBytes) /\
  (let n := pop_count h t size in
   let index := t mod capacityFrames in
   let first := first_part index n in
   0 <= n <= pending_of h t /\ 0 <= first <= n /\ n * kFrameSize <= size /\
   slot_offset index + first * kFrameSize <= capacityBytes /\
   slot_offset 0 + (n - first) * kFrameSize <= capacityBytes).
Proof.
  intros Hh Ht Hp Hs. pose proof (pending_of_range h t) as Hr.
  assert (forall k, k <= size / kFrameSize -> 0 <= k -> k * kFrameSize <= size) as Hsz
    by (unfold kFrameSize; intros; div_lia).
  assert (0 <= size / kFrameSize) by (unfold kFrameSize; div_lia).
  split; cbv zeta.
  - assert (push_count h t size = Z.min (size / kFrameSize) (capacityFrames - pending_of h t)) as En
      by (unfold push_count; fold (pending_of h t); rewrite u64_small; [done|slots_lia]).
    destruct (first_part_bounds h (push_count h t size)) as (? & ? & ? & ? & _); [slots_lia|].
    split_and!; try slots_lia. apply Hsz; slots_lia.
  - assert (pop_count h t size = Z.min (size / kFrameSize) (pending_of h t)) as En by done.
    destruct (first_part_bounds t (pop_count h t size)) as (? & ? & ? & ? & _); [slots_lia|].
    split_and!; try slots_lia. apply Hsz; slots_lia.
Qed.

Lemma batch_copies_in_bounds_witness :
  is_u 64 1 /\ is_u 64 (2 ^ 64 - 1) /\
  push_count 1 (2 ^ 64 - 1) 4194304 = 131070 /\
  pending_of 1 (2 ^ 64 - 1) + push_count 1 (2 ^ 64 - 1) 4194304 <= capacityFrames.
Proof.
  assert (is_u 64 1) as H1 by (unfold is_u; lia).
  assert (is_u 64 (2 ^ 64 - 1)) as H2 by (unfold is_u; lia).
  split; [exact H1|]. split; [exact H2|]. split; [reflexivity|].
  exact (proj1 (proj2 (proj1 (batch_copies_in_bounds 1 (2 ^ 64 - 1) 4194304 H1 H2
           ltac:(vm_compute; discriminate) ltac:(lia))))).
Defined.

End Ring.
