(* ===== verification/Spsc.v ===== *)
(** * Ipc: one producer and one consumer at the same time

    [tryPushBatch] and [tryPopBatch] of [Ipc/src/SharedRingBuffer.cpp], one load,
    [memcpy] or store at a time, in any interleaving of the two processes.  An
    acquire load may return any value at least as new as the last one its thread
    saw: a release store need not be visible at once. *)

From stdpp Require Import relations.
From S2P Require Import Prelude Codec Ring.
Import Codec Ring.

Module Spsc.

(** Where the producer is in [tryPushBatch frames]. *)
Inductive producer :=
| PIdle
| PHead (frames : bytes) (h : Z)           (* head loaded *)
| PTail (frames : bytes) (h count : Z)     (* tail loaded, count > 0 *)
| PFirst (frames : bytes) (h count : Z)    (* first memcpy done *)
| PRest (frames : bytes) (h count : Z).    (* second memcpy done or not needed *)

(** Where the consumer is in [tryPopBatch dest]. *)
Inductive consumer :=
| CIdle
| CTail (dest : bytes) (t : Z)
| CHead (dest : bytes) (t count : Z)
| CFirst (out : bytes) (t count : Z)
| CRest (out : bytes) (t count : Z).

(** The shared mapping, the two threads, and what an observer has recorded:
    [published], the bytes covered by the stores to [head]; [received], the bytes
    the consumer found in its spans when it stored [tail]; how many frames of
    the other side's progress each thread has seen; and whether the consumer has
    loaded a raised close flag. *)
Record state := {
  mem : Layout;
  prod : producer;
  cons : consumer;
  published : bytes;
  received : bytes;
  seen_pops : Z;
  seen_pushes : Z;
  seen_closed : bool;
}.

Definition initial : state :=
  {| mem := new_layout; prod := PIdle; cons := CIdle; published := []; received := [];
     seen_pops := 0; seen_pushes := 0; seen_closed := false |}.

(** A producer step: its mapping, its place, what it adds to [published], and how
    far it has seen the consumer. *)
Definition producer_moves (m : Layout) (p : producer) (bs : bytes) (n : Z) (s : state) : state :=
  {| mem := m; prod := p; cons := cons s; published := published s ++ bs;
     received := received s; seen_pops := n; seen_pushes := seen_pushes s;
     seen_closed := seen_closed s |}.

(** A consumer step, likewise. *)
Definition consumer_moves (m : Layout) (c : consumer) (bs : bytes) (n : Z) (b : bool)
    (s : state) : state :=
  {| mem := m; prod := prod s; cons := c; published := published s;
     received := received s ++ bs; seen_pops := seen_pops s; seen_pushes := n;
     seen_closed := b |}.

Definition set_prod (p : producer) (s : state) : state :=
  producer_moves (mem s) p [] (seen_pops s) s.
Definition set_cons (c : consumer) (s : state) : state :=
  consumer_moves (mem s) c [] (seen_pushes s) (seen_closed s) s.

(** Frames published and frames released so far. *)
Definition pushes (s : state) : Z := zlen (published s) / kFrameSize.
Definition pops (s : state) : Z := zlen (received s) / kFrameSize.

Definition whole_frames (b : bytes) : Prop :=
  zlen b <> 0 /\ zlen b mod kFrameSize = 0 /\ zlen b < 2 ^ 64.

(** A step of the producer's thread.  [head] and the close flag are its own; a
    load of [tail] gives the wrapped value of some pop count it may see. *)
Inductive pstep (s : state) : state -> Prop :=
| P_load_head frames :
    prod s = PIdle -> whole_frames frames -> producerClosedFlag (mem s) = 0 ->
    pstep s (set_prod (PHead frames (head (mem s))) s)
| P_load_tail frames h n :
    prod s = PHead frames h -> seen_pops s <= n <= pops s ->
    let count := push_count h (u64 n) (zlen frames) in
    count <> 0 ->
    pstep s (producer_moves (mem s) (PTail frames h count) [] n s)
| P_load_tail_full frames h n :
    prod s = PHead frames h -> seen_pops s <= n <= pops s ->
    push_count h (u64 n) (zlen frames) = 0 ->
    pstep s (producer_moves (mem s) PIdle [] n s)
| P_copy_first frames h count :
    prod s = PTail frames h count ->
    let mem' := push_copy_first (h mod capacityFrames) count frames (slots (mem s)) in
    pstep s (producer_moves (set_slots mem' (mem s)) (PFirst frames h count) [] (seen_pops s) s)
| P_copy_rest frames h count :
    prod s = PFirst frames h count ->
    let mem' := push_copy_rest (h mod capacityFrames) count frames (slots (mem s)) in
    pstep s (producer_moves (set_slots mem' (mem s)) (PRest frames h count) [] (seen_pops s) s)
| P_store_head frames h count :
    prod s = PRest frames h count ->
    pstep s (producer_moves (set_head (u64 (h + count)) (mem s)) PIdle
               (ztake (count * kFrameSize) frames) (seen_pops s) s)
| P_close :
    prod s = PIdle ->
    pstep s (producer_moves (set_closed 1 (mem s)) PIdle [] (seen_pops s) s).

(** A step of the consumer's thread.  Loading a raised close flag makes the pushes
    before it visible. *)
Inductive cstep (s : state) : state -> Prop :=
| C_load_closed :
    cons s = CIdle -> producerClosedFlag (mem s) <> 0 ->
    cstep s (consumer_moves (mem s) CIdle [] (pushes s) true s)
| C_load_tail dest :
    cons s = CIdle -> whole_frames dest ->
    cstep s (set_cons (CTail dest (tail (mem s))) s)
| C_load_head dest t n :
    cons s = CTail dest t -> seen_pushes s <= n <= pushes s ->
    let count := pop_count (u64 n) t (zlen dest) in
    count <> 0 ->
    cstep s (consumer_moves (mem s) (CHead dest t count) [] n (seen_closed s) s)
| C_load_head_empty dest t n :
    cons s = CTail dest t -> seen_pushes s <= n <= pushes s ->
    pop_count (u64 n) t (zlen dest) = 0 ->
    cstep s (consumer_moves (mem s) CIdle [] n (seen_closed s) s)
| C_copy_first dest t count :
    cons s = CHead dest t count ->
    let out := pop_copy_first (t mod capacityFrames) count (slots (mem s)) dest in
    cstep s (set_cons (CFirst out t count) s)
| C_copy_rest out t count :
    cons s = CFirst out t count ->
    let out' := pop_copy_rest (t mod capacityFrames) count (slots (mem s)) out in
    cstep s (set_cons (CRest out' t count) s)
| C_store_tail out t count :
    cons s = CRest out t count ->
    cstep s (consumer_moves (set_tail (u64 (t + count)) (mem s)) CIdle
               (ztake (count * kFrameSize) out) (seen_pushes s) (seen_closed s) s).

Definition step (s s' : state) : Prop := pstep s s' \/ cstep s s'.

Definition reachable (s : state) : Prop := rtc step initial s.

(** The byte range of the slots a thread's next [memcpy] touches: offset and
    length. *)
Definition producer_writes (p : producer) : option (Z * Z) :=
  match p with
  | PTail _ h count =>
      let index := h mod capacityFrames in
      Some (slot_offset index, first_part index count * kFrameSize)
  | PFirst _ h count =>
      let index := h mod capacityFrames in
      Some (slot_offset 0, (count - first_part index count) * kFrameSize)
  | _ => None
  end.

Definition consumer_reads (c : consumer) : option (Z * Z) :=
  match c with
  | CHead _ t count =>
      let index := t mod capacityFrames in
      Some (slot_offset index, first_part index count * kFrameSize)
  | CFirst _ t count =>
      let index := t mod capacityFrames in
      Some (slot_offset 0, (count - first_part index count) * kFrameSize)
  | _ => None
  end.

Definition disjoint_ranges (a b : Z * Z) : Prop :=
  a.2 = 0 \/ b.2 = 0 \/ a.1 + a.2 <= b.1 \/ b.1 + b.2 <= a.1.

(** ** The queue two processes share *)

Definition shared_queue (s : state) : Queue :=
  {| queued := zdrop (zlen (received s)) (published s);
     closed := negb (producerClosedFlag (mem s) =? 0) |}.

(** One atomic move of the queue: what goes in, what comes out. *)
Inductive queue_move (q : Queue) : bytes -> bytes -> Queue -> Prop :=
| Q_none : queue_move q [] [] q
| Q_push bs :
    closed q = false -> whole_frames bs -> zlen (queued q) + zlen bs <= capacityBytes ->
    queue_move q bs [] {| queued := queued q ++ bs; closed := false |}
| Q_pop bs rest :
    whole_frames bs -> queued q = bs ++ rest ->
    queue_move q [] bs {| queued := rest; closed := closed q |}
| Q_close : queue_move q [] [] {| queued := queued q; closed := true |}.

(** ** The invariant *)

(** The slots of counter values [[a, b)] hold the frames of [bs], which starts at
    counter value [o]. *)
Definition holds (m : bytes) (o a b : Z) (bs : bytes) : Prop :=
  forall i, a <= i < b -> slot_frame m i = zslice ((i - o) * kFrameSize) kFrameSize bs.

(** What the producer knows of a batch of [count] frames whose copies reach
    [done] frames. *)
Definition batch_ok (s : state) (frames : bytes) (h count done : Z) : Prop :=
  h = head (mem s) /\ producerClosedFlag (mem s) = 0 /\
  0 < count /\ count * kFrameSize <= zlen frames /\
  pushes s + count <= seen_pops s + capacityFrames /\
  holds (slots (mem s)) (pushes s) (pushes s) (pushes s + done) frames.

Definition producer_ok (s : state) : Prop :=
  match prod s with
  | PIdle => True
  | PHead frames h => h = head (mem s) /\ producerClosedFlag (mem s) = 0 /\ whole_frames frames
  | PTail frames h count => batch_ok s frames h count 0
  | PFirst frames h count => batch_ok s frames h count (first_part (h mod capacityFrames) count)
  | PRest frames h count => batch_ok s frames h count count
  end.

(** What the consumer knows of a batch of [count] frames of which [done] are
    copied to [out]. *)
Definition taken_ok (s : state) (out : bytes) (t count done : Z) : Prop :=
  t = tail (mem s) /\ 0 < count /\ count * kFrameSize <= zlen out /\
  pops s + count <= seen_pushes s /\
  ztake (done * kFrameSize) out =
  zslice (pops s * kFrameSize) (done * kFrameSize) (published s).

Definition consumer_ok (s : state) : Prop :=
  match cons s with
  | CIdle => True
  | CTail dest t => t = tail (mem s) /\ whole_frames dest
  | CHead dest t count => taken_ok s dest t count 0
  | CFirst out t count => taken_ok s out t count (first_part (t mod capacityFrames) count)
  | CRest out t count => taken_ok s out t count count
  end.

Record inv (s : state) : Prop := {
  inv_published : zlen (published s) = pushes s * kFrameSize;
  inv_received : zlen (received s) = pops s * kFrameSize;
  inv_prefix : received s = ztake (pops s * kFrameSize) (published s);
  inv_head : head (mem s) = u64 (pushes s);
  inv_tail : tail (mem s) = u64 (pops s);
  inv_slots : zlen (slots (mem s)) = capacityBytes;
  inv_order : 0 <= seen_pops s <= pops s /\ pops s <= seen_pushes s <= pushes s /\
              pushes s <= seen_pops s + capacityFrames;
  inv_holds : holds (slots (mem s)) 0 (pops s) (pushes s) (published s);
  inv_closed : seen_closed s = true ->
               producerClosedFlag (mem s) <> 0 /\ seen_pushes s = pushes s;
  inv_producer : producer_ok s;
  inv_consumer : consumer_ok s;
}.

(** ** Lemmas on ranges *)

Lemma push_count_fresh h n size :
  0 <= h - n <= capacityFrames -> 0 <= size ->
  push_count (u64 h) (u64 n) size = Z.min (size / kFrameSize) (capacityFrames - (h - n)).
Proof.
  intros H Hs. unfold push_count. rewrite u64_sub_wrap, (u64_small (h - n)) by slots_lia.
  rewrite u64_small by slots_lia. done.
Qed.

Lemma pop_count_fresh n t size :
  0 <= n - t <= capacityFrames ->
  pop_count (u64 n) (u64 t) size = Z.min (size / kFrameSize) (n - t).
Proof.
  intros H. unfold pop_count. rewrite u64_sub_wrap, (u64_small (n - t)) by slots_lia. done.
Qed.

Lemma pending_fresh h t :
  0 <= h - t <= capacityFrames -> pending_of (u64 h) (u64 t) = h - t.
Proof. intros H. unfold pending_of. rewrite u64_sub_wrap. apply u64_small. slots_lia. Qed.

(** A frame read out of consecutive slots. *)
Lemma slot_frame_read m i n k :
  zlen m = capacityBytes -> 0 <= k < Z.of_nat n ->
  slot_frame m (i + k) = zslice (k * kFrameSize) kFrameSize (ring_read m i n).
Proof.
  intros Hm. revert i k. induction n as [|n IH]; intros i k Hk; [lia|].
  simpl. pose proof (zlen_slot_frame m i Hm) as E.
  destruct (Z.eq_dec k 0) as [->|].
  - rewrite zslice_app_l by (rewrite ?E; done). rewrite Z.add_0_r. unfold zslice.
    by rewrite zdrop_nonpos, ztake_ge by (rewrite ?E; done).
  - rewrite zslice_app_r by (rewrite E; unfold kFrameSize; lia). rewrite E.
    replace (k * kFrameSize - kFrameSize) with ((k - 1) * kFrameSize) by lia.
    rewrite <- IH by lia. f_equal. lia.
Qed.

(** Consecutive slots that hold a range of frames read as that range. *)
Lemma ring_read_holds m o a n bs :
  holds m o a (a + Z.of_nat n) bs -> o <= a ->
  ring_read m a n = zslice ((a - o) * kFrameSize) (Z.of_nat n * kFrameSize) bs.
Proof.
  revert a. induction n as [|n IH]; intros a H Ho.
  { unfold zslice. by rewrite ztake_nonpos. }
  simpl ring_read. rewrite IH; [|intros i Hi; apply H; lia|lia].
  rewrite (H a) by lia.
  replace (Z.of_nat (S n) * kFrameSize) with (kFrameSize + Z.of_nat n * kFrameSize) by slots_lia.
  rewrite zslice_add by slots_lia. do 2 f_equal. slots_lia.
Qed.

Lemma holds_read m a n bs :
  zlen m = capacityBytes -> 0 <= n -> ring_read m a (Z.to_nat n) = ztake (n * kFrameSize) bs ->
  n * kFrameSize <= zlen bs -> holds m a a (a + n) bs.
Proof.
  intros Hm Hn E Hb i Hi. replace i with (a + (i - a)) at 1 by lia.
  rewrite (slot_frame_read m a (Z.to_nat n)) by (done || lia). rewrite E.
  rewrite <- (zdrop_nonpos 0 bs) at 1 by done.
  change (ztake (n * kFrameSize) (zdrop 0 bs)) with (zslice 0 (n * kFrameSize) bs).
  by rewrite zslice_slice by slots_lia.
Qed.

Lemma holds_app m o a b bs ks :
  holds m o a b bs -> o <= a -> (b - o) * kFrameSize <= zlen bs -> holds m o a b (bs ++ ks).
Proof.
  intros H Ho Hb i Hi. rewrite H by done. symmetry. apply zslice_app_l; slots_lia.
Qed.

Lemma holds_shift m o a b bs ks :
  holds m o a b ks -> 0 <= o <= a -> zlen bs = o * kFrameSize -> holds m 0 a b (bs ++ ks).
Proof.
  intros H Ho Hb i Hi. rewrite H by done. symmetry.
  rewrite zslice_app_r by slots_lia. f_equal. slots_lia.
Qed.

(** Slots outside a batch keep their frames while it is copied. *)
Lemma holds_pushed m o a b bs h count frames :
  holds m o a b bs -> 0 <= count -> count * kFrameSize <= zlen frames ->
  zlen m = capacityBytes -> h + count <= a + capacityFrames -> b <= h ->
  holds (pushed h count frames m) o a b bs.
Proof. intros H Hc Hf Hm Ha Hb i Hi. rewrite slot_frame_pushed by lia. by apply H. Qed.

(** The first copy of a batch is a batch of its first part. *)
Lemma push_copy_first_pushed h count frames m :
  0 <= count <= capacityFrames ->
  push_copy_first (h mod capacityFrames) count frames m =
  pushed h (first_part (h mod capacityFrames) count) frames m.
Proof.
  intros Hc. destruct (first_part_bounds h count Hc) as (Hi & Hf & Hw & _).
  unfold pushed, push_copy_rest, push_copy_first.
  set (first := first_part (h mod capacityFrames) count) in *.
  assert (first_part (h mod capacityFrames) first = first) as -> by slots_lia.
  by rewrite Z.eqb_refl.
Qed.

Lemma blit_same {A} off (src m : list A) :
  0 <= off -> zslice off (zlen src) m = src -> blit off src m = m.
Proof.
  intros Ho H. unfold blit. rewrite <- H at 1. unfold zslice.
  pose proof (zlen_nonneg src).
  rewrite app_assoc, <- ztake_add by lia. apply ztake_zdrop.
Qed.

(** Once its first part is in place, the second copy of a batch completes it. *)
Lemma push_copy_rest_pushed h count frames m :
  0 <= count <= capacityFrames -> count * kFrameSize <= zlen frames -> zlen m = capacityBytes ->
  holds m h h (h + first_part (h mod capacityFrames) count) frames ->
  push_copy_rest (h mod capacityFrames) count frames m = pushed h count frames m.
Proof.
  intros Hc Hf Hm Hh. destruct (first_part_bounds h count Hc) as (Hi & Hfi & Hw & _).
  destruct (push_copy_lengths h count frames m Hc Hf Hm) as (E1 & _ & _).
  unfold pushed. f_equal. unfold push_copy_first. symmetry.
  set (first := first_part (h mod capacityFrames) count) in *.
  apply blit_same; [slots_lia|]. rewrite E1.
  rewrite <- (Z2Nat.id first) in Hh by lia.
  pose proof (ring_read_holds m h h (Z.to_nat first) frames Hh ltac:(lia)) as R.
  rewrite Z2Nat.id in R by lia. rewrite Z.sub_diag in R. cbn [Z.mul] in R.
  rewrite (ring_read_mod m h (h mod capacityFrames)) in R by (by rewrite Z.mod_mod).
  rewrite ring_read_contiguous, Z2Nat.id in R by lia. rewrite R. unfold zslice.
  by rewrite zdrop_nonpos.
Qed.

(** The first copy of a pop, and the second after it, in another memory. *)
Lemma pop_copy_first_read t count m out :
  0 <= count <= capacityFrames -> count * kFrameSize <= zlen out -> zlen m = capacityBytes ->
  let first := first_part (t mod capacityFrames) count in
  pop_copy_first (t mod capacityFrames) count m out =
  ring_read m t (Z.to_nat first) ++ zdrop (first * kFrameSize) out.
Proof.
  intros Hc Ho Hm first. destruct (first_part_bounds t count Hc) as (Hi & Hf & Hw & _).
  fold first in Hf, Hw. rewrite <- pop_copies by slots_lia.
  assert (first_part (t mod capacityFrames) first = first) as E by slots_lia.
  unfold pop_copy_rest, pop_copy_first. rewrite E, Z.eqb_refl. by fold first.
Qed.

Lemma pop_copy_rest_read t count m out :
  0 <= count <= capacityFrames -> count * kFrameSize <= zlen out -> zlen m = capacityBytes ->
  let first := first_part (t mod capacityFrames) count in
  pop_copy_rest (t mod capacityFrames) count m out =
  ztake (first * kFrameSize) out ++ ring_read m (t + first) (Z.to_nat (count - first)) ++
  zdrop (count * kFrameSize) out.
Proof.
  intros Hc Ho Hm first. destruct (first_part_bounds t count Hc) as (Hi & Hf & Hw & Hr & Hor).
  fold first in Hf, Hw, Hr, Hor. unfold pop_copy_rest. fold first.
  destruct (Z.eqb_spec first count) as [E|E].
  - rewrite E, Z.sub_diag. simpl. by rewrite ztake_zdrop.
  - destruct Hor as [|Hor]; [done|].
    rewrite (ring_read_mod m (t + first) 0).
    2: { rewrite <- Zplus_mod_idemp_l, Hor. by rewrite Z.mod_same. }
    rewrite ring_read_contiguous, Z2Nat.id by lia.
    assert (zlen (zslice (slot_offset 0) ((count - first) * kFrameSize) m) =
            (count - first) * kFrameSize) as E2 by (apply zlen_slice; slots_lia).
    unfold blit. rewrite E2. do 3 f_equal. slots_lia.
Qed.

(** ** The invariant is kept *)

Lemma pushes_moves m p bs n s k :
  inv s -> zlen bs = k * kFrameSize -> pushes (producer_moves m p bs n s) = pushes s + k.
Proof.
  intros I Hb. unfold pushes at 1. cbn [published producer_moves].
  rewrite zlen_app, (inv_published s I), Hb, <- Z.mul_add_distr_r. by apply Z.div_mul.
Qed.

Lemma pops_moves m c bs n b s k :
  inv s -> zlen bs = k * kFrameSize -> pops (consumer_moves m c bs n b s) = pops s + k.
Proof.
  intros I Hb. unfold pops at 1. cbn [received consumer_moves].
  rewrite zlen_app, (inv_received s I), Hb, <- Z.mul_add_distr_r. by apply Z.div_mul.
Qed.

Lemma taken_ok_publish s m p bs n out t count k :
  inv s -> tail m = tail (mem s) -> 0 <= k <= count -> taken_ok s out t count k ->
  taken_ok (producer_moves m p bs n s) out t count k.
Proof.
  intros I Hm Hk (-> & H0 & Ho & Hs & Hz).
  destruct (inv_order s I) as (? & ? & ?). pose proof (inv_published s I).
  unfold taken_ok. cbn [mem producer_moves seen_pushes published].
  change (pops (producer_moves m p bs n s)) with (pops s).
  split_and!; try done. rewrite Hz. symmetry. apply zslice_app_l; slots_lia.
Qed.

(** A producer step that publishes [k] frames. *)
Lemma producer_moves_inv s m p bs n k :
  inv s -> zlen bs = k * kFrameSize -> 0 <= k ->
  head m = u64 (pushes s + k) -> tail m = tail (mem s) -> zlen (slots m) = capacityBytes ->
  (producerClosedFlag m <> 0 \/ producerClosedFlag m = producerClosedFlag (mem s)) ->
  (k = 0 \/ producerClosedFlag (mem s) = 0) ->
  seen_pops s <= n <= pops s -> pushes s + k <= n + capacityFrames ->
  holds (slots m) 0 (pops s) (pushes s + k) (published s ++ bs) ->
  producer_ok (producer_moves m p bs n s) ->
  inv (producer_moves m p bs n s).
Proof.
  intros I Hb Hk Hh Ht Hs Hc Hk' Hn Hcap Hholds Hp.
  pose proof (pushes_moves m p bs n s k I Hb) as E.
  destruct (inv_order s I) as (? & ? & ?). pose proof (inv_published s I) as Hpub.
  pose proof (inv_closed s I) as Hcl. pose proof (inv_consumer s I) as Hco.
  constructor; rewrite ?E; cbn [mem producer_moves published received seen_pops seen_pushes
                                seen_closed];
    change (pops (producer_moves m p bs n s)) with (pops s); try done.
  - rewrite zlen_app, Hpub, Hb. lia.
  - apply (inv_received s I).
  - rewrite ztake_app_le by slots_lia. apply (inv_prefix s I).
  - rewrite Ht. apply (inv_tail s I).
  - split_and!; lia.
  - intros Hsc. destruct (Hcl Hsc) as [Hf He]. split; [|lia]. by destruct Hc as [Hc| ->].
  - unfold consumer_ok in *. cbn [cons producer_moves mem]. rewrite Ht.
    destruct (cons s); try done; try (apply taken_ok_publish; try done).
    + destruct Hco as (_ & ? & _). lia.
    + destruct Hco as (_ & ? & _ & ? & _).
      destruct (first_part_bounds t count) as (_ & ? & _); lia.
    + destruct Hco as (_ & ? & _). lia.
Qed.

Lemma batch_ok_move s m p n frames h count k k' :
  inv s -> batch_ok s frames h count k -> head m = head (mem s) ->
  producerClosedFlag m = producerClosedFlag (mem s) -> seen_pops s <= n ->
  holds (slots m) (pushes s) (pushes s) (pushes s + k') frames ->
  batch_ok (producer_moves m p [] n s) frames h count k'.
Proof.
  intros I (-> & Hc & H0 & Hf & Hcap & _) Hh Hcm Hn Hholds. unfold batch_ok.
  rewrite (pushes_moves m p [] n s 0 I) by done. rewrite Z.add_0_r.
  cbn [mem producer_moves seen_pops]. rewrite Hh, Hcm. split_and!; try done. lia.
Qed.

(** A copy into the slots, with the frames it leaves there. *)
Lemma producer_copy_inv s p frames h count k k' :
  inv s -> batch_ok s frames h count k -> 0 < k' <= count ->
  let m := set_slots (pushed h k' frames (slots (mem s))) (mem s) in
  p = PFirst frames h count /\ k' = first_part (h mod capacityFrames) count \/
  p = PRest frames h count /\ k' = count ->
  inv (producer_moves m p [] (seen_pops s) s).
Proof.
  intros I B Hk m Hp. pose proof B as (-> & Hc & H0 & Hf & Hcap & _).
  destruct (inv_order s I) as (? & ? & ?). pose proof (inv_slots s I) as Hs.
  pose proof (inv_head s I) as Hh.
  assert (k' * kFrameSize <= zlen frames) by slots_lia.
  assert (pushed (head (mem s)) k' frames (slots (mem s)) =
          pushed (pushes s) k' frames (slots (mem s))) as Ep
    by (unfold pushed; by rewrite Hh, u64_mod_capacity).
  apply (producer_moves_inv _ _ _ _ _ 0); try done; cbn [set_slots head tail slots
                                                        producerClosedFlag]; try lia.
  - by rewrite Z.add_0_r.
  - apply zlen_pushed; lia.
  - rewrite Z.add_0_r, app_nil_r. subst m. cbn [set_slots slots]. rewrite Ep.
    apply holds_pushed; try lia. apply (inv_holds s I).
  - assert (holds (slots m) (pushes s) (pushes s) (pushes s + k') frames) as Hm.
    { subst m. cbn [set_slots slots]. rewrite Ep. apply holds_read; try lia.
      - apply zlen_pushed; lia.
      - apply ring_read_pushed; lia. }
    destruct Hp as [[-> ->]|[-> ->]]; unfold producer_ok; cbn [prod producer_moves];
      (eapply batch_ok_move; [done|exact B|done|done|lia|exact Hm]).
Qed.

Lemma pstep_inv s s' : inv s -> pstep s s' -> inv s'.
Proof.
  intros I H. pose proof (inv_producer s I) as P. pose proof (inv_head s I) as Hh.
  pose proof (inv_holds s I) as Hl. pose proof (inv_slots s I) as Hs.
  destruct (inv_order s I) as (? & ? & ?). unfold producer_ok in P.
  assert (forall m p n, head m = head (mem s) -> tail m = tail (mem s) -> slots m = slots (mem s) ->
    (producerClosedFlag m <> 0 \/ producerClosedFlag m = producerClosedFlag (mem s)) ->
    seen_pops s <= n <= pops s -> producer_ok (producer_moves m p [] n s) ->
    inv (producer_moves m p [] n s)) as Hmove.
  { intros m p n E1 E2 E3 Hc Hn Hp. apply (producer_moves_inv _ _ _ _ _ 0); try done; try lia.
    - by rewrite E1, Z.add_0_r.
    - by rewrite E3.
    - by rewrite E3, Z.add_0_r, app_nil_r. }
  destruct H as [frames E Hw Hc|frames h n E Hn count Hc|frames h n E Hn Hc|frames h count E mem'
    |frames h count E mem'|frames h count E|E]; rewrite E in P.
  - apply Hmove; try done; [by right|lia].
  - destruct P as (-> & Hcl & Hw). apply Hmove; try done; [by right|].
    unfold producer_ok. cbn [prod producer_moves]. unfold batch_ok.
    rewrite (pushes_moves _ _ [] n s 0 I), Z.add_0_r by done. cbn [mem producer_moves seen_pops].
    unfold whole_frames in Hw. pose proof (zlen_nonneg frames).
    assert (count = Z.min (zlen frames / kFrameSize) (capacityFrames - (pushes s - n))) as Ec.
    { subst count. rewrite Hh. apply push_count_fresh; lia. }
    clearbody count. unfold kFrameSize in *. split_and!; try done; try div_lia.
    intros i Hi. lia.
  - apply Hmove; try done. by right.
  - assert (0 < count <= capacityFrames) by (destruct P as (_ & _ & ? & _ & ? & _); lia).
    subst mem'. rewrite push_copy_first_pushed by lia.
    destruct (first_part_bounds h count) as (? & ? & _ & _ & ?); [lia|].
    apply (producer_copy_inv s _ frames h count 0); try done; [slots_lia|by left].
  - pose proof P as (-> & _ & Hc0 & Hf & Hcap & Hfirst).
    assert (0 < count <= capacityFrames) by lia.
    assert (mem' = pushed (head (mem s)) count frames (slots (mem s))) as ->.
    { subst mem'. rewrite Hh in Hfirst |- *. rewrite u64_mod_capacity in *.
      rewrite push_copy_rest_pushed by (done || lia).
      unfold pushed. by rewrite u64_mod_capacity. }
    apply (producer_copy_inv s _ frames _ count _ count I P); [lia|by right].
  - destruct P as (-> & Hc & Hc0 & Hf & Hcap & Hnew).
    assert (zlen (ztake (count * kFrameSize) frames) = count * kFrameSize) as Ez
      by (rewrite zlen_take; slots_lia).
    apply (producer_moves_inv _ _ _ _ _ count); try done; cbn [set_head head tail slots
                                                        producerClosedFlag]; try lia.
    + rewrite Hh. apply u64_add_wrap.
    + intros i Hi. destruct (Z_lt_le_dec i (pushes s)).
      * apply (holds_app _ 0 (pops s) (pushes s)); try lia; try done.
        rewrite (inv_published s I). lia.
      * apply (holds_shift _ (pushes s) (pushes s) (pushes s + count)); try lia;
          [|apply (inv_published s I)].
        intros j Hj. rewrite (Hnew j Hj). unfold zslice at 2.
        symmetry. change (zslice ((j - pushes s) * kFrameSize) kFrameSize (zslice 0 (count * kFrameSize) frames) = zslice ((j - pushes s) * kFrameSize) kFrameSize frames).
        rewrite zslice_slice by slots_lia. done.
  - apply Hmove; try done; [by left|lia].
Qed.

Lemma batch_ok_release s m c bs n b frames h count k :
  head m = head (mem s) -> slots m = slots (mem s) ->
  producerClosedFlag m = producerClosedFlag (mem s) ->
  batch_ok s frames h count k -> batch_ok (consumer_moves m c bs n b s) frames h count k.
Proof.
  intros E1 E2 E3 B. unfold batch_ok. cbn [mem consumer_moves seen_pops].
  change (pushes (consumer_moves m c bs n b s)) with (pushes s). by rewrite E1, E2, E3.
Qed.

(** A consumer step that releases [k] frames. *)
Lemma consumer_moves_inv s m c bs n b k :
  inv s -> zlen bs = k * kFrameSize -> 0 <= k ->
  head m = head (mem s) -> slots m = slots (mem s) ->
  producerClosedFlag m = producerClosedFlag (mem s) ->
  tail m = u64 (pops s + k) ->
  bs = zslice (pops s * kFrameSize) (k * kFrameSize) (published s) ->
  seen_pushes s <= n <= pushes s -> pops s + k <= n ->
  (b = true -> producerClosedFlag m <> 0 /\ n = pushes s) ->
  consumer_ok (consumer_moves m c bs n b s) ->
  inv (consumer_moves m c bs n b s).
Proof.
  intros I Hb Hk Hh Hs Hf Ht Hbs Hn Hkn Hcl Hc.
  pose proof (pops_moves m c bs n b s k I Hb) as E.
  destruct (inv_order s I) as (? & ? & ?). pose proof (inv_received s I) as Hrec.
  pose proof (inv_producer s I) as Hp. pose proof (inv_prefix s I) as Hpre.
  constructor; rewrite ?E; cbn [mem consumer_moves published received seen_pops seen_pushes
                                seen_closed];
    change (pushes (consumer_moves m c bs n b s)) with (pushes s); try done.
  - apply (inv_published s I).
  - rewrite zlen_app, Hrec, Hb. lia.
  - rewrite Hpre, Hbs, Z.mul_add_distr_r. symmetry. apply ztake_add; slots_lia.
  - rewrite Hh. apply (inv_head s I).
  - rewrite Hs. apply (inv_slots s I).
  - split_and!; lia.
  - intros i Hi. rewrite Hs. apply (inv_holds s I). lia.
  - unfold producer_ok in *. cbn [prod consumer_moves mem]. rewrite Hh, Hf.
    destruct (prod s); try done; by apply batch_ok_release.
Qed.

(** A copy out of the slots. *)
Lemma consumer_copy_inv s out out' t count k k' c :
  inv s -> taken_ok s out t count k -> 0 <= k' <= count -> zlen out' = zlen out ->
  ztake (k' * kFrameSize) out' =
    zslice (pops s * kFrameSize) (k' * kFrameSize) (published s) ->
  c = CFirst out' t count /\ k' = first_part (t mod capacityFrames) count \/
  c = CRest out' t count /\ k' = count ->
  inv (set_cons c s).
Proof.
  intros I (-> & H0 & Ho & Hs & _) Hk Hl Hz Hc. destruct (inv_order s I) as (? & ? & ?).
  assert (forall c, taken_ok (consumer_moves (mem s) c [] (seen_pushes s) (seen_closed s) s)
                      out' (tail (mem s)) count k') as T.
  { intros c'. unfold taken_ok. cbn [mem consumer_moves seen_pushes published].
    rewrite (pops_moves _ _ [] _ _ s 0 I), Z.add_0_r by done. split_and!; try done. lia. }
  apply (consumer_moves_inv _ _ _ _ _ _ 0); try done; try lia.
  - rewrite Z.add_0_r. apply (inv_tail s I).
  - apply (inv_closed s I).
  - unfold consumer_ok. cbn [cons consumer_moves].
    destruct Hc as [[-> ->]|[-> ->]]; apply T.
Qed.

(** Reading frames the consumer may take. *)
Lemma read_published s a n :
  inv s -> pops s <= a -> 0 <= n -> a + n <= pushes s ->
  ring_read (slots (mem s)) a (Z.to_nat n) = zslice (a * kFrameSize) (n * kFrameSize) (published s).
Proof.
  intros I Ha Hn Hb. destruct (inv_order s I) as (? & ? & ?).
  rewrite (ring_read_holds _ 0 a (Z.to_nat n) (published s)); [|..|lia].
  - rewrite Z.sub_0_r, Z2Nat.id by lia. done.
  - intros i Hi. apply (inv_holds s I). lia.
Qed.

Lemma cstep_inv s s' : inv s -> cstep s s' -> inv s'.
Proof.
  intros I H. pose proof (inv_consumer s I) as C. pose proof (inv_tail s I) as Ht.
  pose proof (inv_slots s I) as Hs. pose proof (inv_closed s I) as Hcl.
  destruct (inv_order s I) as (? & ? & ?). unfold consumer_ok in C.
  assert (forall c n b, seen_pushes s <= n <= pushes s ->
    (b = true -> producerClosedFlag (mem s) <> 0 /\ n = pushes s) ->
    consumer_ok (consumer_moves (mem s) c [] n b s) ->
    inv (consumer_moves (mem s) c [] n b s)) as Hmove.
  { intros c n b Hn Hb Hc. apply (consumer_moves_inv _ _ _ _ _ _ 0); try done; try lia.
    by rewrite Z.add_0_r. }
  destruct H as [E Hc|dest E Hw|dest t n E Hn count Hc|dest t n E Hn Hc|dest t count E out
    |out t count E out'|out t count E]; rewrite E in C.
  - by apply Hmove; [lia|..].
  - apply Hmove; [lia|done|]. unfold consumer_ok. cbn [cons consumer_moves mem]. done.
  - destruct C as (-> & Hw). apply Hmove; [done| |].
    { intros Hsc. destruct (Hcl Hsc). split; [done|lia]. }
    unfold consumer_ok. cbn [cons consumer_moves]. unfold taken_ok.
    rewrite (pops_moves _ _ [] _ _ s 0 I), Z.add_0_r by done.
    cbn [mem consumer_moves seen_pushes published]. unfold whole_frames in Hw.
    pose proof (zlen_nonneg dest).
    assert (count = Z.min (zlen dest / kFrameSize) (n - pops s)) as Ec.
    { subst count. rewrite Ht. apply pop_count_fresh; lia. }
    clearbody count. unfold kFrameSize in *. split_and!; try done; try div_lia.
  - apply Hmove; [done| |done]. intros Hsc. destruct (Hcl Hsc). split; [done|lia].
  - pose proof C as (-> & Hc0 & Ho & Hsp & _).
    destruct (first_part_bounds (tail (mem s)) count) as (Hi & Hf & _); [lia|].
    set (first := first_part (tail (mem s) mod capacityFrames) count) in *.
    assert (out = ring_read (slots (mem s)) (pops s) (Z.to_nat first) ++
                  zdrop (first * kFrameSize) dest) as Eo.
    { subst out. rewrite pop_copy_first_read by (done || lia). fold first. f_equal.
      apply ring_read_mod. rewrite Ht. apply u64_mod_capacity. }
    rewrite read_published in Eo by (done || lia). pose proof (inv_published s I).
    assert (zlen (zslice (pops s * kFrameSize) (first * kFrameSize) (published s)) =
            first * kFrameSize) as Ez by (apply zlen_slice; slots_lia).
    clearbody out. subst out.
    eapply (consumer_copy_inv s dest); [done|exact C|exact Hf|..|left; split; reflexivity].
    + rewrite zlen_app, Ez, zlen_drop. slots_lia.
    + rewrite ztake_app_le by lia. apply ztake_ge. lia.
  - pose proof C as (-> & Hc0 & Ho & Hsp & Hz).
    destruct (first_part_bounds (tail (mem s)) count) as (Hi & Hf & _); [lia|].
    set (first := first_part (tail (mem s) mod capacityFrames) count) in *.
    assert (out' = ztake (first * kFrameSize) out ++
      ring_read (slots (mem s)) (pops s + first) (Z.to_nat (count - first)) ++
      zdrop (count * kFrameSize) out) as Eo.
    { subst out'. rewrite pop_copy_rest_read by (done || lia). fold first. do 2 f_equal.
      apply ring_read_mod. rewrite Ht.
      rewrite <- Zplus_mod_idemp_l, u64_mod_capacity. apply Zplus_mod_idemp_l. }
    rewrite read_published, Hz in Eo by (done || lia). pose proof (inv_published s I).
    rewrite app_assoc, Z.mul_add_distr_r, <- zslice_add in Eo by slots_lia.
    replace (first * kFrameSize + (count - first) * kFrameSize) with (count * kFrameSize)
      in Eo by lia.
    assert (zlen (zslice (pops s * kFrameSize) (count * kFrameSize) (published s)) =
            count * kFrameSize) as Ez by (apply zlen_slice; slots_lia).
    clearbody out'. subst out'.
    eapply (consumer_copy_inv s out); [done|exact C|split; [apply Z.lt_le_incl, Hc0|apply Z.le_refl]|..|right; split; reflexivity].
    + rewrite zlen_app, Ez, zlen_drop. slots_lia.
    + rewrite ztake_app_le by lia. apply ztake_ge. lia.
  - destruct C as (-> & Hc0 & Ho & Hsp & Hz).
    assert (zlen (ztake (count * kFrameSize) out) = count * kFrameSize) as Ez
      by (rewrite zlen_take; slots_lia).
    apply (consumer_moves_inv _ _ _ _ _ _ count); try done; try lia.
    cbn [set_tail tail]. rewrite Ht. apply u64_add_wrap.
Qed.

Lemma initial_inv : inv initial.
Proof.
  pose proof new_layout_ok as (_ & _ & _ & Hs).
  assert (pops initial = 0) as Ep by reflexivity. assert (pushes initial = 0) as Eq by reflexivity.
  constructor; rewrite ?Ep, ?Eq.
  - reflexivity.
  - reflexivity.
  - reflexivity.
  - reflexivity.
  - reflexivity.
  - exact Hs.
  - cbn [initial seen_pops seen_pushes]. split_and!; first [lia | by vm_compute].
  - intros i Hi. lia.
  - discriminate.
  - exact Logic.I.
  - exact Logic.I.
Qed.

Lemma step_inv s s' : inv s -> step s s' -> inv s'.
Proof. intros I [H|H]; [by apply (pstep_inv s) | by apply (cstep_inv s)]. Qed.

Lemma steps_inv s s' : inv s -> rtc step s s' -> inv s'.
Proof. intros I H. induction H; [done|]. eauto using step_inv. Qed.

Lemma reachable_inv s : reachable s -> inv s.
Proof. apply steps_inv, initial_inv. Qed.

(** ** What the invariant gives *)

Lemma zlen_queue s :
  inv s -> zlen (queued (shared_queue s)) = (pushes s - pops s) * kFrameSize.
Proof.
  intros I. destruct (inv_order s I) as (? & ? & ?). unfold shared_queue. cbn [queued].
  rewrite zlen_drop, (inv_published s I), (inv_received s I). slots_lia.
Qed.

(** Ranges of slots of two counter ranges at most a capacity apart. *)
Lemma slots_disjoint t c h k :
  0 <= c -> 0 <= k -> t + c <= h -> h + k <= t + capacityFrames ->
  let i := t mod capacityFrames in
  let j := h mod capacityFrames in
  let f := first_part i c in
  let g := first_part j k in
  (i + f <= j \/ j + g <= i \/ f = 0 \/ g = 0) /\ (k - g <= i \/ f = 0) /\
  (c - f <= j \/ g = 0) /\ (c - f = 0 \/ k - g = 0).
Proof.
  intros Hc Hk Hth Hhk i j f g.
  pose proof (Z.div_mod t capacityFrames ltac:(done)) as Dt.
  pose proof (Z.div_mod h capacityFrames ltac:(done)) as Dh.
  pose proof (Z.mod_pos_bound t capacityFrames ltac:(done)).
  pose proof (Z.mod_pos_bound h capacityFrames ltac:(done)).
  fold i j in Dt, Dh, H, H0. clearbody i j. subst f g. slots_lia.
Qed.

(** Name the queue a move leads to. *)
Ltac target_queue q' :=
  lazymatch goal with |- queue_move _ _ _ ?q => replace q with q' end.

Lemma pstep_queue s s' :
  inv s -> pstep s s' ->
  exists bs, published s' = published s ++ bs /\ received s' = received s /\
    queue_move (shared_queue s) bs [] (shared_queue s').
Proof.
  intros I H. pose proof (zlen_queue s I) as Hq. pose proof (inv_producer s I) as P.
  destruct (inv_order s I) as (? & ? & ?). unfold producer_ok in P.
  assert (forall m p n, producerClosedFlag m = producerClosedFlag (mem s) ->
    shared_queue (producer_moves m p [] n s) = shared_queue s) as Hsame.
  { intros m p n E. unfold shared_queue. cbn [received published mem producer_moves].
    by rewrite E, app_nil_r. }
  destruct H as [frames E Hw Hc|frames h n E Hn count Hc|frames h n E Hn Hc|frames h count E mem'
    |frames h count E mem'|frames h count E|E]; rewrite E in P;
    try (exists []; split; [done|]; split; [done|]; unfold set_prod; rewrite Hsame by done;
         constructor).
  - destruct P as (-> & Hc & Hc0 & Hf & Hcap & _).
    assert (zlen (ztake (count * kFrameSize) frames) = count * kFrameSize) as Ez
      by (rewrite zlen_take; slots_lia).
    exists (ztake (count * kFrameSize) frames). split; [done|]. split; [done|].
    target_queue {| queued := queued (shared_queue s) ++ ztake (count * kFrameSize) frames;
                    closed := false |}.
    + constructor; [by cbn; rewrite Hc | | rewrite Hq, Ez; slots_lia].
      unfold whole_frames. rewrite Ez. split_and!; [slots_lia|by apply Z.mod_mul|slots_lia].
    + unfold shared_queue. cbn [queued received published mem producer_moves set_head
        producerClosedFlag]. rewrite Hc. cbn. f_equal.
      symmetry. apply zdrop_app_le. rewrite (inv_published s I), (inv_received s I). slots_lia.
  - exists []. split; [done|]. split; [done|].
    target_queue {| queued := queued (shared_queue s); closed := true |}.
    + constructor.
    + unfold shared_queue. cbn [queued received published mem producer_moves]. by rewrite app_nil_r.
Qed.

Lemma cstep_queue s s' :
  inv s -> cstep s s' ->
  exists bs, published s' = published s /\ received s' = received s ++ bs /\
    queue_move (shared_queue s) [] bs (shared_queue s').
Proof.
  intros I H. pose proof (inv_consumer s I) as C. destruct (inv_order s I) as (? & ? & ?).
  unfold consumer_ok in C.
  assert (forall c n b, shared_queue (consumer_moves (mem s) c [] n b s) = shared_queue s) as Hsame.
  { intros c n b. unfold shared_queue. cbn [received published mem consumer_moves].
    by rewrite app_nil_r. }
  destruct H as [E Hc|dest E Hw|dest t n E Hn count Hc|dest t n E Hn Hc|dest t count E out
    |out t count E out'|out t count E]; rewrite E in C;
    try (exists []; split; [done|]; split; [done|]; unfold set_cons; rewrite Hsame; constructor).
  destruct C as (-> & Hc0 & Ho & Hsp & Hz).
  pose proof (inv_published s I). pose proof (inv_received s I) as Hr.
  assert (zlen (ztake (count * kFrameSize) out) = count * kFrameSize) as Ez
    by (rewrite zlen_take; slots_lia).
  exists (ztake (count * kFrameSize) out). split; [done|]. split; [done|].
  target_queue {| queued := zdrop ((pops s + count) * kFrameSize) (published s);
                  closed := closed (shared_queue s) |}.
  - constructor.
    + unfold whole_frames. rewrite Ez. split_and!; [slots_lia|by apply Z.mod_mul|slots_lia].
    + unfold shared_queue. cbn [queued]. rewrite Hz, Hr.
      rewrite <- (ztake_zdrop (count * kFrameSize) (zdrop (pops s * kFrameSize) (published s))).
      rewrite zdrop_zdrop by slots_lia. unfold zslice. f_equal. f_equal. slots_lia.
  - unfold shared_queue. cbn [queued received published mem consumer_moves closed set_tail
      producerClosedFlag]. f_equal. f_equal. rewrite zlen_app, Hr, Ez. slots_lia.
Qed.

(** A closed ring takes no more frames. *)
Lemma step_closed s s' :
  inv s -> step s s' -> producerClosedFlag (mem s) <> 0 ->
  producerClosedFlag (mem s') <> 0 /\ published s' = published s.
Proof.
  intros I [H|H] Hc.
  - pose proof (inv_producer s I) as P. unfold producer_ok in P.
    destruct H as [frames E Hw Hc'|frames h n E Hn count Hc'|frames h n E Hn Hc'|
      frames h count E mem'|frames h count E mem'|frames h count E|E]; rewrite E in P;
      try (by split; [|apply app_nil_r]).
    by destruct P as (_ & ? & _).
  - destruct H; done.
Qed.

Lemma steps_closed s s' :
  inv s -> rtc step s s' -> producerClosedFlag (mem s) <> 0 -> published s' = published s.
Proof.
  intros I H. induction H as [|s s1 s2 H1 _ IH]; intros Hc; [done|].
  destruct (step_closed s s1 I H1 Hc) as [Hc' <-]. apply IH; [|done]. by apply (step_inv s).
Qed.

(** Progress is never undone. *)
Lemma step_mono s s' :
  inv s -> step s s' -> pushes s <= pushes s' /\ pops s <= pops s' /\
    seen_pushes s <= seen_pushes s' /\ seen_pops s <= seen_pops s'.
Proof.
  intros I Hst. pose proof (step_inv s s' I Hst) as I'.
  assert (exists i o, published s' = published s ++ i /\ received s' = received s ++ o) as (i & o & Hi & Ho).
  { destruct Hst as [H|H].
    - destruct (pstep_queue s s' I H) as (bs & E1 & E2 & _). exists bs, []. by rewrite app_nil_r.
    - destruct (cstep_queue s s' I H) as (bs & E1 & E2 & _). exists [], bs. by rewrite app_nil_r. }
  apply (f_equal zlen) in Hi, Ho. rewrite zlen_app in Hi, Ho.
  rewrite (inv_published s I), (inv_published s' I') in Hi.
  rewrite (inv_received s I), (inv_received s' I') in Ho.
  pose proof (zlen_nonneg i). pose proof (zlen_nonneg o).
  destruct (inv_order s I) as (? & ? & ?).
  split; [slots_lia|]. split; [slots_lia|].
  destruct Hst as [H'|H']; destruct H'; cbn; lia.
Qed.

Lemma steps_mono s s' :
  inv s -> rtc step s s' -> pushes s <= pushes s' /\ pops s <= pops s' /\
    seen_pushes s <= seen_pushes s' /\ seen_pops s <= seen_pops s'.
Proof.
  intros I H. induction H as [|s s1 s2 H1 _ IH]; [lia|].
  pose proof (step_mono s s1 I H1). specialize (IH (step_inv s s1 I H1)). lia.
Qed.

(** ** A sample execution *)

Definition one_frame : bytes := replicate 32 Byte.x2a.

(** One frame pushed; then the producer about to copy a second one. *)
Definition one_pushed : state :=
  {| mem := {| head := 1; tail := 0; producerClosedFlag := 0;
               slots := pushed 0 1 one_frame zero_slots |};
     prod := PIdle; cons := CIdle; published := one_frame; received := [];
     seen_pops := 0; seen_pushes := 0; seen_closed := false |}.

Definition both_copying : state :=
  {| mem := mem one_pushed; prod := PTail one_frame 1 1; cons := CHead one_frame 0 1;
     published := one_frame; received := []; seen_pops := 0; seen_pushes := 1;
     seen_closed := false |}.

(** The frame popped, the ring closed, and the consumer aware of it. *)
Definition all_done : state :=
  {| mem := {| head := 1; tail := 1; producerClosedFlag := 1;
               slots := pushed 0 1 one_frame zero_slots |};
     prod := PIdle; cons := CIdle; published := one_frame; received := one_frame;
     seen_pops := 0; seen_pushes := 1; seen_closed := true |}.

Lemma one_frame_whole : whole_frames one_frame.
Proof. by vm_compute. Qed.

Lemma one_pushed_reachable : reachable one_pushed.
Proof.
  eapply rtc_l. { left. apply (P_load_head _ one_frame); [done|apply one_frame_whole|done]. }
  eapply rtc_l. { left. by apply (P_load_tail _ one_frame 0 0). }
  eapply rtc_l. { left. by eapply P_copy_first. }
  eapply rtc_l. { left. by eapply P_copy_rest. }
  eapply rtc_l. { left. by eapply P_store_head. }
  apply rtc_refl.
Qed.

Lemma both_copying_reachable : reachable both_copying.
Proof.
  unfold reachable. transitivity one_pushed; [apply one_pushed_reachable|].
  eapply rtc_l. { left. apply (P_load_head _ one_frame); [done|apply one_frame_whole|done]. }
  eapply rtc_l. { left. by apply (P_load_tail _ one_frame 1 0). }
  eapply rtc_l. { right. apply (C_load_tail _ one_frame); [done|apply one_frame_whole]. }
  eapply rtc_l. { right. by apply (C_load_head _ one_frame 0 1). }
  apply rtc_refl.
Qed.

Lemma all_done_reachable : reachable all_done.
Proof.
  unfold reachable. transitivity one_pushed; [apply one_pushed_reachable|].
  eapply rtc_l. { left. by apply P_close. }
  eapply rtc_l. { right. by apply C_load_closed. }
  eapply rtc_l. { right. apply (C_load_tail _ one_frame); [done|apply one_frame_whole]. }
  eapply rtc_l. { right. by apply (C_load_head _ one_frame 0 1). }
  eapply rtc_l. { right. by eapply C_copy_first. }
  eapply rtc_l. { right. by eapply C_copy_rest. }
  eapply rtc_l. { right. by eapply C_store_tail. }
  apply rtc_refl.
Qed.

(** ** Properties *)

(** In every interleaving of the two processes, with loads as stale as
    acquire ordering allows, the bytes the consumer has received are a prefix of
    the bytes published, in whole frames, and at most a capacity behind. *)
Theorem received_prefix s :
  reachable s ->
  received s = ztake (zlen (received s)) (published s) /\
  (kFrameSize | zlen (received s)) /\ (kFrameSize | zlen (published s)) /\
  0 <= zlen (published s) - zlen (received s) <= capacityBytes.
Proof.
  intros H%reachable_inv. destruct (inv_order s H) as (? & ? & ?).
  rewrite (inv_received s H), (inv_published s H). split_and!.
  - apply (inv_prefix s H).
  - apply Z.divide_factor_r.
  - apply Z.divide_factor_r.
  - slots_lia.
  - slots_lia.
Qed.

Lemma received_prefix_witness :
  reachable all_done /\ received all_done = ztake (zlen (received all_done)) (published all_done).
Proof.
  split; [apply all_done_reachable|].
  exact (proj1 (received_prefix all_done all_done_reachable)).
Defined.

(** C20: no data race: whenever both processes are about to copy, the bytes the
    producer writes and the bytes the consumer reads do not overlap. *)
Theorem no_data_race s a b :
  reachable s -> producer_writes (prod s) = Some a -> consumer_reads (cons s) = Some b ->
  disjoint_ranges a b.
Proof.
  intros I%reachable_inv Ha Hb. destruct (inv_order s I) as (? & ? & ?).
  pose proof (inv_producer s I) as P. pose proof (inv_consumer s I) as C.
  unfold producer_ok in P. unfold consumer_ok in C.
  assert (forall k k' out frames h t c d, taken_ok s out t c k -> batch_ok s frames h d k' ->
    t mod capacityFrames = pops s mod capacityFrames /\
    h mod capacityFrames = pushes s mod capacityFrames /\
    0 <= c /\ 0 <= d /\ pops s + c <= pushes s /\ pushes s + d <= pops s + capacityFrames) as B.
  { intros k k' out frames h t c d (-> & ? & ? & ? & _) (-> & _ & ? & ? & ? & _).
    rewrite (inv_head s I), (inv_tail s I), !u64_mod_capacity. split_and!; try done; lia. }
  destruct (prod s) as [| |frames h d|frames h d|]; try done;
    destruct (cons s) as [| |out t c|out t c|]; try done;
    destruct (B _ _ _ _ _ _ _ _ C P) as (Et & Eh & Hc & Hd & Hcd & Hdc);
    pose proof (slots_disjoint (pops s) c (pushes s) d Hc Hd Hcd Hdc) as D;
    destruct (first_part_bounds (pops s) c) as (? & ? & _); try lia;
    destruct (first_part_bounds (pushes s) d) as (? & ? & _); try lia;
    cbn in Ha, Hb; rewrite Et in Hb; rewrite Eh in Ha; simplify_eq;
    unfold disjoint_ranges; cbn [fst snd]; cbv zeta in D;
    generalize dependent (first_part (pops s mod capacityFrames) c);
    generalize dependent (first_part (pushes s mod capacityFrames) d); intros; slots_lia.
Qed.

Lemma no_data_race_witness :
  reachable both_copying /\ disjoint_ranges (32, 32) (0, 32).
Proof.
  split; [apply both_copying_reachable|].
  exact (no_data_race both_copying (32, 32) (0, 32) both_copying_reachable eq_refl eq_refl).
Defined.

(** C4: to both processes the ring is an atomic queue: every step of either
    thread leaves the shared queue as it is, or adds a whole batch to an open
    queue with room for it, or takes a whole batch off its front, or closes it. *)
Theorem steps_refine_queue s s' :
  reachable s -> step s s' ->
  exists i o, published s' = published s ++ i /\ received s' = received s ++ o /\
    queue_move (shared_queue s) i o (shared_queue s').
Proof.
  intros I%reachable_inv [H|H].
  - destruct (pstep_queue s s' I H) as (bs & -> & -> & Hq). exists bs, [].
    by rewrite app_nil_r.
  - destruct (cstep_queue s s' I H) as (bs & -> & -> & Hq). exists [], bs.
    by rewrite app_nil_r.
Qed.

Lemma steps_refine_queue_witness :
  reachable one_pushed /\
  exists i o, published one_pushed = published one_pushed ++ i /\
    received one_pushed = received one_pushed ++ o /\
    queue_move (shared_queue one_pushed) i o
      (shared_queue (set_cons (CTail one_frame 0) one_pushed)).
Proof.
  split; [apply one_pushed_reachable|].
  exact (steps_refine_queue one_pushed (set_cons (CTail one_frame 0) one_pushed)
    one_pushed_reachable
    (or_intror (C_load_tail one_pushed one_frame eq_refl one_frame_whole))).
Defined.

(** A transfer of no frames means what the caller takes it for: a push
    that fails found every slot taken by frames not released in its view, and a
    pop that fails saw no frame beyond those received. *)
Theorem zero_transfer_exact s n :
  reachable s ->
  (forall frames h, prod s = PHead frames h -> seen_pops s <= n <= pops s ->
     push_count h (u64 n) (zlen frames) = 0 <-> pushes s = n + capacityFrames) /\
  (forall dest t, cons s = CTail dest t -> seen_pushes s <= n <= pushes s ->
     pop_count (u64 n) t (zlen dest) = 0 <-> n = pops s).
Proof.
  intros I%reachable_inv. destruct (inv_order s I) as (? & ? & ?).
  pose proof (inv_producer s I) as P. pose proof (inv_consumer s I) as C.
  unfold producer_ok in P. unfold consumer_ok in C. split.
  - intros frames h E Hn. rewrite E in P. destruct P as (-> & _ & Hne & Hm & _).
    pose proof (zlen_nonneg frames). rewrite (inv_head s I), push_count_fresh by lia.
    unfold kFrameSize in *. div_lia.
  - intros dest t E Hn. rewrite E in C. destruct C as (-> & Hne & Hm & _).
    pose proof (zlen_nonneg dest). rewrite (inv_tail s I), pop_count_fresh by lia.
    unfold kFrameSize in *. div_lia.
Qed.

Lemma zero_transfer_exact_witness :
  reachable (set_cons (CTail one_frame 0) one_pushed) /\
  (pop_count (u64 0) 0 (zlen one_frame) = 0 <-> 0 = 0).
Proof.
  assert (reachable (set_cons (CTail one_frame 0) one_pushed)) as R.
  { eapply rtc_r; [apply one_pushed_reachable|].
    right. exact (C_load_tail one_pushed one_frame eq_refl one_frame_whole). }
  split; [exact R|].
  exact (proj2 (zero_transfer_exact (set_cons (CTail one_frame 0) one_pushed) 0 R)
           one_frame 0 eq_refl ltac:(vm_compute; split; discriminate)).
Defined.

(** [pendingFrames], which loads [tail] and later [head], never wraps: the
    producer's answer is between what is queued at the end and the capacity, and
    the consumer's is at most what is queued. *)
Theorem pending_snapshot s s' nt nh :
  reachable s -> rtc step s s' ->
  seen_pops s <= nt <= pops s -> seen_pushes s' <= nh <= pushes s' ->
  (nh = pushes s' -> pushes s' = pushes s ->
     pushes s' - pops s' <= pending_of (u64 nh) (u64 nt) <= capacityFrames) /\
  (nt = pops s -> pops s' = pops s ->
     0 <= pending_of (u64 nh) (u64 nt) <= pushes s' - pops s').
Proof.
  intros I%reachable_inv Hs Hnt Hnh. pose proof (steps_inv s s' I Hs) as I'.
  pose proof (steps_mono s s' I Hs). destruct (inv_order s I) as (? & ? & ?).
  destruct (inv_order s' I') as (? & ? & ?). split; intros; rewrite pending_fresh; lia.
Qed.

Lemma pending_snapshot_witness :
  reachable one_pushed /\ 0 <= pending_of (u64 0) (u64 0) <= 1.
Proof.
  split; [apply one_pushed_reachable|].
  exact (proj2 (pending_snapshot one_pushed one_pushed 0 0 one_pushed_reachable
    (rtc_refl _ _) ltac:(vm_compute; split; discriminate)
    ltac:(vm_compute; split; discriminate)) eq_refl eq_refl).
Defined.

(** C21: end of file is final: when the consumer has seen the ring closed and a
    later [head] it may load leaves nothing pending, it has received everything
    published, and no later step of either process publishes anything more. *)
Theorem close_is_eof s n s' :
  reachable s -> seen_closed s = true -> seen_pushes s <= n <= pushes s ->
  pending_of (u64 n) (tail (mem s)) = 0 -> rtc step s s' ->
  published s' = received s.
Proof.
  intros I%reachable_inv Hc Hn Hp Hs. destruct (inv_closed s I Hc) as [Hf He].
  destruct (inv_order s I) as (? & ? & ?). pose proof (inv_published s I) as Hpub.
  rewrite (steps_closed s s' I Hs Hf), (inv_prefix s I), ztake_ge; [done|].
  rewrite (inv_tail s I), pending_fresh in Hp by lia. slots_lia.
Qed.

Lemma close_is_eof_witness :
  reachable all_done /\ published all_done = received all_done.
Proof.
  split; [apply all_done_reachable|].
  exact (close_is_eof all_done 1 all_done all_done_reachable eq_refl
    ltac:(vm_compute; split; discriminate) eq_refl (rtc_refl _ _)).
Defined.

End Spsc.
