(* ===== verification/EventFd.v ===== *)
(** * Ipc/src/EventFd.cpp: notifications between the two processes

    The kernel's event descriptors are the parameter [EventFdApi]; what the code
    relies on is [EventFdLaws]; [ScriptedEventFd] is an instance.  The descriptors
    are blocking ones ([main] passes [EFD_CLOEXEC] only), so a read may wait, for
    ever if nobody writes. *)

From S2P Require Import Prelude.

Module EventFd.

(** [eventfd_write(fd, value)] and [eventfd_read(fd, &value)] ([<sys/eventfd.h>]).  A
    read is [None] when it never returns.  A write would wait only at a counter of
    [2^64 - 2], which adding one at a time does not reach. *)
Class EventFdApi (E : Type) := {
  eventfd_write : Z -> Z -> E -> sysres unit * E;
  eventfd_read : Z -> E -> option (sysres Z * E);
}.

(** [notifyEvent]. *)
Definition notifyEvent {E} `{EventFdApi E} (fuel : nat) (fd : Z) : M E bool :=
  r ← retry_eintr fuel (call (eventfd_write fd 1));
  mret (is_ok r).

(** [consumeEvent]. *)
Definition consumeEvent {E} `{EventFdApi E} (fuel : nat) (fd : Z) : M E bool :=
  r ← retry_eintr fuel (eventfd_read fd : M E (sysres Z));
  mret (is_ok r).

(** ** What the code relies on *)

(** A completed operation on a descriptor. *)
Inductive event := Notified (fd : Z) | Consumed (fd : Z).

(** Completed operations happen one at a time, a call that fails does nothing, and
    signals interrupt finitely many calls. *)
Class EventFdLaws (E : Type) `{EventFdApi E} := {
  ev_log : E -> list event;
  ev_budget : E -> nat;
  eventfd_write_law fd e r e' : eventfd_write fd 1 e = (r, e') ->
    ev_log e' = ev_log e ++ (if is_ok r then [Notified fd] else []) /\
    (ev_budget e' <= ev_budget e)%nat /\
    (is_intr r = true -> (ev_budget e' < ev_budget e)%nat);
  eventfd_read_law fd e r e' : eventfd_read fd e = Some (r, e') ->
    ev_log e' = ev_log e ++ (if is_ok r then [Consumed fd] else []) /\
    (ev_budget e' <= ev_budget e)%nat /\
    (is_intr r = true -> (ev_budget e' < ev_budget e)%nat);
}.

(** Reads of [fd] do not wait.  This holds of a process that is the only reader of
    [fd] and reads it once each time [epoll] says that there is something to read. *)
Definition reads_at_once {E} `{EventFdApi E} (fd : Z) : Prop :=
  forall e, eventfd_read fd e <> None.

Lemma intr_not_ok {A} (r : sysres A) : is_intr r = true -> is_ok r = false.
Proof. by destruct r. Qed.

Section specs.
Context {E} `{EventFdLaws E}.

(** The two loops, in one specification: [ev] is logged exactly once on success.
    [I] is kept by calls that fail, and a call that succeeds makes [Q] hold; with
    [I] a call returns. *)
Lemma event_loop_spec {A} t fuel (m : M E (sysres A)) ev (I Q : E -> Prop) e :
  (forall e r e', m e = Some (r, e') ->
     ev_log e' = ev_log e ++ (if is_ok r then [ev] else []) /\
     (ev_budget e' <= ev_budget e)%nat /\
     (is_intr r = true -> (ev_budget e' < ev_budget e)%nat)) ->
  (forall e, I e -> wp t m (fun r e' => if is_ok r then Q e' else I e') e) ->
  I e -> (t = true -> (ev_budget e < fuel)%nat) ->
  wp t (r ← retry_eintr fuel m; mret (is_ok r))
    (fun b e' => ev_log e' = ev_log e ++ (if b then [ev] else []) /\
                 (ev_budget e' <= ev_budget e)%nat /\ if b then Q e' else I e') e.
Proof.
  intros Hlaw Hm Hi Ht. apply wp_bind.
  apply (wp_retry t fuel _ (fun e1 => ev_log e1 = ev_log e /\ (ev_budget e1 <= ev_budget e)%nat /\ I e1)
           ev_budget); [|done|done].
  intros e1 (Hl & Hb & Hi1). specialize (Hm e1 Hi1). unfold wp in *.
  destruct (m e1) as [[r e2]|] eqn:Hr; [|done].
  destruct (Hlaw _ _ _ Hr) as (Hl2 & Hb2 & Hin). destruct (is_intr r) eqn:Ei.
  - rewrite (intr_not_ok r Ei) in *. rewrite app_nil_r in Hl2. rewrite Hl2.
    specialize (Hin eq_refl). split_and!; [done|lia|done|lia].
  - cbn. rewrite Hl2, Hl. split_and!; [done|lia|done].
Qed.

(** Notifying, where [I] is kept. *)
Lemma notifyEvent_keeps t fuel fd (I : E -> Prop) e :
  (forall e r e', I e -> eventfd_write fd 1 e = (r, e') -> I e') ->
  I e -> (t = true -> (ev_budget e < fuel)%nat) ->
  wp t (notifyEvent fuel fd)
    (fun b e' => ev_log e' = ev_log e ++ (if b then [Notified fd] else []) /\
                 (ev_budget e' <= ev_budget e)%nat /\ I e') e.
Proof.
  intros HI Hi Ht. eapply wp_mono; [apply (event_loop_spec t fuel _ (Notified fd) I I e)|]; try done.
  - intros e1 r e2 [= Hr]. by eapply eventfd_write_law.
  - intros e1 Hi1. apply wp_call. intros r e2 Hr. assert (I e2) by (by eapply HI). by destruct (is_ok r).
  - intros b e' (Hl & Hb & Hq). split_and!; [done..|]. by destruct b.
Qed.

(** Consuming, where a read does not wait while [I] holds. *)
Lemma consumeEvent_keeps t fuel fd (I Q : E -> Prop) e :
  (forall e, I e -> wp t (eventfd_read fd : M E _) (fun r e' => if is_ok r then Q e' else I e') e) ->
  I e -> (t = true -> (ev_budget e < fuel)%nat) ->
  wp t (consumeEvent fuel fd)
    (fun b e' => ev_log e' = ev_log e ++ (if b then [Consumed fd] else []) /\
                 (ev_budget e' <= ev_budget e)%nat /\ if b then Q e' else I e') e.
Proof. apply event_loop_spec, eventfd_read_law. Qed.

Lemma notifyEvent_spec t fuel fd e :
  (t = true -> (ev_budget e < fuel)%nat) ->
  wp t (notifyEvent fuel fd)
    (fun b e' => ev_log e' = ev_log e ++ (if b then [Notified fd] else []) /\
                 (ev_budget e' <= ev_budget e)%nat) e.
Proof.
  intros Ht. eapply wp_mono; [by apply (notifyEvent_keeps t fuel fd (fun _ => True))|].
  by intros b e' (Hl & Hb & _).
Qed.

Lemma consumeEvent_spec t fuel fd e :
  (t = true -> reads_at_once (E:=E) fd) -> (t = true -> (ev_budget e < fuel)%nat) ->
  wp t (consumeEvent fuel fd)
    (fun b e' => ev_log e' = ev_log e ++ (if b then [Consumed fd] else []) /\
                 (ev_budget e' <= ev_budget e)%nat) e.
Proof.
  intros Hr Ht. eapply wp_mono; [apply (consumeEvent_keeps t fuel fd (fun _ => True) (fun _ => True))|].
  - intros e1 _. unfold wp. destruct (eventfd_read fd e1) as [[r e2]|] eqn:E1; [by destruct (is_ok r)|].
    destruct t; [|done]. by destruct (Hr eq_refl e1).
  - done.
  - done.
  - by intros b e' (Hl & Hb & _).
Qed.

End specs.

(** ** An instance: calls that fail as a script says *)

Record ScriptedEventFd := { script : list Z; log : list event }.

(** The error of the next call, [0] for success. *)
Definition scripted {A} (v : A) (ev : event) (e : ScriptedEventFd)
  : sysres A * ScriptedEventFd :=
  match script e with
  | 0 :: s => (Ok v, {| script := s; log := log e ++ [ev] |})
  | errno :: s => (Err errno, {| script := s; log := log e |})
  | [] => (Ok v, {| script := []; log := log e ++ [ev] |})
  end.

#[export] Instance scripted_api : EventFdApi ScriptedEventFd := {
  eventfd_write fd _ := scripted tt (Notified fd);
  eventfd_read fd e := Some (scripted 1 (Consumed fd) e);
}.

Lemma scripted_law {A} (v : A) ev e r e' :
  scripted v ev e = (r, e') ->
  log e' = log e ++ (if is_ok r then [ev] else []) /\
  (length (script e') <= length (script e))%nat /\
  (is_intr r = true -> (length (script e') < length (script e))%nat).
Proof.
  unfold scripted. destruct (script e) as [|[| |] s]; intros [= <- <-]; simpl;
    rewrite ?app_nil_r; split_and!; (done || lia).
Qed.

#[export] Instance scripted_laws : EventFdLaws ScriptedEventFd.
Proof.
  refine {| ev_log := log; ev_budget e := length (script e) |}.
  - intros fd. apply scripted_law.
  - intros fd e r e' [= Hr]. exact (scripted_law _ _ _ _ _ Hr).
Defined.

Lemma scripted_at_once fd : reads_at_once (E:=ScriptedEventFd) fd.
Proof. done. Qed.

(** ** Properties *)

(** C34: what the calls of [notifyEvent] and [consumeEvent] did, exactly, when finitely
    many are interrupted.  All calls but the last were interrupted, and retried; the
    last was not, and its success is the result; [true] means that the operation took
    place exactly once, [false] that it did not.  [notifyEvent] always comes back;
    [consumeEvent] does unless one of its reads waits for ever. *)
Theorem event_calls_exact {E} `{EventFdLaws E} fuel fd e :
  (ev_budget e < fuel)%nat ->
  (exists got last e', notifyEvent fuel fd e = Some (is_ok last, e') /\
     answers (call (eventfd_write fd 1)) e (got ++ [last]) e' /\
     Forall (fun r => is_intr r = true) got /\ is_intr last = false /\
     ev_log e' = ev_log e ++ (if is_ok last then [Notified fd] else [])) /\
  match consumeEvent fuel fd e with
  | Some (b, e') => exists got last, b = is_ok last /\
      answers (eventfd_read fd : M E _) e (got ++ [last]) e' /\
      Forall (fun r => is_intr r = true) got /\ is_intr last = false /\
      ev_log e' = ev_log e ++ (if is_ok last then [Consumed fd] else [])
  | None => exists got e', answers (eventfd_read fd : M E _) e got e' /\
      Forall (fun r => is_intr r = true) got /\ eventfd_read fd e' = None
  end.
Proof.
  intros Hf. split.
  - destruct (wp_total _ _ _ (notifyEvent_spec true fuel fd e (fun _ => Hf)))
      as (b & e' & Hrun & Hl & _).
    pose proof (retry_exact fuel (call (eventfd_write fd 1)) ev_budget e) as Hx.
    unfold notifyEvent, mbind, M_bind in *.
    destruct (retry_eintr fuel (call (eventfd_write fd 1)) e) as [[r e1]|]; [|done].
    injection Hrun as <- <-. destruct Hx as (got & Ha & Hg & Hr); [|done|by exists got, r, e1].
    intros e1' r' e2 [= Hr]. by eapply eventfd_write_law.
  - pose proof (consumeEvent_keeps false fuel fd (fun _ => True) (fun _ => True) e) as Hw.
    pose proof (retry_exact fuel (eventfd_read fd : M E _) ev_budget e) as Hx.
    unfold wp, consumeEvent, mbind, M_bind in *.
    destruct (retry_eintr fuel (eventfd_read fd : M E _) e) as [[r e1]|].
    + destruct Hx as (got & Ha & Hg & Hr); [|done|].
      { intros e1' r' e2 Hr. by eapply eventfd_read_law. }
      exists got, r. split_and!; try done. apply Hw; [|done|done].
      intros e2 _. destruct (eventfd_read fd e2) as [[r' ?]|]; [by destruct (is_ok r')|done].
    + apply Hx; [|done]. intros e1' r' e2 Hr. by eapply eventfd_read_law.
Qed.

Definition interrupted_twice : ScriptedEventFd := {| script := [EINTR; EINTR]; log := [] |}.

Lemma event_calls_exact_witness :
  (ev_budget interrupted_twice < 3)%nat /\
  exists got last e', notifyEvent 3 7 interrupted_twice = Some (is_ok last, e') /\
    answers (call (eventfd_write 7 1)) interrupted_twice (got ++ [last]) e' /\
    ev_log e' = ev_log interrupted_twice ++ (if is_ok last then [Notified 7] else []).
Proof.
  assert (ev_budget interrupted_twice < 3)%nat as Hb by (vm_compute; lia).
  split; [exact Hb|].
  destruct (event_calls_exact 3 7 interrupted_twice Hb) as [(got & last & e' & Hrun & Ha & _ & _ & Hl) _].
  exists got, last, e'. split; [exact Hrun|]. split; [exact Ha|exact Hl].
Defined.

End EventFd.
