(* ===== verification/Watching.v ===== *)
(** * Watching for calls that go wrong

    The theorems on the components say what success and failure mean; [Causes] and
    [ServerCauses] show that a failure has a cause.  [Watched] wraps a world and
    notes whether a call has gone wrong in a way the code gives up on; watching
    changes nothing, so the wrapped world meets the laws of the one inside.  Here are
    the wrapper, the triple for runs in which nothing goes wrong, and the event
    descriptors. *)

From S2P Require Import Prelude EventFd.
Import EventFd.

Module Watching.

(** ** Calls that go wrong *)

(** A world whose calls are watched. *)
Record Watched (W : Type) := mk_Watched { world : W; troubled : bool }.
Arguments mk_Watched {W} _ _.
Arguments world {W} _.
Arguments troubled {W} _.

Definition watch {W A} (wrong : A -> bool) (f : W -> A * W) (w : Watched W) : A * Watched W :=
  let '(r, w') := f (world w) in (r, mk_Watched w' (troubled w || wrong r)).

(** A call that may never return. *)
Definition watch_wait {W A} (wrong : A -> bool) (m : M W A) : M (Watched W) A := fun w =>
  match m (world w) with
  | Some (r, w') => Some (r, mk_Watched w' (troubled w || wrong r))
  | None => None
  end.

Definition failed {A} (r : sysres A) : bool := negb (is_ok r).
(** Of a call that is retried when interrupted. *)
Definition failed_for_good {A} (r : sysres A) : bool := negb (is_ok r) && negb (is_intr r).

#[export] Instance watched_events {E} `{EventFdApi E} : EventFdApi (Watched E) := {
  eventfd_write fd n := watch failed_for_good (eventfd_write fd n);
  eventfd_read fd := watch_wait failed_for_good (eventfd_read fd);
}.

(** Watching changes nothing: the laws carry over. *)
#[export] Instance watched_events_laws {E} `{EventFdLaws E} : EventFdLaws (Watched E).
Proof.
  refine {| ev_log w := ev_log (world w); ev_budget w := ev_budget (world w) |};
    intros fd w r w' Hw; unfold eventfd_write, eventfd_read, watched_events, watch, watch_wait in Hw.
  - destruct (eventfd_write fd 1 (world w)) as [r0 w0] eqn:E1. injection Hw as <- <-.
    exact (eventfd_write_law _ _ _ _ E1).
  - destruct (eventfd_read fd (world w)) as [[r0 w0]|] eqn:E1; [|done]. injection Hw as <- <-.
    exact (eventfd_read_law _ _ _ _ E1).
Defined.

Lemma watched_at_once {E} `{EventFdApi E} fd :
  reads_at_once (E:=E) fd -> reads_at_once (E:=Watched E) fd.
Proof.
  intros Hr w. cbn. unfold watch_wait. specialize (Hr (world w)).
  by destruct (eventfd_read fd (world w)) as [[r0 w0]|].
Qed.

(** ** Runs in which nothing goes wrong

    [smooth bad m Q s]: [m] never takes [bad] back, and where [bad] does not hold at
    the end, [Q] does. *)
Definition smooth {S A} (bad : S -> Prop) (m : M S A) (Q : A -> S -> Prop) (s : S) : Prop :=
  wp false m (fun a s' => (bad s -> bad s') /\ (~ bad s' -> Q a s')) s.

Section rules.
Context {S : Type} (bad : S -> Prop).

Lemma smooth_ret {A} (a : A) (Q : A -> S -> Prop) s : (~ bad s -> Q a s) -> smooth bad (mret a) Q s.
Proof. intros HQ. by apply wp_ret. Qed.

Lemma smooth_bind {A B} (m : M S A) (f : A -> M S B) R Q s :
  smooth bad m R s -> (forall a s', (~ bad s' -> R a s') -> smooth bad (f a) Q s') ->
  smooth bad (m ≫= f) Q s.
Proof.
  intros Hm Hf. apply wp_bind. eapply wp_mono; [exact Hm|]. intros a s1 [H1 H2]. cbn beta.
  eapply wp_mono; [by apply Hf|]. intros b s2 [H3 H4]. split; [by auto|done].
Qed.

Lemma smooth_mono {A} (m : M S A) (P Q : A -> S -> Prop) s :
  smooth bad m P s -> (forall a s', ~ bad s' -> P a s' -> Q a s') -> smooth bad m Q s.
Proof. intros Hm HPQ. eapply wp_mono; [exact Hm|]. intros a s1 [H1 H2]. split; [done|]. auto. Qed.

Lemma smooth_gets {A} (f : S -> A) (Q : A -> S -> Prop) s :
  (~ bad s -> Q (f s) s) -> smooth bad (gets f) Q s.
Proof. intros HQ. by apply wp_gets. Qed.

Lemma smooth_get (Q : S -> S -> Prop) s : (~ bad s -> Q s s) -> smooth bad get Q s.
Proof. intros HQ. by apply wp_get. Qed.

Lemma smooth_modify (f : S -> S) (Q : unit -> S -> Prop) s :
  (bad s -> bad (f s)) -> (~ bad (f s) -> Q tt (f s)) -> smooth bad (modify f) Q s.
Proof. intros Hb HQ. by apply wp_modify. Qed.

(** A step that succeeds, then the rest; the code gives up when the step fails. *)
Definition thus (G : S -> Prop) (b : bool) (s : S) : Prop := b = true /\ G s.

Lemma smooth_and (G G' : S -> Prop) m k s :
  smooth bad m (thus G) s -> (forall s', (~ bad s' -> G s') -> smooth bad k (thus G') s') ->
  smooth bad (ok ← m; if negb ok then mret false else k) (thus G') s.
Proof.
  intros Hm Hk. eapply smooth_bind; [exact Hm|]. intros ok s' H. destruct ok; cbn [negb].
  - apply Hk. intros Hb. by apply H.
  - apply smooth_ret. intros Hb. by destruct (H Hb).
Qed.

Lemma smooth_thus (G : S -> Prop) s : (~ bad s -> G s) -> smooth bad (mret true) (thus G) s.
Proof. intros HG. apply smooth_ret. intros Hb. split; auto. Qed.

Lemma smooth_fuel {A} (Q : A -> S -> Prop) s : smooth bad out_of_fuel Q s.
Proof. by apply wp_out_of_fuel. Qed.

End rules.

(** ** The event descriptors *)

Abbreviation bad_world := (fun w => troubled w = true).

(** A watched call, and one that may wait. *)
Lemma smooth_watch_wait {W A} wrong (m : M W A) w :
  smooth bad_world (watch_wait wrong m) (fun r _ => wrong r = false) w.
Proof.
  unfold smooth, wp, watch_wait. destruct (m (world w)) as [[r w']|]; [|done]. cbn [troubled].
  split; [by intros ->|]. by intros [_ H]%not_true_iff_false%orb_false_iff.
Qed.

Lemma smooth_watch {W A} wrong (f : W -> A * W) w :
  smooth bad_world (call (watch wrong f)) (fun r _ => wrong r = false) w.
Proof.
  pose proof (smooth_watch_wait wrong (call f) w) as Hs. unfold smooth, wp, watch_wait, call in *.
  unfold watch. by destruct (f (world w)).
Qed.

Lemma smooth_event {E A} (m : M (Watched E) (sysres A)) fuel e :
  (forall e, smooth bad_world m (fun r _ => failed_for_good r = false) e) ->
  smooth bad_world (r ← retry_eintr fuel m; mret (is_ok r)) (fun ok _ => ok = true) e.
Proof.
  intros Hm.
  eapply smooth_bind with (R := fun r _ => is_ok r = true); [|intros r e1 H1; by apply smooth_ret].
  revert e. induction fuel as [|n IH]; intros e; cbn [retry_eintr]; [apply smooth_fuel|].
  eapply smooth_bind; [apply Hm|].
  intros r e1 H1. destruct (is_intr r) eqn:Ei; [apply IH|]. apply smooth_ret. intros Hb.
  specialize (H1 Hb). unfold failed_for_good in H1. rewrite Ei, andb_true_r in H1. by destruct r.
Qed.

Lemma smooth_notify {E} `{EventFdApi E} fuel fd (e : Watched E) :
  smooth bad_world (notifyEvent fuel fd) (fun ok _ => ok = true) e.
Proof. apply smooth_event. intros e1. apply smooth_watch. Qed.

Lemma smooth_consume {E} `{EventFdApi E} fuel fd (e : Watched E) :
  smooth bad_world (consumeEvent fuel fd) (fun ok _ => ok = true) e.
Proof. apply smooth_event. intros e1. apply smooth_watch_wait. Qed.

Definition is_none {A} (o : option A) : bool := match o with None => true | Some _ => false end.

(** ** Giving up

    From [s] to [s'], [bad] was not taken back, and if the code [gave_up] then
    [bad] holds or there was a [cause]. *)
Definition blamed {S} (bad cause : S -> Prop) (s s' : S) (gave_up : bool) : Prop :=
  (bad s -> bad s') /\ (gave_up = true -> bad s' \/ cause s').

Lemma blamed_refl {S} (bad cause : S -> Prop) s : blamed bad cause s s false.
Proof. by split. Qed.

Lemma blamed_trans {S} (bad cause : S -> Prop) s1 s2 s3 a b :
  blamed bad cause s1 s2 a -> blamed bad cause s2 s3 b -> blamed bad cause s1 s3 b.
Proof. intros [H1 _] [H2 H3]. split; auto. Qed.

End Watching.
