(* ===== verification/FsApi.v ===== *)
(** * The file system the store runs on

    System calls are the parameter [FileApi]; [FsLaws] states what the code relies
    on, on the view [FsView] of the one directory it uses; [MemFs] is an instance. *)

From S2P Require Import Prelude.

Module FsApi.

(** Flags of [open] (Linux). *)
Definition O_RDONLY : Z := 0.
Definition O_WRONLY : Z := 1.
Definition O_CREAT : Z := 64.
Definition O_EXCL : Z := 128.
Definition O_TRUNC : Z := 512.
Definition O_APPEND : Z := 1024.
Definition O_DIRECTORY : Z := 65536.
Definition O_CLOEXEC : Z := 524288.

Definition has (flags bit : Z) : bool := negb (Z.land flags bit =? 0).

(** What the code reads of [struct stat]. *)
Record stat := { S_ISREG : bool; st_size : Z }.

(** What the code reads of [timespec]. *)
Record timespec := { tv_sec : Z; tv_nsec : Z }.

(** The calls the store makes; every result is a value or an [errno]. *)
Class FileApi (F : Type) := {
  open : string -> Z -> F -> sysres Z * F;
  openat : Z -> string -> Z -> Z -> F -> sysres Z * F;
  fstat : Z -> F -> sysres stat * F;
  ftruncate : Z -> Z -> F -> sysres unit * F;
  write : Z -> bytes -> F -> sysres Z * F;
  fdatasync : Z -> F -> sysres unit * F;
  fsync : Z -> F -> sysres unit * F;
  renameat : Z -> string -> Z -> string -> F -> sysres unit * F;
  close : Z -> F -> sysres unit * F;
  clock_gettime : F -> sysres timespec * F;
}.

(** ** The view of the directory *)

(** An open file descriptor: its file, and whether writes append. *)
Record open_file := { of_file : Z; of_append : bool }.

(** Names and the files they stand for, now and after a crash ([saved_entries]);
    contents, and how much of each survives a crash ([saved]); open descriptors. *)
Record FsView := {
  entries : gmap string Z;
  saved_entries : gmap string Z;
  files : gmap Z bytes;
  saved : gmap Z Z;
  fds : gmap Z open_file;
  dirs : gset Z;
}.

Definition content (v : FsView) (f : Z) : bytes := default [] (files v !! f).

(** The effect of each call. *)
Definition v_set_file (f : Z) (c : bytes) (n : Z) (v : FsView) : FsView :=
  {| entries := entries v; saved_entries := saved_entries v; files := <[f := c]> (files v);
     saved := <[f := n]> (saved v); fds := fds v; dirs := dirs v |}.
Definition v_set_entries (e : gmap string Z) (v : FsView) : FsView :=
  {| entries := e; saved_entries := saved_entries v; files := files v; saved := saved v;
     fds := fds v; dirs := dirs v |}.
Definition v_save_entries (v : FsView) : FsView :=
  {| entries := entries v; saved_entries := entries v; files := files v; saved := saved v;
     fds := fds v; dirs := dirs v |}.
Definition v_set_fds (m : gmap Z open_file) (v : FsView) : FsView :=
  {| entries := entries v; saved_entries := saved_entries v; files := files v;
     saved := saved v; fds := m; dirs := dirs v |}.
Definition v_set_dirs (d : gset Z) (v : FsView) : FsView :=
  {| entries := entries v; saved_entries := saved_entries v; files := files v;
     saved := saved v; fds := fds v; dirs := d |}.

Definition v_saved (v : FsView) (f : Z) : Z := default 0 (saved v !! f).

Definition v_append (f : Z) (bs : bytes) (v : FsView) : FsView :=
  v_set_file f (content v f ++ bs) (v_saved v f) v.
Definition v_sync (f : Z) (v : FsView) : FsView :=
  v_set_file f (content v f) (zlen (content v f)) v.
Definition v_truncate (f n : Z) (v : FsView) : FsView :=
  v_set_file f (ztake n (content v f)) (Z.min n (v_saved v f)) v.
Definition v_create (name : string) (f : Z) (v : FsView) : FsView :=
  v_set_entries (<[name := f]> (entries v)) (v_set_file f [] 0 v).
Definition v_open (fd f : Z) (app : bool) (v : FsView) : FsView :=
  v_set_fds (<[fd := {| of_file := f; of_append := app |}]> (fds v)) v.
Definition v_rename (old new : string) (f : Z) (v : FsView) : FsView :=
  v_set_entries (<[new := f]> (delete old (entries v))) v.
Definition v_close (fd : Z) (v : FsView) : FsView :=
  v_set_dirs (dirs v ∖ {[fd]}) (v_set_fds (delete fd (fds v)) v).

(** A descriptor number not in use. *)
Definition new_fd (v : FsView) (fd : Z) : Prop :=
  0 <= fd /\ fds v !! fd = None /\ fd ∉ dirs v.

(** ** What the code relies on, call by call *)

Definition open_post (flags : Z) (v : FsView) (r : sysres Z) (v' : FsView) : Prop :=
  match r with
  | Ok fd => has flags O_DIRECTORY = true -> new_fd v fd /\ v' = v_set_dirs ({[fd]} ∪ dirs v) v
  | Err _ => v' = v
  end.

Definition openat_post (dirfd : Z) (name : string) (flags : Z)
    (v : FsView) (r : sysres Z) (v' : FsView) : Prop :=
  match r with
  | Ok fd =>
      dirfd ∈ dirs v -> has flags O_TRUNC = false -> new_fd v fd /\
      match entries v !! name with
      | Some f => has flags O_CREAT && has flags O_EXCL = false /\
                  v' = v_open fd f (has flags O_APPEND) v
      | None => has flags O_CREAT = true /\ exists f, files v !! f = None /\
                v' = v_open fd f (has flags O_APPEND) (v_create name f v)
      end
  | Err _ => v' = v
  end.

(** A call on an open file. *)
Definition on_file {A} (fd : Z) (P : open_file -> FsView -> sysres A -> FsView -> Prop)
    (v : FsView) (r : sysres A) (v' : FsView) : Prop :=
  forall o, fds v !! fd = Some o -> P o v r v'.

Definition fstat_post (o : open_file) (v : FsView) (r : sysres stat) (v' : FsView) : Prop :=
  v' = v /\
  match r with
  | Ok st => S_ISREG st = true -> st_size st = zlen (content v (of_file o)) /\ st_size st < 2 ^ 63
  | Err _ => True
  end.

Definition ftruncate_post (n : Z) (o : open_file) (v : FsView) (r : sysres unit) (v' : FsView)
  : Prop :=
  match r with
  | Ok _ => 0 <= n <= zlen (content v (of_file o)) -> v' = v_truncate (of_file o) n v
  | Err _ => v' = v
  end.

Definition write_post (bs : bytes) (o : open_file) (v : FsView) (r : sysres Z) (v' : FsView)
  : Prop :=
  match r with
  | Ok n => 0 <= n <= zlen bs /\
            (of_append o = true -> v' = v_append (of_file o) (ztake n bs) v)
  | Err _ => v' = v
  end.

Definition fdatasync_post (o : open_file) (v : FsView) (r : sysres unit) (v' : FsView) : Prop :=
  match r with Ok _ => v' = v_sync (of_file o) v | Err _ => v' = v end.

Definition fsync_post (fd : Z) (v : FsView) (r : sysres unit) (v' : FsView) : Prop :=
  fd ∈ dirs v -> match r with Ok _ => v' = v_save_entries v | Err _ => v' = v end.

Definition renameat_post (od : Z) (old : string) (nd : Z) (new : string)
    (v : FsView) (r : sysres unit) (v' : FsView) : Prop :=
  od ∈ dirs v -> nd ∈ dirs v ->
  match r with
  | Ok _ => exists f, entries v !! old = Some f /\ v' = v_rename old new f v
  | Err _ => v' = v
  end.

(** A descriptor is gone even when [close] fails. *)
Definition close_post (fd : Z) (v : FsView) (r : sysres unit) (v' : FsView) : Prop :=
  v' = v_close fd v.

Definition clock_post (v : FsView) (r : sysres timespec) (v' : FsView) : Prop := v' = v.

(** A call [f] keeps to [post] and to the number of interruptions left. *)
Definition fs_law {F A} (view : F -> FsView) (budget : F -> nat) (f : F -> sysres A * F)
    (post : FsView -> sysres A -> FsView -> Prop) : Prop :=
  forall w r w', f w = (r, w') ->
    post (view w) r (view w') /\ (budget w' <= budget w)%nat /\
    (is_intr r = true -> (budget w' < budget w)%nat).

(** One writer: nothing changes the view but these calls. *)
Class FsLaws (F : Type) `{FileApi F} := {
  view : F -> FsView;
  budget : F -> nat;
  open_law path flags : fs_law view budget (open path flags) (open_post flags);
  openat_law d name flags mode :
    fs_law view budget (openat d name flags mode) (openat_post d name flags);
  fstat_law fd : fs_law view budget (fstat fd) (on_file fd fstat_post);
  ftruncate_law fd n : fs_law view budget (ftruncate fd n) (on_file fd (ftruncate_post n));
  write_law fd bs : fs_law view budget (write fd bs) (on_file fd (write_post bs));
  fdatasync_law fd : fs_law view budget (fdatasync fd) (on_file fd fdatasync_post);
  fsync_law fd : fs_law view budget (fsync fd) (fsync_post fd);
  renameat_law od old nd new :
    fs_law view budget (renameat od old nd new) (renameat_post od old nd new);
  close_law fd : fs_law view budget (close fd) (close_post fd);
  clock_law : fs_law view budget clock_gettime clock_post;
}.

(** ** Views: what a name holds *)

Definition file_bytes (v : FsView) (name : string) : bytes :=
  match entries v !! name with Some f => content v f | None => [] end.

(** What survives a crash under a name. *)
Definition crash_bytes (v : FsView) (name : string) : bytes :=
  match saved_entries v !! name with
  | Some f => ztake (v_saved v f) (content v f)
  | None => []
  end.

(** The files of [names] one after the other, then the active file. *)
Definition stream (v : FsView) (names : list string) (active : string) : bytes :=
  concat (map (file_bytes v) names) ++ file_bytes v active.

Definition crash_stream (v : FsView) (names : list string) (active : string) : bytes :=
  concat (map (crash_bytes v) names) ++ crash_bytes v active.

(** No two names stand for one file, and every name stands for one. *)
Definition dir_ok (v : FsView) : Prop :=
  (forall n1 n2 f, entries v !! n1 = Some f -> entries v !! n2 = Some f -> n1 = n2) /\
  (forall n f, entries v !! n = Some f -> is_Some (files v !! f) /\ is_Some (saved v !! f)).

(** ** Lemmas *)

Lemma content_set_file f c n v g :
  content (v_set_file f c n v) g = if decide (g = f) then c else content v g.
Proof.
  unfold content. simpl. case_decide as E.
  - subst. by rewrite lookup_insert_eq.
  - by rewrite lookup_insert_ne.
Qed.

Lemma saved_set_file f c n v g :
  v_saved (v_set_file f c n v) g = if decide (g = f) then n else v_saved v g.
Proof.
  unfold v_saved. simpl. case_decide as E.
  - subst. by rewrite lookup_insert_eq.
  - by rewrite lookup_insert_ne.
Qed.

Lemma file_bytes_set_file f c n v name :
  file_bytes (v_set_file f c n v) name =
  if decide (entries v !! name = Some f) then c else file_bytes v name.
Proof.
  unfold file_bytes. simpl. destruct (entries v !! name) as [g|]; [|by rewrite decide_False].
  rewrite content_set_file. do 2 case_decide; naive_solver.
Qed.

(** Writing a file back as it is changes nothing. *)
Lemma set_file_same f v :
  is_Some (files v !! f) -> is_Some (saved v !! f) ->
  v_set_file f (content v f) (v_saved v f) v = v.
Proof.
  intros [c Hc] [n Hn]. unfold v_set_file, content, v_saved. rewrite Hc, Hn. simpl.
  rewrite !insert_id by done. by destruct v.
Qed.

Lemma v_append_nil f v :
  is_Some (files v !! f) -> is_Some (saved v !! f) -> v_append f [] v = v.
Proof. intros. unfold v_append. rewrite app_nil_r. by apply set_file_same. Qed.

Lemma v_append_append f a b v : v_append f b (v_append f a v) = v_append f (a ++ b) v.
Proof.
  unfold v_append at 1. unfold v_append at 1 2. rewrite content_set_file, saved_set_file.
  rewrite !decide_True by done. unfold v_append, v_set_file. simpl.
  by rewrite !insert_insert_eq, app_assoc.
Qed.

Lemma dir_ok_set_file f c n v : dir_ok v -> dir_ok (v_set_file f c n v).
Proof.
  intros [Hi Hf]. split; [exact Hi|]. simpl. intros name g Hg.
  destruct (Hf name g Hg) as [H1 H2].
  destruct (decide (f = g)) as [->|]; [by rewrite !lookup_insert_eq|].
  by rewrite !lookup_insert_ne.
Qed.

Lemma dir_ok_create name f v :
  dir_ok v -> entries v !! name = None -> files v !! f = None -> dir_ok (v_create name f v).
Proof.
  intros [Hi Hf] Hn Hnf. assert (forall m g, entries v !! m = Some g -> g <> f) as Hne.
  { intros m g Hm ->. destruct (Hf m f Hm) as [[? ?] _]. congruence. }
  split; simpl.
  - intros n1 n2 g. rewrite !lookup_insert_Some. naive_solver.
  - intros m g. rewrite lookup_insert_Some. intros [[<- <-]|[Hm Hg]].
    + by rewrite !lookup_insert_eq.
    + rewrite !lookup_insert_ne by (intros <-; by eapply Hne). eauto.
Qed.

Lemma dir_ok_rename old new f v :
  dir_ok v -> entries v !! old = Some f -> dir_ok (v_rename old new f v).
Proof.
  intros [Hi Hf] Ho. split; simpl.
  - intros n1 n2 g. rewrite !lookup_insert_Some, !lookup_delete_Some. naive_solver.
  - intros m g. rewrite lookup_insert_Some, lookup_delete_Some. naive_solver.
Qed.

End FsApi.
