(* ===== verification/MemFs.v ===== *)
(** * An instance of the file system's interface

    A directory in memory whose calls fail, or write short, as a script says. *)

From S2P Require Import Prelude FsApi.
Import FsApi.

Module MemFs.

(** How the next call goes: it fails, or writes at most [n] bytes, or takes its
    course. *)
Inductive fault := Fail (errno : Z) | Short (n : Z) | Pass.

(** The directory, the script, and the nanosecond the clock shows. *)
Record MemFs := { mview : FsView; faults : list fault; ticks : Z }.

Definition ENOENT : Z := 2.
Definition EBADF : Z := 9.
Definition EOVERFLOW : Z := 75.

(** A number not in use. *)
Definition unused (used : gset Z) : Z := Z.of_nat (fresh (set_map Z.to_nat used : gset nat)).

Lemma unused_spec used : 0 <= unused used /\ unused used ∉ used.
Proof.
  unfold unused. split; [lia|]. intros Hin.
  apply (is_fresh (set_map Z.to_nat used : gset nat)). apply elem_of_map.
  eexists. split; [|exact Hin]. by rewrite Nat2Z.id.
Qed.

Definition spare_fd (v : FsView) : Z := unused (dom (fds v) ∪ dirs v).

Lemma spare_fd_new v : new_fd v (spare_fd v).
Proof.
  destruct (unused_spec (dom (fds v) ∪ dirs v)) as [H0 Hn]. unfold new_fd, spare_fd.
  apply not_elem_of_union in Hn as [Hn1 Hn2]. split_and!; [done| |done].
  by apply not_elem_of_dom.
Qed.

Definition spare_file (v : FsView) : Z := unused (dom (files v)).

Lemma spare_file_new v : files v !! spare_file v = None.
Proof. apply not_elem_of_dom. apply unused_spec. Qed.

(** A call whose course is [f], given the bytes it may write. *)
Definition step {A} (f : option Z -> FsView -> sysres A * FsView) (w : MemFs)
  : sysres A * MemFs :=
  let go limit rest :=
    let '(r, v) := f limit (mview w) in
    (r, {| mview := v; faults := rest; ticks := ticks w + 1 |}) in
  match faults w with
  | Fail e :: rest => (Err e, {| mview := mview w; faults := rest; ticks := ticks w + 1 |})
  | Short n :: rest => go (Some n) rest
  | Pass :: rest => go None rest
  | [] => go None []
  end.

(** On an open file. *)
Definition on_fd {A} (fd : Z) (f : open_file -> option Z -> FsView -> sysres A * FsView)
    (limit : option Z) (v : FsView) : sysres A * FsView :=
  match fds v !! fd with
  | Some o => f o limit v
  | None => (Err EBADF, v)
  end.

Definition do_open (flags : Z) (_ : option Z) (v : FsView) : sysres Z * FsView :=
  (Ok (spare_fd v), v_set_dirs ({[spare_fd v]} ∪ dirs v) v).

Definition do_openat (name : string) (flags : Z) (_ : option Z) (v : FsView) : sysres Z * FsView :=
  match entries v !! name with
  | Some f =>
      if has flags O_CREAT && has flags O_EXCL then (Err EEXIST, v)
      else (Ok (spare_fd v), v_open (spare_fd v) f (has flags O_APPEND) v)
  | None =>
      if has flags O_CREAT then
        (Ok (spare_fd v),
         v_open (spare_fd v) (spare_file v) (has flags O_APPEND) (v_create name (spare_file v) v))
      else (Err ENOENT, v)
  end.

Definition do_fstat (o : open_file) (_ : option Z) (v : FsView) : sysres stat * FsView :=
  let n := zlen (content v (of_file o)) in
  if n <? 2 ^ 63 then (Ok {| S_ISREG := true; st_size := n |}, v) else (Err EOVERFLOW, v).

Definition do_ftruncate (n : Z) (o : open_file) (_ : option Z) (v : FsView)
  : sysres unit * FsView :=
  (Ok tt, v_truncate (of_file o) n v).

Definition do_write (bs : bytes) (o : open_file) (limit : option Z) (v : FsView)
  : sysres Z * FsView :=
  let n := match limit with Some n => Z.min (Z.max 0 n) (zlen bs) | None => zlen bs end in
  (Ok n, v_append (of_file o) (ztake n bs) v).

Definition do_sync (o : open_file) (_ : option Z) (v : FsView) : sysres unit * FsView :=
  (Ok tt, v_sync (of_file o) v).

Definition do_rename (old new : string) (_ : option Z) (v : FsView) : sysres unit * FsView :=
  match entries v !! old with
  | Some f => (Ok tt, v_rename old new f v)
  | None => (Err ENOENT, v)
  end.

(** [close] drops the descriptor even when it reports an error. *)
Definition do_close (fd : Z) (w : MemFs) : sysres unit * MemFs :=
  let '(r, w') := step (fun _ v => (Ok tt, v)) w in
  (r, {| mview := v_close fd (mview w'); faults := faults w'; ticks := ticks w' |}).

Definition do_clock (w : MemFs) : sysres timespec * MemFs :=
  step (fun _ v => (Ok {| tv_sec := 1700000000; tv_nsec := ticks w |}, v)) w.

#[export] Instance memfs_api : FileApi MemFs := {
  open _ flags := step (do_open flags);
  openat _ name flags _ := step (do_openat name flags);
  fstat fd := step (on_fd fd do_fstat);
  ftruncate fd n := step (on_fd fd (do_ftruncate n));
  write fd bs := step (on_fd fd (do_write bs));
  fdatasync fd := step (on_fd fd do_sync);
  fsync fd := step (fun _ v => (Ok tt, v_save_entries v));
  renameat _ old _ new := step (do_rename old new);
  close := do_close;
  clock_gettime := do_clock;
}.

Definition mbudget (w : MemFs) : nat := length (faults w).

(** A course that meets its post-condition, never fails with [EINTR], and whose
    post-condition lets any error change nothing, makes a lawful call. *)
Lemma step_law {A} (f : option Z -> FsView -> sysres A * FsView) post :
  (forall limit v r v', f limit v = (r, v') -> post v r v' /\ is_intr r = false) ->
  (forall v e, post v (Err e) v) -> fs_law mview mbudget (step f) post.
Proof.
  intros Hf He w r w'. unfold step, mbudget.
  destruct (faults w) as [|[e|n|] rest]; cbn [length].
  - destruct (f None (mview w)) as [r0 v0] eqn:E. intros [= <- <-].
    destruct (Hf _ _ _ _ E) as [? ->]. cbn. split_and!; (done || lia).
  - intros [= <- <-]. cbn. split_and!; [apply He|lia|lia].
  - destruct (f (Some n) (mview w)) as [r0 v0] eqn:E. intros [= <- <-].
    destruct (Hf _ _ _ _ E) as [? ->]. cbn. split_and!; (done || lia).
  - destruct (f None (mview w)) as [r0 v0] eqn:E. intros [= <- <-].
    destruct (Hf _ _ _ _ E) as [? ->]. cbn. split_and!; (done || lia).
Qed.

Lemma on_fd_law {A} fd (f : open_file -> option Z -> FsView -> sysres A * FsView) P :
  (forall o limit v r v', f o limit v = (r, v') -> P o v r v' /\ is_intr r = false) ->
  (forall o v e, P o v (Err e) v) ->
  fs_law mview mbudget (step (on_fd fd f)) (on_file fd P).
Proof.
  intros Hf He. apply step_law; [|intros v e o Ho; apply He].
  intros limit v r v'. unfold on_fd. destruct (fds v !! fd) as [o|] eqn:E.
  - intros H. destruct (Hf _ _ _ _ _ H) as [? ?]. split; [|done]. intros o' Ho'.
    by rewrite E in Ho'; injection Ho' as <-.
  - intros [= <- <-]. split; [|done]. intros o Ho. congruence.
Qed.

#[export] Instance memfs_laws : FsLaws MemFs.
Proof.
  refine {| view := mview; budget := mbudget |}; intros.
  - apply step_law; [|done]. intros limit v r v' [= <- <-]. split; [|done].
    intros _. split; [apply spare_fd_new|done].
  - apply step_law; [|done]. intros limit v r v'. unfold do_openat, openat_post.
    destruct (entries v !! name) as [f|] eqn:E.
    + destruct (_ && _) eqn:Eb; intros [= <- <-]; (split; [|done]); [done|].
      intros _ _. split; [apply spare_fd_new|done].
    + destruct (has flags O_CREAT) eqn:Eb; intros [= <- <-]; (split; [|done]); [|done].
      intros _ _. split; [apply spare_fd_new|]. split; [done|].
      exists (spare_file v). split; [apply spare_file_new|done].
  - apply on_fd_law; [|done]. intros o limit v r v'. unfold do_fstat, fstat_post.
    destruct (Z.ltb_spec (zlen (content v (of_file o))) (2 ^ 63)); intros [= <- <-]; done.
  - apply on_fd_law; [|done]. intros o limit v r v' [= <- <-]. done.
  - apply on_fd_law; [|done]. intros o limit v r v' [= <- <-]. split; [|done].
    split; [|done]. pose proof (zlen_nonneg bs). destruct limit; lia.
  - apply on_fd_law; [|done]. intros o limit v r v' [= <- <-]. done.
  - apply step_law; [|done]. intros limit v r v' [= <- <-]. done.
  - apply step_law; [|done]. intros limit v r v'. unfold do_rename, renameat_post.
    destruct (entries v !! old) as [f|] eqn:E; intros [= <- <-]; (split; [|done]); [|done].
    intros _ _. by exists f.
  - intros w r w'. cbn [close memfs_api]. unfold do_close.
    destruct (step (fun _ v => (Ok tt, v)) w) as [r0 w0] eqn:E. intros [= <- <-].
    destruct (step_law (fun _ v => (Ok tt, v)) (fun v _ v' => v' = v)
      ltac:(intros ???? [= <- <-]; done) ltac:(done) _ _ _ E) as (Hv & Hb & Hi).
    split; [|done]. unfold close_post. cbn [mview]. by rewrite Hv.
  - intros w r w' E. cbn [clock_gettime memfs_api] in E. unfold do_clock in E.
    by apply (step_law (fun _ v => (Ok {| tv_sec := 1700000000; tv_nsec := ticks w |}, v))
      (fun v _ v' => v' = v) ltac:(intros ???? [= <- <-]; done) ltac:(done) _ _ _ E).
Defined.

End MemFs.
