(* ===== verification/FileStore.v ===== *)
(** * Storage: the file store

    [Storage/include/FileStore.hpp] and [Storage/src/FileStore.cpp], every member
    function, over the system calls of [FsApi].  Diagnostics on [std::cerr] and
    [std::cout] are left out. *)

From Stdlib Require Import Ascii.
From S2P Require Import Prelude Codec Frames Charconv FsApi MemFs.
Import Codec Frames Charconv FsApi MemFs.

Module FileStore.

Record FileStoreConfig := { maxSegmentBytes : Z; syncEveryBytes : Z }.

(** [FileStoreConfig{}]. *)
Definition default_config : FileStoreConfig :=
  {| maxSegmentBytes := 64 * 1024 * 1024; syncEveryBytes := 1 * 1024 * 1024 |}.

Record FileStore := {
  m_config : FileStoreConfig;
  m_fd : Z;
  m_directoryFd : Z;
  m_directoryPath : string;
  m_fileName : string;
  m_currentSize : Z;
  m_unsyncedBytes : Z;
  m_rotationSequence : Z;
}.

(** The constructor. *)
Definition new_store (config : FileStoreConfig) : FileStore :=
  {| m_config := config; m_fd := -1; m_directoryFd := -1; m_directoryPath := EmptyString;
     m_fileName := EmptyString; m_currentSize := 0; m_unsyncedBytes := 0;
     m_rotationSequence := 0 |}.

Definition set_fd (fd : Z) (s : FileStore) : FileStore :=
  {| m_config := m_config s; m_fd := fd; m_directoryFd := m_directoryFd s;
     m_directoryPath := m_directoryPath s; m_fileName := m_fileName s;
     m_currentSize := m_currentSize s; m_unsyncedBytes := m_unsyncedBytes s;
     m_rotationSequence := m_rotationSequence s |}.
Definition set_directory (fd : Z) (path name : string) (s : FileStore) : FileStore :=
  {| m_config := m_config s; m_fd := m_fd s; m_directoryFd := fd;
     m_directoryPath := path; m_fileName := name;
     m_currentSize := m_currentSize s; m_unsyncedBytes := m_unsyncedBytes s;
     m_rotationSequence := m_rotationSequence s |}.
Definition set_current (n : Z) (s : FileStore) : FileStore :=
  {| m_config := m_config s; m_fd := m_fd s; m_directoryFd := m_directoryFd s;
     m_directoryPath := m_directoryPath s; m_fileName := m_fileName s;
     m_currentSize := n; m_unsyncedBytes := m_unsyncedBytes s;
     m_rotationSequence := m_rotationSequence s |}.
Definition set_unsynced (n : Z) (s : FileStore) : FileStore :=
  {| m_config := m_config s; m_fd := m_fd s; m_directoryFd := m_directoryFd s;
     m_directoryPath := m_directoryPath s; m_fileName := m_fileName s;
     m_currentSize := m_currentSize s; m_unsyncedBytes := n;
     m_rotationSequence := m_rotationSequence s |}.
Definition set_sequence (n : Z) (s : FileStore) : FileStore :=
  {| m_config := m_config s; m_fd := m_fd s; m_directoryFd := m_directoryFd s;
     m_directoryPath := m_directoryPath s; m_fileName := m_fileName s;
     m_currentSize := m_currentSize s; m_unsyncedBytes := m_unsyncedBytes s;
     m_rotationSequence := n |}.

(** ** [std::filesystem::path] *)

Definition slash : ascii := "/"%char.

Fixpoint has_slash (s : string) : bool :=
  match s with
  | EmptyString => false
  | String c s => Ascii.eqb c slash || has_slash s
  end.

(** [path::filename()]: what follows the last slash. *)
Fixpoint filename (s : string) : string :=
  match s with
  | EmptyString => EmptyString
  | String c s' =>
      if has_slash s' then filename s'
      else if Ascii.eqb c slash then s' else String c s'
  end.

(** What precedes the file name, slashes included. *)
Fixpoint directory_part (s : string) : string :=
  match s with
  | EmptyString => EmptyString
  | String c s' =>
      if has_slash s' then String c (directory_part s')
      else if Ascii.eqb c slash then String c EmptyString else EmptyString
  end.

(** [s] without its trailing slashes. *)
Fixpoint strip_slashes (s : string) : string :=
  match s with
  | EmptyString => EmptyString
  | String c s' =>
      match strip_slashes s' with
      | EmptyString => if Ascii.eqb c slash then EmptyString else String c EmptyString
      | rest => String c rest
      end
  end.

(** [path::parent_path()]: a path of slashes only stays the root. *)
Definition parent_path (s : string) : string :=
  match directory_part s with
  | EmptyString => EmptyString
  | dir =>
      match strip_slashes dir with
      | EmptyString => String slash EmptyString
      | parent => parent
      end
  end.

(** ** Operations *)

Definition validateConfig (c : FileStoreConfig) : bool :=
  if maxSegmentBytes c <? kFrameSize then false
  else if negb (maxSegmentBytes c mod kFrameSize =? 0) then false
  else if negb (syncEveryBytes c =? 0) && (maxSegmentBytes c <? syncEveryBytes c) then false
  else true.

(** [fileName + "." + sec + "." + nsec + "." + sequence + ".segment"]. *)
Definition archive_name (fileName : string) (time : timespec) (sequence : Z) : string :=
  fileName +:+ "." +:+ to_string (tv_sec time) +:+ "." +:+ to_string (tv_nsec time) +:+ "."
  +:+ to_string sequence +:+ ".segment".

(** The store and the world its calls act on. *)
Record St (F : Type) := mk_St { store : FileStore; fs : F }.
Arguments mk_St {F} _ _.
Arguments store {F} _.
Arguments fs {F} _.

Section operations.
Context {F : Type} `{FileApi F}.

(** The bound on the iterations of each loop. *)
Variable fuel : nat.

Definition set_fs (w : F) (s : St F) : St F := mk_St (store s) w.

Definition sys {A} (f : F -> A * F) : M (St F) A := lift fs set_fs (call f).

Definition this {A} (f : FileStore -> A) : M (St F) A := gets (fun s => f (store s)).

Definition set {A} (f : A -> FileStore -> FileStore) (x : A) : M (St F) unit :=
  modify (fun s => mk_St (f x (store s)) (fs s)).

Definition sync : M (St F) bool :=
  fd ← this m_fd;
  if fd =? -1 then mret false
  else
    r ← retry_eintr fuel (sys (fdatasync fd));
    match r with
    | Ok _ =>
        set set_unsynced 0;;; mret true
    | Err _ => mret false
    end.

Definition syncDirectory : M (St F) bool :=
  fd ← this m_directoryFd;
  if fd =? -1 then mret false
  else r ← retry_eintr fuel (sys (fsync fd)); mret (is_ok r).

Definition makeArchiveName : M (St F) string :=
  r ← sys clock_gettime;
  match r with
  | Err _ => mret EmptyString
  | Ok time =>
      name ← this m_fileName;
      sequence ← this m_rotationSequence;
      set set_sequence (u64 (sequence + 1));;;
      mret (archive_name name time sequence)
  end.

Definition closeActiveFile : M (St F) bool :=
  fd ← this m_fd;
  if fd =? -1 then mret true
  else
    set set_fd (-1);;;
    r ← sys (close fd);
    mret (is_ok r).

Definition recoverPartialFrame : M (St F) bool :=
  fd ← this m_fd;
  r ← sys (fstat fd);
  match r with
  | Err _ => mret false
  | Ok status =>
      if negb (S_ISREG status) then mret false
      else if st_size status <? 0 then mret false
      else
        let remainder := st_size status mod kFrameSize in
        let validSize := st_size status - remainder in
        ok ← (if remainder =? 0 then mret true
              else
                r ← sys (ftruncate fd validSize);
                if is_ok r then sync else mret false);
        if negb ok then mret false
        else set set_current validSize;;; mret true
  end.

Definition append_flags : Z := Z.lor O_WRONLY (Z.lor O_APPEND O_CLOEXEC).
Definition create_flags : Z := Z.lor append_flags (Z.lor O_CREAT O_EXCL).

Definition openActiveFile : M (St F) bool :=
  dirfd ← this m_directoryFd;
  name ← this m_fileName;
  r ← sys (openat dirfd name create_flags 416);
  opened ← match r with
    | Ok fd => set set_fd fd;;; mret (Some true)
    | Err e =>
        set set_fd (-1);;;
        if e =? EEXIST then
          r ← sys (openat dirfd name append_flags 0);
          match r with
          | Ok fd => set set_fd fd;;; mret (Some false)
          | Err _ => mret None
          end
        else mret None
    end;
  match opened with
  | None => mret false
  | Some created =>
      ok ← (if (created : bool) then syncDirectory else mret true);
      if negb ok then mret false else recoverPartialFrame
  end.

Definition openDirectory (path : string) : M (St F) bool :=
  match filename path with
  | EmptyString => mret false
  | fileName =>
      let parent := match parent_path path with EmptyString => "." | p => p end in
      r ← sys (open parent (Z.lor O_RDONLY (Z.lor O_DIRECTORY O_CLOEXEC)));
      match r with
      | Err _ => set (fun fd => set_directory fd parent fileName) (-1);;; mret false
      | Ok fd => set (fun fd => set_directory fd parent fileName) fd;;; mret true
      end
  end.

Definition openFile (path : string) : M (St F) bool :=
  fd ← this m_fd;
  dirfd ← this m_directoryFd;
  if negb (fd =? -1) || negb (dirfd =? -1) then mret false
  else
    config ← this m_config;
    if negb (validateConfig config) then mret false
    else
      ok ← openDirectory path;
      if negb ok then mret false else openActiveFile.

Definition rotate : M (St F) bool :=
  fd ← this m_fd;
  if fd =? -1 then mret false
  else
    ok ← sync;
    if negb ok then mret false
    else
      ok ← closeActiveFile;
      if negb ok then mret false
      else
        archiveName ← makeArchiveName;
        match archiveName with
        | EmptyString => mret false
        | _ =>
            dirfd ← this m_directoryFd;
            name ← this m_fileName;
            r ← sys (renameat dirfd name dirfd archiveName);
            if negb (is_ok r) then mret false
            else
              ok ← syncDirectory;
              if negb ok then mret false
              else
                set set_current 0;;;
                set set_unsynced 0;;;
                openActiveFile
        end.

(** The inner loop of [appendFrames]: write [chunkBytes] bytes of [frames] from
    [offset], [writtenBytes] of them done. *)
Fixpoint write_loop (n : nat) (frames : bytes) (offset writtenBytes chunkBytes : Z)
  : M (St F) bool :=
  match n with
  | O => out_of_fuel
  | S n =>
      if writtenBytes <? chunkBytes then
        fd ← this m_fd;
        r ← sys (write fd (zslice (offset + writtenBytes) (chunkBytes - writtenBytes) frames));
        match r with
        | Ok written =>
            if 0 <? written
            then write_loop n frames offset (u64 (writtenBytes + written)) chunkBytes
            else mret false
        | Err e =>
            if e =? EINTR then write_loop n frames offset writtenBytes chunkBytes
            else mret false
        end
      else mret true
  end.

(** [chunkBytes], rounded up to the frame that reaches the sync interval. *)
Definition chunk_size (syncEvery unsynced room : Z) : Z :=
  let untilSync := u64 (syncEvery - unsynced) in
  if untilSync <? room
  then u64 (u64 (1 + u64 (untilSync - 1) / kFrameSize) * kFrameSize)
  else room.

(** The steps of one iteration of [appendFrames]: rotate when the segment is full, *)
Definition rotate_if_full : M (St F) bool :=
  s ← this id;
  if maxSegmentBytes (m_config s) <=? m_currentSize s then rotate else mret true.

(** sync when the interval is reached (before and after the write), *)
Definition sync_if_due : M (St F) bool :=
  s ← this id;
  if negb (syncEveryBytes (m_config s) =? 0) &&
     (syncEveryBytes (m_config s) <=? m_unsyncedBytes s)
  then sync else mret true.

(** write one chunk and account for it. *)
Definition write_chunk (frames : bytes) (offset chunkBytes : Z) : M (St F) bool :=
  ok ← write_loop fuel frames offset 0 chunkBytes;
  if negb ok then mret false
  else
    s ← this id;
    set set_current (u64 (m_currentSize s + chunkBytes));;;
    set set_unsynced (u64 (m_unsyncedBytes s + chunkBytes));;;
    sync_if_due.

(** The outer loop of [appendFrames]. *)
Fixpoint append_loop (n : nat) (frames : bytes) (offset : Z) : M (St F) bool :=
  match n with
  | O => out_of_fuel
  | S n =>
      if offset <? zlen frames then
        ok ← rotate_if_full;
        if negb ok then mret false
        else
          ok ← sync_if_due;
          if negb ok then mret false
          else
            s ← this id;
            let remainingSegmentBytes := u64 (maxSegmentBytes (m_config s) - m_currentSize s) in
            let room := Z.min (zlen frames - offset) remainingSegmentBytes in
            let syncEvery := syncEveryBytes (m_config s) in
            let chunkBytes :=
              if syncEvery =? 0 then room else chunk_size syncEvery (m_unsyncedBytes s) room in
            ok ← write_chunk frames offset chunkBytes;
            if negb ok then mret false
            else append_loop n frames (u64 (offset + chunkBytes))
      else mret true
  end.

Definition appendFrames (frames : bytes) : M (St F) bool :=
  fd ← this m_fd;
  if fd =? -1 then mret false
  else if (zlen frames =? 0) || negb (zlen frames mod kFrameSize =? 0) then mret false
  else append_loop fuel frames 0.

Definition appendFrame (frame : bytes) : M (St F) bool := appendFrames frame.

(** The destructor. *)
Definition destroy : M (St F) unit :=
  fd ← this m_fd;
  dirfd ← this m_directoryFd;
  (if fd =? -1 then mret tt else r ← sys (close fd); mret tt);;;
  (if dirfd =? -1 then mret tt else r ← sys (close dirfd); mret tt).

End operations.

(** ** The segmented log a store keeps *)

(** Sealed segments, the active one, and the bytes appended to it since the last
    sync. *)
Record Log := { sealed : list bytes; active : bytes; unsynced : Z }.

Definition log_stream (l : Log) : bytes := concat (sealed l) ++ active l.

(** The sync interval is on and [u] bytes reach it. *)
Definition reached (c : FileStoreConfig) (u : Z) : bool :=
  negb (syncEveryBytes c =? 0) && (syncEveryBytes c <=? u).

(** Seal a full segment; it is synced. *)
Definition seal (c : FileStoreConfig) (l : Log) : Log :=
  if maxSegmentBytes c <=? zlen (active l)
  then {| sealed := sealed l ++ [active l]; active := []; unsynced := 0 |}
  else l.

(** Sync when the interval is reached. *)
Definition synced (c : FileStoreConfig) (l : Log) : Log :=
  if reached c (unsynced l)
  then {| sealed := sealed l; active := active l; unsynced := 0 |}
  else l.

Definition put_bytes (b : bytes) (l : Log) : Log :=
  {| sealed := sealed l; active := active l ++ b; unsynced := unsynced l + zlen b |}.

(** Append one frame. *)
Definition log_append (c : FileStoreConfig) (l : Log) (frame : bytes) : Log :=
  synced c (put_bytes frame (synced c (seal c l))).

(** The log on disk. *)
Definition log_of (s : FileStore) (v : FsView) (arch : list string) : Log :=
  {| sealed := map (file_bytes v) arch; active := file_bytes v (m_fileName s);
     unsynced := m_unsyncedBytes s |}.

(** ** The store's invariant *)

Definition config_ok (c : FileStoreConfig) : Prop :=
  validateConfig c = true /\ maxSegmentBytes c < 2 ^ 64 /\ 0 <= syncEveryBytes c.

(** What holds of the directory whether or not the active file is open: [arch]
    names the archives made so far, each whole frames, full and durable, in the order
    of their sequence numbers; any other name is the active file's or [reserved]. *)
Record dir_inv (reserved : string -> Prop) (s : FileStore) (v : FsView) (arch : list string)
  : Prop := {
  di_config : config_ok (m_config s);
  di_dirfd : m_directoryFd s ∈ dirs v /\ m_directoryFd s <> -1;
  di_view : dir_ok v;
  di_nodup : NoDup arch;
  di_file : m_fileName s ∉ arch;
  di_arch a : a ∈ arch -> exists g, entries v !! a = Some g /\
    (kFrameSize | zlen (content v g)) /\ maxSegmentBytes (m_config s) <= zlen (content v g) /\
    v_saved v g = zlen (content v g);
  di_names name f : entries v !! name = Some f ->
    name = m_fileName s \/ reserved name \/ name ∈ arch;
  di_numbers i a : arch !! i = Some a ->
    exists t, a = archive_name (m_fileName s) t (Z.of_nat i);
  di_sequence : m_rotationSequence s = Z.of_nat (length arch);
}.

(** The active file is open, with the sizes the store keeps for it. *)
Record active_inv (s : FileStore) (v : FsView) (f : Z) : Prop := {
  ai_fd : m_fd s <> -1 /\ m_fd s ∉ dirs v;
  ai_open : fds v !! m_fd s = Some {| of_file := f; of_append := true |};
  ai_entry : entries v !! m_fileName s = Some f;
  ai_size : m_currentSize s = zlen (content v f) /\ zlen (content v f) < 2 ^ 64;
  ai_frames : (kFrameSize | zlen (content v f));
  ai_unsynced : 0 <= m_unsyncedBytes s <= m_currentSize s /\ (kFrameSize | m_unsyncedBytes s);
  ai_saved : zlen (content v f) - m_unsyncedBytes s <= v_saved v f <= zlen (content v f);
}.

Definition store_inv (reserved : string -> Prop) (s : FileStore) (v : FsView)
    (arch : list string) : Prop :=
  dir_inv reserved s v arch /\ saved_entries v = entries v /\ exists f, active_inv s v f.

(** [arch] is all the archives of [file] in the directory, oldest first: they exist,
    the [i]th has the sequence number [i], and any other name is [file]'s or
    [reserved]. *)
Definition all_archives (reserved : string -> Prop) (file : string) (v : FsView)
    (arch : list string) : Prop :=
  NoDup arch /\ file ∉ arch /\
  (forall name f, entries v !! name = Some f -> name = file \/ reserved name \/ name ∈ arch) /\
  (forall i a, arch !! i = Some a ->
     is_Some (entries v !! a) /\ exists t, a = archive_name file t (Z.of_nat i)).

(** The complete frames of a file. *)
Definition whole (c : bytes) : bytes := ztake (zlen c - zlen c mod kFrameSize) c.

(** What no operation changes. *)
Definition same_place (s s' : FileStore) : Prop :=
  m_config s' = m_config s /\ m_directoryFd s' = m_directoryFd s /\
  m_fileName s' = m_fileName s /\ m_directoryPath s' = m_directoryPath s.

(** ** Archive names *)

(** The sequence number of an archive is in its name. *)
Lemma archive_name_inj file t1 t2 q1 q2 :
  archive_name file t1 q1 = archive_name file t2 q2 ->
  tv_sec t1 = tv_sec t2 /\ tv_nsec t1 = tv_nsec t2 /\ q1 = q2.
Proof.
  unfold archive_name. intros E%string_app_inj_l%string_app_inj_l.
  apply to_string_app_inj in E as [Es E]; [|done|done]. apply string_app_inj_l in E.
  apply to_string_app_inj in E as [En E]; [|done|done]. apply string_app_inj_l in E.
  apply to_string_app_inj in E as [Eq _]; done.
Qed.

Lemma archive_name_not_file file t q : archive_name file t q <> file.
Proof.
  intros E. apply (f_equal String.length) in E. unfold archive_name in E.
  rewrite !string_length_app in E. simpl in E. lia.
Qed.

Lemma archive_name_nonempty file t q : archive_name file t q <> EmptyString.
Proof.
  intros E. apply (f_equal String.length) in E. unfold archive_name in E.
  rewrite !string_length_app in E. simpl in E. lia.
Qed.

(** ** Chunks and the log *)

(** A chunk is whole frames, stays in the room left, and is the shortest that
    reaches the sync interval if the room allows. *)
Lemma chunk_size_spec c u room :
  0 < syncEveryBytes c < 2 ^ 64 -> 0 <= u < syncEveryBytes c ->
  0 < room < 2 ^ 64 -> (kFrameSize | room) ->
  let n := chunk_size (syncEveryBytes c) u room in
  0 < n <= room /\ (kFrameSize | n) /\ u + n < syncEveryBytes c + kFrameSize /\
  (n = room \/ syncEveryBytes c <= u + n).
Proof.
  intros Hs Hu Hr [k ->]. unfold chunk_size.
  rewrite (u64_small (syncEveryBytes c - u)) by lia.
  destruct (Z.ltb_spec (syncEveryBytes c - u) (k * kFrameSize)) as [Hlt|Hge]; cbv zeta.
  - set (d := syncEveryBytes c - u) in *. rewrite (u64_small (d - 1)) by lia.
    assert (0 <= (d - 1) / kFrameSize < k) by (unfold kFrameSize in *; div_lia).
    rewrite (u64_small (1 + _)) by (unfold kFrameSize in *; lia).
    rewrite u64_small by (unfold kFrameSize in *; nia).
    split_and!.
    + unfold kFrameSize in *. lia.
    + unfold kFrameSize in *. nia.
    + apply Z.divide_factor_r.
    + unfold kFrameSize in *. subst d. div_lia.
    + right. unfold kFrameSize in *. subst d. div_lia.
  - split_and!; try (unfold kFrameSize in *; lia). apply Z.divide_factor_r.
Qed.

Lemma seal_room c l : zlen (active l) < maxSegmentBytes c -> seal c l = l.
Proof. intros H. unfold seal. destruct (Z.leb_spec (maxSegmentBytes c) (zlen (active l))); [lia|done]. Qed.

Lemma seal_active c l : 0 < maxSegmentBytes c -> zlen (active (seal c l)) < maxSegmentBytes c.
Proof.
  intros Hm. unfold seal.
  destruct (Z.leb_spec (maxSegmentBytes c) (zlen (active l))); [exact Hm|done].
Qed.

Lemma synced_early c l : reached c (unsynced l) = false -> synced c l = l.
Proof. intros H. unfold synced. by rewrite H. Qed.

Lemma synced_unsynced c l :
  0 <= syncEveryBytes c -> reached c (unsynced (synced c l)) = false.
Proof.
  intros H. unfold synced. destruct (reached c (unsynced l)) eqn:E; [|done].
  unfold reached. cbn [unsynced]. lia.
Qed.

Lemma synced_active c l : active (synced c l) = active l.
Proof. unfold synced. by destruct (reached _ _). Qed.

Lemma log_append_prepared c l b :
  0 < maxSegmentBytes c -> 0 <= syncEveryBytes c ->
  log_append c (synced c (seal c l)) b = log_append c l b.
Proof.
  intros Hm Hs. unfold log_append. do 2 f_equal.
  rewrite seal_room by (rewrite synced_active; by apply seal_active).
  apply synced_early. by apply synced_unsynced.
Qed.

(** Appending the frames of a chunk one by one: no seal, and at most one sync, at
    its end. *)
Lemma log_append_chunk c n b l :
  (0 < n)%nat -> zlen b = Z.of_nat n * kFrameSize ->
  zlen (active l) + zlen b <= maxSegmentBytes c ->
  reached c (unsynced l) = false ->
  (syncEveryBytes c = 0 \/ unsynced l + zlen b < syncEveryBytes c + kFrameSize) ->
  fold_left (log_append c) (split_frames n b) l = synced c (put_bytes b l).
Proof.
  revert b l. induction n as [|n IH]; [lia|]. intros b l _ Hb Hmax Hu Hs.
  assert (zlen (ztake kFrameSize b) = kFrameSize) as Et
    by (rewrite zlen_take; unfold kFrameSize in *; lia).
  assert (zlen (zdrop kFrameSize b) = Z.of_nat n * kFrameSize) as Ed
    by (rewrite zlen_drop; unfold kFrameSize in *; lia).
  cbn [split_frames fold_left]. unfold log_append at 2.
  rewrite seal_room by (unfold kFrameSize in *; lia). rewrite (synced_early c l) by done.
  destruct n as [|n].
  - assert (ztake kFrameSize b = b) as -> by (apply ztake_ge; lia). done.
  - assert (reached c (unsynced l + kFrameSize) = false) as Hr.
    { unfold reached. destruct Hs as [->|Hs]; [done|]. unfold kFrameSize in *. lia. }
    rewrite synced_early by (cbn [put_bytes unsynced]; by rewrite Et).
    rewrite IH; cbn [put_bytes sealed active unsynced]; rewrite ?Et; try done; try lia.
    + unfold put_bytes. cbn [sealed active unsynced].
      rewrite <- app_assoc, ztake_zdrop, Et, Ed. do 2 f_equal. unfold kFrameSize in *. lia.
    + rewrite zlen_app, Et, Ed. unfold kFrameSize in *. lia.
Qed.

(** A chunk that fits, appended after sealing and syncing as needed, is its frames
    appended one by one. *)
Lemma log_append_frames c b l :
  let l' := synced c (seal c l) in
  0 < maxSegmentBytes c -> 0 <= syncEveryBytes c -> 0 < zlen b -> (kFrameSize | zlen b) ->
  zlen (active l') + zlen b <= maxSegmentBytes c ->
  (syncEveryBytes c = 0 \/ unsynced l' + zlen b < syncEveryBytes c + kFrameSize) ->
  fold_left (log_append c) (frames_of b) l = synced c (put_bytes b l').
Proof.
  intros l' Hm Hs Hb [k Hk] Hfit Hsy. unfold frames_of. rewrite Hk, Z.div_mul by done.
  assert (0 < k) by (unfold kFrameSize in *; lia).
  rewrite <- (log_append_chunk c (Z.to_nat k) b l');
    [|lia|rewrite Z2Nat.id; lia|done|by apply synced_unsynced|done].
  destruct (Z.to_nat k) as [|n] eqn:E; [lia|]. cbn [split_frames fold_left].
  f_equal. symmetry. by apply log_append_prepared.
Qed.

(** ** The directory invariant under changes of the view *)

Lemma same_place_refl s : same_place s s.
Proof. by unfold same_place. Qed.

Lemma same_place_trans s1 s2 s3 : same_place s1 s2 -> same_place s2 s3 -> same_place s1 s3.
Proof. unfold same_place. intros (? & ? & ? & ?) (? & ? & ? & ?). split_and!; congruence. Qed.

#[export] Hint Resolve same_place_refl : tel.

Lemma dir_inv_store R s s' v arch :
  dir_inv R s v arch -> same_place s s' -> m_rotationSequence s' = m_rotationSequence s ->
  dir_inv R s' v arch.
Proof.
  intros [] (E1 & E2 & E3 & E4) E5. constructor; rewrite ?E1, ?E2, ?E3, ?E5; done.
Qed.

(** Only the descriptors and the saved names differ. *)
Definition same_files (v v' : FsView) : Prop :=
  entries v' = entries v /\ files v' = files v /\ saved v' = saved v.

Lemma same_files_bytes v v' : same_files v v' -> file_bytes v' = file_bytes v.
Proof. unfold same_files, file_bytes, content. by intros (-> & -> & _). Qed.

Lemma dir_inv_same_files R s v v' arch :
  dir_inv R s v arch -> same_files v v' -> m_directoryFd s ∈ dirs v' -> dir_inv R s v' arch.
Proof.
  intros [] (E1 & E2 & E3) Hd.
  assert (content v' = content v) as Ec by (unfold content; by rewrite E2).
  assert (v_saved v' = v_saved v) as Es by (unfold v_saved; by rewrite E3).
  constructor; rewrite ?E1, ?Ec, ?Es; try done.
  - by destruct di_dirfd0.
  - unfold dir_ok in *. by rewrite E1, E2, E3.
Qed.

(** The active file is no archive. *)
Lemma active_not_archive R s v arch f a :
  dir_inv R s v arch -> entries v !! m_fileName s = Some f -> a ∈ arch ->
  entries v !! a <> Some f.
Proof.
  intros D Hf Ha E. destruct (di_view _ _ _ _ D) as [Hi _].
  apply (di_file _ _ _ _ D). by rewrite (Hi _ _ _ Hf E).
Qed.

Lemma dir_inv_set_file R s v arch f c n :
  dir_inv R s v arch -> entries v !! m_fileName s = Some f ->
  dir_inv R s (v_set_file f c n v) arch /\
  map (file_bytes (v_set_file f c n v)) arch = map (file_bytes v) arch /\
  file_bytes (v_set_file f c n v) (m_fileName s) = c.
Proof.
  intros D Hf. pose proof (active_not_archive R s v arch f) as Hna. split_and!.
  - destruct D. constructor; try done; [by apply dir_ok_set_file|].
    intros a Ha. destruct (di_arch0 a Ha) as (g & Hg & Hr). exists g. split; [done|].
    rewrite content_set_file, saved_set_file.
    assert (g <> f) as Hne by (intros ->; by eapply Hna). by rewrite !decide_False.
  - apply map_ext_in. intros a Ha%list_elem_of_In. rewrite file_bytes_set_file.
    rewrite decide_False; [done|]. by eapply Hna.
  - rewrite file_bytes_set_file. by rewrite decide_True.
Qed.

Lemma dir_inv_create R s v arch f :
  dir_inv R s v arch -> entries v !! m_fileName s = None -> files v !! f = None ->
  let v' := v_create (m_fileName s) f v in
  dir_inv R s v' arch /\ map (file_bytes v') arch = map (file_bytes v) arch /\
  file_bytes v' (m_fileName s) = [].
Proof.
  intros D Hn Hf v'. pose proof (di_file _ _ _ _ D) as Hfile.
  assert (forall m g, entries v !! m = Some g -> g <> f) as Hne.
  { intros m g Hm ->. destruct (proj2 (di_view _ _ _ _ D) m f Hm) as [[? ?] _]. congruence. }
  assert (forall a, a ∈ arch -> entries v' !! a = entries v !! a) as Hent.
  { intros a Ha. unfold v'. simpl. apply lookup_insert_ne. by intros <-. }
  split_and!.
  - pose proof (dir_ok_create (m_fileName s) f v (di_view _ _ _ _ D) Hn Hf) as Hok.
    destruct D. constructor; try done.
    + intros a Ha. destruct (di_arch0 a Ha) as (g & Hg & Hr). exists g.
      rewrite Hent by done. split; [done|].
      unfold v', v_create, v_set_entries. change (content _ g) with (content (v_set_file f [] 0 v) g).
      change (v_saved _ g) with (v_saved (v_set_file f [] 0 v) g).
      rewrite content_set_file, saved_set_file, !decide_False; eauto.
    + intros name g. unfold v'. simpl. rewrite lookup_insert_Some.
      intros [[<- _]|[_ Hg]]; [by left|eauto].
  - apply map_ext_in. intros a Ha%list_elem_of_In. unfold file_bytes. rewrite Hent by done.
    destruct (entries v !! a) as [g|] eqn:E; [|done].
    change (content v' g) with (content (v_set_file f [] 0 v) g).
    rewrite content_set_file, decide_False; eauto.
  - unfold file_bytes, v'. simpl. rewrite lookup_insert_eq.
    change (content (v_set_file f [] 0 v) f = []). by rewrite content_set_file, decide_True.
Qed.

(** Turning the active file into an archive. *)
Lemma dir_inv_rename R s v arch f name :
  dir_inv R s v arch -> entries v !! m_fileName s = Some f -> entries v !! name = None ->
  (kFrameSize | zlen (content v f)) -> maxSegmentBytes (m_config s) <= zlen (content v f) ->
  v_saved v f = zlen (content v f) ->
  (exists t, name = archive_name (m_fileName s) t (m_rotationSequence s)) ->
  let v' := v_rename (m_fileName s) name f v in
  dir_inv R (set_sequence (m_rotationSequence s + 1) s) v' (arch ++ [name]) /\
  map (file_bytes v') (arch ++ [name]) = map (file_bytes v) arch ++ [file_bytes v (m_fileName s)] /\
  entries v' !! m_fileName s = None.
Proof.
  intros D Hf Hn Hdiv Hmax Hsv [t Ht] v'. pose proof (di_file _ _ _ _ D) as Hfile.
  assert (name <> m_fileName s) as Hnf by (rewrite Ht; apply archive_name_not_file).
  assert (name ∉ arch) as Hna.
  { intros Ha. destruct (di_arch _ _ _ _ D name Ha) as (g & Hg & _). congruence. }
  assert (forall a, a ∈ arch -> entries v' !! a = entries v !! a) as Hent.
  { intros a Ha. unfold v'. simpl. rewrite lookup_insert_ne by (by intros <-).
    apply lookup_delete_ne. by intros <-. }
  assert (entries v' !! name = Some f) as Hname by (unfold v'; simpl; by rewrite lookup_insert_eq).
  split_and!.
  - pose proof (dir_ok_rename (m_fileName s) name f v (di_view _ _ _ _ D) Hf) as Hok.
    pose proof (di_sequence _ _ _ _ D) as Hq. destruct D. constructor; try done.
    + apply NoDup_app. split_and!; [done| |apply NoDup_singleton].
      intros x Hx ->%list_elem_of_singleton. done.
    + intros [Ha|E%list_elem_of_singleton]%elem_of_app; [done|]. by apply Hnf.
    + intros a [Ha| ->%list_elem_of_singleton]%elem_of_app.
      * rewrite Hent by done. by apply di_arch0.
      * exists f. done.
    + intros n g. unfold v'. simpl. rewrite lookup_insert_Some, lookup_delete_Some.
      intros [[<- _]|(_ & _ & Hg)].
      * right; right. apply elem_of_app. right. by apply list_elem_of_singleton.
      * destruct (di_names0 n g Hg) as [|[|]]; [by left|by right; left|].
        right; right. apply elem_of_app. by left.
    + intros i a [Hi|[Hi Ha]]%lookup_app_Some; [by apply di_numbers0|].
      apply list_lookup_singleton_Some in Ha as [Hi' <-]. exists t. rewrite Ht, Hq. do 2 f_equal. lia.
    + cbn [set_sequence m_rotationSequence]. rewrite length_app. simpl. lia.
  - rewrite map_app. f_equal.
    + apply map_ext_in. intros a Ha%list_elem_of_In. unfold file_bytes. by rewrite Hent.
    + simpl. unfold file_bytes. rewrite Hname, Hf. done.
  - unfold v'. simpl. rewrite lookup_insert_ne by done. apply lookup_delete_eq.
Qed.

(** ** Rules for the store's calls *)

Section specs.
Context {F : Type} `{FsLaws F}.
Variable fuel : nat.

Lemma wp_this {A} t (f : FileStore -> A) Q (s : St F) :
  Q (f (store s)) s -> wp t (this f) Q s.
Proof. done. Qed.

Lemma wp_set {A} t (f : A -> FileStore -> FileStore) x Q (s : St F) :
  Q tt (mk_St (f x (store s)) (fs s)) -> wp t (set f x) Q s.
Proof. done. Qed.

Lemma wp_sys {A} t (f : F -> sysres A * F) post Q (s : St F) :
  fs_law view budget f post ->
  (forall r w, post (view (fs s)) r (view w) -> (budget w <= budget (fs s))%nat ->
     (is_intr r = true -> (budget w < budget (fs s))%nat) -> Q r (mk_St (store s) w)) ->
  wp t (sys f) Q s.
Proof.
  intros Hl HQ. unfold sys. apply wp_lift, wp_call. intros r w E.
  destruct (Hl _ _ _ E) as (? & ? & ?). by apply HQ.
Qed.

(** A retried call that changes nothing when it fails. *)
Lemma wp_retry_sys {A} t (f : F -> sysres A * F) post Q (s : St F) :
  fs_law view budget f post ->
  (forall v e v', post v (Err e) v' -> v = view (fs s) -> v' = v) ->
  (forall r w, post (view (fs s)) r (view w) -> (budget w <= budget (fs s))%nat ->
     Q r (mk_St (store s) w)) ->
  (t = true -> (budget (fs s) < fuel)%nat) ->
  wp t (retry_eintr fuel (sys f)) Q s.
Proof.
  intros Hl Herr HQ Ht.
  apply (wp_retry t fuel _ (fun s1 => store s1 = store s /\ view (fs s1) = view (fs s) /\
    (budget (fs s1) <= budget (fs s))%nat) (fun s1 => budget (fs s1))); [|done|done].
  intros s1 (Es & Ev & Hb). apply (wp_sys _ _ _ _ _ Hl). intros r w Hp Hb1 Hi. cbn [store fs].
  rewrite Ev in Hp. destruct (is_intr r) eqn:Ei.
  - destruct r as [|e]; [done|]. specialize (Hi eq_refl).
    split; [|lia]. split_and!; [done| |lia]. rewrite <- (Herr _ _ _ Hp); done.
  - rewrite Es. apply HQ; [done|lia].
Qed.

Definition enough (t : bool) (s : St F) : Prop := t = true -> (budget (fs s) < fuel)%nat.

Lemma enough_le t s s' :
  enough t s -> (budget (fs s') <= budget (fs s))%nat -> enough t s'.
Proof. unfold enough. intros Hs Hb Ht. specialize (Hs Ht). lia. Qed.

(** [s'] has used up no more interruptions than there were. *)
Definition later (s s' : St F) : Prop := (budget (fs s') <= budget (fs s))%nat.

Lemma sync_spec t (s : St F) o :
  m_fd (store s) <> -1 -> fds (view (fs s)) !! m_fd (store s) = Some o -> enough t s ->
  wp t (sync fuel) (fun b s' => later s s' /\
    if b then view (fs s') = v_sync (of_file o) (view (fs s)) /\
              store s' = set_unsynced 0 (store s)
    else view (fs s') = view (fs s) /\ store s' = store s) s.
Proof.
  intros Hfd Ho Ht. unfold sync. apply wp_bind, wp_this.
  apply Z.eqb_neq in Hfd as ->. apply wp_bind.
  eapply wp_retry_sys; [apply fdatasync_law| | |done].
  - intros v e v' Hp ->. by specialize (Hp o Ho).
  - intros r w Hp Hb. specialize (Hp o Ho). destruct r as [|e].
    + apply wp_bind, wp_set, wp_ret. by split.
    + apply wp_ret. by split.
Qed.

Lemma syncDirectory_spec t (s : St F) :
  m_directoryFd (store s) ∈ dirs (view (fs s)) -> m_directoryFd (store s) <> -1 -> enough t s ->
  wp t (syncDirectory fuel) (fun b s' => later s s' /\ store s' = store s /\
    view (fs s') = if b then v_save_entries (view (fs s)) else view (fs s)) s.
Proof.
  intros Hd Hfd Ht. unfold syncDirectory. apply wp_bind, wp_this.
  apply Z.eqb_neq in Hfd as ->. apply wp_bind.
  eapply wp_retry_sys; [apply fsync_law| | |done].
  - intros v e v' Hp ->. by apply Hp.
  - intros r w Hp Hb. specialize (Hp Hd). apply wp_ret. by destruct r.
Qed.

Lemma closeActiveFile_spec t (s : St F) :
  m_fd (store s) <> -1 ->
  wp t closeActiveFile (fun _ s' => later s s' /\ store s' = set_fd (-1) (store s) /\
    view (fs s') = v_close (m_fd (store s)) (view (fs s))) s.
Proof.
  intros Hfd. unfold closeActiveFile. apply wp_bind, wp_this.
  apply Z.eqb_neq in Hfd as ->. apply wp_bind, wp_set, wp_bind.
  eapply wp_sys; [apply close_law|]. intros r w Hp Hb _. by apply wp_ret.
Qed.

Lemma makeArchiveName_spec t (s : St F) :
  wp t makeArchiveName (fun name s' => later s s' /\ view (fs s') = view (fs s) /\
    ((name = EmptyString /\ store s' = store s) \/
     exists time w, clock_gettime (fs s) = (Ok time, w) /\
       name = archive_name (m_fileName (store s)) time (m_rotationSequence (store s)) /\
       store s' = set_sequence (u64 (m_rotationSequence (store s) + 1)) (store s))) s.
Proof.
  unfold makeArchiveName. apply wp_bind. unfold sys at 1. apply wp_lift, wp_call.
  intros r w E. destruct (clock_law _ _ _ E) as (Hv & Hb & _). destruct r as [time|].
  - apply wp_bind, wp_this, wp_bind, wp_this, wp_bind, wp_set, wp_ret.
    split_and!; try done. right. by exists time, w.
  - apply wp_ret. split_and!; try done. by left.
Qed.

(** The active file after recovery, of a file that held [c]. *)
Definition recovered (s s' : FileStore) (v v' : FsView) (f : Z) : Prop :=
  let c := content v f in
  content v' f = whole c /\ zlen c < 2 ^ 63 /\ v_saved v' f <= zlen (whole c) /\
  (v_saved v f = zlen c -> v_saved v' f = zlen (whole c)) /\
  (exists n, v' = v_set_file f (whole c) n v) /\
  s' = set_current (zlen (whole c)) s.

Lemma zlen_whole c :
  zlen (whole c) = zlen c - zlen c mod kFrameSize /\ (kFrameSize | zlen (whole c)) /\
  0 <= zlen (whole c) <= zlen c.
Proof.
  pose proof (zlen_nonneg c). unfold whole. rewrite zlen_take.
  assert (0 <= zlen c mod kFrameSize <= zlen c) by (unfold kFrameSize; div_lia).
  rewrite Z.min_l, Z.max_r by lia. split_and!; try lia.
  exists (zlen c / kFrameSize). unfold kFrameSize. div_lia.
Qed.

Lemma whole_all c : zlen c mod kFrameSize = 0 -> whole c = c.
Proof. intros E. unfold whole. rewrite E. apply ztake_ge. lia. Qed.

Lemma whole_nil : whole [] = [].
Proof. done. Qed.

Lemma recoverPartialFrame_spec t (s : St F) f :
  m_fd (store s) <> -1 ->
  fds (view (fs s)) !! m_fd (store s) = Some {| of_file := f; of_append := true |} ->
  is_Some (files (view (fs s)) !! f) -> is_Some (saved (view (fs s)) !! f) ->
  v_saved (view (fs s)) f <= zlen (content (view (fs s)) f) ->
  m_unsyncedBytes (store s) = 0 -> enough t s ->
  wp t (recoverPartialFrame fuel) (fun b s' => later s s' /\
    if b then recovered (store s) (store s') (view (fs s)) (view (fs s')) f
    else store s' = store s /\
         exists c n, view (fs s') = v_set_file f c n (view (fs s)) /\
           (c = content (view (fs s)) f \/ c = whole (content (view (fs s)) f))) s.
Proof.
  intros Hfd Ho Hf1 Hf2 Hsv Hu Ht. set (v := view (fs s)) in *. set (c := content v f).
  pose proof (zlen_nonneg c) as Hc0. destruct (zlen_whole c) as (Ew & _ & Hw).
  assert (forall s1, view (fs s1) = v -> exists c0 n, view (fs s1) = v_set_file f c0 n v /\
            (c0 = c \/ c0 = whole c)) as Hsame.
  { intros s1 ->. exists c, (v_saved v f). split; [|by left]. symmetry. by apply set_file_same. }
  unfold recoverPartialFrame. apply wp_bind, wp_this, wp_bind.
  eapply wp_sys; [apply fstat_law|]. intros r w Hp Hb _.
  destruct (Hp _ Ho) as [Ev Hr]. clear Hp. cbn [of_file] in Hr. fold v in Ev.
  destruct r as [st|e]; [|by apply wp_ret; split; [done|split; [done|apply Hsame]]].
  destruct (S_ISREG st); cbn [negb];
    [|by apply wp_ret; split; [done|split; [done|apply Hsame]]].
  destruct (Hr eq_refl) as [Esz Hmax]. fold v c in Esz. rewrite Esz in *.
  destruct (Z.ltb_spec (zlen c) 0); [lia|]. cbv zeta. apply wp_bind.
  destruct (Z.eqb_spec (zlen c mod kFrameSize) 0) as [E|E].
  { apply wp_ret. cbn [negb]. apply wp_bind, wp_set, wp_ret. cbn [store fs].
    split; [done|]. unfold recovered. fold c. rewrite (whole_all c E), E, Z.sub_0_r, Ev.
    split_and!; try done. exists (v_saved v f). symmetry. by apply set_file_same. }
  apply wp_bind. eapply wp_sys; [apply ftruncate_law|]. intros r w1 Hp Hb1 _.
  cbn [store fs] in *. rewrite Ev in Hp. specialize (Hp _ Ho). destruct r as [[]|e].
  2: { apply wp_ret. cbn [negb]. apply wp_ret. split; [unfold later; simpl; lia|].
       split; [done|]. by apply Hsame. }
  assert (0 <= zlen c mod kFrameSize < kFrameSize) by (apply Z.mod_pos_bound; done).
  cbn [ftruncate_post of_file is_ok] in Hp |- *. fold c in Hp. specialize (Hp ltac:(lia)).
  unfold v_truncate in Hp. fold c (whole c) in Hp.
  eapply wp_mono; [apply (sync_spec t _ {| of_file := f; of_append := true |})|].
  - done.
  - cbn [store fs]. by rewrite Hp.
  - eapply enough_le; [done|]. simpl. lia.
  - cbn [store fs of_file]. intros ok s2 (Hb2 & HH). unfold later in Hb2. cbn [fs] in Hb2.
    destruct ok; cbn [negb].
    + destruct HH as (Ev2 & Es2). apply wp_bind, wp_set, wp_ret. cbn [store fs].
      split; [unfold later; cbn [fs]; lia|]. rewrite Hp in Ev2. unfold v_sync in Ev2.
      rewrite content_set_file, decide_True in Ev2 by done.
      unfold recovered. fold c. rewrite Ev2, Es2, !content_set_file, !saved_set_file.
      rewrite !decide_True by done. rewrite <- Ew. split_and!; try done; try lia.
      * exists (zlen (whole c)). unfold v_set_file. simpl. by rewrite !insert_insert_eq.
      * unfold set_current, set_unsynced. simpl. by rewrite Hu.
    + destruct HH as (Ev2 & Es2). apply wp_ret. split; [unfold later; lia|].
      split; [done|]. rewrite Ev2, Hp. eauto.
Qed.

(** The segments of [arch] are as they were; the active file is as it was, or
    without its incomplete frame. *)
Definition kept (name : string) (v v' : FsView) (arch : list string) : Prop :=
  map (file_bytes v') arch = map (file_bytes v) arch /\
  (file_bytes v' name = file_bytes v name \/ file_bytes v' name = whole (file_bytes v name)).

(** The active file has been opened: it holds the whole frames it held. *)
Definition opened R (s s' : FileStore) (v v' : FsView) (arch : list string) : Prop :=
  store_inv R s' v' arch /\ same_place s s' /\ m_rotationSequence s' = m_rotationSequence s /\
  log_of s' v' arch = {| sealed := map (file_bytes v) arch;
                         active := whole (file_bytes v (m_fileName s)); unsynced := 0 |}.

Definition open_result R (b : bool) (s s' : FileStore) (v v' : FsView) (arch : list string)
  : Prop :=
  if b then opened R s s' v v' arch else kept (m_fileName s) v v' arch.

Lemma recover_opened t R (s : St F) arch f :
  dir_inv R (store s) (view (fs s)) arch ->
  saved_entries (view (fs s)) = entries (view (fs s)) ->
  m_fd (store s) <> -1 -> m_fd (store s) ∉ dirs (view (fs s)) ->
  fds (view (fs s)) !! m_fd (store s) = Some {| of_file := f; of_append := true |} ->
  entries (view (fs s)) !! m_fileName (store s) = Some f ->
  v_saved (view (fs s)) f = zlen (content (view (fs s)) f) ->
  m_unsyncedBytes (store s) = 0 -> enough t s ->
  wp t (recoverPartialFrame fuel) (fun b s' => later s s' /\
    open_result R b (store s) (store s') (view (fs s)) (view (fs s')) arch) s.
Proof.
  intros D Hse Hfd Hnd Ho He Hsv Hu Ht.
  destruct (proj2 (di_view _ _ _ _ D) _ _ He) as [Hf1 Hf2].
  assert (file_bytes (view (fs s)) (m_fileName (store s)) = content (view (fs s)) f) as Efb
    by (unfold file_bytes; by rewrite He).
  eapply wp_mono; [apply (recoverPartialFrame_spec t s f); try done; lia|].
  intros b s' [Hb HH]. split; [done|]. unfold open_result. destruct b.
  - destruct HH as (Ec & Hmax & _ & Hs2 & (n & Ev) & Es).
    destruct (dir_inv_set_file R _ _ arch f (whole (content (view (fs s)) f)) n D He)
      as (D' & Em & Efb'). rewrite <- Ev in D', Em, Efb'.
    destruct (zlen_whole (content (view (fs s)) f)) as (_ & Hdiv & Hw).
    unfold opened. split_and!.
    + split; [|split].
      * eapply dir_inv_store; [exact D'|by rewrite Es|by rewrite Es].
      * by rewrite Ev.
      * exists f. constructor; rewrite ?Es; cbn [set_current m_fd m_fileName m_currentSize
          m_unsyncedBytes]; rewrite ?Ec, ?Hu, ?(Hs2 Hsv); try done; try (by rewrite Ev).
        -- split; [done|lia].
        -- split; [lia|]. by exists 0.
        -- lia.
    + by rewrite Es.
    + by rewrite Es.
    + unfold log_of. rewrite Em, Es. cbn [set_current m_fileName m_unsyncedBytes].
      by rewrite Efb', Hu, Efb.
  - destruct HH as (Es & c & n & Ev & Hc).
    destruct (dir_inv_set_file R _ _ arch f c n D He) as (_ & Em & Efb').
    rewrite <- Ev in Em, Efb'. unfold kept. rewrite Em, Efb', Efb. split; [done|].
    by destruct Hc; [left|right].
Qed.

Lemma dir_inv_open R s v arch fd f b :
  dir_inv R s v arch -> dir_inv R s (v_open fd f b v) arch.
Proof. intros D. eapply dir_inv_same_files; [done|done|apply D]. Qed.

(** The file has just been created. *)
Lemma created_opened t R (s0 s : St F) arch fd f :
  let v := view (fs s0) in
  dir_inv R (store s0) v arch -> entries v !! m_fileName (store s0) = None ->
  files v !! f = None -> new_fd v fd -> m_unsyncedBytes (store s0) = 0 ->
  store s = set_fd fd (store s0) ->
  view (fs s) = v_open fd f true (v_create (m_fileName (store s0)) f v) -> enough t s ->
  wp t (ok ← syncDirectory fuel; if negb ok then mret false else recoverPartialFrame fuel)
    (fun b s' => later s s' /\ open_result R b (store s0) (store s') v (view (fs s')) arch) s.
Proof.
  intros v D En Hf (Hfd0 & Hfd1 & Hfd2) Hu Es Ev Ht. destruct (di_dirfd _ _ _ _ D) as [Hd Hd1].
  destruct (dir_inv_create R _ _ arch f D En Hf) as (D1 & Em & Efb).
  assert (file_bytes v (m_fileName (store s0)) = []) as Efv by (unfold file_bytes; by rewrite En).
  apply wp_bind. eapply wp_mono; [apply syncDirectory_spec; [by rewrite Es, Ev|by rewrite Es|done]|].
  intros b1 s1 (Hb1 & Es1 & Ev1).
  assert (map (file_bytes (view (fs s1))) arch = map (file_bytes v) arch /\
          file_bytes (view (fs s1)) (m_fileName (store s0)) = []) as [Em1 Efb1].
  { rewrite <- Em, <- Efb, Ev1. destruct b1; by rewrite ?Ev. }
  rewrite Es in Es1. destruct b1; cbn [negb].
  - eapply wp_mono; [apply (recover_opened t R s1 arch f); rewrite ?Es1, ?Ev1, ?Ev|].
    + apply (dir_inv_store R (store s0)); [|done|done].
      by eapply dir_inv_same_files; [exact D1|done|].
    + done.
    + cbn. lia.
    + done.
    + apply lookup_insert_eq.
    + apply lookup_insert_eq.
    + change (v_saved (v_set_file f [] 0 v) f = zlen (content (v_set_file f [] 0 v) f)).
      by rewrite saved_set_file, content_set_file, !decide_True.
    + done.
    + by eapply enough_le.
    + intros b2 s2 [Hb2 HH]. split; [unfold later in *; lia|].
      unfold open_result in *. rewrite Es1 in HH. destruct b2.
      * destruct HH as (HI & HP & HS & HL). unfold opened. split_and!; try done.
        rewrite HL. cbn [set_fd m_fileName]. by rewrite Em1, Efb1, Efv.
      * destruct HH as (HM & HC). cbn [set_fd m_fileName] in HC. unfold kept.
        rewrite HM, Em1, Efv. rewrite Efb1 in HC. done.
  - apply wp_ret. split; [done|]. unfold open_result, kept.
    rewrite Em1, Efb1, Efv. split; [done|by left].
Qed.

(** An existing file has just been opened. *)
Lemma existing_opened t R (s0 s : St F) arch fd f :
  let v := view (fs s0) in
  dir_inv R (store s0) v arch -> saved_entries v = entries v ->
  entries v !! m_fileName (store s0) = Some f -> v_saved v f = zlen (content v f) ->
  new_fd v fd -> m_unsyncedBytes (store s0) = 0 ->
  store s = set_fd fd (store s0) -> view (fs s) = v_open fd f true v -> enough t s ->
  wp t (recoverPartialFrame fuel) (fun b s' => later s s' /\
    open_result R b (store s0) (store s') v (view (fs s')) arch) s.
Proof.
  intros v D Hse En Hsv (Hfd0 & Hfd1 & Hfd2) Hu Es Ev Ht.
  eapply wp_mono; [apply (recover_opened t R s arch f); rewrite ?Es, ?Ev|]; try done.
  - apply (dir_inv_store R (store s0)); [|done|done]. by apply dir_inv_open.
  - cbn. lia.
  - apply lookup_insert_eq.
  - intros b s2 [Hb2 HH]. split; [done|]. rewrite Es, Ev in HH. by destruct b.
Qed.

Lemma openActiveFile_spec t R (s : St F) arch :
  dir_inv R (store s) (view (fs s)) arch ->
  saved_entries (view (fs s)) = entries (view (fs s)) ->
  (forall f, entries (view (fs s)) !! m_fileName (store s) = Some f ->
     v_saved (view (fs s)) f = zlen (content (view (fs s)) f)) ->
  m_unsyncedBytes (store s) = 0 -> enough t s ->
  wp t (openActiveFile fuel) (fun b s' => later s s' /\
    open_result R b (store s) (store s') (view (fs s)) (view (fs s')) arch) s.
Proof.
  intros D Hse Hsv Hu Ht. set (v := view (fs s)) in *.
  destruct (di_dirfd _ _ _ _ D) as [Hd Hd1].
  assert (kept (m_fileName (store s)) v v arch) as Hkept by (split; [done|by left]).
  unfold openActiveFile. apply wp_bind, wp_this, wp_bind, wp_this, wp_bind.
  eapply wp_sys; [apply openat_law|]. intros r w Hp Hb _. fold v in Hp.
  apply wp_bind. destruct r as [fd|e].
  - specialize (Hp Hd eq_refl) as [Hfd Hp].
    destruct (entries v !! m_fileName (store s)) as [f0|] eqn:En; [by destruct Hp|].
    destruct Hp as (_ & f & Hf & Ev). apply wp_bind, wp_set, wp_ret.
    eapply wp_mono; [apply (created_opened t R s _ arch fd f); try done; by eapply enough_le|].
    intros b s' [Hl HH]. split; [unfold later in *; cbn [fs] in Hl; lia|done].
  - cbn in Hp. apply wp_bind, wp_set. cbn [store fs].
    destruct (Z.eqb_spec e EEXIST) as [->|Hne].
    2: { apply wp_ret, wp_ret. cbn [store fs]. split; [done|]. by rewrite Hp. }
    apply wp_bind. eapply wp_sys; [apply openat_law|]. intros r w2 Hp2 Hb2 _.
    cbn [store fs] in *. rewrite Hp in Hp2. destruct r as [fd|e].
    2: { cbn in Hp2. apply wp_ret, wp_ret. cbn [store fs].
         split; [unfold later; cbn [fs]; lia|]. by rewrite Hp2. }
    specialize (Hp2 Hd eq_refl) as [Hfd Hp2].
    destruct (entries v !! m_fileName (store s)) as [f|] eqn:En; [|by destruct Hp2].
    destruct Hp2 as (_ & Ev).
    apply wp_bind, wp_set, wp_ret. cbn [store fs]. apply wp_bind, wp_ret. cbn [negb].
    eapply wp_mono; [apply (existing_opened t R s _ arch fd f); try done; [by apply Hsv|]|].
    + eapply enough_le; [done|]. cbn [fs]. lia.
    + intros b s' [Hl HH]. split; [unfold later in *; cbn [fs] in Hl; lia|done].
Qed.

(** ** Rotation *)

(** [R] names the archives of other runs: the clock shows none of their times. *)
Definition clock_avoids (R : string -> Prop) : Prop :=
  forall w time w' name file q,
    clock_gettime w = (Ok time, w') -> R name -> name <> archive_name file time q.

(** Some archives may have been made, and the bytes stored are the same. *)
Definition kept_stream (name : string) (v v' : FsView) (arch : list string) : Prop :=
  exists more, stream v' (arch ++ more) name = stream v arch name.

Definition rotated R (b : bool) (s s' : FileStore) (v v' : FsView) (arch : list string) : Prop :=
  if b then
    exists a, store_inv R s' v' (arch ++ [a]) /\ same_place s s' /\
      log_of s' v' (arch ++ [a]) =
        {| sealed := map (file_bytes v) arch ++ [file_bytes v (m_fileName s)];
           active := []; unsynced := 0 |}
  else kept_stream (m_fileName s) v v' arch.

Lemma kept_stream_same name v v' arch :
  map (file_bytes v') arch = map (file_bytes v) arch -> file_bytes v' name = file_bytes v name ->
  kept_stream name v v' arch.
Proof. intros E1 E2. exists []. unfold stream. by rewrite app_nil_r, E1, E2. Qed.

(** From the rename on: the active file [f], closed, is whole, full and durable. *)
Lemma rename_opened t R (s0 s : St F) arch f name :
  let v := view (fs s) in
  let file := m_fileName (store s0) in
  dir_inv R (store s0) v arch -> saved_entries v = entries v ->
  entries v !! file = Some f -> entries v !! name = None ->
  (kFrameSize | zlen (content v f)) ->
  maxSegmentBytes (m_config (store s0)) <= zlen (content v f) ->
  v_saved v f = zlen (content v f) ->
  (exists time, name = archive_name file time (m_rotationSequence (store s0))) ->
  same_place (store s0) (store s) ->
  m_rotationSequence (store s) = m_rotationSequence (store s0) + 1 -> enough t s ->
  wp t (r ← sys (renameat (m_directoryFd (store s)) (m_fileName (store s))
                   (m_directoryFd (store s)) name);
        if negb (is_ok r) then mret false
        else
          ok ← syncDirectory fuel;
          if negb ok then mret false
          else set set_current 0;;; set set_unsynced 0;;; openActiveFile fuel)
    (fun b s' => later s s' /\ rotated R b (store s0) (store s') v (view (fs s')) arch) s.
Proof.
  intros v file D Hse Hf Hn Hdiv Hmax Hsv Ht Hp Hq Hen.
  destruct (di_dirfd _ _ _ _ D) as [Hd Hd1]. pose proof Hp as (Ec & Edf & Efn & _).
  destruct (dir_inv_rename R _ v arch f name D Hf Hn Hdiv Hmax Hsv Ht) as (D3 & Em3 & En3).
  fold file in En3, Em3, Efn, D3. set (v3 := v_rename file name f v) in *.
  assert (file_bytes v3 file = []) as Eb3 by (unfold file_bytes; by rewrite En3).
  assert (forall v', same_files v3 v' -> stream v' (arch ++ [name]) file = stream v arch file)
    as Hstream.
  { intros v' E. unfold stream. rewrite (same_files_bytes _ _ E), Em3, Eb3.
    rewrite concat_app. simpl. by rewrite !app_nil_r. }
  apply wp_bind. rewrite Edf, Efn. eapply wp_sys; [apply renameat_law|]. intros r w Hpost Hb _.
  specialize (Hpost Hd Hd). destruct r as [[]|e]; cbn [is_ok negb].
  2: { cbn in Hpost. apply wp_ret. split; [done|]. cbn [store fs]. rewrite Hpost.
       by apply kept_stream_same. }
  destruct Hpost as (f' & Hf' & Ev3). fold v in Hf', Ev3.
  rewrite Hf in Hf'. injection Hf' as <-. fold v3 in Ev3.
  apply wp_bind. eapply wp_mono; [apply syncDirectory_spec; cbn [store fs]|].
  - by rewrite Ev3, Edf.
  - by rewrite Edf.
  - by eapply enough_le.
  - intros b1 s1 (Hb1 & Es1 & Ev1). cbn [store fs] in *.
    assert (same_files v3 (view (fs s1))) as Hsf by (rewrite Ev1, Ev3; by destruct b1).
    destruct b1; cbn [negb].
    2: { apply wp_ret. split; [unfold later in *; cbn [fs] in *; lia|].
         exists [name]. by apply Hstream. }
    apply wp_bind, wp_set, wp_bind, wp_set. cbn [store fs].
    eapply wp_mono; [apply (openActiveFile_spec t R _ (arch ++ [name])); cbn [store fs]|].
    + eapply dir_inv_store; [eapply dir_inv_same_files; [exact D3|exact Hsf|]|..].
      * by rewrite Ev1, Ev3.
      * unfold same_place in *. rewrite Es1. cbn. tauto.
      * rewrite Es1. cbn. done.
    + by rewrite Ev1.
    + rewrite Es1. cbn. rewrite Efn. rewrite Ev1, Ev3. intros g Hg.
      change (entries v3 !! file = Some g) in Hg. congruence.
    + done.
    + eapply enough_le; [done|]. cbn [fs]. unfold later in Hb1. cbn [fs] in Hb1. lia.
    + intros b2 s2 [Hb2 HH]. split; [unfold later in *; cbn [fs] in *; lia|].
      rewrite Es1 in HH. unfold open_result in HH. cbn [store fs set_unsynced set_current m_fileName] in HH.
      assert (file_bytes (view (fs s1)) (m_fileName (store s)) = []) as Eb.
      { by rewrite Efn, (same_files_bytes _ _ Hsf). }
      destruct b2.
      * destruct HH as (HI & HP & _ & HL). exists name. split; [done|]. split.
        -- eapply same_place_trans; [exact Hp|]. exact HP.
        -- rewrite HL. cbn [set_unsynced set_current m_fileName].
           by rewrite ?Efn, (same_files_bytes _ _ Hsf), Em3, Eb3.
      * destruct HH as (HM & HC). exists [name]. fold file. rewrite <- (Hstream _ Hsf). unfold stream.
        rewrite HM. f_equal. rewrite Efn in HC, Eb. rewrite Eb in *.
        by destruct HC as [-> | ->].
Qed.

(** The name a rotation makes is not taken. *)
Lemma archive_name_free R s v arch w time w' :
  clock_avoids R -> dir_inv R s v arch -> clock_gettime w = (Ok time, w') ->
  entries v !! archive_name (m_fileName s) time (m_rotationSequence s) = None.
Proof.
  intros Hc D E. destruct (entries v !! _) as [g|] eqn:En; [|done]. exfalso.
  destruct (di_names _ _ _ _ D _ _ En) as [Hn|[Hr|Hn]].
  - by apply archive_name_not_file in Hn.
  - by eapply Hc.
  - apply list_elem_of_lookup in Hn as [i Hi]. destruct (di_numbers _ _ _ _ D i _ Hi) as [t Ht].
    apply archive_name_inj in Ht as (_ & _ & Ht). apply lookup_lt_Some in Hi.
    pose proof (di_sequence _ _ _ _ D). lia.
Qed.

Lemma rotate_spec t R (s : St F) arch :
  clock_avoids R -> store_inv R (store s) (view (fs s)) arch ->
  maxSegmentBytes (m_config (store s)) <= m_currentSize (store s) ->
  m_rotationSequence (store s) + 1 < 2 ^ 64 -> enough t s ->
  wp t (rotate fuel) (fun b s' => later s s' /\
    rotated R b (store s) (store s') (view (fs s)) (view (fs s')) arch) s.
Proof.
  intros Hclock (D & Hse & f & A) Hmax Hq Hen. set (v := view (fs s)) in *.
  destruct A as [[Hfd Hnd] Ho He [Hsz _] Hdiv _ _].
  pose proof (di_sequence _ _ _ _ D) as Hseq.
  unfold rotate. apply wp_bind, wp_this. apply Z.eqb_neq in Hfd as Hfd'. rewrite Hfd'.
  apply wp_bind. eapply wp_mono; [by apply (sync_spec t s _ Hfd Ho)|].
  intros b1 s1 [Hb1 HH]. destruct b1; cbn [negb].
  2: { destruct HH as [Ev Es]. apply wp_ret. split; [done|]. cbn [rotated].
       by apply kept_stream_same; rewrite Ev. }
  destruct HH as [Ev1 Es1]. cbn [of_file] in Ev1. fold v in Ev1. unfold v_sync in Ev1.
  destruct (dir_inv_set_file R _ v arch f (content v f) (zlen (content v f)) D He)
    as (D1 & Em1 & Eb1).
  rewrite <- Ev1 in D1, Em1, Eb1. set (v1 := view (fs s1)) in *.
  assert (file_bytes v (m_fileName (store s)) = content v f) as Efb
    by (unfold file_bytes; by rewrite He).
  apply wp_bind. eapply wp_mono; [apply closeActiveFile_spec; by rewrite Es1|].
  intros b2 s2 (Hb2 & Es2 & Ev2). rewrite Es1 in Ev2. fold v1 in Ev2.
  assert (same_files v1 (view (fs s2))) as Hsf by (by rewrite Ev2).
  assert (kept_stream (m_fileName (store s)) v (view (fs s2)) arch) as Hkept.
  { apply kept_stream_same; rewrite (same_files_bytes _ _ Hsf); [done|]. by rewrite Eb1. }
  destruct b2; cbn [negb]; [|apply wp_ret; split; [unfold later in *; lia|done]].
  apply wp_bind. eapply wp_mono; [apply makeArchiveName_spec|].
  intros name s3 (Hb3 & Ev3 & [[-> _]|(time & w & Eclock & En & Es3)]).
  { apply wp_ret. split; [unfold later in *; lia|]. cbn [rotated]. by rewrite Ev3. }
  rewrite Es2, Es1 in Es3, En. cbn [set_fd set_unsynced m_fileName m_rotationSequence] in Es3, En.
  destruct name as [|c rest]; [by apply eq_sym, archive_name_nonempty in En|].
  apply wp_bind, wp_this, wp_bind, wp_this. rewrite En.
  assert (dir_inv R (store s) (view (fs s3)) arch) as D3.
  { rewrite Ev3. eapply dir_inv_same_files; [exact D1|done|]. rewrite Ev2, Ev1. simpl.
    destruct (di_dirfd _ _ _ _ D) as [? _]. apply elem_of_difference. split; [done|].
    intros Hin%elem_of_singleton. cbn in Hin. by rewrite Hin in *. }
  eapply wp_mono; [apply (rename_opened t R s s3 arch f)|]; rewrite ?Ev3 in *.
  - done.
  - by rewrite Ev2, Ev1.
  - by rewrite Ev2, Ev1.
  - by eapply archive_name_free.
  - rewrite Ev2. change (content (v_close _ v1) f) with (content v1 f).
    rewrite Ev1, content_set_file, decide_True by done. exact Hdiv.
  - rewrite Ev2. change (content (v_close _ v1) f) with (content v1 f).
    rewrite Ev1, content_set_file, decide_True by done. lia.
  - rewrite Ev2. change (content (v_close _ v1) f) with (content v1 f).
    change (v_saved (v_close _ v1) f) with (v_saved v1 f).
    by rewrite Ev1, content_set_file, saved_set_file, !decide_True.
  - by exists time.
  - by rewrite Es3.
  - rewrite Es3. cbn. apply u64_small. lia.
  - eapply enough_le; [done|]. unfold later in *. lia.
  - intros b4 s4 [Hb4 HH]. split; [unfold later in *; lia|].
    destruct b4.
    + destruct HH as (a & HI & HP & HL). exists a. split_and!; try done.
      rewrite HL, (same_files_bytes _ _ Hsf). by rewrite Em1, Eb1, Efb.
    + destruct HH as (more & HS). exists more. rewrite HS. unfold stream.
      rewrite (same_files_bytes _ _ Hsf). by rewrite Em1, Eb1, Efb.
Qed.

(** ** Appending *)

Lemma is_some_append f bs v :
  is_Some (files v !! f) -> is_Some (saved v !! f) ->
  is_Some (files (v_append f bs v) !! f) /\ is_Some (saved (v_append f bs v) !! f).
Proof. intros. unfold v_append. simpl. rewrite !lookup_insert_eq. by split. Qed.

(** Short writes and interruptions are made up for; an error leaves a prefix. *)
Lemma write_loop_spec t n f frames offset written chunk (s : St F) :
  fds (view (fs s)) !! m_fd (store s) = Some {| of_file := f; of_append := true |} ->
  is_Some (files (view (fs s)) !! f) -> is_Some (saved (view (fs s)) !! f) ->
  0 <= offset -> 0 <= written <= chunk -> offset + chunk <= zlen frames < 2 ^ 64 ->
  (t = true -> (budget (fs s) + Z.to_nat (chunk - written) < n)%nat) ->
  wp t (write_loop n frames offset written chunk) (fun b s' => later s s' /\
    store s' = store s /\ exists k, written <= k <= chunk /\ (b = true -> k = chunk) /\
    view (fs s') = v_append f (zslice (offset + written) (k - written) frames) (view (fs s))) s.
Proof.
  revert written s. induction n as [|n IH]; intros written s Ho Hf1 Hf2 Hoff Hw Hb Ht.
  { apply wp_out_of_fuel. destruct t; [|reflexivity]. specialize (Ht eq_refl). lia. }
  assert (forall v, is_Some (files v !! f) -> is_Some (saved v !! f) ->
    v_append f (zslice (offset + written) (written - written) frames) v = v) as Hnil.
  { intros v ??. rewrite Z.sub_diag. unfold zslice. rewrite ztake_nonpos by lia.
    by apply v_append_nil. }
  cbn [write_loop]. destruct (Z.ltb_spec written chunk) as [Hlt|Hge].
  2: { apply wp_ret. split; [unfold later; lia|]. split; [done|]. exists written. split_and!; try lia.
       by rewrite Hnil. }
  apply wp_bind, wp_this, wp_bind. eapply wp_sys; [apply write_law|].
  intros r w Hp Hbw Hi. specialize (Hp _ Ho). cbn [of_file of_append] in Hp. destruct r as [m|e].
  - destruct Hp as [Hm Hv]. specialize (Hv eq_refl).
    rewrite zlen_slice in Hm by lia. destruct (Z.ltb_spec 0 m) as [Hpos|Hz].
    + rewrite u64_small by lia.
      destruct (is_some_append f (ztake m (zslice (offset + written) (chunk - written) frames))
        (view (fs s)) Hf1 Hf2) as [Hf1' Hf2']. cbn [of_file] in Hv. rewrite <- Hv in Hf1', Hf2'.
      eapply wp_mono; [apply (IH (written + m)); cbn [store fs]|]; try done; try lia.
      * by rewrite Hv.
      * intros Ht'. specialize (Ht Ht'). lia.
      * cbn [store fs]. intros b s' (Hl & Es & k & Hk & Hbk & Ev).
        unfold later in *. cbn [fs] in Hl. split; [lia|]. split; [done|].
        exists k. split_and!; try lia; [done|]. rewrite Ev, Hv, v_append_append. f_equal.
        unfold zslice at 1. rewrite ztake_ztake, Z.min_l by lia.
        replace (k - written) with (m + (k - (written + m))) by lia.
        rewrite zslice_add by lia. unfold zslice at 2. do 2 f_equal. lia.
    + apply wp_ret. split; [done|]. split; [done|]. exists written. split_and!; try done; try lia.
      cbn [fs]. rewrite Hv, Hnil by done. cbn [of_file].
      rewrite ztake_nonpos by lia. by apply v_append_nil.
  - cbn in Hp. destruct (Z.eqb_spec e EINTR) as [->|Hne].
    + specialize (Hi eq_refl).
      eapply wp_mono; [apply (IH written); cbn [store fs]; rewrite ?Hp; try done; try lia|].
      * intros Ht'. specialize (Ht Ht'). lia.
      * cbn [store fs]. intros b s' (Hl & Es & k & Hk & Hbk & Ev). unfold later in *.
        cbn [fs] in Hl. split; [lia|]. split; [done|]. exists k. by rewrite Ev, Hp.
    + apply wp_ret. split; [done|]. split; [done|]. exists written. split_and!; try done; try lia.
      cbn [fs]. by rewrite Hp, Hnil.
Qed.

(** The active file holds [c] of which [n] bytes are saved, and the store knows. *)
Lemma store_inv_write R s v arch f c n cur uns :
  store_inv R s v arch -> entries v !! m_fileName s = Some f ->
  cur = zlen c -> zlen c < 2 ^ 64 -> (kFrameSize | zlen c) ->
  0 <= uns <= cur -> (kFrameSize | uns) -> zlen c - uns <= n <= zlen c ->
  let s' := set_unsynced uns (set_current cur s) in
  let v' := v_set_file f c n v in
  store_inv R s' v' arch /\
  log_of s' v' arch = {| sealed := map (file_bytes v) arch; active := c; unsynced := uns |}.
Proof.
  intros (D & Hse & f' & A) He Hcur Hmax Hdiv Hu Hud Hn s' v'.
  destruct (dir_inv_set_file R s v arch f c n D He) as (D1 & Em & Eb).
  destruct A as [A1 A2 A3 _ _ _ _]. rewrite He in A3. injection A3 as <-.
  split.
  - split; [|split; [done|]].
    + by apply (dir_inv_store R s).
    + exists f. constructor; try done; unfold v'; rewrite ?content_set_file, ?saved_set_file,
        ?decide_True by done; done.
  - unfold log_of, s', v'. cbn [set_unsynced set_current m_fileName m_unsyncedBytes].
    by rewrite Em, Eb.
Qed.

Lemma store_inv_active R s v arch :
  store_inv R s v arch -> exists f, entries v !! m_fileName s = Some f /\ active_inv s v f /\
    file_bytes v (m_fileName s) = content v f.
Proof.
  intros (D & _ & f & A). exists f. pose proof (ai_entry _ _ _ A) as He.
  split_and!; try done. unfold file_bytes. by rewrite He.
Qed.

Lemma set_sizes_same s : set_unsynced (m_unsyncedBytes s) (set_current (m_currentSize s) s) = s.
Proof. by destruct s. Qed.

Lemma sync_inv_spec t R (s : St F) arch :
  store_inv R (store s) (view (fs s)) arch -> enough t s ->
  wp t (sync fuel) (fun b s' => later s s' /\
    if b then store_inv R (store s') (view (fs s')) arch /\ same_place (store s) (store s') /\
      (let l := log_of (store s) (view (fs s)) arch in
       log_of (store s') (view (fs s')) arch =
         {| sealed := sealed l; active := active l; unsynced := 0 |})
    else view (fs s') = view (fs s) /\ store s' = store s) s.
Proof.
  intros I Hen. destruct (store_inv_active _ _ _ _ I) as (f & He & A & Eb).
  destruct A as [[Hfd _] Ho _ [Hsz Hmax] Hdiv _ _].
  eapply wp_mono; [by apply (sync_spec t s _ Hfd Ho)|].
  intros b s' [Hl HH]. split; [done|]. destruct b; [|done].
  destruct HH as [Ev Es]. cbn [of_file] in Ev. unfold v_sync in Ev.
  pose proof (zlen_nonneg (content (view (fs s)) f)).
  destruct (store_inv_write R (store s) (view (fs s)) arch f (content (view (fs s)) f)
    (zlen (content (view (fs s)) f)) (m_currentSize (store s)) 0 I He) as [I' L'];
    try done; try lia; [apply Z.divide_0_r|].
  replace (set_unsynced 0 (set_current _ (store s))) with (store s') in I', L'
    by (rewrite Es; by destruct (store s)).
  rewrite Ev. split_and!; [done|by rewrite Es|]. cbn zeta. rewrite L'.
  unfold log_of. by rewrite Eb.
Qed.

(** A step that changes the log by [step], or fails and keeps the bytes stored. *)
Definition kept_result R (b : bool) (s s' : St F) (arch : list string)
    (step : Log -> Log) : Prop :=
  later s s' /\
  if b then exists more, store_inv R (store s') (view (fs s')) (arch ++ more) /\
    same_place (store s) (store s') /\
    log_of (store s') (view (fs s')) (arch ++ more) = step (log_of (store s) (view (fs s)) arch)
  else kept_stream (m_fileName (store s)) (view (fs s)) (view (fs s')) arch.

Lemma sync_if_due_spec t R (s : St F) arch :
  store_inv R (store s) (view (fs s)) arch -> enough t s ->
  wp t (sync_if_due fuel) (fun b s' =>
    kept_result R b s s' arch (synced (m_config (store s)))) s.
Proof.
  intros I Hen. unfold sync_if_due. apply wp_bind, wp_this. unfold id.
  change (negb _ && _) with (reached (m_config (store s)) (m_unsyncedBytes (store s))).
  assert (m_unsyncedBytes (store s) = unsynced (log_of (store s) (view (fs s)) arch)) as Eu by done.
  destruct (reached _ _) eqn:Er; rewrite Eu in Er.
  - eapply wp_mono; [by apply (sync_inv_spec t R s arch)|]. intros b s' [Hl HH].
    split; [done|]. destruct b.
    + exists []. rewrite app_nil_r. destruct HH as (? & ? & HL). split_and!; try done.
      rewrite HL. unfold synced. by rewrite Er.
    + destruct HH as [-> _]. by apply kept_stream_same.
  - apply wp_ret. split; [by unfold later|]. exists []. rewrite app_nil_r.
    split_and!; [done|apply same_place_refl|]. by rewrite synced_early.
Qed.

Lemma log_active_size R s v arch :
  store_inv R s v arch -> zlen (active (log_of s v arch)) = m_currentSize s.
Proof.
  intros I. destruct (store_inv_active _ _ _ _ I) as (f & _ & A & Eb). unfold log_of.
  cbn [active]. rewrite Eb. symmetry. apply (ai_size _ _ _ A).
Qed.

Lemma rotate_if_full_spec t R (s : St F) arch :
  clock_avoids R -> store_inv R (store s) (view (fs s)) arch ->
  m_rotationSequence (store s) + 1 < 2 ^ 64 -> enough t s ->
  wp t (rotate_if_full fuel) (fun b s' =>
    kept_result R b s s' arch (seal (m_config (store s)))) s.
Proof.
  intros Hc I Hq Hen. unfold rotate_if_full. apply wp_bind, wp_this. unfold id.
  pose proof (log_active_size _ _ _ _ I) as Ea.
  destruct (Z.leb_spec (maxSegmentBytes (m_config (store s))) (m_currentSize (store s))) as [Hf|Hf].
  - eapply wp_mono; [by apply (rotate_spec t R s arch)|]. intros b s' [Hl HH].
    split; [done|]. destruct b; [|done]. destruct HH as (a & ? & ? & HL). exists [a].
    split_and!; try done. rewrite HL. unfold seal. rewrite Ea.
    apply Z.leb_le in Hf. by rewrite Hf.
  - apply wp_ret. split; [by unfold later|]. exists []. rewrite app_nil_r.
    split_and!; [done|apply same_place_refl|]. by rewrite seal_room by lia.
Qed.

(** The bytes stored grew by a prefix of [data]. *)
Definition grew (name : string) (v v' : FsView) (arch : list string) (data : bytes) : Prop :=
  exists more k, stream v' (arch ++ more) name = stream v arch name ++ ztake k data.

Lemma kept_grew name v v' arch data : kept_stream name v v' arch -> grew name v v' arch data.
Proof.
  intros [more E]. exists more, 0. by rewrite E, ztake_nonpos, app_nil_r.
Qed.

Lemma write_chunk_spec t R (s : St F) arch frames offset chunk :
  store_inv R (store s) (view (fs s)) arch ->
  0 <= offset -> 0 < chunk -> offset + chunk <= zlen frames < 2 ^ 64 ->
  (kFrameSize | chunk) -> m_currentSize (store s) + chunk < 2 ^ 64 ->
  (t = true -> (budget (fs s) + Z.to_nat (zlen frames) < fuel)%nat) ->
  let b := zslice offset chunk frames in
  wp t (write_chunk fuel frames offset chunk) (fun ok s' => later s s' /\
    if ok then exists more, store_inv R (store s') (view (fs s')) (arch ++ more) /\
      same_place (store s) (store s') /\
      log_of (store s') (view (fs s')) (arch ++ more) =
        synced (m_config (store s)) (put_bytes b (log_of (store s) (view (fs s)) arch))
    else grew (m_fileName (store s)) (view (fs s)) (view (fs s')) arch b) s.
Proof.
  intros I Ho Hc Hb Hdiv Hmax Ht b. destruct (store_inv_active _ _ _ _ I) as (f & He & A & Eb).
  destruct A as [_ Hopen _ [Hsz _] Hcdiv [Hu Hud] Hsv].
  assert (zlen b = chunk) as Ez by (apply zlen_slice; lia).
  destruct (proj2 (di_view _ _ _ _ (proj1 I)) _ _ He) as [Hf1 Hf2].
  unfold write_chunk. apply wp_bind.
  eapply wp_mono; [apply (write_loop_spec t fuel f frames offset 0 chunk s); try done; try lia|].
  { intros Ht'. specialize (Ht Ht'). lia. }
  intros ok s1 (Hl & Es & k & Hk & Hok & Ev). rewrite Z.add_0_r, Z.sub_0_r in Ev.
  destruct (dir_inv_set_file R _ _ arch f (content (view (fs s)) f ++ zslice offset k frames)
    (v_saved (view (fs s)) f) (proj1 I) He) as (_ & Em & Ebk).
  fold (v_append f (zslice offset k frames) (view (fs s))) in Em, Ebk. rewrite <- Ev in Em, Ebk.
  assert (stream (view (fs s1)) arch (m_fileName (store s)) =
          stream (view (fs s)) arch (m_fileName (store s)) ++ ztake k b) as Hstr.
  { unfold stream. rewrite Em, Ebk, Eb, app_assoc. f_equal. unfold b, zslice.
    by rewrite ztake_ztake, Z.min_l by lia. }
  destruct ok; cbn [negb].
  - specialize (Hok eq_refl) as ->. fold b in Ev.
    apply wp_bind, wp_this, wp_bind, wp_set, wp_bind, wp_set. unfold id. cbn [store fs].
    rewrite Es. change (m_unsyncedBytes (set_current _ (store s))) with (m_unsyncedBytes (store s)).
    rewrite !u64_small by lia.
    destruct (store_inv_write R (store s) (view (fs s)) arch f
      (content (view (fs s)) f ++ b) (v_saved (view (fs s)) f)
      (m_currentSize (store s) + chunk) (m_unsyncedBytes (store s) + chunk) I He) as [I' L'];
      rewrite ?zlen_app, ?Ez; try lia.
    + by apply Z.divide_add_r.
    + by apply Z.divide_add_r.
    + fold (v_append f b (view (fs s))) in I', L'. rewrite <- Ev in I', L'.
      eapply wp_mono; [apply (sync_if_due_spec t R _ arch); [exact I'|]|].
      { eapply enough_le; [|exact Hl]. intros Ht'. specialize (Ht Ht'). lia. }
      unfold kept_result. cbn [store fs]. intros ok s2 [Hl2 HH].
      unfold later in Hl2. cbn [fs] in Hl2.
      split; [unfold later in *; lia|]. destruct ok.
      * destruct HH as (more & HI & HP & HL). exists more. split_and!; [done|done|].
        rewrite HL, L'. unfold put_bytes, log_of. cbn [sealed active unsynced].
        by rewrite Eb, Ez.
      * destruct HH as (more & HS). exists more, chunk.
        cbn [set_unsynced set_current m_fileName] in HS. by rewrite HS, Hstr.
  - apply wp_ret. split; [done|]. exists [], k. by rewrite app_nil_r.
Qed.

(** Bytes stored, from the log. *)
Lemma stream_log s v arch : stream v arch (m_fileName s) = log_stream (log_of s v arch).
Proof. done. Qed.

Lemma synced_stream c l : log_stream (synced c l) = log_stream l.
Proof. unfold synced, log_stream. by destruct (reached _ _). Qed.

Lemma seal_stream c l : log_stream (seal c l) = log_stream l.
Proof.
  unfold seal, log_stream. destruct (_ <=? _); [|done]. cbn [sealed active].
  rewrite concat_app. simpl. by rewrite !app_nil_r.
Qed.

Lemma put_bytes_stream b l : log_stream (put_bytes b l) = log_stream l ++ b.
Proof. unfold log_stream, put_bytes. cbn. apply app_assoc. Qed.

Lemma config_ok_bounds c :
  config_ok c ->
  0 < maxSegmentBytes c < 2 ^ 64 /\ (kFrameSize | maxSegmentBytes c) /\
  0 <= syncEveryBytes c <= maxSegmentBytes c.
Proof.
  intros (Hv & Hm & Hs). unfold validateConfig in Hv.
  destruct (Z.ltb_spec (maxSegmentBytes c) kFrameSize); [done|].
  destruct (Z.eqb_spec (maxSegmentBytes c mod kFrameSize) 0) as [E|E]; [|done].
  assert (syncEveryBytes c <= maxSegmentBytes c).
  { destruct (Z.eqb_spec (syncEveryBytes c) 0); [unfold kFrameSize in *; lia|].
    cbn in Hv. destruct (Z.ltb_spec (maxSegmentBytes c) (syncEveryBytes c)); [done|lia]. }
  split_and!; try (unfold kFrameSize in *; lia). by apply Z.mod_divide.
Qed.

(** The archives are at least a frame each, so they number less than the bytes. *)
Lemma arch_length R s v arch :
  store_inv R s v arch -> Z.of_nat (length arch) * kFrameSize <= zlen (log_stream (log_of s v arch)).
Proof.
  intros I. pose proof (proj1 I) as D.
  destruct (config_ok_bounds _ (di_config _ _ _ _ D)) as (Hm & Hd & _).
  apply Z.divide_pos_le in Hd; [|lia].
  assert (Z.of_nat (length arch) * kFrameSize <= zlen (concat (map (file_bytes v) arch))).
  { assert (forall a, a ∈ arch -> kFrameSize <= zlen (file_bytes v a)) as Ha.
    { intros a Ha. destruct (di_arch _ _ _ _ D a Ha) as (g & Hg & _ & Hl & _).
      unfold file_bytes. rewrite Hg. lia. }
    clear -Ha. induction arch as [|a arch IH]; [done|]. cbn [length map concat].
    rewrite zlen_app. pose proof (Ha a ltac:(left)). specialize (IH ltac:(intros; apply Ha; by right)).
    lia. }
  unfold log_stream, log_of. cbn [sealed active]. rewrite zlen_app.
  pose proof (zlen_nonneg (file_bytes v (m_fileName s))). lia.
Qed.

Lemma grew_app name v0 v1 v2 arch more data n :
  stream v1 (arch ++ more) name = stream v0 arch name ++ ztake n data ->
  0 <= n <= zlen data -> grew name v1 v2 (arch ++ more) (zdrop n data) ->
  grew name v0 v2 arch data.
Proof.
  intros E Hn (more' & k & E'). exists (more ++ more'), (n + Z.max 0 k).
  rewrite app_assoc, E', E, <- app_assoc. f_equal. rewrite ztake_add by lia. f_equal.
  destruct (Z.le_gt_cases 0 k); [by rewrite Z.max_r by lia|].
  by rewrite Z.max_l, !ztake_nonpos by lia.
Qed.

(** The size of the next chunk. *)
Lemma chunk_fits R s v arch (frames : bytes) offset :
  store_inv R s v arch -> reached (m_config s) (m_unsyncedBytes s) = false ->
  m_currentSize s < maxSegmentBytes (m_config s) ->
  0 <= offset < zlen frames -> zlen frames < 2 ^ 64 -> (kFrameSize | zlen frames - offset) ->
  let c := m_config s in
  let room := Z.min (zlen frames - offset) (u64 (maxSegmentBytes c - m_currentSize s)) in
  let chunk := if syncEveryBytes c =? 0 then room
               else chunk_size (syncEveryBytes c) (m_unsyncedBytes s) room in
  0 < chunk <= zlen frames - offset /\ (kFrameSize | chunk) /\
  m_currentSize s + chunk <= maxSegmentBytes c /\
  (syncEveryBytes c = 0 \/ m_unsyncedBytes s + chunk < syncEveryBytes c + kFrameSize).
Proof.
  intros I Hr Hlt Ho Hf Hd c room chunk. destruct (store_inv_active _ _ _ _ I) as (f & _ & A & _).
  destruct (config_ok_bounds _ (di_config _ _ _ _ (proj1 I))) as (Hm & Hmd & Hs). fold c in Hm, Hmd, Hs, Hlt.
  destruct A as [_ _ _ [Hsz _] Hcd [Hu _] _]. rewrite <- Hsz in Hcd.
  assert (room = Z.min (zlen frames - offset) (maxSegmentBytes c - m_currentSize s)) as Er
    by (unfold room; rewrite u64_small; lia).
  assert (0 < room < 2 ^ 64 /\ (kFrameSize | room)) as [Hr0 Hrd].
  { rewrite Er. split; [lia|]. destruct (Z.min_spec (zlen frames - offset) (maxSegmentBytes c - m_currentSize s)) as [[_ ->]|[_ ->]]; [done|].
    by apply Z.divide_sub_r. }
  clearbody room. unfold chunk, reached in *. fold c in Hr.
  destruct (Z.eqb_spec (syncEveryBytes c) 0) as [E|E].
  - split_and!; try done; try lia.
  - cbn [negb andb] in Hr. destruct (chunk_size_spec c (m_unsyncedBytes s) room) as (Hc & Hcd' & Hcs & _);
      try done; try lia. split_and!; try done; try lia.
Qed.

Definition appended R (b : bool) (s s' : St F) (arch : list string) (data : bytes) : Prop :=
  later s s' /\
  if b then exists more, store_inv R (store s') (view (fs s')) (arch ++ more) /\
    same_place (store s) (store s') /\
    log_of (store s') (view (fs s')) (arch ++ more) =
      fold_left (log_append (m_config (store s))) (frames_of data)
        (log_of (store s) (view (fs s)) arch)
  else grew (m_fileName (store s)) (view (fs s)) (view (fs s')) arch data.

(** The start of an iteration: a full segment sealed, a due sync done. *)
Lemma prepare_spec t R (K : M (St F) bool) Q (s : St F) arch :
  let l := log_of (store s) (view (fs s)) arch in
  let c := m_config (store s) in
  clock_avoids R -> store_inv R (store s) (view (fs s)) arch ->
  zlen (log_stream l) + 1 < 2 ^ 64 -> enough t s ->
  (forall s2 more, later s s2 -> store_inv R (store s2) (view (fs s2)) (arch ++ more) ->
     same_place (store s) (store s2) ->
     log_of (store s2) (view (fs s2)) (arch ++ more) = synced c (seal c l) -> wp t K Q s2) ->
  (forall s2, later s s2 ->
     kept_stream (m_fileName (store s)) (view (fs s)) (view (fs s2)) arch -> Q false s2) ->
  wp t (ok ← rotate_if_full fuel;
        if negb ok then mret false
        else ok ← sync_if_due fuel; if negb ok then mret false else K) Q s.
Proof.
  intros l c Hclock I Hmax Hen HK HQ. pose proof (arch_length _ _ _ _ I) as Hal. fold l in Hal.
  pose proof (di_sequence _ _ _ _ (proj1 I)) as Hsq. apply wp_bind.
  eapply wp_mono; [apply (rotate_if_full_spec t R s arch); try done; unfold kFrameSize in *; lia|].
  intros b1 s1 [Hl1 H1]. destruct b1; cbn [negb]; [|apply wp_ret; by apply HQ].
  destruct H1 as (m1 & I1 & P1 & L1). apply wp_bind.
  eapply wp_mono; [apply (sync_if_due_spec t R s1 _ I1); by eapply enough_le|].
  intros b2 s2 [Hl2 H2]. pose proof P1 as (Ec1 & _ & En1 & _).
  assert (later s s2) as Hl by (unfold later in *; lia).
  destruct b2; cbn [negb].
  - destruct H2 as (m2 & I2 & P2 & L2). rewrite <- app_assoc in I2, L2.
    apply (HK s2 (m1 ++ m2)); try done; [by eapply same_place_trans|].
    by rewrite L2, L1, Ec1.
  - apply wp_ret, HQ; [done|]. destruct H2 as (m2 & Hs). rewrite <- app_assoc in Hs.
    exists (m1 ++ m2). rewrite <- En1, Hs, stream_log, L1, seal_stream. unfold l.
    rewrite <- stream_log. by rewrite En1.
Qed.

Lemma appended_step R b (s s3 s' : St F) arch more data n :
  let c := m_config (store s) in
  later s s3 -> same_place (store s) (store s3) -> 0 <= n <= zlen data -> (kFrameSize | n) ->
  log_of (store s3) (view (fs s3)) (arch ++ more) =
    fold_left (log_append c) (frames_of (ztake n data)) (log_of (store s) (view (fs s)) arch) ->
  log_stream (log_of (store s3) (view (fs s3)) (arch ++ more)) =
    log_stream (log_of (store s) (view (fs s)) arch) ++ ztake n data ->
  appended R b s3 s' (arch ++ more) (zdrop n data) -> appended R b s s' arch data.
Proof.
  intros c Hl P Hn Hd HL HS [Hl2 H2]. pose proof P as (Ec & _ & En & _).
  split; [unfold later in *; lia|]. destruct b.
  - destruct H2 as (more2 & I2 & P2 & L2). exists (more ++ more2). rewrite app_assoc.
    split_and!; [done|by eapply same_place_trans|].
    rewrite L2, Ec, HL, (frames_of_chunk n data) by done. by rewrite fold_left_app.
  - rewrite En in H2. apply (grew_app _ _ (view (fs s3)) _ arch more data n); try done.
    rewrite <- En at 1. by rewrite stream_log, HS.
Qed.

Lemma append_loop_spec t R n (frames : bytes) offset (s : St F) arch :
  clock_avoids R -> store_inv R (store s) (view (fs s)) arch ->
  0 <= offset <= zlen frames -> (kFrameSize | zlen frames - offset) ->
  zlen (log_stream (log_of (store s) (view (fs s)) arch)) + zlen frames < 2 ^ 64 + offset ->
  zlen frames < 2 ^ 64 ->
  (t = true -> (budget (fs s) + Z.to_nat (zlen frames) < fuel)%nat /\
               (Z.to_nat (zlen frames - offset) < n)%nat) ->
  wp t (append_loop fuel n frames offset)
    (fun b s' => appended R b s s' arch (zdrop offset frames)) s.
Proof.
  intros Hclock. revert offset s arch.
  induction n as [|n IH]; intros offset s arch I Ho Hd Hmax Hf Ht.
  { apply wp_out_of_fuel. destruct t; [|reflexivity]. specialize (Ht eq_refl). lia. }
  cbn [append_loop]. destruct (Z.ltb_spec offset (zlen frames)) as [Hlt|Hge].
  2: { apply wp_ret. split; [by unfold later|]. exists []. rewrite app_nil_r.
       rewrite zdrop_ge by lia. split_and!; [done|apply same_place_refl|done]. }
  destruct (config_ok_bounds _ (di_config _ _ _ _ (proj1 I))) as (Hm & _ & Hsy).
  set (l := log_of (store s) (view (fs s)) arch) in *. set (c := m_config (store s)) in *.
  apply (prepare_spec t R _ _ s arch); [done|done|fold l; lia| | |].
  { intros Ht'. specialize (Ht Ht'). lia. }
  2: { intros s2 Hl2 Hk. split; [done|]. by apply kept_grew. }
  fold l c. intros s2 more Hl2 I2 P L2. pose proof P as (Ec & _ & En & _). fold c in Ec.
  apply wp_bind, wp_this. unfold id. cbv zeta.
  assert (reached (m_config (store s2)) (m_unsyncedBytes (store s2)) = false) as Hr.
  { change (m_unsyncedBytes (store s2))
      with (unsynced (log_of (store s2) (view (fs s2)) (arch ++ more))).
    rewrite L2, Ec. apply synced_unsynced. lia. }
  pose proof (log_active_size _ _ _ _ I2) as Ha2. rewrite L2 in Ha2.
  assert (m_currentSize (store s2) < maxSegmentBytes (m_config (store s2))) as Hfit.
  { rewrite <- Ha2, Ec, synced_active. apply seal_active. lia. }
  destruct (chunk_fits R _ _ _ frames offset I2 Hr Hfit ltac:(lia) Hf Hd) as (Hc & Hcd & Hcm & Hcs).
  set (chunk := if _ =? 0 then _ else _) in *. clearbody chunk. rewrite Ec in *.
  apply wp_bind. eapply wp_mono; [apply (write_chunk_spec t R s2 (arch ++ more)); try done; try lia|].
  { intros Ht'. specialize (Ht Ht'). unfold later in *. lia. }
  set (b := zslice offset chunk frames) in *.
  assert (zlen b = chunk) as Ezb by (apply zlen_slice; lia).
  assert (b = ztake chunk (zdrop offset frames)) as Eb by done.
  assert (zlen (zdrop offset frames) = zlen frames - offset) as Ezd by (rewrite zlen_drop; lia).
  intros b3 s3 [Hl3 H3]. destruct b3; cbn [negb].
  2: { apply wp_ret. split; [unfold later in *; lia|].
       destruct H3 as (m3 & k & Hs). exists (more ++ m3), (Z.min k chunk). rewrite app_assoc.
       rewrite <- En, Hs, stream_log, L2, synced_stream, seal_stream, Eb, ztake_ztake. by rewrite En. }
  destruct H3 as (m3 & I3 & P3 & L3). rewrite <- app_assoc in I3, L3. rewrite L2, Ec in L3.
  rewrite u64_small by lia.
  assert (log_stream (log_of (store s3) (view (fs s3)) (arch ++ more ++ m3)) = log_stream l ++ b) as Hst.
  { by rewrite L3, synced_stream, put_bytes_stream, synced_stream, seal_stream. }
  eapply wp_mono; [apply (IH (offset + chunk) s3 (arch ++ more ++ m3)); try done; try lia|].
  - replace (zlen frames - (offset + chunk)) with (zlen frames - offset - chunk) by lia.
    by apply Z.divide_sub_r.
  - rewrite Hst, zlen_app. lia.
  - intros Ht'. specialize (Ht Ht'). unfold later in *. lia.
  - intros b4 s4 H4. apply (appended_step R b4 s s3 s4 arch (more ++ m3) _ chunk); fold l c;
      rewrite <- ?Eb; try done; try lia.
    + unfold later in *. lia.
    + by eapply same_place_trans.
    + rewrite L3. symmetry. apply log_append_frames; rewrite ?Ezb; try done; try lia.
      rewrite <- L2. exact Hcs.
    + by rewrite zdrop_zdrop by lia.
Qed.

Lemma store_open R s v arch : store_inv R s v arch -> m_fd s <> -1.
Proof. intros (_ & _ & f & A). apply (ai_fd _ _ _ A). Qed.

Lemma appendFrames_spec t R (frames : bytes) (s : St F) arch :
  clock_avoids R -> store_inv R (store s) (view (fs s)) arch ->
  zlen frames <> 0 -> (kFrameSize | zlen frames) ->
  zlen (log_stream (log_of (store s) (view (fs s)) arch)) + zlen frames < 2 ^ 64 ->
  (t = true -> (budget (fs s) + Z.to_nat (zlen frames) < fuel)%nat) ->
  wp t (appendFrames fuel frames) (fun b s' => appended R b s s' arch frames) s.
Proof.
  intros Hclock I H1 H2 Hmax Ht. unfold appendFrames. apply wp_bind, wp_this.
  pose proof (store_open _ _ _ _ I) as Hfd. apply Z.eqb_neq in Hfd as ->.
  pose proof (zlen_nonneg frames). apply Z.eqb_neq in H1 as H1'. rewrite H1'.
  apply Z.mod_divide in H2 as H2'; [|done]. rewrite H2'. cbn [Z.eqb negb orb].
  pose proof (zlen_nonneg (log_stream (log_of (store s) (view (fs s)) arch))).
  eapply wp_mono; [apply (append_loop_spec t R fuel frames 0 s arch); try done; try lia|].
  - by rewrite Z.sub_0_r.
  - intros Ht'. specialize (Ht Ht'). lia.
  - intros b s' HA. by rewrite zdrop_nonpos in HA by lia.
Qed.

(** A batch that is not whole frames is refused. *)
Lemma appendFrames_refused frames (s : St F) :
  zlen frames = 0 \/ ~ (kFrameSize | zlen frames) ->
  appendFrames fuel frames s = Some (false, s).
Proof.
  intros Hbad. unfold appendFrames, this, gets, mbind, M_bind.
  destruct (m_fd (store s) =? -1); [done|].
  assert ((zlen frames =? 0) || negb (zlen frames mod kFrameSize =? 0) = true) as ->; [|done].
  destruct (Z.eqb_spec (zlen frames) 0); [done|]. cbn [orb].
  destruct Hbad as [|Hbad]; [done|]. rewrite <- Z.mod_divide in Hbad by done.
  by apply Z.eqb_neq in Hbad as ->.
Qed.

(** ** Opening *)

(** The directory before a store is opened on [path]: its names are the file's own
    and those of other runs, and it is durable as it is, an existing active file too
    ([openFile] syncs that file only when it cuts an incomplete frame off). *)
Definition names_known (R : string -> Prop) (path : string) (v : FsView) : Prop :=
  dir_ok v /\ saved_entries v = entries v /\
  (forall name f, entries v !! name = Some f -> name = filename path \/ R name) /\
  (forall f, entries v !! filename path = Some f -> v_saved v f = zlen (content v f)).

Lemma openFile_spec t R path (s : St F) c :
  store s = new_store c -> config_ok c -> names_known R path (view (fs s)) -> enough t s ->
  wp t (openFile fuel path) (fun b s' => later s s' /\
    if b then store_inv R (store s') (view (fs s')) [] /\
      m_config (store s') = c /\ m_fileName (store s') = filename path /\
      log_of (store s') (view (fs s')) [] =
        {| sealed := []; active := whole (file_bytes (view (fs s)) (filename path)); unsynced := 0 |}
    else kept (filename path) (view (fs s)) (view (fs s')) []) s.
Proof.
  intros Es Hc (Hok & Hse & Hnames & Hsv) Hen.
  assert (kept (filename path) (view (fs s)) (view (fs s)) []) as Hkept by (split; [done|by left]).
  assert (later s s) as Hl0 by (by unfold later).
  unfold openFile. apply wp_bind, wp_this, wp_bind, wp_this. rewrite Es. cbn [new_store m_fd m_directoryFd].
  cbn [Z.eqb Pos.eqb negb orb]. apply wp_bind, wp_this. rewrite Es. cbn [new_store m_config].
  pose proof Hc as (Hv & _). rewrite Hv. cbn [negb]. apply wp_bind. unfold openDirectory.
  destruct (filename path) as [|ch rest] eqn:Ef; [by apply wp_ret, wp_ret|].
  rewrite <- Ef in *. apply wp_bind. eapply wp_sys; [apply open_law|]. intros r w Hp Hb _.
  destruct r as [fd|e].
  2: { cbn in Hp. apply wp_bind, wp_set, wp_ret. cbn [negb]. apply wp_ret. cbn [store fs].
       split; [exact Hb|]. by rewrite Hp. }
  destruct (Hp eq_refl) as [(Hfd0 & Hfd1 & Hfd2) Ev].
  apply wp_bind, wp_set, wp_ret. cbn [negb store fs].
  set (s1 := set_directory _ _ _ _).
  assert (dir_inv R s1 (view w) []) as D.
  { rewrite Ev. unfold s1. rewrite Es. constructor; cbn; try done.
    - split; [set_solver|lia].
    - apply NoDup_nil_2.
    - apply not_elem_of_nil.
    - intros a Ha. by apply not_elem_of_nil in Ha.
    - intros name f Hn. destruct (Hnames name f Hn); auto. }
  eapply wp_mono; [apply (openActiveFile_spec t R _ []); cbn [store fs]|].
  - exact D.
  - by rewrite Ev.
  - intros f Hf. rewrite Ev in Hf |- *. by apply Hsv.
  - unfold s1. by rewrite Es.
  - by eapply enough_le.
  - cbn [store fs]. intros b s' [Hl HH]. split; [unfold later in *; cbn [fs] in Hl; lia|].
    assert (file_bytes (view w) = file_bytes (view (fs s))) as Eb by (by rewrite Ev).
    destruct b.
    + destruct HH as (HI & (Ec & _ & En & _) & _ & HL). split_and!; try done.
      * by rewrite Ec; unfold s1; rewrite Es.
      * rewrite HL, Eb. done.
    + destruct HH as [HM HC]. unfold kept. rewrite <- Eb. done.
Qed.

End specs.

(** The destructor closes the descriptors and nothing else. *)
Lemma destroy_spec {F} `{FsLaws F} t (s : St F) :
  wp t destroy (fun _ s' => store s' = store s /\ same_files (view (fs s)) (view (fs s')) /\
    saved_entries (view (fs s')) = saved_entries (view (fs s))) s.
Proof.
  assert (forall fd (s : St F),
    wp t (if fd =? -1 then mret tt else r ← sys (close fd); mret tt) (fun _ s' =>
      store s' = store s /\ same_files (view (fs s)) (view (fs s')) /\
      saved_entries (view (fs s')) = saved_entries (view (fs s))) s) as Hclose.
  { intros fd s0. destruct (fd =? -1); [by apply wp_ret|]. apply wp_bind.
    eapply wp_sys; [apply close_law|]. intros r w Hp _ _. apply wp_ret. by rewrite Hp. }
  unfold destroy. apply wp_bind, wp_this, wp_bind, wp_this, wp_bind.
  eapply wp_mono; [apply Hclose|]. intros _ s1 (E1 & (E2 & E3 & E4) & E5).
  eapply wp_mono; [apply Hclose|]. intros _ s2 (F1 & (F2 & F3 & F4) & F5).
  unfold same_files. split_and!; congruence.
Qed.

(** ** What the log says of the segments *)

(** Every sealed segment is exactly full, and the active one is not over full. *)
Definition segments_full (c : FileStoreConfig) (l : Log) : Prop :=
  Forall (fun seg => zlen seg = maxSegmentBytes c) (sealed l) /\
  zlen (active l) <= maxSegmentBytes c /\ (kFrameSize | zlen (active l)).

Lemma log_append_full c l frame :
  (kFrameSize | maxSegmentBytes c) -> 0 < maxSegmentBytes c -> zlen frame = kFrameSize ->
  segments_full c l -> segments_full c (log_append c l frame).
Proof.
  intros Hd Hm Hf (Hs & Ha & Had).
  assert (segments_full c (seal c l) /\ zlen (active (seal c l)) < maxSegmentBytes c)
    as [(Hs1 & Ha1 & Had1) Hlt].
  { split; [|by apply seal_active]. unfold seal.
    destruct (Z.leb_spec (maxSegmentBytes c) (zlen (active l))); [|done].
    split_and!; cbn [sealed active]; [|rewrite zlen_nil; lia|apply Z.divide_0_r].
    apply Forall_app. split; [done|]. constructor; [lia|constructor]. }
  unfold log_append, segments_full.
  assert (forall l0, sealed (synced c l0) = sealed l0) as Es
    by (intros l0; unfold synced; by destruct (reached _ _)).
  rewrite Es, synced_active. cbn [put_bytes sealed active]. rewrite Es, synced_active, zlen_app, Hf.
  split_and!; [done| |apply Z.divide_add_r; [done|apply Z.divide_refl]].
  destruct Hd as [a Ea], Had1 as [k Ek]. unfold kFrameSize in *. lia.
Qed.

Lemma log_append_all_full c frames l :
  (kFrameSize | maxSegmentBytes c) -> 0 < maxSegmentBytes c ->
  Forall (fun f => zlen f = kFrameSize) frames ->
  segments_full c l -> segments_full c (fold_left (log_append c) frames l).
Proof.
  intros Hd Hm Hf. revert l. induction Hf as [|fr frs Hfr _ IH]; intros l Hl; [done|].
  cbn [fold_left]. apply IH. by apply log_append_full.
Qed.

(** After an append the sync interval is never reached. *)
Lemma log_append_synced c frames l :
  0 <= syncEveryBytes c -> frames <> [] ->
  reached c (unsynced (fold_left (log_append c) frames l)) = false.
Proof.
  intros Hs Hf. destruct frames as [|f frames _] using rev_ind; [done|].
  rewrite fold_left_app. cbn [fold_left]. unfold log_append at 1. by apply synced_unsynced.
Qed.

Lemma log_append_all_stream c frames l :
  log_stream (fold_left (log_append c) frames l) = log_stream l ++ concat frames.
Proof.
  revert l. induction frames as [|f frames IH]; intros l; [by rewrite app_nil_r|].
  cbn [fold_left concat]. rewrite IH. unfold log_append.
  by rewrite synced_stream, put_bytes_stream, synced_stream, seal_stream, app_assoc.
Qed.

Lemma log_append_stream c frames l :
  (kFrameSize | zlen frames) ->
  log_stream (fold_left (log_append c) (frames_of frames) l) = log_stream l ++ frames.
Proof.
  intros [k Hk]. rewrite log_append_all_stream. unfold frames_of.
  rewrite split_frames_concat; [done|]. pose proof (zlen_nonneg frames).
  rewrite Hk, Z.div_mul, Z2Nat.id by (done || (unfold kFrameSize in *; lia)). done.
Qed.

Lemma store_inv_archives R s v arch :
  store_inv R s v arch -> all_archives R (m_fileName s) v arch.
Proof.
  intros [D _]. split_and!; [apply D..|]. intros i a Ha. split; [|by apply D].
  apply list_elem_of_lookup_2, (di_arch _ _ _ _ D) in Ha as (g & Hg & _). by exists g.
Qed.

(** Sealed segments stay. *)
Lemma log_append_all_sealed c frames l :
  sealed l `prefix_of` sealed (fold_left (log_append c) frames l).
Proof.
  revert l. induction frames as [|f frames IH]; intros l; [done|]. cbn [fold_left].
  etrans; [|apply IH]. unfold log_append, synced, seal. repeat case_match; cbn; try done;
    by apply prefix_app_r.
Qed.

(** Archives that were there hold what they held. *)
Lemma log_of_kept c frames (s s' : FileStore) v v' arch more :
  log_of s' v' (arch ++ more) = fold_left (log_append c) frames (log_of s v arch) ->
  forall a, a ∈ arch -> file_bytes v' a = file_bytes v a.
Proof.
  intros HL a Ha. pose proof (log_append_all_sealed c frames (log_of s v arch)) as [tail Ht].
  rewrite <- HL in Ht. cbn [sealed log_of] in Ht. rewrite map_app in Ht.
  apply app_inj_1 in Ht as [Ht _]; [|by rewrite !length_map].
  apply list_elem_of_lookup in Ha as [i Hi].
  assert (map (file_bytes v') arch !! i = map (file_bytes v) arch !! i) as E by (by rewrite Ht).
  rewrite !list_lookup_fmap, Hi in E. by injection E.
Qed.

(** What a crash leaves: the archives whole, and of the active file all but what was
    not synced. *)
Lemma crash_files R s v arch :
  store_inv R s v arch ->
  (forall a, a ∈ arch -> crash_bytes v a = file_bytes v a) /\
  exists lost, 0 <= lost <= m_unsyncedBytes s /\ lost <= zlen (file_bytes v (m_fileName s)) /\
    crash_bytes v (m_fileName s) =
      ztake (zlen (file_bytes v (m_fileName s)) - lost) (file_bytes v (m_fileName s)).
Proof.
  intros I. destruct (store_inv_active _ _ _ _ I) as (f & He & A & Eb).
  destruct I as (D & Hse & _). destruct (ai_saved _ _ _ A) as [Hs1 Hs2]. split.
  - intros a Ha. destruct (di_arch _ _ _ _ D a Ha) as (g & Hg & _ & _ & Hsg).
    unfold crash_bytes, file_bytes. rewrite Hse, Hg, Hsg. by apply ztake_ge.
  - pose proof (ai_unsynced _ _ _ A) as [? _]. pose proof (ai_size _ _ _ A) as [? _].
    exists (zlen (content v f) - v_saved v f). rewrite Eb. split_and!; [lia..|].
    unfold crash_bytes. rewrite Hse, He. f_equal. lia.
Qed.

(** Of the whole log a crash takes only an end. *)
Lemma crash_stream_prefix v arch file lost :
  (forall a, a ∈ arch -> crash_bytes v a = file_bytes v a) ->
  lost <= zlen (file_bytes v file) ->
  crash_bytes v file = ztake (zlen (file_bytes v file) - lost) (file_bytes v file) ->
  crash_stream v arch file = ztake (zlen (stream v arch file) - lost) (stream v arch file).
Proof.
  intros Ha Hl Hf. assert (map (crash_bytes v) arch = map (file_bytes v) arch) as Em
    by (apply map_ext_in; intros a Hin%list_elem_of_In; by apply Ha).
  unfold crash_stream, stream. rewrite Em, zlen_app, Hf.
  pose proof (zlen_nonneg (concat (map (file_bytes v) arch))).
  rewrite ztake_app_ge by lia. do 2 f_equal. lia.
Qed.

Lemma crash_prefix R s v arch :
  store_inv R s v arch ->
  exists lost, 0 <= lost <= m_unsyncedBytes s /\
    crash_stream v arch (m_fileName s) =
      ztake (zlen (stream v arch (m_fileName s)) - lost) (stream v arch (m_fileName s)).
Proof.
  intros I. destruct (crash_files _ _ _ _ I) as (Ha & lost & Hl & Hf & Hc).
  exists lost. split; [done|]. by apply crash_stream_prefix.
Qed.

(** ** A sample store *)

(** A directory with a file of one frame and a byte, and another file. *)
Definition sample_dir : FsView :=
  {| entries := {["t.bin" := 1; "notes.txt" := 2]};
     saved_entries := {["t.bin" := 1; "notes.txt" := 2]};
     files := {[1 := replicate 33 Byte.x2a; 2 := [Byte.x01]]};
     saved := {[1 := 33; 2 := 1]}; fds := ∅; dirs := ∅ |}.

Definition sample_names (name : string) : Prop := name = "notes.txt".

Definition sample_config : FileStoreConfig := {| maxSegmentBytes := 64; syncEveryBytes := 40 |}.

(** Its calls are interrupted and write short. *)
Definition sample_state : St MemFs :=
  mk_St (new_store sample_config)
    {| mview := sample_dir;
       faults := [Pass; Pass; Pass; Pass; Pass; Fail EINTR; Pass; Short 5; Fail EINTR; Short 9];
       ticks := 0 |}.

Definition sample_opened : St MemFs :=
  match openFile 200 "d/t.bin" sample_state with Some (_, s) => s | None => sample_state end.

Definition sample_frames : bytes := replicate 96 Byte.x2b.

Lemma sample_clock : clock_avoids (F:=MemFs) sample_names.
Proof.
  intros w time w' name file q _ -> E. apply (f_equal String.length) in E.
  unfold archive_name in E. rewrite !string_length_app in E. simpl in E. lia.
Qed.

Lemma sample_config_ok : config_ok sample_config.
Proof. by vm_compute. Qed.

Lemma sample_known : names_known sample_names "d/t.bin" (view (fs sample_state)).
Proof.
  change (names_known sample_names "d/t.bin" sample_dir).
  assert (forall name f, entries sample_dir !! name = Some f ->
    (name = "t.bin" /\ f = 1) \/ (name = "notes.txt" /\ f = 2)) as He.
  { intros name f. unfold sample_dir. cbn [entries].
    rewrite lookup_insert_Some, lookup_singleton_Some. naive_solver. }
  unfold names_known, dir_ok. split_and!.
  - intros n1 n2 f H1%He H2%He. naive_solver.
  - intros n f [[-> ->]|[-> ->]]%He; split; eexists; reflexivity.
  - done.
  - intros name f [[-> _]|[-> _]]%He; [by left|by right].
  - intros f [[_ ->]|[? _]]%He; [by vm_compute|done].
Qed.

Lemma sample_enough : enough 200 true sample_state.
Proof. intros _. vm_compute. lia. Qed.

Lemma sample_opens : openFile 200 "d/t.bin" sample_state = Some (true, sample_opened).
Proof. by vm_compute. Qed.

Lemma sample_inv : store_inv sample_names (store sample_opened) (view (fs sample_opened)) [].
Proof.
  apply (wp_run _ _ _ _ _ _ (openFile_spec 200 true sample_names "d/t.bin" sample_state
    sample_config eq_refl sample_config_ok sample_known sample_enough) sample_opens).
Qed.

Definition sample_appended : St MemFs :=
  match appendFrames 200 sample_frames sample_opened with
  | Some (_, s) => s
  | None => sample_opened
  end.

Lemma sample_appends : appendFrames 200 sample_frames sample_opened = Some (true, sample_appended).
Proof. by vm_compute. Qed.

Lemma sample_fuel : (budget (fs sample_opened) + Z.to_nat (zlen sample_frames) < 200)%nat.
Proof. vm_compute. lia. Qed.

Lemma sample_frames_whole :
  zlen sample_frames <> 0 /\ (kFrameSize | zlen sample_frames).
Proof. split; [done|by exists 3]. Qed.

Lemma sample_small :
  zlen (log_stream (log_of (store sample_opened) (view (fs sample_opened)) [])) +
  zlen sample_frames < 2 ^ 64.
Proof. by vm_compute. Qed.

(** A batch is refused, or appended by the specification. *)
Lemma appendFrames_run {F} `{FsLaws F} R fuel frames (s s' : St F) arch b :
  clock_avoids R -> store_inv R (store s) (view (fs s)) arch ->
  zlen (log_stream (log_of (store s) (view (fs s)) arch)) + zlen frames < 2 ^ 64 ->
  appendFrames fuel frames s = Some (b, s') ->
  (b = false /\ s' = s) \/
  (kFrameSize <= zlen frames /\ (kFrameSize | zlen frames) /\ appended R b s s' arch frames).
Proof.
  intros Hc I Hmax Hrun. pose proof (zlen_nonneg frames).
  destruct (Z.eq_dec (zlen frames) 0) as [Hz|Hz].
  { rewrite appendFrames_refused in Hrun by tauto. injection Hrun as <- <-. by left. }
  destruct (Z.eq_dec (zlen frames mod kFrameSize) 0) as [Hd|Hd]; rewrite Z.mod_divide in Hd by done.
  2: { rewrite appendFrames_refused in Hrun by tauto. injection Hrun as <- <-. by left. }
  right. split; [apply Z.divide_pos_le; [lia|done]|]. split; [done|].
  apply (wp_run false (appendFrames fuel frames) (fun b s' => appended R b s s' arch frames) s b s');
    [by apply appendFrames_spec|done].
Qed.

(** ** Properties *)

Section properties.
Context {F : Type} `{FsLaws F}.
Variable R : string -> Prop.
Hypothesis R_clock : clock_avoids R.

(** C2: [appendFrames] on an open store always returns, and when it returns
    [true] the files on disk are the log with the batch's frames appended one by
    one: full segments sealed as archives before the frame that exceeds them, a
    sync whenever the interval is reached, whatever the short writes and
    interruptions. *)
Theorem append_refines_log fuel frames (s : St F) arch :
  store_inv R (store s) (view (fs s)) arch ->
  zlen frames <> 0 -> (kFrameSize | zlen frames) ->
  zlen (log_stream (log_of (store s) (view (fs s)) arch)) + zlen frames < 2 ^ 64 ->
  (budget (fs s) + Z.to_nat (zlen frames) < fuel)%nat ->
  exists b s', appendFrames fuel frames s = Some (b, s') /\
    (b = true -> exists more, store_inv R (store s') (view (fs s')) (arch ++ more) /\
       log_of (store s') (view (fs s')) (arch ++ more) =
         fold_left (log_append (m_config (store s))) (frames_of frames)
           (log_of (store s) (view (fs s)) arch)).
Proof.
  intros I H1 H2 Hmax Hf.
  destruct (wp_total _ _ _ (appendFrames_spec fuel true R frames s arch R_clock I H1 H2 Hmax
    (fun _ => Hf))) as (b & s' & Hrun & _ & HA).
  exists b, s'. split; [done|]. intros ->. destruct HA as (more & ? & _ & ?). eauto.
Qed.

(** C28: an append that fails keeps every byte stored before, in order, and adds
    a prefix of the batch, whichever call failed. *)
Theorem append_failure_keeps_prefix fuel frames (s s' : St F) arch :
  store_inv R (store s) (view (fs s)) arch ->
  zlen (log_stream (log_of (store s) (view (fs s)) arch)) + zlen frames < 2 ^ 64 ->
  appendFrames fuel frames s = Some (false, s') ->
  exists more k, stream (view (fs s')) (arch ++ more) (m_fileName (store s)) =
    stream (view (fs s)) arch (m_fileName (store s)) ++ ztake k frames.
Proof.
  intros I Hmax Hrun.
  destruct (appendFrames_run R _ _ _ _ _ _ R_clock I Hmax Hrun) as [[_ ->]|(_ & _ & _ & HA)];
    [|exact HA].
  exists [], 0. by rewrite ztake_nonpos, !app_nil_r.
Qed.

(** C14: durability.  On an open store that keeps its invariant, with the sync
    interval on, after an append that succeeds: the bytes stored are those before and
    then the batch; [arch ++ more] is all the archives there are; archives made before
    are untouched; a crash loses nothing of any archive, old or new, and less than
    [syncEveryBytes] bytes of the active file, from its end. *)
Theorem append_durable fuel frames (s s' : St F) arch :
  store_inv R (store s) (view (fs s)) arch ->
  zlen (log_stream (log_of (store s) (view (fs s)) arch)) + zlen frames < 2 ^ 64 ->
  syncEveryBytes (m_config (store s)) <> 0 ->
  appendFrames fuel frames s = Some (true, s') ->
  exists more lost, 0 <= lost < syncEveryBytes (m_config (store s)) /\
    let file := m_fileName (store s) in
    let all := stream (view (fs s')) (arch ++ more) file in
    let active := file_bytes (view (fs s')) file in
    all = stream (view (fs s)) arch file ++ frames /\
    all_archives R file (view (fs s')) (arch ++ more) /\
    (forall a, a ∈ arch -> file_bytes (view (fs s')) a = file_bytes (view (fs s)) a) /\
    (forall a, a ∈ arch ++ more ->
       crash_bytes (view (fs s')) a = file_bytes (view (fs s')) a) /\
    lost <= zlen active /\ crash_bytes (view (fs s')) file = ztake (zlen active - lost) active /\
    crash_stream (view (fs s')) (arch ++ more) file = ztake (zlen all - lost) all.
Proof.
  intros I Hmax Hs Hrun.
  destruct (appendFrames_run R _ _ _ _ _ _ R_clock I Hmax Hrun)
    as [[? _]|(H1 & H2 & _ & more & I' & (Ec & _ & En & _) & HL)]; [done|].
  destruct (config_ok_bounds _ (di_config _ _ _ _ (proj1 I))) as (_ & _ & Hsy).
  destruct (crash_files _ _ _ _ I') as (Ha & lost & Hl & Hf & Hcs). rewrite En in Hf, Hcs.
  pose proof (store_inv_archives _ _ _ _ I') as Harch. rewrite En in Harch.
  assert (reached (m_config (store s)) (m_unsyncedBytes (store s')) = false) as Hr.
  { change (m_unsyncedBytes (store s'))
      with (unsynced (log_of (store s') (view (fs s')) (arch ++ more))). rewrite HL.
    apply log_append_synced; [lia|]. by apply frames_of_nonempty. }
  exists more, lost. split; [unfold reached in Hr; lia|]. cbv zeta.
  split_and!; try done; [|by eapply log_of_kept|by apply crash_stream_prefix].
  rewrite <- En at 1. rewrite stream_log, HL, (stream_log (store s)).
  by apply log_append_stream.
Qed.

(** C25: opening a store on a directory that is durable as it is found keeps the
    whole frames of an existing file and drops an incomplete last one; the store is
    then ready to append.  When opening fails the bytes stored are the same but for
    that last frame. *)
Theorem open_recovers fuel path (s : St F) c :
  store s = new_store c -> config_ok c -> names_known R path (view (fs s)) ->
  (budget (fs s) < fuel)%nat ->
  exists b s', openFile fuel path s = Some (b, s') /\
    if b then store_inv R (store s') (view (fs s')) [] /\
      log_of (store s') (view (fs s')) [] =
        {| sealed := []; active := whole (file_bytes (view (fs s)) (filename path)); unsynced := 0 |}
    else file_bytes (view (fs s')) (filename path) = file_bytes (view (fs s)) (filename path) \/
         file_bytes (view (fs s')) (filename path) =
           whole (file_bytes (view (fs s)) (filename path)).
Proof.
  intros Es Hc Hk Hf.
  destruct (wp_total _ _ _ (openFile_spec fuel true R path s c Es Hc Hk (fun _ => Hf)))
    as (b & s' & Hrun & _ & HA).
  exists b, s'. split; [done|]. destruct b; [tauto|]. apply HA.
Qed.

(** Segments: appending to a store whose archives are exactly
    [maxSegmentBytes] long, and whose active file is not longer, keeps them so: a
    frame is never split, and rotation happens exactly at the limit. *)
Theorem append_segments_full fuel frames (s s' : St F) arch :
  store_inv R (store s) (view (fs s)) arch ->
  zlen (log_stream (log_of (store s) (view (fs s)) arch)) + zlen frames < 2 ^ 64 ->
  segments_full (m_config (store s)) (log_of (store s) (view (fs s)) arch) ->
  appendFrames fuel frames s = Some (true, s') ->
  exists more, segments_full (m_config (store s))
    (log_of (store s') (view (fs s')) (arch ++ more)).
Proof.
  intros I Hmax Hfull Hrun.
  destruct (appendFrames_run R _ _ _ _ _ _ R_clock I Hmax Hrun)
    as [[? _]|(_ & _ & _ & more & _ & _ & HL)]; [done|].
  destruct (config_ok_bounds _ (di_config _ _ _ _ (proj1 I))) as (Hm & Hd & _).
  exists more. rewrite HL. apply log_append_all_full; try done; [lia|apply frames_of_length].
Qed.

(** C29: batching is transparent: a batch appended at once and the same frames
    appended in two calls leave as many archives, the same contents in them one by
    one, the same active file and the same count of bytes since the last sync; here
    [arch ++ m1] and [arch ++ m2] are all the archives in the two directories, by
    sequence number, and a crash loses nothing of any of them. *)
Theorem append_batching fuel a b (s s1 s2 s3 : St F) arch :
  store_inv R (store s) (view (fs s)) arch ->
  zlen (log_stream (log_of (store s) (view (fs s)) arch)) + zlen a + zlen b < 2 ^ 64 ->
  appendFrames fuel (a ++ b) s = Some (true, s1) ->
  appendFrames fuel a s = Some (true, s2) -> appendFrames fuel b s2 = Some (true, s3) ->
  exists m1 m2,
    all_archives R (m_fileName (store s)) (view (fs s1)) (arch ++ m1) /\
    all_archives R (m_fileName (store s)) (view (fs s3)) (arch ++ m2) /\
    (forall x, x ∈ arch ++ m1 -> crash_bytes (view (fs s1)) x = file_bytes (view (fs s1)) x) /\
    (forall x, x ∈ arch ++ m2 -> crash_bytes (view (fs s3)) x = file_bytes (view (fs s3)) x) /\
    map (file_bytes (view (fs s1))) (arch ++ m1) = map (file_bytes (view (fs s3))) (arch ++ m2) /\
    file_bytes (view (fs s1)) (m_fileName (store s)) =
      file_bytes (view (fs s3)) (m_fileName (store s)) /\
    m_unsyncedBytes (store s1) = m_unsyncedBytes (store s3).
Proof.
  intros I Hmax H1 H2 H3. pose proof (zlen_nonneg a). pose proof (zlen_nonneg b).
  apply (appendFrames_run R _ _ _ _ arch _ R_clock I) in H1
    as [[? _]|(_ & _ & _ & m1 & I1 & (_ & _ & E1 & _) & L1)]; [done| |rewrite zlen_app; lia].
  apply (appendFrames_run R _ _ _ _ arch _ R_clock I) in H2
    as [[? _]|(_ & Hda & _ & m2 & I2 & (Ec & _ & E2 & _) & L2)]; [done| |lia].
  apply (appendFrames_run R _ _ _ _ (arch ++ m2) _ R_clock I2) in H3
    as [[? _]|(_ & _ & _ & m3 & I3 & (_ & _ & E3 & _) & L3)]; [done| |].
  - rewrite <- app_assoc in I3, L3. exists m1, (m2 ++ m3).
    assert (log_of (store s1) (view (fs s1)) (arch ++ m1) =
            log_of (store s3) (view (fs s3)) (arch ++ m2 ++ m3)) as HL.
    { rewrite L1, L3, L2, Ec.
      rewrite (frames_of_chunk (zlen a) (a ++ b)) by (rewrite ?zlen_app; lia || done).
      rewrite ztake_app_le, ztake_ge, zdrop_app_ge, Z.sub_diag, zdrop_nonpos by lia.
      by rewrite fold_left_app. }
    pose proof (store_inv_archives _ _ _ _ I1) as A1. rewrite E1 in A1.
    pose proof (store_inv_archives _ _ _ _ I3) as A3. rewrite E3, E2 in A3.
    unfold log_of in HL. rewrite E1, E3, E2 in HL. injection HL as Hs Ha Hu.
    split_and!; try done; by eapply crash_files.
  - rewrite L2, log_append_stream, zlen_app by done. lia.
Qed.

End properties.

(** An archive's name determines its time and sequence number, so archives
    of one store never share a name, and none takes the active file's. *)
Theorem archive_names_distinct file t1 t2 q1 q2 :
  (archive_name file t1 q1 = archive_name file t2 q2 <-> t1 = t2 /\ q1 = q2) /\
  archive_name file t1 q1 <> file /\ archive_name file t1 q1 <> EmptyString.
Proof.
  split_and!; [|apply archive_name_not_file|apply archive_name_nonempty]. split.
  - intros (E1 & E2 & E3)%archive_name_inj. destruct t1, t2. simpl in *. by subst.
  - by intros [-> ->].
Qed.

(** ** Witnesses *)

Lemma append_refines_log_witness :
  (budget (fs sample_opened) + Z.to_nat (zlen sample_frames) < 200)%nat /\
  exists b s', appendFrames 200 sample_frames sample_opened = Some (b, s') /\
    (b = true -> exists more,
       store_inv sample_names (store s') (view (fs s')) ([] ++ more) /\
       log_of (store s') (view (fs s')) ([] ++ more) =
         fold_left (log_append (m_config (store sample_opened))) (frames_of sample_frames)
           (log_of (store sample_opened) (view (fs sample_opened)) [])).
Proof.
  split; [exact sample_fuel|].
  exact (append_refines_log sample_names sample_clock 200 sample_frames sample_opened []
    sample_inv (proj1 sample_frames_whole) (proj2 sample_frames_whole) sample_small sample_fuel).
Defined.

(** The fifth write fails. *)
Definition sample_failing : St MemFs :=
  mk_St (store sample_opened)
    {| mview := mview (fs sample_opened); faults := [Short 7; Fail 5]; ticks := 9 |}.

Definition sample_failed : St MemFs :=
  match appendFrames 200 sample_frames sample_failing with
  | Some (_, s) => s
  | None => sample_failing
  end.

Lemma append_failure_keeps_prefix_witness :
  appendFrames 200 sample_frames sample_failing = Some (false, sample_failed) /\
  exists more k, stream (view (fs sample_failed)) ([] ++ more) (m_fileName (store sample_failing)) =
    stream (view (fs sample_failing)) [] (m_fileName (store sample_failing)) ++ ztake k sample_frames.
Proof.
  assert (appendFrames 200 sample_frames sample_failing = Some (false, sample_failed)) as Hrun
    by (vm_compute; reflexivity).
  split; [exact Hrun|].
  exact (append_failure_keeps_prefix sample_names sample_clock 200 sample_frames sample_failing
    sample_failed [] sample_inv sample_small Hrun).
Defined.

Lemma append_durable_witness :
  appendFrames 200 sample_frames sample_opened = Some (true, sample_appended) /\
  exists more lost, 0 <= lost < 40 /\
    let file := m_fileName (store sample_opened) in
    let all := stream (view (fs sample_appended)) ([] ++ more) file in
    all = stream (view (fs sample_opened)) [] file ++ sample_frames /\
    all_archives sample_names file (view (fs sample_appended)) ([] ++ more) /\
    (forall a, a ∈ [] ++ more ->
       crash_bytes (view (fs sample_appended)) a = file_bytes (view (fs sample_appended)) a) /\
    crash_stream (view (fs sample_appended)) ([] ++ more) file = ztake (zlen all - lost) all.
Proof.
  split; [exact sample_appends|].
  destruct (append_durable sample_names sample_clock 200 sample_frames sample_opened
    sample_appended [] sample_inv sample_small ltac:(vm_compute; discriminate) sample_appends)
    as (more & lost & Hl & Hall & Harch & _ & Hcrash & _ & _ & Hstream).
  exists more, lost. split; [exact Hl|]. split; [exact Hall|]. split; [exact Harch|].
  split; [exact Hcrash|exact Hstream].
Defined.

Lemma open_recovers_witness :
  (budget (fs sample_state) < 200)%nat /\
  exists b s', openFile 200 "d/t.bin" sample_state = Some (b, s') /\
    if b then store_inv sample_names (store s') (view (fs s')) [] /\
      log_of (store s') (view (fs s')) [] =
        {| sealed := []; active := whole (file_bytes (view (fs sample_state)) (filename "d/t.bin"));
           unsynced := 0 |}
    else file_bytes (view (fs s')) (filename "d/t.bin") =
           file_bytes (view (fs sample_state)) (filename "d/t.bin") \/
         file_bytes (view (fs s')) (filename "d/t.bin") =
           whole (file_bytes (view (fs sample_state)) (filename "d/t.bin")).
Proof.
  assert (budget (fs sample_state) < 200)%nat as Hb by (vm_compute; lia).
  split; [exact Hb|].
  exact (open_recovers sample_names 200 "d/t.bin" sample_state sample_config eq_refl
    sample_config_ok sample_known Hb).
Defined.

Lemma sample_full :
  segments_full (m_config (store sample_opened))
    (log_of (store sample_opened) (view (fs sample_opened)) []).
Proof.
  split_and!; [constructor|by vm_compute|]. exists 1. by vm_compute.
Qed.

Lemma append_segments_full_witness :
  appendFrames 200 sample_frames sample_opened = Some (true, sample_appended) /\
  exists more, segments_full (m_config (store sample_opened))
    (log_of (store sample_appended) (view (fs sample_appended)) ([] ++ more)).
Proof.
  split; [exact sample_appends|].
  exact (append_segments_full sample_names sample_clock 200 sample_frames sample_opened
    sample_appended [] sample_inv sample_small sample_full sample_appends).
Defined.

Definition frame_b : bytes := replicate 32 Byte.x2b.

Definition after (r : option (bool * St MemFs)) : St MemFs :=
  match r with Some (_, s) => s | None => sample_opened end.

Lemma append_batching_witness :
  let s1 := after (appendFrames 200 (frame_b ++ frame_b) sample_opened) in
  let s2 := after (appendFrames 200 frame_b sample_opened) in
  let s3 := after (appendFrames 200 frame_b s2) in
  appendFrames 200 (frame_b ++ frame_b) sample_opened = Some (true, s1) /\
  exists m1 m2,
    all_archives sample_names "t.bin" (view (fs s1)) ([] ++ m1) /\
    all_archives sample_names "t.bin" (view (fs s3)) ([] ++ m2) /\
    map (file_bytes (view (fs s1))) ([] ++ m1) = map (file_bytes (view (fs s3))) ([] ++ m2).
Proof.
  intros s1 s2 s3.
  assert (appendFrames 200 (frame_b ++ frame_b) sample_opened = Some (true, s1)) as H1
    by (vm_compute; reflexivity).
  assert (appendFrames 200 frame_b sample_opened = Some (true, s2)) as H2
    by (vm_compute; reflexivity).
  assert (appendFrames 200 frame_b s2 = Some (true, s3)) as H3 by (vm_compute; reflexivity).
  split; [exact H1|].
  destruct (append_batching sample_names sample_clock 200 frame_b frame_b sample_opened s1 s2 s3 []
    sample_inv ltac:(vm_compute; reflexivity) H1 H2 H3) as (m1 & m2 & A1 & A2 & _ & _ & Hm & _).
  exists m1, m2. split; [exact A1|]. split; [exact A2|exact Hm].
Defined.

End FileStore.
