(* ===== verification/Reader.v ===== *)
(** * Reader: from the ring to the file store

    [Reader/include/Reader.hpp] and [Reader/src/Reader.cpp].  The ring and the event
    descriptors, which the parent works on at the same time, are one world, seen
    through the interfaces [RingConsumer] and [EventFdApi]; [ReaderWorld] says what
    the reader relies on, and [SharedRing] implements it with the ring of [Ring.v]
    while a producer runs between the reader's calls.  Console output is left out. *)

From S2P Require Import Prelude Codec Frames Ring EventFd FsApi MemFs FileStore.
Import Codec Frames EventFd FsApi FileStore.

Module Reader.

(** ** The ring as the consumer sees it *)

(** [tryPopBatch] gives the count and the destination span after the call. *)
Class RingConsumer (W : Type) := {
  c_tryPopBatch : bytes -> W -> (Z * bytes) * W;
  c_producerClosed : W -> bool * W;
  c_empty : W -> bool * W;
}.

(** What a consumer can rely on while the parent runs, from a world in a good state.

    The ring: [published] only grows, and no more once [finished]; [received] is a
    prefix of it; a pop delivers the next bytes; [true] from [producerClosed] and then
    [empty] means everything has been received; [limit] bounds what is ever published.

    The wake-ups: something is [unheard] from the moment it is published, or the ring
    is closed, until [data_ready] has been read after the parent's notification of it.
    Where nothing is unheard the ring's calls show all that was published and closed.
    The parent notifies after it has published or closed, and in the end closes; so a
    read of [data_ready] waits for ever only when the parent has finished and nothing
    is unheard, and at most [wakes_left] reads return with a notification. *)
Class ReaderWorld (W : Type) `{RingConsumer W} `{EventFdLaws W} := {
  published : W -> bytes;
  received : W -> bytes;
  finished : W -> Prop;
  limit : W -> Z;
  ring_ok : W -> Prop;
  data_ready : Z;
  unheard : W -> Prop;
  wakes_left : W -> nat;
  grows (w w' : W) : Prop :=
    ring_ok w' /\ limit w' = limit w /\ published w `prefix_of` published w' /\
    (finished w -> finished w' /\ published w' = published w);
  calm (w w' : W) : Prop :=
    (wakes_left w' <= wakes_left w)%nat /\
    (~ unheard w' -> ~ unheard w /\ published w' = published w /\ (finished w' -> finished w));
  silent (w w' : W) : Prop :=
    ev_log w' = ev_log w /\ (ev_budget w' <= ev_budget w)%nat;
  ring_ok_law w : ring_ok w ->
    received w `prefix_of` published w /\ zlen (published w) <= limit w /\
    (kFrameSize | zlen (received w));
  pop_law dest w n out w' :
    ring_ok w -> zlen dest <> 0 -> (kFrameSize | zlen dest) -> zlen dest < 2 ^ 64 ->
    c_tryPopBatch dest w = ((n, out), w') ->
    grows w w' /\ calm w w' /\ silent w w' /\
    0 <= n /\ n * kFrameSize <= zlen dest /\ zlen out = zlen dest /\
    received w' = received w ++ ztake (n * kFrameSize) out /\
    (n = 0 -> finished w -> ~ unheard w' -> received w' = published w');
  closed_law w b w' : ring_ok w -> c_producerClosed w = (b, w') ->
    grows w w' /\ calm w w' /\ silent w w' /\ received w' = received w /\
    (b = true -> finished w') /\ (finished w -> ~ unheard w' -> b = true);
  empty_law w b w' : ring_ok w -> c_empty w = (b, w') ->
    grows w w' /\ calm w w' /\ silent w w' /\ received w' = received w /\
    (finished w -> b = true -> published w' = received w') /\
    (finished w -> ~ unheard w' -> received w = published w -> b = true);
  notify_law fd w r w' : ring_ok w -> eventfd_write fd 1 w = (r, w') ->
    grows w w' /\ received w' = received w /\ (fd <> data_ready -> calm w w');
  consume_law fd w r w' : ring_ok w -> eventfd_read fd w = Some (r, w') ->
    grows w w' /\ received w' = received w /\
    (fd = data_ready -> if is_ok r then (wakes_left w' < wakes_left w)%nat else calm w w');
  wait_law w : ring_ok w -> eventfd_read data_ready w = None -> finished w /\ ~ unheard w;
}.

(** ** Reader::run *)

Record ReaderConfig := {
  dataFilePath : string;
  maxSegmentBytes : Z;
  syncEveryBytes : Z;
  quiet : bool;
}.

Definition writeBatchBytes : Z := 64 * 1024.
Definition ipcBatchBytes : Z := 4096.

(** The ring with the event descriptors, the store with its file system, and the
    local variables of [run]. *)
Record RSt (W F : Type) := mk_RSt {
  ipc : W;
  disk : St F;
  batch : bytes;
  batchBytes : Z;
  ipcBatch : bytes;
}.
Arguments mk_RSt {W F} _ _ _ _ _.
Arguments ipc {W F} _.
Arguments disk {W F} _.
Arguments batch {W F} _.
Arguments batchBytes {W F} _.
Arguments ipcBatch {W F} _.

Section run.
Context {W F : Type} `{RingConsumer W} `{EventFdApi W} `{FileApi F}.
Variable fuel : nat.

Definition on_ipc {A} (m : M W A) : M (RSt W F) A :=
  lift ipc (fun w s => mk_RSt w (disk s) (batch s) (batchBytes s) (ipcBatch s)) m.
Definition on_ring {A} (f : W -> A * W) : M (RSt W F) A := on_ipc (call f).
Definition on_events {A} (m : M W A) : M (RSt W F) A := on_ipc m.
Definition on_disk {A} (m : M (St F) A) : M (RSt W F) A :=
  lift disk (fun d s => mk_RSt (ipc s) d (batch s) (batchBytes s) (ipcBatch s)) m.
Definition set_batch (b : bytes) (n : Z) : M (RSt W F) unit :=
  modify (fun s => mk_RSt (ipc s) (disk s) b n (ipcBatch s)).
Definition set_ipcBatch (b : bytes) : M (RSt W F) unit :=
  modify (fun s => mk_RSt (ipc s) (disk s) (batch s) (batchBytes s) b).

Definition flushBatch : M (RSt W F) bool :=
  s ← get;
  if batchBytes s =? 0 then mret true
  else
    ok ← on_disk (appendFrames fuel (ztake (batchBytes s) (batch s)));
    if negb ok then mret false
    else set_batch (batch s) 0;;; mret true.

Definition processFrame (frame : bytes) : M (RSt W F) bool :=
  let decoded := decode frame in
  if negb (result_ok decoded) then
    ok ← flushBatch;
    if negb ok then mret false else mret false
  else
    s ← get;
    set_batch (blit (batchBytes s) frame (batch s)) (u64 (batchBytes s + kFrameSize));;;
    s ← get;
    if batchBytes s =? zlen (batch s) then
      ok ← flushBatch;
      if negb ok then mret false else mret true
    else mret true.

(** The [for] loop over the [n] frames from [index] on. *)
Fixpoint process_frames (n : nat) (index : Z) : M (RSt W F) bool :=
  match n with
  | O => mret true
  | S n =>
      s ← get;
      ok ← processFrame (zslice (index * kFrameSize) kFrameSize (ipcBatch s));
      if negb ok then mret false else process_frames n (index + 1)
  end.

(** The inner loop; [None] is [return EXIT_FAILURE]. *)
Fixpoint pop_loop (n : nat) (consumedAny : bool) : M (RSt W F) (option bool) :=
  match n with
  | O => out_of_fuel
  | S n =>
      s ← get;
      r ← on_ring (c_tryPopBatch (ipcBatch s));
      let popped := r.1 in
      set_ipcBatch r.2;;;
      if popped =? 0 then mret (Some consumedAny)
      else
        ok ← process_frames (Z.to_nat popped) 0;
        if negb ok then mret None else pop_loop n true
  end.

(** The body of the outer loop up to the end-of-file check. *)
Definition drain (spaceReadyFd : Z) : M (RSt W F) bool :=
  consumedAny ← pop_loop fuel false;
  match (consumedAny : option bool) with
  | None => mret false
  | Some consumedAny =>
      ok ← flushBatch;
      if negb ok then mret false
      else if consumedAny then on_events (notifyEvent fuel spaceReadyFd)
      else mret true
  end.

Fixpoint run_loop (n : nat) (dataReadyFd spaceReadyFd : Z) : M (RSt W F) Z :=
  match n with
  | O => out_of_fuel
  | S n =>
      ok ← drain spaceReadyFd;
      if negb ok then mret EXIT_FAILURE
      else
        closed ← on_ring c_producerClosed;
        done ← (if (closed : bool) then on_ring c_empty else mret false);
        if (done : bool) then
          ok ← on_disk (sync fuel);
          if negb ok then mret EXIT_FAILURE else mret EXIT_SUCCESS
        else
          ok ← on_events (consumeEvent fuel dataReadyFd);
          if negb ok then mret EXIT_FAILURE else run_loop n dataReadyFd spaceReadyFd
  end.

Definition zero_batch (n : Z) : bytes := replicate (Z.to_nat n) Byte.x00.

(** [run], then the destructor of its store. *)
Definition run (dataReadyFd spaceReadyFd : Z) (config : ReaderConfig) : M (RSt W F) Z :=
  on_disk (modify (fun d => mk_St
    (new_store {| FileStore.maxSegmentBytes := maxSegmentBytes config;
                  FileStore.syncEveryBytes := syncEveryBytes config |}) (fs d)));;;
  result ← (
    ok ← on_disk (openFile fuel (dataFilePath config));
    if negb ok then mret EXIT_FAILURE
    else
      set_batch (zero_batch writeBatchBytes) 0;;;
      set_ipcBatch (zero_batch ipcBatchBytes);;;
      run_loop fuel dataReadyFd spaceReadyFd);
  on_disk destroy;;;
  mret result.

End run.

(** ** What the reader keeps true *)

Section specs.
Context {W F : Type} `{ReaderWorld W} `{FsLaws F}.
Variable fuel : nat.

(** The names of other runs, the store's configuration and file name, and the log
    found at the start. *)
Variable R : string -> Prop.
Variable fc : FileStoreConfig.
Variable fn : string.
Variable log0 : Log.
Hypothesis R_clock : clock_avoids (F:=F) R.
Variable bound : Z.
Hypothesis small : zlen (log_stream log0) + bound < 2 ^ 64.
(** [spaceReadyFd]. *)
Variable sfd : Z.

Abbreviation state := (RSt W F).

(** [done] is stored, the staging buffer holds what follows, then comes [rest], and
    that is all that was received. *)
Record rinv (s : state) (rest : bytes) (arch : list string) (done : bytes) : Prop := {
  ri_store : store_inv R (store (disk s)) (view (fs (disk s))) arch;
  ri_config : m_config (store (disk s)) = fc;
  ri_name : m_fileName (store (disk s)) = fn;
  ri_log : log_of (store (disk s)) (view (fs (disk s))) arch =
           fold_left (log_append fc) (frames_of done) log0;
  ri_done : (kFrameSize | zlen done);
  ri_received : done ++ ztake (batchBytes s) (batch s) ++ rest = received (ipc s);
  ri_valid : valid_frames (done ++ ztake (batchBytes s) (batch s));
  ri_staged : 0 <= batchBytes s <= writeBatchBytes /\ (kFrameSize | batchBytes s);
  ri_batch : zlen (batch s) = writeBatchBytes;
  ri_ipc : zlen (ipcBatch s) = ipcBatchBytes;
  ri_ring : ring_ok (ipc s) /\ limit (ipc s) = bound;
}.

Definition reader_inv (s : state) (rest : bytes) : Prop := exists arch done, rinv s rest arch done.

(** There is room for a frame in the staging buffer. *)
Definition has_room (s : state) : Prop := batchBytes s < writeBatchBytes.

(** A reader that gave up: a prefix of what it received is stored. *)
Definition reader_failed (s : state) : Prop :=
  exists arch k, stream (view (fs (disk s))) arch fn = log_stream log0 ++ ztake k (received (ipc s)).

(** Progress of the parts of the state. *)
Definition since (s s' : state) : Prop :=
  (budget (fs (disk s')) <= budget (fs (disk s)))%nat /\
  (ev_budget (ipc s') <= ev_budget (ipc s))%nat.

Definition plenty (t : bool) (s : state) : Prop :=
  t = true -> (budget (fs (disk s)) + Z.to_nat writeBatchBytes < fuel)%nat /\
              (ev_budget (ipc s) < fuel)%nat.

Lemma since_refl s : since s s.
Proof. by split. Qed.

Lemma since_trans s1 s2 s3 : since s1 s2 -> since s2 s3 -> since s1 s3.
Proof. unfold since. lia. Qed.

Lemma plenty_since t s s' : plenty t s -> since s s' -> plenty t s'.
Proof. unfold plenty, since. intros Hp Hs Ht. specialize (Hp Ht). lia. Qed.

Lemma staged_length s rest arch done :
  rinv s rest arch done -> zlen (ztake (batchBytes s) (batch s)) = batchBytes s.
Proof.
  intros I. rewrite zlen_take, (ri_batch _ _ _ _ I). pose proof (ri_staged _ _ _ _ I). lia.
Qed.

(** What is received fits. *)
Lemma received_bound c : ring_ok c -> zlen (received c) <= limit c.
Proof.
  intros (Hp & Hl & _)%ring_ok_law. apply prefix_length in Hp. unfold zlen in *. lia.
Qed.

(** Only the store and the staging buffer differ, and no event happened. *)
Definition same_io (s s' : state) : Prop :=
  ipc s' = ipc s /\ ipcBatch s' = ipcBatch s.

Lemma flushBatch_spec t s rest :
  reader_inv s rest -> plenty t s ->
  wp t (flushBatch fuel) (fun ok s' => since s s' /\ same_io s s' /\
    if ok then reader_inv s' rest /\ batchBytes s' = 0 else reader_failed s') s.
Proof.
  intros (arch & done & I) Hp. unfold flushBatch. apply wp_bind, wp_get.
  destruct (Z.eqb_spec (batchBytes s) 0) as [E0|E0].
  { apply wp_ret. split; [apply since_refl|]. split; [done|]. split; [by exists arch, done|done]. }
  pose proof (staged_length _ _ _ _ I) as Hsl. destruct (ri_staged _ _ _ _ I) as [Hsb Hsd].
  set (b := ztake (batchBytes s) (batch s)) in *.
  destruct (ri_ring _ _ _ _ I) as [Hok Hlim].
  pose proof (received_bound (ipc s) Hok) as Hsm. rewrite <- (ri_received _ _ _ _ I) in Hsm.
  fold b in Hsm. rewrite !zlen_app in Hsm. pose proof (zlen_nonneg rest).
  apply wp_bind. unfold on_disk. apply wp_lift.
  eapply wp_mono; [apply (appendFrames_spec fuel t R b (disk s) arch R_clock
    (ri_store _ _ _ _ I))|].
  - lia.
  - by rewrite Hsl.
  - rewrite (ri_log _ _ _ _ I), log_append_stream, zlen_app by apply (ri_done _ _ _ _ I). lia.
  - intros Ht. destruct (Hp Ht) as [? _]. rewrite Hsl. lia.
  - intros ok d [Hl HA]. destruct ok; cbn [negb].
    + destruct HA as (more & I' & (Ec & _ & En & _) & HL). apply wp_bind.
      unfold set_batch. apply wp_modify, wp_ret. cbn [ipc disk batch batchBytes ipcBatch].
      split; [by split|]. split; [done|]. split; [|done].
      exists (arch ++ more), (done ++ b).
      constructor; cbn [ipc disk batch batchBytes ipcBatch]; try apply I; try done.
      * by rewrite Ec, (ri_config _ _ _ _ I).
      * by rewrite En, (ri_name _ _ _ _ I).
      * rewrite HL, (ri_config _ _ _ _ I), (ri_log _ _ _ _ I), frames_of_app by apply I.
        by rewrite fold_left_app.
      * rewrite zlen_app. apply Z.divide_add_r; [apply I|by rewrite Hsl].
      * rewrite ztake_nonpos by lia. rewrite <- app_assoc. apply I.
      * rewrite ztake_nonpos, app_nil_r by lia. apply I.
      * split; [done|apply Z.divide_0_r].
    + apply wp_ret. split; [by split|]. split; [done|].
      destruct HA as (more & k & Hst). exists (arch ++ more), (zlen done + Z.max 0 (Z.min k (zlen b))).
      cbn [disk ipc]. rewrite (ri_name _ _ _ _ I) in Hst. rewrite Hst.
      rewrite <- (ri_name _ _ _ _ I) at 1. rewrite stream_log, (ri_log _ _ _ _ I).
      rewrite log_append_stream by apply I. rewrite <- app_assoc. f_equal.
      rewrite <- (ri_received _ _ _ _ I). fold b. pose proof (zlen_nonneg done).
      rewrite ztake_app_ge by lia. f_equal.
      replace (zlen done + Z.max 0 (Z.min k (zlen b)) - zlen done) with (Z.max 0 (Z.min k (zlen b)))
        by lia.
      rewrite ztake_app_le by lia.
      destruct (Z.le_gt_cases k 0); [by rewrite !ztake_nonpos by lia|].
      destruct (Z.le_gt_cases (zlen b) k); [by rewrite !ztake_ge by lia|].
      f_equal. lia.
Qed.

Lemma inv_failed s rest : reader_inv s rest -> reader_failed s.
Proof.
  intros (arch & done & I). exists arch, (zlen done).
  rewrite <- (ri_name _ _ _ _ I) at 1. rewrite stream_log, (ri_log _ _ _ _ I).
  rewrite log_append_stream by apply I. f_equal.
  rewrite <- (ri_received _ _ _ _ I), ztake_app_le by lia. symmetry. by apply ztake_ge.
Qed.

(** Copying a valid frame to the staging buffer. *)
Lemma stage_frame s frame rest arch done :
  rinv s (frame ++ rest) arch done -> has_room s -> zlen frame = kFrameSize ->
  result_ok (decode frame) = true ->
  let s' := mk_RSt (ipc s) (disk s) (blit (batchBytes s) frame (batch s))
              (u64 (batchBytes s + kFrameSize)) (ipcBatch s) in
  rinv s' rest arch done.
Proof.
  intros I Hr Hf Hv s'. destruct (ri_staged _ _ _ _ I) as [Hsb Hsd].
  pose proof (staged_length _ _ _ _ I) as Hsl. pose proof (ri_batch _ _ _ _ I) as Hb.
  unfold has_room in Hr.
  assert (batchBytes s + kFrameSize <= writeBatchBytes) as Hfit.
  { destruct Hsd as [k Ek]. unfold writeBatchBytes, kFrameSize in *. lia. }
  assert (u64 (batchBytes s + kFrameSize) = batchBytes s + kFrameSize) as Eu
    by (apply u64_small; unfold writeBatchBytes, kFrameSize in *; lia).
  assert (ztake (batchBytes s + kFrameSize) (blit (batchBytes s) frame (batch s)) =
          ztake (batchBytes s) (batch s) ++ frame) as Et.
  { unfold blit. rewrite ztake_app_ge by (rewrite Hsl; unfold kFrameSize; lia). f_equal.
    rewrite Hsl, ztake_app_le, ztake_ge by lia. done. }
  constructor; cbn [s' ipc disk batch batchBytes ipcBatch]; try apply I;
    rewrite ?Eu, ?Et.
  - rewrite <- app_assoc. apply I.
  - rewrite app_assoc. apply valid_frames_app.
    + rewrite zlen_app, Hsl. apply Z.divide_add_r; [apply I|done].
    + split; [apply I|]. unfold valid_frames. rewrite frames_of_one by done. by constructor.
  - split; [unfold kFrameSize in *; lia|]. by apply Z.divide_add_r; [|apply Z.divide_refl].
  - rewrite zlen_blit; [done|lia|lia].
Qed.

Lemma processFrame_spec t s frame rest :
  reader_inv s (frame ++ rest) -> has_room s -> zlen frame = kFrameSize -> plenty t s ->
  wp t (processFrame fuel frame) (fun ok s' => since s s' /\ same_io s s' /\
    if ok then reader_inv s' rest /\ has_room s' else reader_failed s') s.
Proof.
  intros I Hr Hf Hp. unfold processFrame. cbv zeta.
  destruct (result_ok (decode frame)) eqn:Ed; cbn [negb].
  - apply wp_bind, wp_get, wp_bind. unfold set_batch. apply wp_modify, wp_bind, wp_get.
    destruct I as (arch & done & I).
    pose proof (stage_frame s frame rest arch done I Hr Hf Ed) as I'. cbv zeta in I'.
    set (s1 := mk_RSt _ _ _ _ _) in *. pose proof (ri_batch _ _ _ _ I') as Hb.
    destruct (ri_staged _ _ _ _ I') as [Hsb _].
    destruct (Z.eqb_spec (batchBytes s1) (zlen (batch s1))) as [Efull|Efull].
    + apply wp_bind. eapply wp_mono; [apply (flushBatch_spec t s1 rest); [by exists arch, done|done]|].
      intros ok s2 (Hs & Hio & HA). destruct ok; cbn [negb]; apply wp_ret.
      * split; [done|]. split; [done|]. destruct HA as [HI HB]. split; [done|].
        unfold has_room. by rewrite HB.
      * done.
    + apply wp_ret. split; [done|]. split; [done|]. split; [by exists arch, done|].
      unfold has_room. lia.
  - apply wp_bind. eapply wp_mono; [by apply (flushBatch_spec t s (frame ++ rest))|].
    intros ok s2 (Hs & Hio & HA). destruct ok; cbn [negb]; apply wp_ret; [|done].
    split; [done|]. split; [done|]. destruct HA as [HI _]. by apply (inv_failed _ _ HI).
Qed.

Lemma process_frames_spec t n index s :
  reader_inv s (zslice (index * kFrameSize) (Z.of_nat n * kFrameSize) (ipcBatch s)) ->
  has_room s -> 0 <= index -> (index + Z.of_nat n) * kFrameSize <= ipcBatchBytes -> plenty t s ->
  wp t (process_frames fuel n index) (fun ok s' => since s s' /\ same_io s s' /\
    if ok then reader_inv s' [] /\ has_room s' else reader_failed s') s.
Proof.
  revert index s. induction n as [|n IH]; intros index s I Hr Hi Hn Hp; cbn [process_frames].
  { apply wp_ret. split; [apply since_refl|]. split; [done|]. split; [|done].
    unfold zslice in I. by rewrite ztake_nonpos in I by lia. }
  assert (zlen (ipcBatch s) = ipcBatchBytes) as Hipc by (destruct I as (? & ? & I); apply I).
  apply wp_bind, wp_get, wp_bind.
  replace (Z.of_nat (S n) * kFrameSize) with (kFrameSize + Z.of_nat n * kFrameSize) in I
    by (unfold kFrameSize; lia).
  rewrite zslice_add in I by (unfold kFrameSize; lia).
  eapply wp_mono; [apply (processFrame_spec t s _ _ I Hr); [|done]|].
  - apply zlen_slice; unfold kFrameSize, ipcBatchBytes in *; lia.
  - intros ok s1 (Hs & Hio & HA). destruct ok; cbn [negb]; [|by apply wp_ret].
    destruct HA as [I1 Hr1]. pose proof Hio as (Ering & Eipc).
    eapply wp_mono; [apply (IH (index + 1) s1)|].
    + rewrite Eipc. by replace ((index + 1) * kFrameSize) with (index * kFrameSize + kFrameSize)
        by (unfold kFrameSize; lia).
    + done.
    + lia.
    + lia.
    + by eapply plenty_since.
    + intros ok s2 (Hs2 & Hio2 & HA). split; [by eapply since_trans|]. split; [|done].
      destruct Hio2 as (? & ?). unfold same_io. split; congruence.
Qed.

(** The parent has run on. *)
Definition ring_since (w w' : W) : Prop :=
  published w `prefix_of` published w' /\ received w `prefix_of` received w' /\
  (finished w -> finished w' /\ published w' = published w) /\
  (ring_ok w -> ring_ok w') /\ limit w' = limit w /\ (sfd <> data_ready -> calm w w').

Lemma stays_calm (w : W) : calm w w.
Proof. by split. Qed.

Lemma calm_after (w1 w2 w3 : W) : calm w1 w2 -> calm w2 w3 -> calm w1 w3.
Proof.
  intros [L1 C1] [L2 C2]. split; [lia|]. intros Hu.
  destruct (C2 Hu) as (Hu2 & E2 & F2). destruct (C1 Hu2) as (Hu1 & E1 & F1).
  split_and!; [done|congruence|auto].
Qed.

Lemma ring_since_refl w : ring_since w w.
Proof. by split_and!. Qed.

Lemma ring_since_trans w1 w2 w3 : ring_since w1 w2 -> ring_since w2 w3 -> ring_since w1 w3.
Proof.
  intros (P1 & R1 & F1 & K1 & L1 & C1) (P2 & R2 & F2 & K2 & L2 & C2).
  split; [by etrans|]. split; [by etrans|]. split; [|split; [auto|]; split; [congruence|]].
  2: { intros Hs. eapply calm_after; eauto. }
  intros Hf. destruct (F1 Hf) as [Hf1 E1]. destruct (F2 Hf1) as [Hf2 E2]. split; congruence.
Qed.

Lemma grows_since w w' :
  grows w w' -> received w `prefix_of` received w' -> (sfd <> data_ready -> calm w w') ->
  ring_since w w'.
Proof. intros (K & L & P & Fi) Hr Hc. by split_and!. Qed.

(** The two calls on event descriptors. *)
Lemma notify_ring t w :
  ring_ok w -> (t = true -> (ev_budget w < fuel)%nat) ->
  wp t (notifyEvent fuel sfd) (fun ok w' =>
    ev_log w' = ev_log w ++ (if ok then [Notified sfd] else []) /\
    (ev_budget w' <= ev_budget w)%nat /\ ring_since w w' /\ received w' = received w) w.
Proof.
  intros Hok Ht.
  apply (notifyEvent_keeps t fuel sfd (fun w' => ring_since w w' /\ received w' = received w)); [| |done].
  - intros w1 r w2 [Hs Hr] Hw. pose proof Hs as (_ & _ & _ & Hk & _).
    destruct (notify_law _ _ _ _ (Hk Hok) Hw) as (Hg & Hr2 & Hc). split; [|congruence].
    eapply ring_since_trans; [exact Hs|]. apply grows_since; [done|by rewrite Hr2|done].
  - split; [apply ring_since_refl|done].
Qed.

(** A read waits for ever only if the parent has finished and all of it was heard. *)
Lemma consume_ring t dfd w :
  ring_ok w ->
  (t = true -> (ev_budget w < fuel)%nat /\ dfd = data_ready /\ (finished w -> ~ unheard w -> False)) ->
  wp t (consumeEvent fuel dfd) (fun ok w' => (ev_budget w' <= ev_budget w)%nat /\
    ring_ok w' /\ limit w' = limit w /\ received w' = received w /\
    (t = true -> ok = true -> (wakes_left w' < wakes_left w)%nat)) w.
Proof.
  intros Hok Ht.
  set (good := fun w' : W => ring_ok w' /\ limit w' = limit w /\ received w' = received w).
  eapply wp_mono; [apply (consumeEvent_keeps t fuel dfd
    (fun w' => good w' /\ (t = true -> calm w w'))
    (fun w' => good w' /\ (t = true -> (wakes_left w' < wakes_left w)%nat)))|].
  - intros w1 [(K1 & L1 & R1) C1]. unfold wp.
    destruct (eventfd_read dfd w1) as [[r w2]|] eqn:E1.
    + destruct (consume_law _ _ _ _ K1 E1) as ((K2 & L2 & _) & R2 & C2).
      assert (good w2) as G2 by (split_and!; congruence).
      destruct (is_ok r); (split; [done|]); intros Ht'; destruct (Ht Ht') as (_ & Hd & _);
        specialize (C1 Ht'); specialize (C2 Hd).
      * destruct C1. lia.
      * by eapply calm_after.
    + destruct t; [|done]. destruct (Ht eq_refl) as (_ & -> & Hno).
      destruct (wait_law _ K1 E1) as [F1 U1]. destruct (C1 eq_refl) as [_ C].
      destruct (C U1) as (U & _ & Hf). destruct (Hno (Hf F1) U).
  - split; [done|]. intros _. apply stays_calm.
  - intros Ht'. by apply Ht.
  - intros ok w' (_ & Hb & Hq). split; [done|].
    destruct ok; destruct Hq as [(? & ? & ?) Hw]; split_and!; auto; discriminate.
Qed.

(** A pop into the reader's array. *)
Lemma pop_inv s n out w' :
  reader_inv s [] -> has_room s -> c_tryPopBatch (ipcBatch s) (ipc s) = ((n, out), w') ->
  let s' := mk_RSt w' (disk s) (batch s) (batchBytes s) out in
  ring_since (ipc s) w' /\ silent (ipc s) w' /\ 0 <= n /\ n * kFrameSize <= ipcBatchBytes /\
  reader_inv s' (zslice 0 (n * kFrameSize) out) /\
  zlen (received w') = zlen (received (ipc s)) + n * kFrameSize /\
  (n = 0 -> finished (ipc s) -> ~ unheard w' -> received w' = published w').
Proof.
  intros (arch & done & I) Hr Epop s'. pose proof (ri_ipc _ _ _ _ I) as Hipc.
  destruct (ri_ring _ _ _ _ I) as [Hok Hlim].
  destruct (pop_law _ _ _ _ _ Hok ltac:(rewrite Hipc; done) ltac:(rewrite Hipc; by exists 128)
    ltac:(rewrite Hipc; done) Epop) as (Hg & Hcalm & Hsil & Hn0 & Hn & Hz & Hrec & Hend).
  rewrite Hipc in Hn, Hz.
  assert (zslice 0 (n * kFrameSize) out = ztake (n * kFrameSize) out) as Ez
    by (unfold zslice; by rewrite zdrop_nonpos).
  split_and!; try done; try apply Hsil.
  - apply grows_since; [done| |done]. rewrite Hrec. by apply prefix_app_r.
  - exists arch, done. destruct I. constructor; cbn [s' ipc disk batch batchBytes ipcBatch];
      try done.
    + rewrite Ez, Hrec, <- ri_received0, app_nil_r. by rewrite app_assoc.
    + destruct Hg as (? & -> & _). done.
  - rewrite Hrec, zlen_app, zlen_take. unfold kFrameSize in *. lia.
Qed.

(** After the inner loop: no event happened; nothing is left when the parent has
    finished and all of it was heard. *)
Definition emptied (w w' : W) : Prop :=
  finished w -> ~ unheard w' -> received w' = published w'.

Definition popped (any : bool) (s s' : state) (r : option bool) : Prop :=
  since s s' /\ ev_log (ipc s') = ev_log (ipc s) /\ ring_since (ipc s) (ipc s') /\
  match r with
  | None => reader_failed s'
  | Some b => reader_inv s' [] /\ has_room s' /\
      (b = true <-> any = true \/ zlen (received (ipc s)) < zlen (received (ipc s'))) /\
      emptied (ipc s) (ipc s')
  end.

Lemma pop_loop_spec t n any s :
  reader_inv s [] -> has_room s -> plenty t s ->
  (t = true -> (Z.to_nat (bound - zlen (received (ipc s))) < n)%nat) ->
  wp t (pop_loop fuel n any) (fun r s' => popped any s s' r) s.
Proof.
  revert any s. induction n as [|n IH]; intros any s I Hr Hp Ht; cbn [pop_loop].
  { apply wp_out_of_fuel. destruct t; [|reflexivity]. specialize (Ht eq_refl). lia. }
  apply wp_bind, wp_get, wp_bind. unfold on_ring, on_ipc. apply wp_lift, wp_call.
  intros [m out] w1 Epop.
  destruct (pop_inv _ _ _ _ I Hr Epop) as (Hg & [Hlog Hbud] & Hm0 & Hm & I1 & Hz & Hend).
  apply wp_bind. unfold set_ipcBatch. apply wp_modify.
  cbn [fst snd ipc disk batch batchBytes ipcBatch].
  set (s1 := mk_RSt _ _ _ _ _) in *.
  assert (since s s1) as Hs1 by (by split).
  destruct (Z.eqb_spec m 0) as [->|Hm1].
  { apply wp_ret. split; [done|]. split; [done|]. split; [done|]. split.
    - unfold zslice in I1. by rewrite ztake_nonpos in I1 by lia.
    - split; [done|]. cbn [s1 ipc]. split; [|exact (Hend eq_refl)].
      destruct any; intuition lia. }
  apply wp_bind. eapply wp_mono; [apply (process_frames_spec t (Z.to_nat m) 0 s1)|].
  - rewrite Z2Nat.id by lia. exact I1.
  - done.
  - done.
  - rewrite Z2Nat.id; lia.
  - by eapply plenty_since.
  - intros ok s2 (Hs2 & (Ering & Eipc) & HA). cbn [s1 ipc] in Ering.
    pose proof (since_trans _ _ _ Hs1 Hs2) as Hs12.
    destruct ok; cbn [negb].
    2: { apply wp_ret. split; [done|]. rewrite Ering. done. }
    destruct HA as [I2 Hr2].
    assert (zlen (received w1) <= bound) as Hlim.
    { destruct I1 as (? & ? & I1). destruct (ri_ring _ _ _ _ I1) as [Hok <-].
      by apply received_bound in Hok. }
    eapply wp_mono; [apply (IH true s2 I2 Hr2); [by eapply plenty_since|]|].
    + intros Ht'. specialize (Ht Ht'). rewrite Ering. unfold kFrameSize in *. lia.
    + intros r s3 (Hs3 & Eev3 & Hg3 & HB). rewrite Ering in Hg3, HB, Eev3.
      split; [by eapply since_trans|]. split; [by rewrite Eev3|].
      split; [by eapply ring_since_trans|]. destruct r as [b|]; [|done].
      destruct HB as (I3 & Hr3 & Hb & He). split; [done|]. split; [done|]. split.
      * pose proof (prefix_length _ _ (proj1 (proj2 Hg3))). unfold zlen, kFrameSize in *.
        split; [intros _; right; lia|]. intros _. apply Hb. by left.
      * intros Hf. apply He. by apply Hg.
Qed.

(** The body of the loop up to the end-of-file check: the space event is last. *)
Definition drained (s s' : state) (ok : bool) : Prop :=
  since s s' /\ ring_since (ipc s) (ipc s') /\
  if ok then reader_inv s' [] /\ batchBytes s' = 0 /\
    ev_log (ipc s') = ev_log (ipc s) ++
      (if zlen (received (ipc s)) <? zlen (received (ipc s')) then [Notified sfd] else []) /\
    (sfd <> data_ready -> emptied (ipc s) (ipc s'))
  else reader_failed s' /\ ev_log (ipc s') = ev_log (ipc s).

Lemma drain_spec t s :
  reader_inv s [] -> has_room s -> plenty t s ->
  (t = true -> (Z.to_nat (bound - zlen (received (ipc s))) < fuel)%nat) ->
  wp t (drain fuel sfd) (fun ok s' => drained s s' ok) s.
Proof.
  intros I Hr Hp Ht. unfold drain. apply wp_bind.
  eapply wp_mono; [by apply (pop_loop_spec t fuel false s)|].
  intros [any|] s1 (Hs1 & Eev1 & Hg1 & HA); [|by apply wp_ret].
  destruct HA as (I1 & Hr1 & Hany & Hend). apply wp_bind.
  eapply wp_mono; [apply (flushBatch_spec t s1 []); [done|by eapply plenty_since]|].
  intros ok s2 (Hs2 & (Ering & _) & HB).
  assert (since s s2) as Hs by (by eapply since_trans).
  assert (any = (zlen (received (ipc s)) <? zlen (received (ipc s1)))) as Ea.
  { destruct any, (Z.ltb_spec (zlen (received (ipc s))) (zlen (received (ipc s1)))); intuition lia. }
  destruct ok; cbn [negb].
  2: { apply wp_ret. split; [done|]. rewrite Ering. by split. }
  destruct HB as [I2 Hb2]. rewrite <- Ering in Ea, Hg1, Hend, Eev1. destruct any.
  - unfold on_events, on_ipc. apply wp_lift.
    assert (ring_ok (ipc s2)) as Hok2 by (destruct I2 as (? & ? & J); apply (ri_ring _ _ _ _ J)).
    eapply wp_mono; [apply (notify_ring t _ Hok2); intros Ht'; apply (plenty_since t s s2 Hp Hs Ht')|].
    intros ok w (Hlog & Hbud & Hg & Hrec). destruct Hs as [Hs_1 Hs_2].
    split; [split; cbn [disk ipc]; [done|lia]|]. cbn [ipc]. split; [by eapply ring_since_trans|].
    assert (forall r, reader_inv s2 r ->
      reader_inv (mk_RSt w (disk s2) (batch s2) (batchBytes s2) (ipcBatch s2)) r) as Hi.
    { intros r (arch & done & J). exists arch, done. destruct Hg as (_ & _ & _ & Hk & Hl & _).
      destruct J. constructor; cbn [ipc disk batch batchBytes ipcBatch]; try done;
        [by rewrite Hrec|]. destruct ri_ring0. split; [auto|congruence]. }
    destruct ok.
    + split; [by apply Hi|]. split; [done|]. cbn [ipc]. rewrite Hrec, <- Ea, Hlog, Eev1. split; [done|].
      intros Hsd Hf Hu. rewrite Hrec. destruct Hg as (_ & _ & _ & _ & _ & Hc).
      destruct (Hc Hsd) as [_ Hcc]. destruct (Hcc Hu) as (Hu2 & -> & _). by apply Hend.
    + apply Hi in I2. apply inv_failed in I2. split; [done|]. cbn [ipc]. by rewrite Hlog, app_nil_r.
  - apply wp_ret. split; [done|]. split; [done|]. split; [done|]. split; [done|].
    rewrite <- Ea, Eev1, app_nil_r. by split.
Qed.

(** The reader stopped at end of file: every frame published is valid and stored
    as if appended one by one, and everything is synced. *)
Definition reader_done (s : state) : Prop :=
  received (ipc s) = published (ipc s) /\ (kFrameSize | zlen (published (ipc s))) /\
  valid_frames (published (ipc s)) /\
  exists arch, store_inv R (store (disk s)) (view (fs (disk s))) arch /\
    m_fileName (store (disk s)) = fn /\
    let l := fold_left (log_append fc) (frames_of (published (ipc s))) log0 in
    log_of (store (disk s)) (view (fs (disk s))) arch =
      {| sealed := sealed l; active := active l; unsynced := 0 |}.

Definition reader_result (r : Z) (s : state) : Prop :=
  r = EXIT_SUCCESS /\ reader_done s \/ r = EXIT_FAILURE /\ reader_failed s.

Lemma change_ring s w :
  reader_inv s [] -> received w = received (ipc s) -> ring_ok w -> limit w = limit (ipc s) ->
  reader_inv (mk_RSt w (disk s) (batch s) (batchBytes s) (ipcBatch s)) [].
Proof.
  intros (arch & done & J) Hc Hok Hl. exists arch, done. destruct J.
  constructor; cbn [ipc disk batch batchBytes ipcBatch]; try done; [by rewrite Hc|].
  destruct ri_ring0. split; congruence.
Qed.

(** End of file: the final sync. *)
Lemma final_sync_spec t s :
  reader_inv s [] -> batchBytes s = 0 -> received (ipc s) = published (ipc s) -> plenty t s ->
  wp t (ok ← on_disk (sync fuel); if negb ok then mret EXIT_FAILURE else mret EXIT_SUCCESS)
    (fun r s' => reader_result r s') s.
Proof.
  intros I Hb Hall Hp. pose proof I as (arch & done & J). apply wp_bind. unfold on_disk.
  apply wp_lift. eapply wp_mono; [apply (sync_inv_spec fuel t R (disk s) arch (ri_store _ _ _ _ J))|].
  { intros Ht. destruct (Hp Ht). lia. }
  intros ok d [Hl HH].
  assert (done = published (ipc s)) as Ed.
  { rewrite <- Hall, <- (ri_received _ _ _ _ J), Hb, ztake_nonpos by lia. by rewrite !app_nil_r. }
  destruct ok; cbn [negb]; apply wp_ret.
  - left. split; [done|]. split; [done|]. cbn [ipc]. split; [rewrite <- Ed; apply J|]. split.
    { pose proof (ri_valid _ _ _ _ J) as Hv. rewrite Hb, ztake_nonpos, app_nil_r in Hv by lia.
      by rewrite <- Ed. }
    destruct HH as (I' & (_ & _ & En & _) & HL). exists arch. cbn [disk]. split; [done|].
    split; [by rewrite En, (ri_name _ _ _ _ J)|]. cbv zeta in HL |- *.
    by rewrite HL, (ri_log _ _ _ _ J), Ed.
  - right. split; [done|]. destruct HH as [Ev _]. destruct (inv_failed _ _ I) as (a & k & Hk).
    exists a, k. cbn [disk ipc]. by rewrite Ev.
Qed.

(** Every read returns: what a read waits for is owed. *)
Definition woken (t : bool) (dfd : Z) : Prop :=
  t = true -> dfd = data_ready (W:=W) /\ sfd <> data_ready (W:=W).

(** Going to sleep and on, from [w] where the check for the end has said no. *)
Definition sleepless (t : bool) (w : W) : Prop := t = true -> finished w -> ~ unheard w -> False.

Lemma sleep_spec t n dfd s w :
  (forall s', reader_inv s' [] -> has_room s' -> plenty t s' ->
     (t = true -> (Z.to_nat (bound - zlen (received (ipc s'))) < fuel)%nat /\
                  (wakes_left (ipc s') < n)%nat) ->
     wp t (run_loop fuel n dfd sfd) reader_result s') ->
  reader_inv s [] -> batchBytes s = 0 -> plenty t s -> woken t dfd ->
  (t = true -> (Z.to_nat (bound - zlen (received (ipc s))) < fuel)%nat /\
               (wakes_left w < S n)%nat) ->
  ring_ok w -> limit w = limit (ipc s) -> received w = received (ipc s) ->
  (ev_budget w <= ev_budget (ipc s))%nat -> sleepless t w ->
  wp t (ok ← on_events (consumeEvent fuel dfd);
        if negb ok then mret EXIT_FAILURE else run_loop fuel n dfd sfd) reader_result
    (mk_RSt w (disk s) (batch s) (batchBytes s) (ipcBatch s)).
Proof.
  intros Hloop I Hb Hp Hw Ht Hok Hl Hr Hbud Hs. apply wp_bind. unfold on_events, on_ipc.
  apply wp_lift. cbn [ipc]. eapply wp_mono; [apply (consume_ring t dfd w Hok)|].
  { intros Ht'. destruct (Hp Ht'), (Hw Ht'). split_and!; [lia|done|by apply Hs]. }
  intros ok w2 (Hb2 & Hok2 & Hl2 & Hr2 & Hwk). cbn [disk batch batchBytes ipcBatch].
  pose proof (change_ring s w2 I ltac:(congruence) Hok2 ltac:(congruence)) as I2. destruct ok; cbn [negb].
  - apply Hloop; [done| | |].
    + unfold has_room. cbn [batchBytes]. by rewrite Hb.
    + intros Ht'. destruct (Hp Ht'). cbn [disk ipc]. lia.
    + intros Ht'. destruct (Ht Ht'). specialize (Hwk Ht' eq_refl). cbn [ipc].
      rewrite Hr2, Hr. split; lia.
  - apply wp_ret. right. split; [done|]. by apply inv_failed in I2.
Qed.

Lemma run_loop_spec t n dfd s :
  reader_inv s [] -> has_room s -> plenty t s -> woken t dfd ->
  (t = true -> (Z.to_nat (bound - zlen (received (ipc s))) < fuel)%nat /\
               (wakes_left (ipc s) < n)%nat) ->
  wp t (run_loop fuel n dfd sfd) reader_result s.
Proof.
  intros I Hr Hp Hw. revert s I Hr Hp.
  induction n as [|n IH]; intros s I Hr Hp Ht; cbn [run_loop].
  { apply wp_out_of_fuel. destruct t; [|reflexivity]. specialize (Ht eq_refl). lia. }
  apply wp_bind. eapply wp_mono; [apply (drain_spec t s I Hr Hp); intros Ht'; by apply Ht|].
  intros ok s1 (Hs1 & Hg1 & HA). destruct ok; cbn [negb]; [|apply wp_ret; right; by split; [|apply HA]].
  destruct HA as (I1 & Hb1 & _ & Hend1). pose proof (plenty_since _ _ _ Hp Hs1) as Hp1.
  destruct Hg1 as (_ & [k1 E1] & _ & _ & _ & Hc1).
  assert (t = true -> (Z.to_nat (bound - zlen (received (ipc s1))) < fuel)%nat /\
                      (wakes_left (ipc s1) < S n)%nat) as Ht1.
  { intros Ht'. destruct (Ht Ht') as [? ?], (Hw Ht') as [_ Hsd]. destruct (Hc1 Hsd) as [? _].
    rewrite E1, zlen_app. pose proof (zlen_nonneg k1). lia. }
  apply wp_bind. unfold on_ring at 1, on_ipc. apply wp_lift, wp_call. intros closed w2 Ec.
  assert (ring_ok (ipc s1)) as Hok1 by (destruct I1 as (? & ? & J); apply (ri_ring _ _ _ _ J)).
  destruct (closed_law _ _ _ Hok1 Ec) as ((Hok2 & Hlim2 & _) & [Hwk2 Hc2] & [_ Hbd2] & Hr2 & Hf2 & Hm2).
  destruct closed.
  2: { apply wp_bind, wp_ret. apply (sleep_spec t n dfd s1); try done.
       - intros Ht'. destruct (Ht1 Ht'). lia.
       - intros Ht' F2 U2. destruct (Hc2 U2) as (_ & _ & F1). by discriminate (Hm2 (F1 F2) U2). }
  apply wp_bind. unfold on_ring, on_ipc. apply wp_lift, wp_call. intros done w3 Ee.
  change (c_empty w2 = (done, w3)) in Ee.
  destruct (empty_law _ _ _ Hok2 Ee) as ((Hok3 & Hlim3 & _) & [Hwk3 Hc3] & [_ Hbd3] & Hr3 & Hf3 & Hm3).
  cbn [ipc disk batch batchBytes ipcBatch].
  destruct done.
  - apply final_sync_spec; cbn [ipc batchBytes]; try done.
    + apply (change_ring s1); congruence.
    + symmetry. by apply Hf3; [apply Hf2|].
    + intros Ht'. destruct (Hp1 Ht'). cbn [disk ipc]. lia.
  - apply (sleep_spec t n dfd s1); try done; try congruence; try lia.
    + intros Ht'. destruct (Ht1 Ht'). lia.
    + intros Ht' F3 U3. destruct (Hw Ht') as [_ Hsd]. destruct (Hc3 U3) as (U2 & P3 & F2).
      destruct (Hc2 U2) as (U1 & P2 & F1). destruct (Hc1 Hsd) as [_ Hcc].
      destruct (Hcc U1) as (_ & _ & F0). specialize (F2 F3). specialize (F1 F2).
      discriminate Hm3; [done..|]. rewrite Hr2, P2. by apply Hend1; [|apply F0|].
Qed.

End specs.

(** ** The whole run *)

Section whole_run.
Context {W F : Type} `{ReaderWorld W} `{FsLaws F}.
Variable fuel : nat.
Variable R : string -> Prop.
Hypothesis R_clock : clock_avoids (F:=F) R.

Definition store_config (config : ReaderConfig) : FileStoreConfig :=
  {| FileStore.maxSegmentBytes := maxSegmentBytes config;
     FileStore.syncEveryBytes := syncEveryBytes config |}.

(** The whole frames found at the start. *)
Definition found (config : ReaderConfig) (s : RSt W F) : bytes :=
  whole (file_bytes (view (fs (disk s))) (filename (dataFilePath config))).

(** The log of a store just opened on them. *)
Definition log_found (config : ReaderConfig) (s : RSt W F) : Log :=
  {| sealed := []; active := found config s; unsynced := 0 |}.

(** Success: every frame published was valid; the files hold what was found and
    then all of them, sealed and synced as if appended one by one; a crash loses
    nothing. *)
Definition stored_all (config : ReaderConfig) (s s' : RSt W F) : Prop :=
  let name := filename (dataFilePath config) in
  let all := published (ipc s') in
  received (ipc s') = all /\ valid_frames all /\
  exists arch,
    let v := view (fs (disk s')) in
    stream v arch name = found config s ++ all /\
    crash_stream v arch name = stream v arch name /\
    map (file_bytes v) arch =
      sealed (fold_left (log_append (store_config config)) (frames_of all) (log_found config s)).

(** Failure: a prefix of what was received follows what was found, or the data
    file is as it was. *)
Definition stored_prefix (config : ReaderConfig) (s s' : RSt W F) : Prop :=
  let name := filename (dataFilePath config) in
  (exists arch k, stream (view (fs (disk s'))) arch name =
     found config s ++ ztake k (received (ipc s'))) \/
  file_bytes (view (fs (disk s'))) name = file_bytes (view (fs (disk s))) name.

(** What [main] and the environment give the reader. *)
Record run_pre (config : ReaderConfig) (s : RSt W F) : Prop := {
  rp_config : config_ok (store_config config);
  rp_names : names_known R (dataFilePath config) (view (fs (disk s)));
  rp_ring : ring_ok (ipc s) /\ received (ipc s) = [];
  rp_small : zlen (file_bytes (view (fs (disk s))) (filename (dataFilePath config))) +
             limit (ipc s) < 2 ^ 64;
}.

Lemma crash_all s v arch :
  store_inv R s v arch -> m_unsyncedBytes s = 0 ->
  crash_stream v arch (m_fileName s) = stream v arch (m_fileName s).
Proof.
  intros I Hu. destruct (crash_prefix _ _ _ _ I) as (lost & Hl & ->).
  apply ztake_ge. lia.
Qed.

Lemma crash_stream_same v v' arch name :
  same_files v v' -> saved_entries v' = saved_entries v ->
  stream v' arch name = stream v arch name /\ crash_stream v' arch name = crash_stream v arch name.
Proof.
  intros (E1 & E2 & E3) E4. unfold stream, crash_stream, file_bytes, crash_bytes, content, v_saved.
  by rewrite E1, E2, E3, E4.
Qed.

Definition run_result (config : ReaderConfig) (s : RSt W F) (r : Z) (s' : RSt W F) : Prop :=
  r = EXIT_SUCCESS /\ stored_all config s s' \/ r = EXIT_FAILURE /\ stored_prefix config s s'.

(** What the destructor leaves. *)
Lemma reader_result_destroyed config s s' r d :
  reader_result R (store_config config) (filename (dataFilePath config)) (log_found config s) r s' ->
  store d = store (disk s') -> same_files (view (fs (disk s'))) (view (fs d)) ->
  saved_entries (view (fs d)) = saved_entries (view (fs (disk s'))) ->
  run_result config s r
    (mk_RSt (ipc s') d (batch s') (batchBytes s') (ipcBatch s')).
Proof.
  intros HR Es Hf Hse.
  pose proof (fun a => crash_stream_same _ _ a (filename (dataFilePath config)) Hf Hse) as Hst.
  destruct HR as [[-> (Hall & Hd & Hv & arch & I & En & HL)]|[-> (arch & k & Hk)]].
  - left. split; [done|]. split; [done|]. split; [done|]. exists arch. cbn [disk ipc].
    destruct (Hst arch) as [-> ->]. rewrite (same_files_bytes _ _ Hf). rewrite <- En.
    cbv zeta in HL. assert (m_unsyncedBytes (store (disk s')) = 0) as Hu
      by (by apply (f_equal unsynced) in HL).
    split_and!.
    + rewrite stream_log, HL. unfold log_stream. cbn [sealed active].
      change (concat _ ++ _) with (log_stream (fold_left (log_append (store_config config))
        (frames_of (published (ipc s'))) (log_found config s))).
      by rewrite log_append_stream.
    + by apply (crash_all _ _ _ I).
    + apply (f_equal sealed) in HL. exact HL.
  - right. split; [done|]. left. exists arch, k. cbn [disk ipc].
    destruct (Hst arch) as [-> _]. exact Hk.
Qed.

Lemma zlen_zero_batch n : 0 <= n -> zlen (zero_batch n) = n.
Proof. intros. unfold zlen, zero_batch. rewrite length_replicate. lia. Qed.

(** The invariant of a reader that starts. *)
Lemma start_rinv fc fn log0 bound (s : RSt W F) :
  store_inv R (store (disk s)) (view (fs (disk s))) [] ->
  m_config (store (disk s)) = fc -> m_fileName (store (disk s)) = fn ->
  log_of (store (disk s)) (view (fs (disk s))) [] = log0 ->
  received (ipc s) = [] -> batchBytes s = 0 -> zlen (batch s) = writeBatchBytes ->
  zlen (ipcBatch s) = ipcBatchBytes -> ring_ok (ipc s) /\ limit (ipc s) = bound ->
  reader_inv R fc fn log0 bound s [].
Proof.
  intros Hi Hc Hn Hl Hr Hb Hz Hz2 Hk. exists [], []. constructor; try assumption.
  - apply Z.divide_0_r.
  - by rewrite Hb, Hr, ztake_nonpos.
  - rewrite Hb, ztake_nonpos by done. constructor.
  - rewrite Hb. split; [done|apply Z.divide_0_r].
Qed.

Lemma run_spec t dfd sfd config (s : RSt W F) :
  run_pre config s ->
  (t = true -> dfd = data_ready (W:=W) /\ sfd <> data_ready (W:=W)) ->
  (t = true -> (budget (fs (disk s)) + Z.to_nat writeBatchBytes < fuel)%nat /\
     (ev_budget (ipc s) < fuel)%nat /\ (Z.to_nat (limit (ipc s)) < fuel)%nat /\
     (wakes_left (ipc s) < fuel)%nat) ->
  wp t (run fuel dfd sfd config) (run_result config s) s.
Proof.
  intros [Hc Hn [Hok Hrec] Hsm] Hwoken Ht. unfold run. apply wp_bind. unfold on_disk at 1.
  apply wp_lift, wp_modify. set (s0 := mk_RSt _ _ _ _ _). fold (store_config config) in s0.
  set (path := dataFilePath config) in *. set (name := filename path) in *.
  pose proof (zlen_whole (file_bytes (view (fs (disk s))) name)) as (_ & _ & Hw).
  assert (forall r s', reader_result R (store_config config) name (log_found config s) r s' ->
    wp t (on_disk destroy;;; mret r) (run_result config s) s') as Hend.
  { intros r s' HR. apply wp_bind. unfold on_disk. apply wp_lift.
    eapply wp_mono; [apply destroy_spec|]. intros _ d (E1 & E2 & E3). apply wp_ret.
    by apply reader_result_destroyed. }
  apply wp_bind. apply wp_bind. unfold on_disk at 1. apply wp_lift. cbn [s0 disk].
  eapply wp_mono; [apply (openFile_spec fuel t R path _ (store_config config)); try done|].
  { intros Ht'. destruct (Ht Ht'). cbn [fs]. lia. }
  intros ok d [Hl HO]. unfold later in Hl. cbn [fs] in Hl, HO. destruct ok; cbn [negb].
  - destruct HO as (I & Ec & En & HL). apply wp_bind. unfold set_batch. apply wp_modify, wp_bind.
    unfold set_ipcBatch. apply wp_modify. cbn [ipc disk batch batchBytes ipcBatch].
    assert (zlen (log_stream (log_found config s)) + limit (ipc s) < 2 ^ 64) as Hsmall.
    { change (zlen (found config s) + limit (ipc s) < 2 ^ 64). unfold found. fold path name. lia. }
    eapply wp_mono; [apply (run_loop_spec fuel R (store_config config) name (log_found config s)
      R_clock (limit (ipc s)) Hsmall sfd)|]; cbn [ipc disk batch batchBytes ipcBatch].
    + apply start_rinv; cbn [ipc disk batch batchBytes ipcBatch]; try assumption.
      * done.
      * by rewrite zlen_zero_batch.
      * by rewrite zlen_zero_batch.
      * by split.
    + done.
    + intros Ht'. destruct (Ht Ht') as (? & ? & _). cbn [s0 disk ipc]. lia.
    + done.
    + intros Ht'. destruct (Ht Ht') as (? & ? & ? & ?). cbn [s0 ipc]. rewrite Hrec.
      change (zlen []) with 0. rewrite Z.sub_0_r. by split.
    + intros r s' HR. by apply Hend.
  - apply wp_ret, wp_bind. unfold on_disk. apply wp_lift. cbn [disk].
    eapply wp_mono; [apply destroy_spec|]. intros _ d2 (E1 & E2 & E3). apply wp_ret.
    right. split; [done|]. cbn [ipc disk batch batchBytes ipcBatch].
    destruct HO as [_ HO]. fold name in HO. unfold stored_prefix. cbn [disk ipc].
    fold path name. rewrite (same_files_bytes _ _ E2). destruct HO as [HO|HO]; [by right|].
    left. exists [], 0. unfold stream. rewrite (same_files_bytes _ _ E2), HO.
    by rewrite ztake_nonpos, app_nil_r.
Qed.

End whole_run.

(** ** The ring of [Ring.v] as a [ReaderWorld] *)

(** What the parent does between two of the reader's calls. *)
Inductive move := MPush (frames : bytes) | MNone | MClose | MNotify.

(** The ring, the parent's moves to come, what it has sent and the reader got, and a
    bound; whether the parent owes a notification, and the counter of the data event
    descriptor; how the next event calls fail ([0] for success), and the events. *)
Record SharedRing := {
  shared : Ring.SharedRingBuffer;
  moves : list move;
  sent : bytes;
  got : bytes;
  cap : Z;
  owed : bool;
  wakes : nat;
  errnos : list Z;
  evlog : list event;
}.

(** The descriptor the parent notifies. *)
Definition data_fd : Z := 3.

(** The fields the parent changes, those a pop changes, and those an event call
    changes. *)
Definition driven (r : Ring.SharedRingBuffer) (ms : list move) (b : bytes) (o : bool) (k : nat)
    (c : SharedRing) : SharedRing :=
  {| shared := r; moves := ms; sent := b; got := got c; cap := cap c; owed := o; wakes := k;
     errnos := errnos c; evlog := evlog c |}.
Definition taken (r : Ring.SharedRingBuffer) (more : bytes) (c : SharedRing) : SharedRing :=
  {| shared := r; moves := moves c; sent := sent c; got := got c ++ more; cap := cap c;
     owed := owed c; wakes := wakes c; errnos := errnos c; evlog := evlog c |}.
Definition called (k : nat) (es : list Z) (evs : list event) (c : SharedRing) : SharedRing :=
  {| shared := shared c; moves := moves c; sent := sent c; got := got c; cap := cap c;
     owed := owed c; wakes := k; errnos := es; evlog := evlog c ++ evs |}.

(** One move of the parent. *)
Definition producer_move (c : SharedRing) : SharedRing :=
  match moves c with
  | [] => c
  | MNone :: rest => driven (shared c) rest (sent c) (owed c) (wakes c) c
  | MPush frames :: rest =>
      let '(n, r) := Ring.tryPushBatch frames (shared c) in
      driven r rest (sent c ++ ztake (n * kFrameSize) frames) true (wakes c) c
  | MClose :: rest => driven (Ring.closeProducer (shared c)) rest (sent c) true (wakes c) c
  | MNotify :: rest => driven (shared c) rest (sent c) false (S (wakes c)) c
  end.

#[export] Instance shared_consumer : RingConsumer SharedRing := {
  c_tryPopBatch dest c :=
    let c := producer_move c in
    let '(n, out, r) := Ring.tryPopBatch dest (shared c) in
    ((n, out), taken r (ztake (n * kFrameSize) out) c);
  c_producerClosed c := let c := producer_move c in (Ring.producerClosed (shared c), c);
  c_empty c := let c := producer_move c in (Ring.empty (shared c), c);
}.

(** The parent runs on until the counter is not zero, if that ever happens. *)
Fixpoint await (n : nat) (c : SharedRing) : option SharedRing :=
  if (0 <? wakes c)%nat then Some c
  else match n with O => None | S n => await n (producer_move c) end.

(** An event call fails as [errnos] says; a read of another descriptor than
    [data_fd], which nobody notifies here, waits for ever. *)
#[export] Instance shared_events : EventFdApi SharedRing := {
  eventfd_write fd _ c :=
    let c := producer_move c in
    let ok := (Ok tt, called (if fd =? data_fd then S (wakes c) else wakes c) (tail (errnos c))
                        [Notified fd] c) in
    match errnos c with
    | [] => ok
    | e :: es => if e =? 0 then ok else (Err e, called (wakes c) es [] c)
    end;
  eventfd_read fd c :=
    let wait :=
      if fd =? data_fd then
        match await (length (moves c)) c with
        | Some c => Some (Ok (Z.of_nat (wakes c)), called 0 (tail (errnos c)) [Consumed fd] c)
        | None => None
        end
      else None in
    match errnos c with
    | [] => wait
    | e :: es => if e =? 0 then wait else Some (Err e, called (wakes c) es [] c)
    end;
}.

Definition move_size (m : move) : Z := match m with MPush b => zlen b | _ => 0 end.

Fixpoint moves_size (ms : list move) : Z :=
  match ms with [] => 0 | m :: ms => move_size m + moves_size ms end.

(** After all moves no notification is owed: each push and close is followed by one. *)
Fixpoint settled (o : bool) (ms : list move) : bool :=
  match ms with
  | [] => negb o
  | MNone :: ms => settled o ms
  | MNotify :: ms => settled false ms
  | _ :: ms => settled true ms
  end.

Fixpoint notifies (ms : list move) : nat :=
  match ms with [] => O | MNotify :: ms => S (notifies ms) | _ :: ms => notifies ms end.

(** The ring holds what was sent and not got; the moves to come fit [cap], end with
    the ring closed, and settle what is owed. *)
Definition shared_ok (c : SharedRing) : Prop :=
  exists q, Ring.ring_rep (shared c) q /\ sent c = got c ++ Ring.queued q /\
    zlen (sent c) + moves_size (moves c) <= cap c < 2 ^ 64 /\
    (kFrameSize | zlen (got c)) /\ (Ring.closed q = true \/ MClose ∈ moves c) /\
    settled (owed c) (moves c) = true.

Definition closed_by (c : SharedRing) : Prop := Ring.producerClosed (shared c) = true.
Definition pending (c : SharedRing) : Prop := owed c = true \/ (0 < wakes c)%nat.
Definition tokens (c : SharedRing) : nat := (wakes c + notifies (moves c))%nat.

(** What a move of the parent does, and what it does not touch. *)
Definition moved (c c' : SharedRing) : Prop :=
  shared_ok c' /\ cap c' = cap c /\ sent c `prefix_of` sent c' /\
  (closed_by c -> closed_by c' /\ sent c' = sent c).
Definition lulled (c c' : SharedRing) : Prop :=
  (tokens c' <= tokens c)%nat /\
  (~ pending c' -> ~ pending c /\ sent c' = sent c /\ (closed_by c' -> closed_by c)).
Definition untouched (c c' : SharedRing) : Prop :=
  got c' = got c /\ errnos c' = errnos c /\ evlog c' = evlog c.

Lemma moved_refl c : shared_ok c -> moved c c.
Proof. intros. by split_and!. Qed.

Lemma moved_trans c1 c2 c3 : moved c1 c2 -> moved c2 c3 -> moved c1 c3.
Proof.
  intros (K1 & C1 & P1 & F1) (K2 & C2 & P2 & F2).
  split; [done|]. split; [congruence|]. split; [by etrans|].
  intros Hf. destruct (F1 Hf) as [Hf1 E1]. destruct (F2 Hf1) as [Hf2 E2]. split; congruence.
Qed.

Lemma moves_size_nonneg ms : 0 <= moves_size ms.
Proof.
  induction ms as [|[b| | |] ms IH]; cbn [moves_size move_size]; try lia.
  pose proof (zlen_nonneg b). lia.
Qed.

Lemma moves_end (q : bool) m ms : q = true \/ MClose ∈ m :: ms -> m <> MClose -> q = true \/ MClose ∈ ms.
Proof. intros [Hq|Hin] Hm; [by left|right]. apply elem_of_cons in Hin as [<-|]; done. Qed.

Lemma producer_untouched c : untouched c (producer_move c).
Proof.
  unfold producer_move. destruct (moves c) as [|[b| | |] rest]; try done.
  by destruct (Ring.tryPushBatch b (shared c)).
Qed.

Lemma await_untouched n c c' : await n c = Some c' -> untouched c c'.
Proof.
  revert c. induction n as [|n IH]; intros c; cbn [await]; destruct (_ <? _)%nat;
    try by intros [= <-]. intros Hc%IH. destruct Hc as (G & E & L), (producer_untouched c) as (? & ? & ?).
  split_and!; congruence.
Qed.

(** A push is the push of a queue. *)
Lemma push_moved c b rest q :
  moves c = MPush b :: rest -> Ring.ring_rep (shared c) q -> sent c = got c ++ Ring.queued q ->
  zlen (sent c) + moves_size (moves c) <= cap c < 2 ^ 64 -> (kFrameSize | zlen (got c)) ->
  (Ring.closed q = true \/ MClose ∈ moves c) -> settled (owed c) (moves c) = true ->
  moved c (producer_move c).
Proof.
  intros Em Hr Hs Hc Hd Hcl Hst. unfold producer_move. rewrite Em in *. cbn [moves_size move_size] in Hc.
  pose proof (moves_size_nonneg rest). pose proof (zlen_nonneg (sent c)). pose proof (zlen_nonneg b).
  pose proof (Ring.pushBatch_refines (shared c) q b Hr ltac:(lia)) as HP.
  destruct (Ring.tryPushBatch b (shared c)) as [n r]. destruct HP as (q' & Hq & Hr').
  pose proof (Ring.queue_push_fifo b q n q' Hq) as Hfifo.
  assert (Ring.closed q' = Ring.closed q /\ (Ring.closed q = true -> n = 0)) as [Ecl Hn0].
  { unfold Ring.queue_push in Hq. destruct (Ring.closed q) eqn:Eq; cbn [orb] in Hq.
    - by simplify_eq.
    - destruct (_ || _); simplify_eq; done. }
  split; [|split; [done|]; split; [by apply prefix_app_r|]].
  - exists q'. cbn [driven shared moves sent got cap owed]. split_and!; try done; try lia.
    + by rewrite Hs, Hfifo, app_assoc.
    + rewrite zlen_app, zlen_take. lia.
    + rewrite Ecl. by eapply moves_end.
  - unfold closed_by. cbn [driven shared sent]. rewrite (Ring.producerClosed_rep _ _ Hr).
    intros Hcq. rewrite (Ring.producerClosed_rep _ _ Hr'), Ecl.
    split; [done|]. by rewrite (Hn0 Hcq), ztake_nonpos, app_nil_r.
Qed.

(** Any move. *)
Lemma producer_moved c :
  shared_ok c -> moved c (producer_move c).
Proof.
  intros Hok. pose proof Hok as (q & Hr & Hs & Hc & Hd & Hcl & Hst).
  destruct (moves c) as [|[b| | |] rest] eqn:Em.
  - unfold producer_move. rewrite Em. by apply moved_refl.
  - rewrite <- Em in Hc, Hcl, Hst. by apply (push_moved c b rest q).
  - unfold producer_move. rewrite Em.
    split; [|by split_and!]. exists q. apply moves_end in Hcl; [|done].
    cbn [moves_size move_size] in Hc. cbn [driven shared moves sent got cap owed].
    split_and!; try done; lia.
  - unfold producer_move. rewrite Em.
    pose proof (Ring.closeProducer_rep _ _ Hr) as Hr'. split; [|split; [done|split; [done|]]].
    + eexists. split; [exact Hr'|]. cbn [driven shared moves sent got cap owed Ring.queued Ring.closed].
      cbn [moves_size move_size] in Hc. split_and!; try done; [lia..|by left].
    + unfold closed_by. cbn [driven shared]. by rewrite (Ring.producerClosed_rep _ _ Hr').
  - unfold producer_move. rewrite Em.
    split; [|by split_and!]. exists q. apply moves_end in Hcl; [|done].
    cbn [moves_size move_size] in Hc. cbn [driven shared moves sent got cap owed].
    split_and!; try done; lia.
Qed.

Lemma producer_lulled c : lulled c (producer_move c) /\ length (moves (producer_move c)) = Nat.pred (length (moves c)).
Proof.
  unfold producer_move, lulled, tokens, pending, closed_by.
  destruct (moves c) as [|[b| | |] rest] eqn:Em.
  - rewrite Em. by split.
  - destruct (Ring.tryPushBatch b (shared c)) as [n r]. cbn. split; [|done]. split; [done|].
    intros Hu. destruct Hu. by left.
  - by split.
  - cbn. split; [|done]. split; [done|]. intros Hu. destruct Hu. by left.
  - cbn. split; [|done]. split; [lia|]. intros Hu. destruct Hu. right. lia.
Qed.

(** Waiting: the counter is not zero in the end, or nothing will ever come. *)
Lemma await_spec n c :
  shared_ok c -> (length (moves c) <= n)%nat ->
  match await n c with
  | Some c' => moved c c' /\ (0 < wakes c')%nat /\ (tokens c' <= tokens c)%nat
  | None => closed_by c /\ ~ pending c
  end.
Proof.
  revert c. induction n as [|n IH]; intros c Hok Hn; cbn [await].
  - destruct (Nat.ltb_spec 0 (wakes c)); [split; [by apply moved_refl|done]|].
    destruct Hok as (q & Hr & _ & _ & _ & Hcl & Hst).
    assert (moves c = []) as Em by (apply length_zero_iff_nil; lia). rewrite Em in *. cbn in Hst.
    split.
    + unfold closed_by. rewrite (Ring.producerClosed_rep _ _ Hr).
      destruct Hcl as [|Hin]; [done|]. by apply not_elem_of_nil in Hin.
    + intros [Ho|Hw]; [by rewrite Ho in Hst|lia].
  - destruct (Nat.ltb_spec 0 (wakes c)); [split; [by apply moved_refl|done]|].
    pose proof (producer_moved c Hok) as Hm. destruct (producer_lulled c) as [[Ht Hp] Hlen].
    pose proof (proj1 Hm) as Hok2. specialize (IH (producer_move c) Hok2 ltac:(lia)).
    destruct (await n (producer_move c)) as [c'|].
    + destruct IH as (Hm2 & Hw & Ht2). split; [by eapply moved_trans|]. split; [done|lia].
    + destruct IH as [Hc Hu]. destruct (Hp Hu) as (Hu2 & _ & Hc2). split; [by apply Hc2|done].
Qed.

(** A pop after a move. *)
Lemma shared_pop dest c n out c' :
  shared_ok c -> zlen dest <> 0 -> (kFrameSize | zlen dest) -> zlen dest < 2 ^ 64 ->
  (let '(n, out, r) := Ring.tryPopBatch dest (shared c) in
   ((n, out), taken r (ztake (n * kFrameSize) out) c)) = ((n, out), c') ->
  moved c c' /\ lulled c c' /\ evlog c' = evlog c /\ errnos c' = errnos c /\
  0 <= n /\ n * kFrameSize <= zlen dest /\ zlen out = zlen dest /\
  got c' = got c ++ ztake (n * kFrameSize) out /\ (n = 0 -> got c' = sent c').
Proof.
  intros (q & Hr & Hs & Hc & Hdg & Hcl & Hst) Hz Hd Hlen.
  pose proof (Ring.popBatch_refines (shared c) q dest Hr Hlen) as HP.
  destruct (Ring.tryPopBatch dest (shared c)) as [[m o] r] eqn:Epop.
  destruct HP as (p & q' & Hq & Hr' & Ho). intros [= <- <- <-].
  pose proof (zlen_nonneg dest).
  destruct (Ring.queue_pop_fifo _ _ _ _ _ (zlen_nonneg dest) Hq) as [Hfifo Hlp].
  assert (Ring.closed q' = Ring.closed q /\ 0 <= m /\ m * kFrameSize <= zlen dest /\
          (m = 0 -> (kFrameSize | zlen (Ring.queued q)) -> Ring.queued q = [])) as (Ecl & Hm0 & Hmd & Hme).
  { unfold Ring.queue_pop in Hq. apply Z.eqb_neq in Hz as Hz'. rewrite Hz' in Hq.
    apply Z.mod_divide in Hd as Hd'; [|done]. rewrite Hd' in Hq. cbn [Z.eqb negb orb] in Hq.
    pose proof (zlen_nonneg (Ring.queued q)).
    injection Hq as <- _ <-. cbn [Ring.closed]. split; [done|].
    split; [unfold kFrameSize in *; div_lia|]. split; [unfold kFrameSize in *; div_lia|].
    intros Hm [k Hk]. destruct Hd as [j Hj]. apply zlen_zero. unfold kFrameSize in *.
    assert (Z.min (zlen dest) (zlen (Ring.queued q)) < 32) by div_lia. lia. }
  assert (ztake (m * kFrameSize) o = p) as Et by (rewrite Ho, ztake_app_le, ztake_ge; [done|lia..]).
  assert ((kFrameSize | zlen (Ring.queued q))) as Hdq.
  { pose proof (Ring.pendingFrames_rep _ _ Hr) as [Hpf _]. exists (Ring.pendingFrames (shared c)).
    lia. }
  assert (closed_by (taken r (ztake (m * kFrameSize) o) c) <-> closed_by c) as Hcb.
  { unfold closed_by. cbn [taken shared].
    by rewrite (Ring.producerClosed_rep _ _ Hr'), (Ring.producerClosed_rep _ _ Hr), Ecl. }
  split; [|split; [|split; [done|split; [done|split; [done|split; [done|split; [|split]]]]]]].
  - split; [|split; [done|split; [done|]]].
    + exists q'. cbn [taken shared moves sent got cap owed]. rewrite Et. split_and!; try done; try lia.
      * by rewrite Hs, Hfifo, app_assoc.
      * rewrite zlen_app, Hlp. apply Z.divide_add_r; [done|apply Z.divide_factor_r].
      * by rewrite Ecl.
    + intros Hf. split; [by apply Hcb|done].
  - split; [done|]. intros Hu. split; [exact Hu|]. split; [done|apply Hcb].
  - rewrite Ho, zlen_app, zlen_drop. unfold kFrameSize in *. lia.
  - done.
  - intros ->. cbn [taken got sent]. rewrite Hs.
    by rewrite (Hme eq_refl Hdq), ztake_nonpos by lia.
Qed.

#[export] Instance shared_event_laws : EventFdLaws SharedRing.
Proof.
  refine {| ev_log := evlog; ev_budget c := length (errnos c) |}.
  - intros fd c r c' E. cbn [eventfd_write shared_events] in E.
    destruct (producer_untouched c) as (_ & Ee & El). rewrite Ee in E.
    destruct (errnos c) as [|z es]; [|destruct (z =? 0)]; injection E as <- <-;
      cbn [called evlog errnos tail length is_ok is_intr]; rewrite El; split_and!; done || lia.
  - intros fd c r c' E. cbn [eventfd_read shared_events] in E.
    assert (forall c1, await (length (moves c)) c = Some c1 ->
      evlog c1 = evlog c /\ errnos c1 = errnos c) as Hw
      by (intros c1 (_ & ? & ?)%await_untouched; done).
    destruct (errnos c) as [|z es]; [|destruct (z =? 0)];
      try (destruct (fd =? data_fd); [|done]; destruct (await _ _) as [c1|]; [|done];
           destruct (Hw _ eq_refl) as [El Ee]);
      injection E as <- <-; cbn [called evlog errnos tail length is_ok is_intr];
      rewrite ?El, ?Ee; split_and!; done || (cbn; lia).
Defined.

(** A call of the reader on the ring, after a move of the parent. *)
Lemma shared_step c :
  shared_ok c -> moved c (producer_move c) /\ lulled c (producer_move c) /\
  evlog (producer_move c) = evlog c /\ (length (errnos (producer_move c)) <= length (errnos c))%nat /\
  got (producer_move c) = got c.
Proof.
  intros Hok. destruct (producer_untouched c) as (G & E & L). rewrite E.
  split; [by apply producer_moved|]. split; [apply producer_lulled|done].
Qed.

Lemma lulled_trans c1 c2 c3 : lulled c1 c2 -> lulled c2 c3 -> lulled c1 c3.
Proof.
  intros [L1 C1] [L2 C2]. split; [lia|]. intros Hu.
  destruct (C2 Hu) as (Hu2 & E2 & F2). destruct (C1 Hu2) as (Hu1 & E1 & F1).
  split; [done|]. split; [congruence|auto].
Qed.

(** An event call adds to the counter or empties it. *)
Lemma called_moved k es evs c : shared_ok c -> moved c (called k es evs c).
Proof. intros Hok. by split_and!. Qed.

#[export] Instance shared_laws : ReaderWorld SharedRing.
Proof.
  refine {| published := sent; received := got; finished := closed_by; limit := cap;
            ring_ok := shared_ok; data_ready := data_fd; unheard := pending; wakes_left := tokens |}.
  - intros c (q & Hr & Hs & Hc & Hd & _). pose proof (moves_size_nonneg (moves c)).
    split_and!; [rewrite Hs; by apply prefix_app_r|lia|done].
  - intros dest c n out c' Hok Hz Hd Hlen E. cbn [c_tryPopBatch shared_consumer] in E.
    destruct (shared_step c Hok) as (Hm & Hl & El & Ee & Eg).
    destruct (shared_pop dest _ n out c' (proj1 Hm) Hz Hd Hlen E)
      as (Hm2 & Hl2 & El2 & Ee2 & Hn & Hn2 & Ho & Hg & Hend).
    split; [exact (moved_trans _ _ _ Hm Hm2)|]. split; [exact (lulled_trans _ _ _ Hl Hl2)|].
    split; [split; [by etrans|cbn; by rewrite Ee2]|]. rewrite Eg in Hg. do 4 (split; [done|]). intros E0 _ _. by apply Hend.
  - intros c b c' Hok [= <- <-]. destruct (shared_step c Hok) as (Hm & Hl & El & Ee & Eg).
    split; [exact Hm|]. split; [exact Hl|]. do 2 (split; [done|]). split; [done|].
    intros Hf _. by apply Hm.
  - intros c b c' Hok [= <- <-]. destruct (shared_step c Hok) as (Hm & Hl & El & Ee & Eg).
    split; [exact Hm|]. split; [exact Hl|]. do 2 (split; [done|]).
    pose proof (proj1 Hm) as (q & Hr & Hs & _).
    pose proof (Ring.pendingFrames_rep _ _ Hr) as [Hpf Hpb]. unfold Ring.empty. rewrite Z.eqb_eq. split.
    + intros _ He. rewrite Hs. rewrite He in Hpf. rewrite (zlen_zero (Ring.queued q)) by lia.
      by rewrite app_nil_r.
    + intros Hf _ Heq. destruct Hm as (_ & _ & _ & Hm). destruct (Hm Hf) as [_ Es].
      rewrite Es, <- Heq, Eg in Hs. apply (f_equal zlen) in Hs. rewrite zlen_app in Hs.
      unfold kFrameSize in *. lia.
  - intros fd c r c' Hok E. cbn [eventfd_write shared_events] in E. cbv zeta in E.
    destruct (shared_step c Hok) as (Hm & Hl & _ & _ & Eg). set (c1 := producer_move c) in *.
    assert (forall k es evs, moved c (called k es evs c1)) as Hm2
      by (intros; eapply moved_trans; [exact Hm|apply called_moved, Hm]).
    assert (forall es evs, lulled c (called (wakes c1) es evs c1)) as Hl2.
    { intros. eapply lulled_trans; [exact Hl|]. by split. }
    destruct (Z.eqb_spec fd data_fd); (destruct (errnos c1) as [|z es]; [|destruct (z =? 0)]);
      injection E as <- <-; (split; [apply Hm2|]); (split; [done|]); by intros.
  - intros fd c r c' Hok E. cbn [eventfd_read shared_events] in E. cbv zeta in E.
    pose proof (await_spec (length (moves c)) c Hok ltac:(done)) as Ha.
    pose proof (await_untouched (length (moves c)) c) as Hu.
    assert (forall z es, Some (Err z, called (wakes c) es [] c) = Some (r, c') ->
      moved c c' /\ got c' = got c /\ (fd = data_fd -> if is_ok r then (tokens c' < tokens c)%nat else lulled c c'))
      as Hfail.
    { intros z es [= <- <-]. split; [by apply called_moved|]. split; [done|]. intros _. by split. }
    assert ((if fd =? data_fd then
        match await (length (moves c)) c with
        | Some c => Some (Ok (Z.of_nat (wakes c)), called 0 (tail (errnos c)) [Consumed fd] c)
        | None => None
        end else None) = Some (r, c') ->
      moved c c' /\ got c' = got c /\ (fd = data_fd -> if is_ok r then (tokens c' < tokens c)%nat else lulled c c'))
      as Hwait.
    { destruct (fd =? data_fd); [|done]. destruct (await (length (moves c)) c) as [c1|]; [|done].
      destruct Ha as (Hm & Hw & Ht), (Hu c1 eq_refl) as (Hg & _). intros [= <- <-].
      split; [exact (moved_trans _ _ _ Hm (called_moved _ _ _ _ (proj1 Hm)))|]. split; [done|].
      intros _. unfold tokens in *. cbn in *. lia. }
    destruct (errnos c) as [|z es]; [by apply Hwait|]. destruct (z =? 0); [by apply Hwait|by eapply Hfail].
  - intros c Hok E. cbn [eventfd_read shared_events] in E. cbv zeta in E.
    change (data_fd =? data_fd) with true in E.
    pose proof (await_spec (length (moves c)) c Hok ltac:(done)) as Ha.
    destruct (errnos c) as [|z es]; [|destruct (z =? 0)]; destruct (await _ _); by simplify_eq.
Defined.

(** ** Properties *)

(** C9: [run] always comes back when the parent keeps its side: it notifies after it has
    published or closed, and in the end closes; signals are finitely many.  Every read
    that could wait for ever is made only when a notification is still to come.  On
    success it has received everything that was published, all of it valid frames, and
    the store's files hold what was found at the start and then exactly those frames,
    segmented as if appended one by one, with nothing a crash could take.  On failure
    they hold a prefix of what was received (after what was found), or the data file is
    untouched. *)
Theorem run_outcome {W F} `{ReaderWorld W} `{FsLaws F}
    fuel R sfd config (s : RSt W F) :
  clock_avoids (F:=F) R -> run_pre R config s -> sfd <> data_ready (W:=W) ->
  (budget (fs (disk s)) + Z.to_nat writeBatchBytes < fuel)%nat ->
  (ev_budget (ipc s) < fuel)%nat -> (Z.to_nat (limit (ipc s)) < fuel)%nat ->
  (wakes_left (ipc s) < fuel)%nat ->
  exists r s', run fuel (data_ready (W:=W)) sfd config s = Some (r, s') /\
    (r = EXIT_SUCCESS /\ stored_all config s s' \/
     r = EXIT_FAILURE /\ stored_prefix config s s').
Proof.
  intros Hc Hpre Hsd Hf1 Hf2 Hf3 Hf4.
  exact (wp_total _ _ _ (run_spec fuel R Hc true _ sfd config s Hpre
    (fun _ => conj eq_refl Hsd) (fun _ => conj Hf1 (conj Hf2 (conj Hf3 Hf4))))).
Qed.

(** C18: before the reader reports free space or goes to sleep, it has written out all
    it received.  A drain comes back.  When it fails, the space descriptor has not been
    notified - so it is notified only after everything received is stored - and the
    files hold a prefix of what was received.  When it goes on, no frame is left in
    the staging buffer, the stored log is the log found with every received frame
    appended, the descriptor was notified once when frames were taken and not at all
    otherwise, and everything published has been taken if the parent had finished and
    all of it was heard. *)
Theorem drain_flushes {W F} `{ReaderWorld W} `{FsLaws F}
    fuel R fc fn log0 bound fd (s : RSt W F) :
  clock_avoids (F:=F) R -> zlen (log_stream log0) + bound < 2 ^ 64 ->
  reader_inv R fc fn log0 bound s [] -> has_room s ->
  (budget (fs (disk s)) + Z.to_nat writeBatchBytes < fuel)%nat ->
  (ev_budget (ipc s) < fuel)%nat -> (Z.to_nat bound < fuel)%nat ->
  exists ok s', drain fuel fd s = Some (ok, s') /\
    if (ok : bool) then
      batchBytes s' = 0 /\
      (exists arch, log_of (store (disk s')) (view (fs (disk s'))) arch =
         fold_left (log_append fc) (frames_of (received (ipc s'))) log0) /\
      ev_log (ipc s') = ev_log (ipc s) ++
        (if zlen (received (ipc s)) <? zlen (received (ipc s')) then [Notified fd] else []) /\
      (fd <> data_ready (W:=W) -> finished (ipc s) -> ~ unheard (ipc s') ->
         received (ipc s') = published (ipc s'))
    else
      ev_log (ipc s') = ev_log (ipc s) /\
      exists arch k, stream (view (fs (disk s'))) arch fn =
        log_stream log0 ++ ztake k (received (ipc s')).
Proof.
  intros Hc Hsm I Hr Hf1 Hf2 Hf3. pose proof (zlen_nonneg (received (ipc s))).
  destruct (wp_total _ _ _ (drain_spec fuel R fc fn log0 Hc bound Hsm fd true s I Hr
    (fun _ => conj Hf1 Hf2) ltac:(intros _; lia))) as (ok & s' & Hrun & _ & _ & HA).
  exists ok, s'. split; [done|]. destruct ok; [|by destruct HA].
  destruct HA as ((arch & d & J) & Hb & Hl & Hm). split_and!; try done.
  exists arch. rewrite (ri_log _ _ _ _ _ _ _ _ _ J).
  pose proof (ri_received _ _ _ _ _ _ _ _ _ J) as Hrec.
  rewrite Hb, ztake_nonpos, !app_nil_r in Hrec by done. by rewrite <- Hrec.
Qed.

Import MemFs.

(** A parent that sends frames and closes, and notifies after each. *)
Definition sending (frames : bytes) (es : list Z) : SharedRing :=
  {| shared := snd (Ring.create true Ring.new_ring);
     moves := [MPush frames; MNotify; MNone; MClose; MNotify];
     sent := []; got := []; cap := zlen frames; owed := false; wakes := 0;
     errnos := es; evlog := [] |}.

Lemma sending_ok frames es : zlen frames < 2 ^ 64 -> shared_ok (sending frames es).
Proof.
  intros Hl. eexists. split; [apply Ring.create_rep|]. cbn [sending sent got moves cap].
  pose proof (zlen_nonneg frames).
  split_and!; try done; cbn [moves_size move_size]; rewrite ?zlen_nil; try lia; [apply Z.divide_0_r|right].
  do 3 (apply elem_of_cons; right). apply elem_of_cons. by left.
Qed.

(** A reader on it, interrupted once. *)
Definition sample_shared : SharedRing := sending (encode default_record) [EINTR].

Lemma sample_shared_ok : shared_ok sample_shared.
Proof. by apply sending_ok. Qed.

Definition sample_reader (d : St MemFs.MemFs) : RSt SharedRing MemFs.MemFs :=
  mk_RSt sample_shared d (zero_batch writeBatchBytes) 0 (zero_batch ipcBatchBytes).

Definition sample_reader_config : ReaderConfig :=
  {| dataFilePath := "d/t.bin"; maxSegmentBytes := 64; syncEveryBytes := 40; quiet := true |}.

Lemma sample_run_pre : run_pre sample_names sample_reader_config (sample_reader sample_state).
Proof.
  constructor; [exact sample_config_ok|exact sample_known|split; [exact sample_shared_ok|done]|].
  by vm_compute.
Qed.

Lemma run_outcome_witness :
  run_pre sample_names sample_reader_config (sample_reader sample_state) /\
  exists r s', run (Z.to_nat 70000) data_fd 4 sample_reader_config (sample_reader sample_state) =
      Some (r, s') /\
    (r = EXIT_SUCCESS /\ stored_all sample_reader_config (sample_reader sample_state) s' \/
     r = EXIT_FAILURE /\ stored_prefix sample_reader_config (sample_reader sample_state) s').
Proof.
  split; [exact sample_run_pre|].
  apply (run_outcome (Z.to_nat 70000) sample_names 4 sample_reader_config
    (sample_reader sample_state) sample_clock sample_run_pre).
  - vm_compute. discriminate.
  - change (budget _) with 10%nat. unfold writeBatchBytes. lia.
  - change (ev_budget _) with 1%nat. lia.
  - change (limit _) with 32. lia.
  - change (wakes_left _) with 2%nat. lia.
Defined.

(** The same run, evaluated; and a parent that closes without a notification, where
    the reader waits for ever. *)
Example sample_reader_succeeds :
  fst <$> run 300 data_fd 4 sample_reader_config (sample_reader sample_state) = Some EXIT_SUCCESS.
Proof. vm_compute. reflexivity. Qed.

Definition unnotified : SharedRing :=
  {| shared := snd (Ring.create true Ring.new_ring);
     moves := [MNone; MNone; MClose]; sent := []; got := []; cap := 0; owed := false; wakes := 0;
     errnos := []; evlog := [] |}.

Example unnotified_reader_waits :
  fst <$> run 300 data_fd 4 sample_reader_config
    (mk_RSt unnotified sample_state (zero_batch writeBatchBytes) 0 (zero_batch ipcBatchBytes)) = None.
Proof. vm_compute. reflexivity. Qed.

Lemma sample_reader_inv :
  reader_inv sample_names sample_config "t.bin"
    (log_of (store sample_opened) (view (fs sample_opened)) []) 32 (sample_reader sample_opened) [].
Proof.
  exists [], []. constructor.
  - exact sample_inv.
  - by vm_compute.
  - by vm_compute.
  - done.
  - apply Z.divide_0_r.
  - done.
  - constructor.
  - split; [done|apply Z.divide_0_r].
  - by vm_compute.
  - by vm_compute.
  - split; [exact sample_shared_ok|done].
Qed.

Lemma sample_reader_small :
  zlen (log_stream (log_of (store sample_opened) (view (fs sample_opened)) [])) + 32 < 2 ^ 64.
Proof. by vm_compute. Qed.

Lemma sample_reader_room : has_room (sample_reader sample_opened).
Proof. reflexivity. Qed.

Lemma sample_reader_budget : (budget (fs (disk (sample_reader sample_opened))) <= 10)%nat.
Proof. vm_compute. lia. Qed.

Lemma drain_flushes_witness :
  has_room (sample_reader sample_opened) /\
  exists ok s', drain (Z.to_nat 70000) 4 (sample_reader sample_opened) = Some (ok, s') /\
    (ok = true -> batchBytes s' = 0) /\
    (ok = false -> ev_log (ipc s') = ev_log (ipc (sample_reader sample_opened))).
Proof.
  split; [exact sample_reader_room|].
  destruct (drain_flushes (Z.to_nat 70000) sample_names sample_config "t.bin"
    (log_of (store sample_opened) (view (fs sample_opened)) []) 32 4 (sample_reader sample_opened)
    sample_clock sample_reader_small sample_reader_inv sample_reader_room)
    as (ok & s' & Hrun & HA).
  - pose proof sample_reader_budget. unfold writeBatchBytes. lia.
  - change (ev_budget _) with 1%nat. lia.
  - lia.
  - exists ok, s'. split; [exact Hrun|]. destruct ok; (split; [|]); intros E; try discriminate E; apply HA.
Defined.

End Reader.
