(* ===== verification/Causes.v ===== *)
(** * Failures of the reader have causes

    The theorems of [FileStore.v] and [Reader.v] say what success and failure mean;
    here a failure is shown to have a cause.  The calls are watched ([Watching]); a
    run in which none has gone wrong, and nothing invalid was published, succeeds. *)

From S2P Require Import Prelude Codec Frames Ring EventFd FsApi MemFs FileStore Reader Watching.
Import Codec Frames EventFd FsApi FileStore Watching.

Module Causes.

(** ** The file system, watched *)

(** Descriptors are not negative; an exclusive [open] may find the file there; the
    data file is a regular file; a [write] writes something. *)
Definition wrong_open (r : sysres Z) : bool := match r with Ok fd => fd <? 0 | Err _ => true end.
Definition wrong_openat (flags : Z) (r : sysres Z) : bool :=
  match r with Ok fd => fd <? 0 | Err e => negb (has flags O_EXCL && (e =? EEXIST)) end.
Definition wrong_fstat (r : sysres stat) : bool :=
  match r with Ok st => negb (S_ISREG st) || (st_size st <? 0) | Err _ => true end.
Definition wrong_write (r : sysres Z) : bool :=
  match r with Ok n => n <=? 0 | Err e => negb (e =? EINTR) end.

#[export] Instance watched_files {F} `{FileApi F} : FileApi (Watched F) := {
  open path flags := watch wrong_open (open path flags);
  openat d name flags mode := watch (wrong_openat flags) (openat d name flags mode);
  fstat fd := watch wrong_fstat (fstat fd);
  ftruncate fd n := watch failed (ftruncate fd n);
  write fd bs := watch wrong_write (write fd bs);
  fdatasync fd := watch failed_for_good (fdatasync fd);
  fsync fd := watch failed_for_good (fsync fd);
  renameat od old nd new := watch failed (renameat od old nd new);
  close fd := watch failed (close fd);
  clock_gettime := watch failed clock_gettime;
}.

(** Watching changes nothing: the laws carry over. *)
Lemma watch_law {F A} (v : F -> FsView) (b : F -> nat) (f : F -> sysres A * F) wrong post :
  fs_law v b f post -> fs_law (fun w => v (world w)) (fun w => b (world w)) (watch wrong f) post.
Proof.
  intros Hf w r w' Hw. unfold watch in Hw. destruct (f (world w)) as [r0 w0] eqn:E.
  injection Hw as <- <-. exact (Hf _ _ _ E).
Qed.

#[export] Instance watched_files_laws {F} `{FsLaws F} : FsLaws (Watched F).
Proof.
  refine {| view w := view (world w); budget w := budget (world w) |}; intros; apply watch_law.
  - apply open_law.
  - apply openat_law.
  - apply fstat_law.
  - apply ftruncate_law.
  - apply write_law.
  - apply fdatasync_law.
  - apply fsync_law.
  - apply renameat_law.
  - apply close_law.
  - apply clock_law.
Defined.

Lemma watched_clock {F} `{FileApi F} R :
  clock_avoids (F:=F) R -> clock_avoids (F:=Watched F) R.
Proof.
  intros Hc w time w' name file q Hw. cbn in Hw. unfold watch in Hw.
  destruct (clock_gettime (world w)) as [r0 w0] eqn:E. injection Hw as -> _. by eapply Hc.
Qed.

(** ** The reader's ring, watched

    Its calls cannot go wrong. *)

Definition through {W A} (f : W -> A * W) (w : Watched W) : A * Watched W :=
  let '(r, w') := f (world w) in (r, mk_Watched w' (troubled w)).

Lemma through_spec {W A} (f : W -> A * W) w r w' :
  through f w = (r, w') -> f (world w) = (r, world w') /\ troubled w' = troubled w.
Proof. unfold through. destruct (f (world w)) as [r0 w0]. by intros [= <- <-]. Qed.

#[export] Instance watched_ring {W} `{Reader.RingConsumer W} : Reader.RingConsumer (Watched W) := {
  c_tryPopBatch dest := through (Reader.c_tryPopBatch dest);
  c_producerClosed := through Reader.c_producerClosed;
  c_empty := through Reader.c_empty;
}.

#[export] Instance watched_world {W} `{Reader.ReaderWorld W} : Reader.ReaderWorld (Watched W).
Proof.
  refine {|
    Reader.published w := Reader.published (world w); Reader.received w := Reader.received (world w);
    Reader.finished w := Reader.finished (world w); Reader.limit w := Reader.limit (world w);
    Reader.ring_ok w := Reader.ring_ok (world w); Reader.data_ready := Reader.data_ready (W:=W);
    Reader.unheard w := Reader.unheard (world w); Reader.wakes_left w := Reader.wakes_left (world w) |}.
  - intros w. apply Reader.ring_ok_law.
  - intros dest w n out w' Hok Hz Hd Hl [E _]%through_spec.
    exact (Reader.pop_law _ _ _ _ _ Hok Hz Hd Hl E).
  - intros w b w' Hok [E _]%through_spec. exact (Reader.closed_law _ _ _ Hok E).
  - intros w b w' Hok [E _]%through_spec. exact (Reader.empty_law _ _ _ Hok E).
  - intros fd w r w' Hok E. cbn in E. unfold watch in E.
    destruct (eventfd_write fd 1 (world w)) as [r0 w0] eqn:E0. injection E as <- <-.
    exact (Reader.notify_law _ _ _ _ Hok E0).
  - intros fd w r w' Hok E. cbn in E. unfold watch_wait in E.
    destruct (eventfd_read fd (world w)) as [[r0 w0]|] eqn:E0; [|done]. injection E as <- <-.
    exact (Reader.consume_law _ _ _ _ Hok E0).
  - intros w Hok E. cbn in E. unfold watch_wait in E.
    destruct (eventfd_read Reader.data_ready (world w)) as [[r0 w0]|] eqn:E0; [done|].
    exact (Reader.wait_law _ Hok E0).
Defined.

(** ** The file store *)

Section store.
Context {F : Type} `{FileApi F}.
Variable fuel : nat.
Abbreviation state := (St (Watched F)).
Implicit Types s : state.
Implicit Types P : FileStore -> Prop.

Definition bad_store (s : state) : Prop := troubled (fs s) = true.

(** The directory is open; so is the active file. *)
Definition anchored (st : FileStore) : Prop := m_directoryFd st <> -1.
Definition live (st : FileStore) : Prop := m_fd st <> -1 /\ anchored st.

(** [P] is known of the store unless something went wrong; success, and [P]. *)
Abbreviation known P s := (~ bad_store s -> P (store s)).
Abbreviation fine P := (thus (fun s' => P (store s'))).

Lemma smooth_this {A B} (f : FileStore -> A) (k : A -> M state B) Q s :
  smooth bad_store (k (f (store s))) Q s -> smooth bad_store (a ← this f; k a) Q s.
Proof. exact (fun Hk => Hk). Qed.

Lemma smooth_set {A B} (f : A -> FileStore -> FileStore) x (m : M state B) Q s :
  smooth bad_store m Q (mk_St (f x (store s)) (fs s)) -> smooth bad_store (set f x;;; m) Q s.
Proof. exact (fun Hk => Hk). Qed.

(** The code gives up, but something had gone wrong. *)
Lemma smooth_gives_up P s : (~ bad_store s -> False) -> smooth bad_store (mret false) (fine P) s.
Proof. intros Hn. apply smooth_ret. intros Hb. by destruct (Hn Hb). Qed.

(** A watched call, and one that is retried. *)
Lemma smooth_sys {A} wrong (f : F -> sysres A * F) P s :
  known P s ->
  smooth bad_store (sys (watch wrong f)) (fun r s' => wrong r = false /\ P (store s')) s.
Proof.
  intros HP. apply wp_lift, wp_call. intros r w' Hw. unfold watch in Hw.
  destruct (f (world (fs s))) as [r0 w0]. injection Hw as <- <-. unfold bad_store, set_fs.
  cbn [fs store troubled]. split; [by intros ->|].
  intros [H1 H2]%not_true_iff_false%orb_false_iff. split; [done|]. apply HP.
  unfold bad_store. by rewrite H1.
Qed.

Lemma smooth_retry {A} (f : F -> sysres A * F) P s n :
  known P s ->
  smooth bad_store (retry_eintr n (sys (watch failed_for_good f)))
    (fun r s' => is_ok r = true /\ P (store s')) s.
Proof.
  revert s. induction n as [|n IH]; intros s HP; cbn [retry_eintr]; [apply smooth_fuel|].
  eapply smooth_bind; [by apply (smooth_sys _ _ P)|]. intros r s1 H1.
  destruct (is_intr r) eqn:Ei; [apply IH; intros Hb; by apply H1|].
  apply smooth_ret. intros Hb. destruct (H1 Hb) as [Hf HP1]. split; [|done].
  unfold failed_for_good in Hf. rewrite Ei, andb_true_r in Hf. by destruct r.
Qed.

Lemma smooth_sync s : known live s -> smooth bad_store (sync fuel) (fine live) s.
Proof.
  intros Hl. unfold sync. apply smooth_this.
  destruct (Z.eqb_spec (m_fd (store s)) (-1)) as [E|_]; [apply smooth_gives_up; intros Hb; exact (proj1 (Hl Hb) E)|].
  eapply smooth_bind; [by apply (smooth_retry _ live)|]. intros [u|e] s1 H1.
  - apply smooth_set, smooth_thus. intros Hb. exact (proj2 (H1 Hb)).
  - apply smooth_gives_up. intros Hb. by destruct (H1 Hb).
Qed.

Lemma smooth_syncDirectory P s :
  (forall st, P st -> anchored st) -> known P s -> smooth bad_store (syncDirectory fuel) (fine P) s.
Proof.
  intros HP Hk. unfold syncDirectory. apply smooth_this.
  destruct (Z.eqb_spec (m_directoryFd (store s)) (-1)) as [E|_].
  { apply smooth_gives_up. intros Hb. by apply (HP _ (Hk Hb)). }
  eapply smooth_bind; [by apply (smooth_retry _ P)|]. intros r s1 H1. by apply smooth_ret.
Qed.

Lemma smooth_recover s : known live s -> smooth bad_store (recoverPartialFrame fuel) (fine live) s.
Proof.
  intros Hl. unfold recoverPartialFrame. apply smooth_this.
  eapply smooth_bind; [by apply (smooth_sys _ _ live)|]. intros [status|e] s1 H1; unfold wrong_fstat in H1.
  2: { apply smooth_gives_up. intros Hb. by destruct (H1 Hb). }
  destruct (S_ISREG status); cbn [negb orb] in *; [|apply smooth_gives_up; intros Hb; by destruct (H1 Hb)].
  destruct (st_size status <? 0); [apply smooth_gives_up; intros Hb; by destruct (H1 Hb)|]. cbv zeta.
  eapply smooth_and with (G := fun s' => live (store s')).
  - destruct (_ =? 0); [apply smooth_thus; intros Hb; by apply H1|].
    eapply smooth_bind; [apply (smooth_sys _ _ live); intros Hb; by apply H1|].
    intros [u|e] s2 H2; [|apply smooth_gives_up; intros Hb; by destruct (H2 Hb)].
    apply smooth_sync. intros Hb. by apply H2.
  - intros s2 H2. apply smooth_set, smooth_thus. exact H2.
Qed.

Lemma smooth_openActiveFile s :
  known anchored s -> smooth bad_store (openActiveFile fuel) (fine live) s.
Proof.
  intros Hl. unfold openActiveFile. do 2 apply smooth_this.
  eapply smooth_bind; [by apply (smooth_sys _ _ anchored)|]. intros r s1 H1.
  eapply smooth_bind with (R := fun o s' => o <> None /\ live (store s')).
  - destruct r as [fd|e].
    + apply smooth_set, smooth_ret. intros Hb. split; [done|]. destruct (H1 Hb) as [Hr Hd].
      apply Z.ltb_ge in Hr. split; cbn; [lia|done].
    + apply smooth_set. destruct (Z.eqb_spec e EEXIST) as [->|He].
      2: { apply smooth_ret. intros Hb. destruct (H1 Hb) as [Hr _]. unfold wrong_openat in Hr.
           apply Z.eqb_neq in He. rewrite He, andb_false_r in Hr. discriminate. }
      eapply smooth_bind; [apply (smooth_sys _ _ anchored); intros Hb; by apply H1|].
      intros r s2 H2. destruct r as [fd|e].
      * apply smooth_set, smooth_ret. intros Hb. split; [done|]. destruct (H2 Hb) as [Hr Hd].
        apply Z.ltb_ge in Hr. split; cbn; [lia|done].
      * apply smooth_ret. intros Hb. by destruct (H2 Hb).
  - intros [created|] s2 H2; [|apply smooth_gives_up; intros Hb; by destruct (H2 Hb)].
    eapply smooth_and; [|intros s3; apply smooth_recover].
    destruct created; [apply smooth_syncDirectory; [by intros st []|]|apply smooth_thus];
      intros Hb; by apply H2.
Qed.

Lemma smooth_closeActiveFile s :
  known live s -> smooth bad_store (closeActiveFile (F:=Watched F)) (fine anchored) s.
Proof.
  intros Hl. unfold closeActiveFile. apply smooth_this.
  destruct (_ =? _); [apply smooth_thus; intros Hb; by apply Hl|]. apply smooth_set.
  eapply smooth_bind; [apply (smooth_sys _ _ anchored); intros Hb; by apply Hl|].
  intros r s1 H1. apply smooth_ret. intros Hb. destruct (H1 Hb). split; [by destruct r|done].
Qed.

Lemma smooth_makeArchiveName s :
  known anchored s -> smooth bad_store (makeArchiveName (F:=Watched F))
    (fun a s' => a <> EmptyString /\ anchored (store s')) s.
Proof.
  intros Hl. unfold makeArchiveName. eapply smooth_bind; [by apply (smooth_sys _ _ anchored)|].
  intros [time|e] s1 H1; [|apply smooth_ret; intros Hb; by destruct (H1 Hb)].
  do 2 apply smooth_this. apply smooth_set, smooth_ret. intros Hb.
  split; [apply archive_name_nonempty|by apply H1].
Qed.

Lemma smooth_rotate s : known live s -> smooth bad_store (rotate fuel) (fine live) s.
Proof.
  intros Hl. unfold rotate. apply smooth_this.
  destruct (Z.eqb_spec (m_fd (store s)) (-1)) as [E|_]; [apply smooth_gives_up; intros Hb; exact (proj1 (Hl Hb) E)|].
  eapply smooth_and; [by apply smooth_sync|]. intros s1 H1.
  eapply smooth_and; [by apply smooth_closeActiveFile|]. intros s2 H2.
  eapply smooth_bind; [by apply smooth_makeArchiveName|]. intros [|c a] s3 H3.
  { apply smooth_gives_up. intros Hb. by destruct (H3 Hb). }
  set (archive := String c a) in *. do 2 apply smooth_this.
  eapply smooth_bind; [apply (smooth_sys _ _ anchored); intros Hb; by apply H3|].
  intros [u|e] s4 H4; cbn [is_ok negb]; [|apply smooth_gives_up; intros Hb; by destruct (H4 Hb)].
  eapply smooth_and; [apply (smooth_syncDirectory anchored); [done|]; intros Hb; by apply H4|].
  intros s5 H5. do 2 apply smooth_set. by apply smooth_openActiveFile.
Qed.

Lemma smooth_openDirectory path s :
  filename path <> EmptyString -> smooth bad_store (openDirectory path) (fine anchored) s.
Proof.
  intros Hn. unfold openDirectory. destruct (filename path) as [|c name]; [done|]. cbv zeta.
  eapply smooth_bind; [by apply (smooth_sys _ _ (fun _ => True))|]. intros [fd|e] s1 H1.
  - apply smooth_set, smooth_thus. intros Hb. destruct (H1 Hb) as [Hr%Z.ltb_ge _]. unfold anchored. cbn. lia.
  - apply smooth_set, smooth_gives_up. intros Hb. by destruct (H1 Hb).
Qed.

Lemma smooth_openFile path s c :
  filename path <> EmptyString -> store s = new_store c -> validateConfig c = true ->
  smooth bad_store (openFile fuel path) (fine live) s.
Proof.
  intros Hn Hs Hc. unfold openFile. do 2 apply smooth_this. rewrite Hs.
  cbn [negb orb new_store m_fd m_directoryFd Z.eqb Pos.eqb]. apply smooth_this. rewrite Hs.
  cbn [m_config new_store]. rewrite Hc. cbn [negb].
  eapply smooth_and; [by apply smooth_openDirectory|]. intros s1. apply smooth_openActiveFile.
Qed.

Lemma smooth_write_loop n frames offset written chunk s :
  known live s -> smooth bad_store (write_loop (F:=Watched F) n frames offset written chunk) (fine live) s.
Proof.
  revert written s. induction n as [|n IH]; intros written s Hl; cbn [write_loop]; [apply smooth_fuel|].
  destruct (written <? chunk); [|by apply smooth_thus]. apply smooth_this.
  eapply smooth_bind; [by apply (smooth_sys _ _ live)|]. intros [k|e] s1 H1; unfold wrong_write in H1.
  - destruct (Z.ltb_spec 0 k); [apply IH; intros Hb; by apply H1|].
    apply smooth_gives_up. intros Hb. destruct (H1 Hb) as [?%Z.leb_gt _]. lia.
  - destruct (e =? EINTR); [apply IH; intros Hb; by apply H1|].
    apply smooth_gives_up. intros Hb. by destruct (H1 Hb).
Qed.

Lemma smooth_sync_if_due s : known live s -> smooth bad_store (sync_if_due fuel) (fine live) s.
Proof.
  intros Hl. unfold sync_if_due. apply smooth_this.
  destruct (_ && _); [by apply smooth_sync|by apply smooth_thus].
Qed.

Lemma smooth_append_loop n frames offset s :
  known live s -> smooth bad_store (append_loop fuel n frames offset) (fine live) s.
Proof.
  revert offset s. induction n as [|n IH]; intros offset s Hl; cbn [append_loop]; [apply smooth_fuel|].
  destruct (offset <? zlen frames); [|by apply smooth_thus].
  eapply smooth_and with (G := fun s' => live (store s')).
  { unfold rotate_if_full. apply smooth_this.
    destruct (_ <=? _); [by apply smooth_rotate|by apply smooth_thus]. }
  intros s1 H1. eapply smooth_and; [by apply smooth_sync_if_due|]. intros s2 H2.
  apply smooth_this. cbv zeta. eapply smooth_and; [|intros s3; apply IH].
  unfold write_chunk. eapply smooth_and; [by apply smooth_write_loop|]. intros s3 H3.
  apply smooth_this. do 2 apply smooth_set. by apply smooth_sync_if_due.
Qed.

(** Appending whole frames to an open store fails only if a call goes wrong. *)
Lemma smooth_appendFrames frames s :
  live (store s) -> zlen frames <> 0 -> (kFrameSize | zlen frames) ->
  smooth bad_store (appendFrames fuel frames) (fine live) s.
Proof.
  intros Hl Hz%Z.eqb_neq Hd. unfold appendFrames. apply smooth_this.
  destruct (Z.eqb_spec (m_fd (store s)) (-1)) as [E|_]; [by destruct (proj1 Hl E)|].
  rewrite Hz. apply Z.mod_divide in Hd; [|done]. rewrite Hd. by apply smooth_append_loop.
Qed.

(** The destructor. *)
Lemma smooth_destroy s : smooth bad_store (destroy (F:=Watched F)) (fun _ _ => True) s.
Proof.
  unfold destroy. do 2 apply smooth_this.
  eapply smooth_bind with (R := fun _ _ => True); [|intros _ s1 _];
    (destruct (_ =? _); [by apply smooth_ret|]);
    (eapply smooth_bind; [by apply (smooth_sys _ _ (fun _ => True))|intros; by apply smooth_ret]).
Qed.

End store.

(** ** The reader

    Here the cause can also be an invalid frame among those published.  What the
    reader keeps true is known from [Reader.v]; [blamed] adds the causes. *)

Import Reader.

Section reader.
Context {W F : Type} `{ReaderWorld W} `{FsLaws F}.
Variable fuel : nat.
Variable R : string -> Prop.
Hypothesis R_clock : clock_avoids (F:=F) R.
Abbreviation rstate := (RSt (Watched W) (Watched F)).
Implicit Types s : rstate.

Definition trouble (s : rstate) : Prop :=
  troubled (ipc s) = true \/ troubled (fs (disk s)) = true.

Definition invalid (s : rstate) : Prop := ~ valid_frames (published (ipc s)).

Abbreviation blamed := (blamed trouble invalid).

(** The store's part of the reader's state. *)
Lemma blame_disk (P : FileStore -> Prop) m s :
  smooth bad_store m (thus (fun d => P (store d))) (disk s) ->
  wp false (on_disk m) (fun ok s' => blamed s s' (negb ok)) s.
Proof.
  intros Hm. apply wp_lift. eapply wp_mono; [exact Hm|]. intros ok d [K1 K2].
  unfold blamed, trouble, bad_store in *. cbn [ipc disk]. split; [tauto|]. intros Hok. left.
  right. destruct (troubled (fs d)); [done|]. destruct K2 as [-> _]; [done|discriminate].
Qed.

Lemma blame_on_events m s :
  smooth (fun e => troubled e = true) m (fun ok _ => ok = true) (ipc s) ->
  wp false (on_events m) (fun ok s' => blamed s s' (negb ok)) s.
Proof.
  intros Hm. apply wp_lift. eapply wp_mono; [exact Hm|]. intros ok e [K1 K2].
  unfold blamed, trouble in *. cbn [ipc disk]. split; [tauto|]. intros Hok. left.
  left. destruct (troubled e); [done|]. by rewrite K2 in Hok.
Qed.

Variable fc : FileStoreConfig.
Variable fn : string.
Variable log0 : Log.
Variable bound : Z.
Hypothesis small : zlen (log_stream log0) + bound < 2 ^ 64.
Abbreviation inv := (reader_inv R fc fn log0 bound).

Let R_watched : clock_avoids (F:=Watched F) R := watched_clock R R_clock.

Lemma blame_flush s rest :
  inv s rest -> wp false (flushBatch fuel) (fun ok s' => blamed s s' (negb ok)) s.
Proof.
  intros (arch & done & I). unfold flushBatch. apply wp_bind, wp_get.
  destruct (Z.eqb_spec (batchBytes s) 0) as [E0|E0]; [apply wp_ret, blamed_refl|].
  pose proof (staged_length _ _ _ _ _ _ _ _ _ I) as Hsl.
  destruct (ri_staged _ _ _ _ _ _ _ _ _ I) as [Hsb Hsd].
  destruct (ri_store _ _ _ _ _ _ _ _ _ I) as (D & _ & f & A).
  apply wp_bind. eapply wp_mono; [apply (blame_disk live), smooth_appendFrames|].
  - split; [apply A|apply D].
  - by rewrite Hsl.
  - by rewrite Hsl.
  - intros ok s1 Hs1. destruct ok; cbn [negb]; [|by apply wp_ret].
    apply wp_bind. unfold set_batch. apply wp_modify, wp_ret. exact Hs1.
Qed.

(** A frame among those published is invalid. *)
Lemma invalid_frame s frame rest :
  inv s (frame ++ rest) -> zlen frame = kFrameSize -> result_ok (decode frame) = false -> invalid s.
Proof.
  intros (arch & done & I) Hf Hd Hv. unfold invalid in *.
  destruct (ri_ring _ _ _ _ _ _ _ _ _ I) as [Hok _].
  destruct (ring_ok_law _ Hok) as ([k Ek] & _ & Hdiv).
  rewrite Ek in Hv. apply valid_frames_app in Hv as [Hv _]; [|done].
  rewrite <- (ri_received _ _ _ _ _ _ _ _ _ I) in Hv.
  apply valid_frames_app in Hv as [_ Hv]; [|apply I].
  apply valid_frames_app in Hv as [_ Hv];
    [|rewrite (staged_length _ _ _ _ _ _ _ _ _ I); apply (ri_staged _ _ _ _ _ _ _ _ _ I)].
  apply valid_frames_app in Hv as [Hv _]; [|rewrite Hf; apply Z.divide_refl].
  unfold valid_frames in Hv. rewrite frames_of_one in Hv by done.
  apply Forall_cons in Hv as [Hv _]. by rewrite Hd in Hv.
Qed.

Lemma blame_processFrame s frame rest :
  inv s (frame ++ rest) -> has_room s -> zlen frame = kFrameSize ->
  wp false (processFrame fuel frame) (fun ok s' => blamed s s' (negb ok)) s.
Proof.
  intros I Hr Hf. unfold processFrame. cbv zeta.
  destruct (result_ok (decode frame)) eqn:Ed; cbn [negb].
  - apply wp_bind, wp_get, wp_bind. unfold set_batch. apply wp_modify, wp_bind, wp_get.
    destruct I as (arch & done & I).
    pose proof (stage_frame _ _ _ _ _ s frame rest arch done I Hr Hf Ed) as I'. cbv zeta in I'.
    set (s1 := mk_RSt _ _ _ _ _) in *. destruct (_ =? _); [|apply wp_ret; by split].
    apply wp_bind. eapply wp_mono; [apply (blame_flush s1 rest); by exists arch, done|].
    intros ok s2 Hs2. by destruct ok; cbn [negb]; apply wp_ret.
  - pose proof (invalid_frame _ _ _ I Hf Ed) as Hbad. apply wp_bind.
    eapply wp_mono; [apply (wp_conj false _ _ _ s (blame_flush _ _ I)
      (flushBatch_spec fuel R fc fn log0 R_watched bound small false s _ I ltac:(done)))|].
    intros ok s2 ([Hb _] & _ & (Er & _) & _).
    assert (invalid s2) as Hbad2 by (unfold invalid; by rewrite Er).
    destruct ok; cbn [negb]; apply wp_ret; (split; [done|]); by right.
Qed.

Lemma blame_frames n index s :
  inv s (zslice (index * kFrameSize) (Z.of_nat n * kFrameSize) (ipcBatch s)) ->
  has_room s -> 0 <= index -> (index + Z.of_nat n) * kFrameSize <= ipcBatchBytes ->
  wp false (process_frames fuel n index) (fun ok s' => blamed s s' (negb ok)) s.
Proof.
  revert index s. induction n as [|n IH]; intros index s I Hr Hi Hn; cbn [process_frames].
  { apply wp_ret, blamed_refl. }
  assert (zlen (ipcBatch s) = ipcBatchBytes) as Hipc by (destruct I as (? & ? & I); apply I).
  apply wp_bind, wp_get, wp_bind.
  replace (Z.of_nat (S n) * kFrameSize) with (kFrameSize + Z.of_nat n * kFrameSize) in I
    by (unfold kFrameSize; lia).
  rewrite zslice_add in I by (unfold kFrameSize; lia).
  assert (zlen (zslice (index * kFrameSize) kFrameSize (ipcBatch s)) = kFrameSize) as Hf
    by (apply zlen_slice; unfold kFrameSize, ipcBatchBytes in *; lia).
  eapply wp_mono; [apply (wp_conj false _ _ _ s (blame_processFrame s _ _ I Hr Hf)
    (processFrame_spec fuel R fc fn log0 R_watched bound small false s _ _ I Hr Hf ltac:(done)))|].
  intros ok s1 (Hb1 & _ & (_ & Eipc) & HA). destruct ok; cbn [negb]; [|by apply wp_ret].
  destruct HA as [I1 Hr1].
  eapply wp_mono; [apply (IH (index + 1) s1)|]; [|done|lia|lia|].
  - rewrite Eipc. by replace ((index + 1) * kFrameSize) with (index * kFrameSize + kFrameSize)
      by (unfold kFrameSize; lia).
  - intros ok s2 Hb2. exact (blamed_trans _ _ _ _ _ _ _ Hb1 Hb2).
Qed.

(** The ring's calls are not to blame. *)
Lemma blamed_ring s s' :
  troubled (ipc s') = troubled (ipc s) -> disk s' = disk s -> blamed s s' false.
Proof. intros E1 E2. unfold blamed, trouble. by rewrite E1, E2. Qed.

Lemma blame_pop_loop n any s :
  inv s [] -> has_room s ->
  wp false (pop_loop fuel n any) (fun o s' => blamed s s' (is_none o)) s.
Proof.
  revert any s. induction n as [|n IH]; intros any s I Hr; cbn [pop_loop]; [by apply wp_out_of_fuel|].
  apply wp_bind, wp_get, wp_bind. unfold on_ring, on_ipc. apply wp_lift, wp_call.
  intros [m out] c' Epop.
  destruct (pop_inv _ _ _ _ _ 0 _ _ _ _ I Hr Epop) as (_ & _ & Hm0 & Hm & I1 & _).
  apply through_spec in Epop as [_ Etr].
  apply wp_bind. unfold set_ipcBatch. apply wp_modify.
  cbn [fst snd ipc disk batch batchBytes ipcBatch]. cbv zeta in I1.
  set (s1 := mk_RSt _ _ _ _ _) in *.
  assert (blamed s s1 false) as Hb1 by (by apply blamed_ring).
  destruct (m =? 0); [by apply wp_ret|].
  assert (inv s1 (zslice (0 * kFrameSize) (Z.of_nat (Z.to_nat m) * kFrameSize) (ipcBatch s1))) as I1'
    by (rewrite Z2Nat.id by lia; exact I1).
  assert ((0 + Z.of_nat (Z.to_nat m)) * kFrameSize <= ipcBatchBytes) as Hfit
    by (rewrite Z2Nat.id; lia).
  apply wp_bind. eapply wp_mono; [apply (wp_conj false _ _ _ s1
    (blame_frames (Z.to_nat m) 0 s1 I1' Hr ltac:(done) Hfit)
    (process_frames_spec fuel R fc fn log0 R_watched bound small false (Z.to_nat m) 0 s1 I1' Hr
      ltac:(done) Hfit ltac:(done)))|].
  intros ok s2 (Hb2 & _ & _ & HA). destruct ok; cbn [negb].
  - destruct HA as [I2 Hr2]. eapply wp_mono; [by apply (IH true s2)|]. intros o s3 Hb3.
    exact (blamed_trans _ _ _ _ _ _ _ Hb1 (blamed_trans _ _ _ _ _ _ _ Hb2 Hb3)).
  - apply wp_ret. exact (blamed_trans _ _ _ _ _ _ _ Hb1 Hb2).
Qed.

Lemma blame_drain fd s :
  inv s [] -> has_room s -> wp false (drain fuel fd) (fun ok s' => blamed s s' (negb ok)) s.
Proof.
  intros I Hr. unfold drain. apply wp_bind.
  eapply wp_mono; [apply (wp_conj false _ _ _ s (blame_pop_loop fuel false s I Hr)
    (pop_loop_spec fuel R fc fn log0 R_watched bound small 0 false fuel false s I Hr ltac:(done) ltac:(done)))|].
  intros [any|] s1 (Hb1 & _ & _ & _ & HA); [|by apply wp_ret]. destruct HA as (I1 & _).
  apply wp_bind. eapply wp_mono; [by apply (blame_flush s1 [])|].
  intros ok s2 Hb2. pose proof (blamed_trans _ _ _ _ _ _ _ Hb1 Hb2) as Hb. destruct ok; cbn [negb];
    [|by apply wp_ret].
  destruct any; [|by apply wp_ret].
  eapply wp_mono; [apply blame_on_events, smooth_notify|]. intros ok s3 Hb3. exact (blamed_trans _ _ _ _ _ _ _ Hb Hb3).
Qed.

Definition failure (r : Z) : bool := negb (r =? EXIT_SUCCESS).

Lemma blame_run_loop n dfd sfd s :
  inv s [] -> has_room s ->
  wp false (run_loop fuel n dfd sfd) (fun r s' => blamed s s' (failure r)) s.
Proof.
  revert s. induction n as [|n IH]; intros s I Hr; cbn [run_loop]; [by apply wp_out_of_fuel|].
  apply wp_bind. eapply wp_mono; [apply (wp_conj false _ _ _ s (blame_drain sfd s I Hr)
    (drain_spec fuel R fc fn log0 R_watched bound small sfd false s I Hr ltac:(done) ltac:(done)))|].
  intros ok s1 (Hb1 & _ & _ & HA). destruct ok; cbn [negb]; [|by apply wp_ret].
  destruct HA as (I1 & Hz1 & _). apply wp_bind. unfold on_ring at 1, on_ipc. apply wp_lift, wp_call.
  intros closed c2 Ec.
  assert (ring_ok (ipc s1)) as Hok1 by (destruct I1 as (? & ? & J); apply (ri_ring _ _ _ _ _ _ _ _ _ J)).
  destruct (closed_law _ _ _ Hok1 Ec) as ((Hok2 & Hl2 & _) & _ & _ & Hr2 & _).
  apply through_spec in Ec as [_ Et2].
  assert (forall w3, received w3 = received (ipc s1) -> ring_ok w3 -> limit w3 = limit (ipc s1) ->
    troubled w3 = troubled (ipc s1) ->
    wp false (ok ← on_events (consumeEvent fuel dfd);
          if negb ok then mret EXIT_FAILURE else run_loop fuel n dfd sfd)
      (fun r s' => blamed s s' (failure r))
      (mk_RSt w3 (disk s1) (batch s1) (batchBytes s1) (ipcBatch s1))) as Hwait.
  { intros w3 Hr3 Hok3 Hl3 Ht3. set (s3 := mk_RSt _ _ _ _ _).
    assert (blamed s s3 false) as Hb3 by (eapply blamed_trans; [exact Hb1|by apply blamed_ring]).
    apply wp_bind. unfold on_events, on_ipc. apply wp_lift.
    eapply wp_mono; [exact (wp_conj false _ _ _ w3 (smooth_consume fuel dfd w3)
      (consume_ring fuel false dfd w3 Hok3 ltac:(done)))|].
    intros ok w4 ([K1 K2] & _ & Hok4 & Hl4 & Hr4 & _).
    pose proof (change_ring _ _ _ _ _ s1 w4 I1 ltac:(congruence) Hok4 ltac:(congruence)) as I4.
    cbn [ipc disk batch batchBytes ipcBatch s3] in *. set (s4 := mk_RSt w4 _ _ _ _) in *.
    assert (blamed s3 s4 (negb ok)) as Hb4.
    { unfold blamed, trouble. cbn [s3 s4 ipc disk]. split; [tauto|]. intros Hok. left. left.
      destruct (troubled w4); [done|]. by rewrite K2 in Hok. }
    destruct ok; cbn [negb] in *; [|apply wp_ret; exact (blamed_trans _ _ _ _ _ _ _ Hb3 Hb4)].
    eapply wp_mono; [apply (IH s4 I4)|].
    - unfold has_room. cbn [s4 batchBytes]. by rewrite Hz1.
    - intros r s5 Hb5. exact (blamed_trans _ _ _ _ _ _ _ Hb3 (blamed_trans _ _ _ _ _ _ _ Hb4 Hb5)). }
  destruct closed.
  2: { apply wp_bind, wp_ret. by apply Hwait. }
  apply wp_bind. unfold on_ring, on_ipc. apply wp_lift, wp_call. intros done c3 Ee.
  change (c_empty c2 = (done, c3)) in Ee.
  destruct (empty_law _ _ _ Hok2 Ee) as ((Hok3 & Hl3 & _) & _ & _ & Hr3 & _).
  apply through_spec in Ee as [_ Et3].
  destruct done; [|apply Hwait; congruence]. cbn [ipc disk batch batchBytes ipcBatch].
  set (s3 := mk_RSt _ _ _ _ _).
  assert (blamed s s3 false) as Hb3 by (eapply blamed_trans; [exact Hb1|apply blamed_ring; [cbn [s3 ipc]; congruence|done]]).
  apply wp_bind. eapply wp_mono; [apply (blame_disk live), smooth_sync|].
  - intros _. destruct I1 as (arch & d & J).
    destruct (ri_store _ _ _ _ _ _ _ _ _ J) as (D & _ & f & A). split; [apply A|apply D].
  - intros ok s4 Hb4. destruct ok; apply wp_ret; exact (blamed_trans _ _ _ _ _ _ _ Hb3 Hb4).
Qed.

End reader.

Section whole_run.
Context {W F : Type} `{ReaderWorld W} `{FsLaws F}.
Variable fuel : nat.
Variable R : string -> Prop.
Hypothesis R_clock : clock_avoids (F:=F) R.
Implicit Types s : RSt (Watched W) (Watched F).
Abbreviation blamed := (blamed trouble invalid).

Lemma blame_destroy s0 s r :
  blamed s0 s (failure r) ->
  wp false (on_disk destroy;;; mret r) (fun r s' => blamed s0 s' (failure r)) s.
Proof.
  intros [K1 K2]. apply wp_bind. unfold on_disk. apply wp_lift.
  eapply wp_mono; [exact (smooth_destroy (disk s))|]. intros _ d [K3 _]. apply wp_ret.
  unfold blamed, trouble, invalid, bad_store in *. cbn [ipc disk]. tauto.
Qed.

Lemma blame_run dfd sfd config s :
  run_pre R config s -> filename (dataFilePath config) <> EmptyString ->
  wp false (run fuel dfd sfd config) (fun r s' => blamed s s' (failure r)) s.
Proof.
  intros [Hc Hn [Hok Hrec] Hsm] Hname. unfold run. apply wp_bind. unfold on_disk at 1.
  apply wp_lift, wp_modify. set (s0 := mk_RSt _ _ _ _ _). fold (store_config config) in s0.
  set (path := dataFilePath config) in *. set (name := filename path) in *.
  pose proof (zlen_whole (file_bytes (view (fs (disk s))) name)) as (_ & _ & Hw).
  assert (blamed s s0 false) as Hb0 by (by split).
  assert (smooth bad_store (openFile fuel path) (thus (fun d => live (store d))) (disk s0)) as Hsmooth
    by (by eapply smooth_openFile; [| |apply Hc]).
  assert (enough fuel false (disk s0)) as Hen by done.
  apply wp_bind. apply wp_bind. unfold on_disk at 1. apply wp_lift.
  eapply wp_mono; [apply (wp_conj false _ _ _ (disk s0) Hsmooth
    (openFile_spec fuel false R path (disk s0) (store_config config) eq_refl Hc Hn Hen))|].
  intros ok d ([K1 K2] & _ & HO). set (s1 := mk_RSt _ d _ _ _).
  assert (blamed s s1 (negb ok)) as Hb1.
  { unfold blamed, trouble, bad_store in *. cbn [s0 s1 ipc disk fs] in *. split; [tauto|].
    intros Hno. left. right. destruct (troubled (fs d)); [done|].
    destruct K2 as [-> _]; [done|discriminate]. }
  destruct ok; cbn [negb] in *; [|by apply wp_ret, blame_destroy].
  destruct HO as (I & Ec & En & HL). apply wp_bind. unfold set_batch. apply wp_modify, wp_bind.
  unfold set_ipcBatch. apply wp_modify. cbn [s1 ipc disk batch batchBytes ipcBatch].
  set (s2 := mk_RSt _ d _ _ _).
  assert (blamed s s2 false) as Hb2 by (eapply blamed_trans; [exact Hb1|by apply blamed_ring]).
  eapply wp_mono; [apply (blame_run_loop fuel R R_clock (store_config config) name
    (log_found config s) (limit (ipc s)))|].
  - change (zlen (found config s) + limit (ipc s) < 2 ^ 64). unfold found. fold path name. lia.
  - apply start_rinv; cbn [s2 ipc disk batch batchBytes ipcBatch]; try assumption.
    + done.
    + by rewrite zlen_zero_batch.
    + by rewrite zlen_zero_batch.
    + by split.
  - done.
  - intros r s3 Hb3. apply blame_destroy. exact (blamed_trans _ _ _ _ _ _ _ Hb2 Hb3).
Qed.

End whole_run.

(** ** Properties *)

(** C11: failures have causes.  Over a file system and event descriptors that are
    watched for calls gone wrong (interruptions, short writes and an existing data
    file are not wrong), a run of the reader in which none did, and to which only
    valid frames were published, comes back with [EXIT_SUCCESS] and everything
    published is in the files; the parent notifies after it publishes or closes, and
    in the end closes. *)
Theorem reader_succeeds {W F} `{ReaderWorld W} `{FsLaws F}
    fuel R sfd config (s : RSt (Watched W) (Watched F)) :
  clock_avoids (F:=F) R -> run_pre R config s -> filename (dataFilePath config) <> EmptyString ->
  sfd <> data_ready (W:=W) ->
  (budget (fs (disk s)) + Z.to_nat writeBatchBytes < fuel)%nat ->
  (ev_budget (ipc s) < fuel)%nat -> (Z.to_nat (limit (ipc s)) < fuel)%nat ->
  (wakes_left (ipc s) < fuel)%nat ->
  exists r s', run fuel (data_ready (W:=W)) sfd config s = Some (r, s') /\
    (troubled (ipc s') = false -> troubled (fs (disk s')) = false ->
     valid_frames (published (ipc s')) ->
     r = EXIT_SUCCESS /\ stored_all config s s').
Proof.
  intros Hc Hpre Hname Hsd Hf1 Hf2 Hf3 Hf4.
  destruct (wp_total _ _ _ (run_spec fuel R (watched_clock R Hc) true _ sfd config s Hpre
    (fun _ => conj eq_refl Hsd) (fun _ => conj Hf1 (conj Hf2 (conj Hf3 Hf4))))) as (r & s' & Hrun & HR).
  pose proof (blame_run fuel R Hc (data_ready (W:=W)) sfd config s Hpre Hname) as Hb.
  unfold wp in Hb. change (data_ready (W:=Watched W)) with (data_ready (W:=W)) in Hrun.
  rewrite Hrun in Hb. destruct Hb as [_ Hb].
  exists r, s'. split; [done|]. intros He Hd Hv. destruct HR as [HR|[-> _]]; [done|].
  destruct (Hb eq_refl) as [[Ht|Ht]|Hi]; [by rewrite He in Ht|by rewrite Hd in Ht|done].
Qed.

Import MemFs.

(** The sample reader of [Reader.v], watched. *)
Definition sample_watched : RSt (Watched SharedRing) (Watched MemFs.MemFs) :=
  let s := sample_reader sample_state in
  mk_RSt (mk_Watched (ipc s) false)
    (mk_St (store (disk s)) (mk_Watched (fs (disk s)) false)) (batch s) (batchBytes s) (ipcBatch s).

Lemma sample_watched_pre : run_pre sample_names sample_reader_config sample_watched.
Proof.
  constructor; [exact sample_config_ok|exact sample_known|split; [exact sample_shared_ok|done]|].
  by vm_compute.
Qed.

Definition sample_watched_end : RSt (Watched SharedRing) (Watched MemFs.MemFs) :=
  end_state sample_watched (run (Z.to_nat 70000) data_fd 4 sample_reader_config sample_watched).

Lemma sample_watched_quiet :
  (fst <$> run (Z.to_nat 70000) data_fd 4 sample_reader_config sample_watched) = Some EXIT_SUCCESS /\
  troubled (ipc sample_watched_end) = false /\
  troubled (fs (disk sample_watched_end)) = false /\
  published (ipc sample_watched_end) = encode default_record.
Proof. split_and!; vm_compute; reflexivity. Qed.

Lemma reader_succeeds_witness :
  run_pre sample_names sample_reader_config sample_watched /\
  run (Z.to_nat 70000) data_fd 4 sample_reader_config sample_watched = Some (EXIT_SUCCESS, sample_watched_end) /\
  stored_all sample_reader_config sample_watched sample_watched_end.
Proof.
  destruct sample_watched_quiet as (Hcode & He & Hd & Hp). apply (ends_in sample_watched) in Hcode.
  fold sample_watched_end in Hcode.
  split; [exact sample_watched_pre|]. split; [exact Hcode|].
  destruct (reader_succeeds (Z.to_nat 70000) sample_names 4 sample_reader_config sample_watched
    sample_clock sample_watched_pre ltac:(by vm_compute)) as (r & s' & Hrun & HA).
  - vm_compute. discriminate.
  - change (budget _) with 10%nat. unfold writeBatchBytes. lia.
  - change (ev_budget _) with 1%nat. lia.
  - change (limit _) with 32. lia.
  - change (wakes_left _) with 2%nat. lia.
  - assert (Some (r, s') = Some (EXIT_SUCCESS, sample_watched_end)) as E
      by (rewrite <- Hrun; exact Hcode).
    clear Hcode Hrun. revert He Hd Hp E. generalize sample_watched_end. intros s2 He Hd Hp E.
    injection E as -> ->. apply HA; [exact He|exact Hd|]. rewrite Hp.
    unfold valid_frames. rewrite frames_of_one by reflexivity. by constructor.
Defined.

End Causes.
