(* ===== verification/Producer.v ===== *)
(** * The ring as its producer sees it

    The interface [RingProducer] through which the server uses the ring, and
    [TakingRing], the ring of [Ring.v] with a consumer that runs between the
    producer's calls. *)

From S2P Require Import Prelude Codec Ring.
Import Codec.

Module Producer.

Class RingProducer (C : Type) := {
  p_tryPushBatch : bytes -> C -> Z * C;
  p_pendingBytes : C -> Z * C;
  p_empty : C -> bool * C;
  p_create : C -> bool * C;
  p_closeProducer : C -> C;
}.

(** From an open ring: only pushes publish, and only what they say; the queue
    otherwise only shrinks; a batch that fits is taken whole. *)
Class RingProducerLaws (C : Type) `{RingProducer C} := {
  pushed : C -> bytes;
  queued : C -> Z;
  ring_open : C -> Prop;
  ring_open_law c : ring_open c -> 0 <= queued c <= Ring.capacityBytes;
  push_law frames c n c' :
    ring_open c -> zlen frames <> 0 -> (kFrameSize | zlen frames) -> zlen frames < 2 ^ 64 ->
    p_tryPushBatch frames c = (n, c') ->
    ring_open c' /\ 0 <= n /\ n * kFrameSize <= zlen frames /\
    pushed c' = pushed c ++ ztake (n * kFrameSize) frames /\
    queued c' <= queued c + n * kFrameSize /\
    (queued c + zlen frames <= Ring.capacityBytes -> n * kFrameSize = zlen frames);
  pending_law c p c' : ring_open c -> p_pendingBytes c = (p, c') ->
    ring_open c' /\ pushed c' = pushed c /\ queued c' <= p <= queued c;
  empty_law c b c' : ring_open c -> p_empty c = (b, c') ->
    ring_open c' /\ pushed c' = pushed c /\ queued c' <= queued c /\ (b = true -> queued c' = 0);
  ring_closed : C -> Prop;
  close_producer_law c : ring_closed (p_closeProducer c) /\ pushed (p_closeProducer c) = pushed c;
}.

(** ** The ring of [Ring.v] *)

(** [takes]: how many frames the consumer asks for before each of the next calls;
    [mappable]: whether [mmap] succeeds. *)
Record TakingRing := {
  shared : Ring.SharedRingBuffer;
  takes : list Z;
  sent : bytes;
  mappable : bool;
}.

Definition consumer_move (c : TakingRing) : TakingRing :=
  match takes c with
  | [] => c
  | k :: rest =>
      let dest := replicate (Z.to_nat (k * kFrameSize)) Byte.x00 in
      {| shared := (Ring.tryPopBatch dest (shared c)).2; takes := rest; sent := sent c;
         mappable := mappable c |}
  end.

#[export] Instance taking_producer : RingProducer TakingRing := {
  p_tryPushBatch frames c :=
    let c := consumer_move c in
    let '(n, r) := Ring.tryPushBatch frames (shared c) in
    (n, {| shared := r; takes := takes c; sent := sent c ++ ztake (n * kFrameSize) frames;
            mappable := mappable c |});
  p_pendingBytes c := let c := consumer_move c in (Ring.pendingBytes (shared c), c);
  p_empty c := let c := consumer_move c in (Ring.empty (shared c), c);
  p_create c :=
    let '(ok, r) := Ring.create (mappable c) (shared c) in
    (ok, {| shared := r; takes := takes c; sent := sent c; mappable := mappable c |});
  p_closeProducer c :=
    {| shared := Ring.closeProducer (shared c); takes := takes c; sent := sent c;
       mappable := mappable c |};
}.

Definition queued_bytes (c : TakingRing) : Z := Ring.pendingFrames (shared c) * kFrameSize.

Definition taking_ok (c : TakingRing) : Prop :=
  (exists q, Ring.ring_rep (shared c) q /\ Ring.closed q = false) /\
  Forall (fun k => 0 <= k < 2 ^ 32) (takes c).

Lemma queue_pop_less size q n p q' :
  0 <= size -> Ring.queue_pop size q = (n, p, q') ->
  zlen (Ring.queued q') <= zlen (Ring.queued q) /\ Ring.closed q' = Ring.closed q.
Proof.
  intros Hs Hq. destruct (Ring.queue_pop_fifo _ _ _ _ _ Hs Hq) as [Hf _]. split.
  - rewrite Hf, zlen_app. pose proof (zlen_nonneg p). lia.
  - unfold Ring.queue_pop in Hq. destruct (_ || _); by simplify_eq.
Qed.

Lemma consumer_move_ok c :
  taking_ok c ->
  taking_ok (consumer_move c) /\ sent (consumer_move c) = sent c /\
  queued_bytes (consumer_move c) <= queued_bytes c.
Proof.
  intros [(q & Hr & Hc) Hk]. unfold consumer_move.
  destruct (takes c) as [|k rest] eqn:Et; [by split_and!; [split; [by exists q|by rewrite Et]|..]|].
  apply Forall_cons in Hk as [Hk Hrest].
  set (dest := replicate _ _). assert (zlen dest = k * kFrameSize) as Hd.
  { unfold zlen, dest. rewrite length_replicate. unfold kFrameSize. lia. }
  pose proof (Ring.popBatch_refines (shared c) q dest Hr) as HP.
  rewrite Hd in HP. specialize (HP ltac:(unfold kFrameSize; lia)).
  destruct (Ring.tryPopBatch dest (shared c)) as [[n out] r] eqn:Ep.
  destruct HP as (p & q' & Hq & Hr' & _).
  assert (0 <= k * kFrameSize) as Hk0 by (unfold kFrameSize; lia).
  destruct (queue_pop_less _ _ _ _ _ Hk0 Hq) as [Hle Hcl].
  unfold queued_bytes, taking_ok. cbn [snd shared takes sent]. split_and!; try done.
  - exists q'. split; [done|]. by rewrite Hcl.
  - by rewrite (proj1 (Ring.pendingFrames_rep _ _ Hr)), (proj1 (Ring.pendingFrames_rep _ _ Hr')).
Qed.

Lemma taking_pending c :
  taking_ok c -> Ring.pendingBytes (shared c) = queued_bytes c /\
    0 <= queued_bytes c <= Ring.capacityBytes.
Proof.
  intros [(q & Hr & _) _]. destruct (Ring.pendingFrames_rep _ _ Hr) as [_ Hb].
  unfold Ring.pendingBytes, queued_bytes.
  unfold Ring.capacityFrames, Ring.capacityBytes, kFrameSize in *.
  rewrite u64_small; div_lia.
Qed.

#[export] Instance taking_laws : RingProducerLaws TakingRing.
Proof.
  refine {| pushed := sent; queued := queued_bytes; ring_open := taking_ok;
            ring_closed c := Ring.producerClosed (shared c) = true |}.
  - intros c Hok. by apply taking_pending.
  - intros frames c n c' Hok Hz Hd Hlen. cbn [p_tryPushBatch taking_producer].
    destruct (consumer_move_ok c Hok) as ([(q & Hr & Hcl) Hk] & Es & Hle).
    set (c1 := consumer_move c) in *.
    pose proof (Ring.pushBatch_refines (shared c1) q frames Hr Hlen) as HP.
    destruct (Ring.tryPushBatch frames (shared c1)) as [m r]. destruct HP as (q' & Hq & Hr').
    intros [= <- <-]. pose proof (Ring.queue_push_fifo _ _ _ _ Hq) as Hf.
    pose proof (proj1 (Ring.pendingFrames_rep _ _ Hr)) as Hp.
    pose proof (Ring.pendingFrames_rep _ _ Hr') as [Hp' Hb'].
    pose proof (Ring.pendingFrames_rep _ _ Hr) as [_ Hb].
    unfold Ring.queue_push in Hq. rewrite Hcl in Hq. apply Z.eqb_neq in Hz as Hz'.
    rewrite Hz' in Hq. apply Z.mod_divide in Hd as Hd'; [|done]. rewrite Hd' in Hq.
    cbn [orb negb Z.eqb] in Hq. injection Hq as Em Eq. pose proof (zlen_nonneg frames).
    unfold queued_bytes in *. unfold taking_ok. cbn [shared takes sent].
    assert (0 <= m /\ m * kFrameSize <= zlen frames) as [Hm0 Hm]
      by (unfold Ring.capacityFrames, Ring.capacityBytes, kFrameSize in *; div_lia).
    split_and!; try done.
    + exists q'. split; [done|]. by rewrite <- Eq.
    + by rewrite Es.
    + rewrite Hp', Hf, zlen_app, zlen_take, <- Hp. unfold kFrameSize in *. lia.
    + intros Hfit. destruct Hd as [j Hj].
      unfold Ring.capacityFrames, Ring.capacityBytes, kFrameSize in *. div_lia.
  - intros c p c' Hok [= <- <-]. destruct (consumer_move_ok c Hok) as (Hok' & Es & Hle).
    destruct (taking_pending _ Hok') as [-> _]. by split_and!.
  - intros c b c' Hok [= <- <-]. destruct (consumer_move_ok c Hok) as (Hok' & Es & Hle).
    split_and!; try done. unfold Ring.empty, queued_bytes. intros He%Z.eqb_eq. by rewrite He.
  - intros c. cbn [p_closeProducer taking_producer shared sent]. split; [|done].
    unfold Ring.closeProducer, Ring.producerClosed. by destruct (Ring.m_layout (shared c)) eqn:El; rewrite ?El.
Defined.

(** ** A ring whose consumer takes everything at once *)

Record EagerRing := { all_sent : bytes; eager_closed : bool }.

#[export] Instance eager_producer : RingProducer EagerRing := {
  p_tryPushBatch frames c :=
    (zlen frames / kFrameSize,
     {| all_sent := all_sent c ++ frames; eager_closed := eager_closed c |});
  p_pendingBytes c := (0, c);
  p_empty c := (true, c);
  p_create c := (true, c);
  p_closeProducer c := {| all_sent := all_sent c; eager_closed := true |};
}.

#[export] Instance eager_laws : RingProducerLaws EagerRing.
Proof.
  refine {| pushed := all_sent; queued _ := 0; ring_open _ := True;
            ring_closed c := eager_closed c = true |}.
  - done.
  - intros frames c n c' _ _ [k Hk] _ [= <- <-]. pose proof (zlen_nonneg frames).
    rewrite Hk, Z.div_mul by done. cbn [all_sent]. rewrite <- Hk, ztake_ge by lia.
    unfold kFrameSize in *. split_and!; try done; lia.
  - intros c p c' _ [= <- <-]. done.
  - intros c b c' _ [= <- <-]. done.
  - done.
Defined.

End Producer.
