(* ===== verification/NetApi.v ===== *)
(** * The kernel as the server sees it

    The socket, [epoll] and [signalfd] calls of [Server/src/Server.cpp] are the
    parameter [NetApi]; what the code relies on is [NetLaws]; [MemNet] is an
    instance that follows a script. *)

From S2P Require Import Prelude MemFs.

Module NetApi.

(** ** Data ([<sys/epoll.h>], [<netinet/in.h>], [<sys/signalfd.h>]) *)

(** [event_fd] is [data.fd]. *)
Record epoll_event := { events : Z; event_fd : Z }.

(** Port and address are in network byte order. *)
Record sockaddr_in := { sin_family : Z; sin_port : bytes; sin_addr : bytes }.

(** The fields the code acts on. *)
Record signalfd_siginfo := { ssi_signo : Z; ssi_pid : Z; ssi_code : Z }.

Definition sizeof_siginfo : Z := 128.

Definition EPOLLIN : Z := 1.
Definition EPOLLERR : Z := 8.
Definition EPOLLHUP : Z := 16.
Definition EPOLLRDHUP : Z := 8192.
Definition EPOLL_CTL_ADD : Z := 1.
Definition EPOLL_CTL_DEL : Z := 2.
Definition EPOLL_CTL_MOD : Z := 3.
Definition EPOLL_CLOEXEC : Z := 524288.
Definition AF_INET : Z := 2.
Definition SOCK_STREAM : Z := 1.
Definition SOCK_NONBLOCK : Z := 2048.
Definition SOCK_CLOEXEC : Z := 524288.
Definition SOL_SOCKET : Z := 1.
Definition SO_REUSEADDR : Z := 2.
Definition SOMAXCONN : Z := 4096.
Definition INADDR_ANY : Z := 0.
Definition SIGINT : Z := 2.
Definition SIGTERM : Z := 15.
Definition SIGCHLD : Z := 17.
Definition CLD_EXITED : Z := 1.
Definition CLD_KILLED : Z := 2.
Definition CLD_DUMPED : Z := 3.
Definition CLD_STOPPED : Z := 5.
Definition CLD_CONTINUED : Z := 6.

(** ** The calls *)

(** [epoll_wait] without a timeout answers [None] when it never returns; [recv]
    gives the bytes, none at end of file; [read_siginfo] is [read] into a
    [signalfd_siginfo], with its byte count. *)
Class NetApi (N : Type) := {
  socket : Z -> Z -> Z -> N -> sysres Z * N;
  setsockopt : Z -> Z -> Z -> Z -> N -> sysres unit * N;
  bind : Z -> sockaddr_in -> N -> sysres unit * N;
  listen : Z -> Z -> N -> sysres unit * N;
  epoll_create1 : Z -> N -> sysres Z * N;
  epoll_ctl : Z -> Z -> Z -> option epoll_event -> N -> sysres unit * N;
  epoll_wait : Z -> Z -> N -> option (sysres (list epoll_event)) * N;
  accept4 : Z -> Z -> N -> sysres Z * N;
  recv : Z -> Z -> N -> sysres bytes * N;
  read_siginfo : Z -> N -> sysres (Z * signalfd_siginfo) * N;
  close : Z -> N -> sysres unit * N;
}.

(** ** What the code relies on *)

(** What happened to the process's sockets and signals. *)
Inductive net_event :=
| Accepted (fd : Z)
| Received (fd : Z) (bs : bytes)
| Signalled (info : signalfd_siginfo)
| Closed (fd : Z).

(** The open descriptors, the epoll descriptor, what it watches, and the history. *)
Record KView := {
  k_open : gset Z;
  k_epoll : option Z;
  k_interest : gmap Z epoll_event;
  k_trace : list net_event;
}.

Definition k_add (fd : Z) (k : KView) : KView :=
  {| k_open := {[fd]} ∪ k_open k; k_epoll := k_epoll k; k_interest := k_interest k;
     k_trace := k_trace k |}.
Definition k_add_epoll (fd : Z) (k : KView) : KView :=
  {| k_open := {[fd]} ∪ k_open k; k_epoll := Some fd; k_interest := ∅; k_trace := k_trace k |}.
Definition k_watch (m : gmap Z epoll_event) (k : KView) : KView :=
  {| k_open := k_open k; k_epoll := k_epoll k; k_interest := m; k_trace := k_trace k |}.
Definition k_log (ev : net_event) (k : KView) : KView :=
  {| k_open := k_open k; k_epoll := k_epoll k; k_interest := k_interest k;
     k_trace := k_trace k ++ [ev] |}.

(** A closed descriptor is no longer watched, and the epoll descriptor no longer
    watches. *)
Definition k_shut (fd : Z) (k : KView) : KView :=
  let last := bool_decide (k_epoll k = Some fd) in
  {| k_open := k_open k ∖ {[fd]};
     k_epoll := if last then None else k_epoll k;
     k_interest := if last then ∅ else delete fd (k_interest k);
     k_trace := k_trace k ++ [Closed fd] |}.

(** A call that opens a descriptor. *)
Definition new_post (upd : Z -> KView -> KView) (k : KView) (r : sysres Z) (k' : KView) : Prop :=
  match r with Ok fd => 0 <= fd /\ fd ∉ k_open k /\ k' = upd fd k | Err _ => k' = k end.

Definition same_post {A} (k : KView) (r : A) (k' : KView) : Prop := k' = k.

Definition epoll_create1_post (k : KView) (r : sysres Z) (k' : KView) : Prop :=
  k_epoll k = None -> new_post k_add_epoll k r k'.

(** Adding needs a descriptor that is not watched yet, changing and deleting one
    that is. *)
Definition epoll_ctl_post (ep op fd : Z) (event : option epoll_event)
    (k : KView) (r : sysres unit) (k' : KView) : Prop :=
  k_epoll k = Some ep ->
  match r with
  | Err _ => k' = k
  | Ok _ =>
      (op = EPOLL_CTL_ADD -> forall e, event = Some e ->
         k_interest k !! fd = None /\ k' = k_watch (<[fd := e]> (k_interest k)) k) /\
      (op = EPOLL_CTL_MOD -> forall e, event = Some e ->
         is_Some (k_interest k !! fd) /\ k' = k_watch (<[fd := e]> (k_interest k)) k) /\
      (op = EPOLL_CTL_DEL ->
         is_Some (k_interest k !! fd) /\ k' = k_watch (delete fd (k_interest k)) k)
  end.

(** Reported descriptors are watched ones. *)
Definition epoll_wait_post (ep : Z) (k : KView) (r : option (sysres (list epoll_event)))
    (k' : KView) : Prop :=
  k' = k /\ (k_epoll k = Some ep -> forall evs, r = Some (Ok evs) ->
    Forall (fun e => exists fd i, k_interest k !! fd = Some i /\ event_fd i = event_fd e) evs).

Definition accept4_post (k : KView) (r : sysres Z) (k' : KView) : Prop :=
  new_post (fun fd k => k_log (Accepted fd) (k_add fd k)) k r k'.

Definition recv_post (fd n : Z) (k : KView) (r : sysres bytes) (k' : KView) : Prop :=
  match r with
  | Ok bs => zlen bs <= n /\ k' = k_log (Received fd bs) k
  | Err _ => k' = k
  end.

Definition read_siginfo_post (k : KView) (r : sysres (Z * signalfd_siginfo)) (k' : KView) : Prop :=
  match r with
  | Ok (n, info) => k' = if n =? sizeof_siginfo then k_log (Signalled info) k else k
  | Err _ => k' = k
  end.

(** A descriptor is gone even when [close] fails. *)
Definition close_post (fd : Z) (k : KView) (r : sysres unit) (k' : KView) : Prop :=
  k' = k_shut fd k.

(** The world has a finite number of things left to happen. *)
Definition net_law {N A} (kview : N -> KView) (budget : N -> nat) (f : N -> A * N)
    (happens : A -> bool) (post : KView -> A -> KView -> Prop) : Prop :=
  forall w r w', f w = (r, w') ->
    post (kview w) r (kview w') /\ (budget w' <= budget w)%nat /\
    (happens r = true -> (budget w' < budget w)%nat).

Definition never {A} (_ : A) : bool := false.
Definition ok_or_intr {A} (r : sysres A) : bool := is_ok r || is_intr r.

(** Data or an interruption, not the end of file. *)
Definition data_or_intr (r : sysres bytes) : bool :=
  match r with Ok bs => negb (zlen bs =? 0) | Err e => e =? EINTR end.

Definition returned {A} (r : option A) : bool := match r with Some _ => true | None => false end.

Class NetLaws (N : Type) `{NetApi N} := {
  kview : N -> KView;
  net_budget : N -> nat;
  socket_law d t p : net_law kview net_budget (socket d t p) never (new_post k_add);
  setsockopt_law fd l o v : net_law kview net_budget (setsockopt fd l o v) never same_post;
  bind_law fd a : net_law kview net_budget (bind fd a) never same_post;
  listen_law fd b : net_law kview net_budget (listen fd b) never same_post;
  epoll_create1_law f : net_law kview net_budget (epoll_create1 f) never epoll_create1_post;
  epoll_ctl_law ep op fd e :
    net_law kview net_budget (epoll_ctl ep op fd e) never (epoll_ctl_post ep op fd e);
  epoll_wait_law ep max :
    net_law kview net_budget (epoll_wait ep max) returned (epoll_wait_post ep);
  accept4_law fd f : net_law kview net_budget (accept4 fd f) ok_or_intr accept4_post;
  recv_law fd n : net_law kview net_budget (recv fd n) data_or_intr (recv_post fd n);
  read_siginfo_law fd :
    net_law kview net_budget (read_siginfo fd) ok_or_intr read_siginfo_post;
  net_close_law fd : net_law kview net_budget (close fd) never (close_post fd);
}.

(** ** An instance that follows a script *)

(** What happens next: a call fails, [epoll_wait] returns, a client connects, bytes
    arrive, a signal is pending. *)
Inductive happening :=
| HFail (errno : Z)
| HWake (evs : list epoll_event)
| HConnect
| HBytes (bs : bytes)
| HSignal (info : signalfd_siginfo).

Record MemNet := { mkview : KView; todo : list happening }.

Definition ENOENT : Z := 2.
Definition EBADF : Z := 9.

(** A call that fails when the script says so. *)
Definition may_fail {A} (f : KView -> sysres A * KView) (w : MemNet) : sysres A * MemNet :=
  match todo w with
  | HFail e :: rest => (Err e, {| mkview := mkview w; todo := rest |})
  | _ => let '(r, k) := f (mkview w) in (r, {| mkview := k; todo := todo w |})
  end.

Definition do_new (upd : Z -> KView -> KView) (k : KView) : sysres Z * KView :=
  let fd := MemFs.unused (k_open k) in (Ok fd, upd fd k).

Definition do_ctl (op fd : Z) (event : option epoll_event) (k : KView) : sysres unit * KView :=
  match k_interest k !! fd, event with
  | None, Some e => if op =? EPOLL_CTL_ADD then (Ok tt, k_watch (<[fd := e]> (k_interest k)) k)
                    else (Err ENOENT, k)
  | Some _, Some e =>
      if op =? EPOLL_CTL_MOD then (Ok tt, k_watch (<[fd := e]> (k_interest k)) k)
      else (Err EEXIST, k)
  | Some _, None =>
      if op =? EPOLL_CTL_DEL then (Ok tt, k_watch (delete fd (k_interest k)) k)
      else (Err EBADF, k)
  | None, None => (Err ENOENT, k)
  end.

(** The events of descriptors that are watched. *)
Definition watched (k : KView) (e : epoll_event) : bool :=
  match k_interest k !! event_fd e with
  | Some i => event_fd i =? event_fd e
  | None => false
  end.

Definition do_wait (max : Z) (w : MemNet) : option (sysres (list epoll_event)) * MemNet :=
  match todo w with
  | HFail e :: rest => (Some (Err e), {| mkview := mkview w; todo := rest |})
  | HWake evs :: rest =>
      (Some (Ok (ztake max (List.filter (watched (mkview w)) evs))),
       {| mkview := mkview w; todo := rest |})
  | _ => (None, w)
  end.

Definition do_accept (w : MemNet) : sysres Z * MemNet :=
  match todo w with
  | HFail e :: rest => (Err e, {| mkview := mkview w; todo := rest |})
  | HConnect :: rest =>
      let fd := MemFs.unused (k_open (mkview w)) in
      (Ok fd, {| mkview := k_log (Accepted fd) (k_add fd (mkview w)); todo := rest |})
  | _ => (Err EAGAIN, w)
  end.

Definition do_recv (fd n : Z) (w : MemNet) : sysres bytes * MemNet :=
  match todo w with
  | HFail e :: rest => (Err e, {| mkview := mkview w; todo := rest |})
  | HBytes bs :: rest =>
      if 0 <=? n then
        (Ok (ztake n bs), {| mkview := k_log (Received fd (ztake n bs)) (mkview w); todo := rest |})
      else (Err EAGAIN, w)
  | _ => (Err EAGAIN, w)
  end.

Definition do_siginfo (w : MemNet) : sysres (Z * signalfd_siginfo) * MemNet :=
  match todo w with
  | HFail e :: rest => (Err e, {| mkview := mkview w; todo := rest |})
  | HSignal info :: rest =>
      (Ok (sizeof_siginfo, info), {| mkview := k_log (Signalled info) (mkview w); todo := rest |})
  | _ => (Err EAGAIN, w)
  end.

#[export] Instance memnet_api : NetApi MemNet := {
  socket _ _ _ := may_fail (do_new k_add);
  setsockopt _ _ _ _ := may_fail (fun k => (Ok tt, k));
  bind _ _ := may_fail (fun k => (Ok tt, k));
  listen _ _ := may_fail (fun k => (Ok tt, k));
  epoll_create1 _ := may_fail (do_new k_add_epoll);
  epoll_ctl _ op fd e := may_fail (do_ctl op fd e);
  epoll_wait _ max := do_wait max;
  accept4 _ _ := do_accept;
  recv := do_recv;
  read_siginfo _ := do_siginfo;
  close fd w := (Ok tt, {| mkview := k_shut fd (mkview w); todo := todo w |});
}.

Lemma may_fail_law {A} (f : KView -> sysres A * KView) (post : KView -> sysres A -> KView -> Prop) :
  (forall k r k', f k = (r, k') -> post k r k') ->
  (forall k e, post k (Err e) k) ->
  net_law mkview (fun w => length (todo w)) (may_fail f) never post.
Proof.
  intros Hf He w r w'. unfold may_fail, never.
  destruct (todo w) as [|[e|evs| |bs|info] rest] eqn:Et; destruct (f (mkview w)) as [r1 k1] eqn:Ef;
    intros [= <- <-]; cbn [mkview todo]; rewrite ?Et; split_and!; try done; cbn [length]; try lia;
    first [apply He | by apply Hf].
Qed.

Lemma do_new_law upd k r k' : do_new upd k = (r, k') -> new_post upd k r k'.
Proof.
  intros [= <- <-]. cbn [new_post]. destruct (MemFs.unused_spec (k_open k)). by split_and!.
Qed.

Lemma do_ctl_law ep op fd e k r k' : do_ctl op fd e k = (r, k') -> epoll_ctl_post ep op fd e k r k'.
Proof.
  unfold do_ctl, epoll_ctl_post. intros Hd _.
  destruct (k_interest k !! fd) as [i|] eqn:Ei; destruct e as [e|].
  - destruct (Z.eqb_spec op EPOLL_CTL_MOD) as [->|_]; injection Hd as <- <-; [|done].
    split_and!; try discriminate. intros _ e' [= <-]. by split.
  - destruct (Z.eqb_spec op EPOLL_CTL_DEL) as [->|_]; injection Hd as <- <-; [|done].
    split_and!; try discriminate. intros _. by split.
  - destruct (Z.eqb_spec op EPOLL_CTL_ADD) as [->|_]; injection Hd as <- <-; [|done].
    split_and!; try discriminate. intros _ e' [= <-]. by split.
  - by injection Hd as <- <-.
Qed.

Lemma do_wait_law ep max :
  net_law mkview (fun w => length (todo w)) (do_wait max) returned (epoll_wait_post ep).
Proof.
  intros w r w'. unfold do_wait, epoll_wait_post.
  destruct (todo w) as [|[e|evs| |bs|info] rest] eqn:Et; intros [= <- <-]; cbn [mkview todo returned];
    rewrite ?Et; split_and!; try done; cbn [length]; try lia.
  intros _ evs' [= <-]. apply Forall_take, Forall_forall. intros e Hin.
  apply list_elem_of_In, List.filter_In in Hin as [_ Hin].
  unfold watched in Hin. destruct (k_interest (mkview w) !! event_fd e) as [i|] eqn:Ei; [|done].
  apply Z.eqb_eq in Hin. eauto.
Qed.

Lemma do_accept_law :
  net_law mkview (fun w => length (todo w)) do_accept ok_or_intr accept4_post.
Proof.
  intros w r w'. unfold do_accept, accept4_post.
  destruct (todo w) as [|[e|evs| |bs|info] rest] eqn:Et; intros [= <- <-]; cbn [mkview todo new_post];
    rewrite ?Et; split_and!; try done; cbn [length]; try lia.
  - apply MemFs.unused_spec.
  - apply (MemFs.unused_spec (k_open (mkview w))).
Qed.

Lemma do_recv_law fd n :
  net_law mkview (fun w => length (todo w)) (do_recv fd n) data_or_intr (recv_post fd n).
Proof.
  intros w r w'. unfold do_recv, recv_post.
  destruct (todo w) as [|[e|evs| |bs|info] rest] eqn:Et; try destruct (Z.leb_spec 0 n);
    intros [= <- <-]; cbn [mkview todo];
    rewrite ?Et; split_and!; try done; cbn [length]; try lia.
  rewrite zlen_take. lia.
Qed.

Lemma do_siginfo_law :
  net_law mkview (fun w => length (todo w)) do_siginfo ok_or_intr read_siginfo_post.
Proof.
  intros w r w'. unfold do_siginfo, read_siginfo_post.
  destruct (todo w) as [|[e|evs| |bs|info] rest] eqn:Et; intros [= <- <-]; cbn [mkview todo];
    rewrite ?Et; split_and!; try done; cbn [length]; lia.
Qed.

#[export] Instance memnet_laws : NetLaws MemNet.
Proof.
  refine {| kview := mkview; net_budget w := length (todo w) |}.
  all: intros; cbn [socket setsockopt bind listen epoll_create1 epoll_ctl epoll_wait accept4
    recv read_siginfo close memnet_api].
  - apply may_fail_law; [apply do_new_law|done].
  - apply may_fail_law; [by intros ??? [= _ <-]|done].
  - apply may_fail_law; [by intros ??? [= _ <-]|done].
  - apply may_fail_law; [by intros ??? [= _ <-]|done].
  - apply may_fail_law; [|by intros ???]. intros k r k' Hk _. by eapply do_new_law.
  - apply may_fail_law; [apply do_ctl_law|by intros ???].
  - apply do_wait_law.
  - apply do_accept_law.
  - apply do_recv_law.
  - apply do_siginfo_law.
  - intros w r w' [= <- <-]. cbn [mkview todo]. split_and!; done.
Defined.

End NetApi.
