(* ===== verification/Server.v ===== *)
(** * Server: the event loop between the sockets and the ring

    [Server/include/Server.hpp] and [Server/src/Server.cpp], every member function,
    over the kernel of [NetApi], the event descriptors of [EventFd] and the ring as
    its producer sees it ([Producer]).  Console output is left out. *)

From S2P Require Import Prelude Codec Frames Buffer EventFd Producer NetApi.
Import Codec Frames EventFd Producer NetApi.

Module Server.

Definition kMaxEvents : Z := 64.
Definition kReadBufferSize : Z := 4096.
Definition kMaxClientBuffer : Z := 64 * 1024.
Definition kPauseIngressBytes : Z := 3 * 1024 * 1024.
Definition kResumeIngressBytes : Z := 1 * 1024 * 1024.

Record ServerConfig := { port : Z; quiet : bool }.

(** [ServerConfig{}]. *)
Definition default_config : ServerConfig := {| port := 9000; quiet := false |}.

Inductive State := Running | Draining.

Record SignalState := { shutdownRequested : bool; readerTerminated : bool }.

#[export] Instance State_eq_dec : EqDecision State.
Proof. solve_decision. Defined.

(** The order in which an [std::unordered_map] is iterated is not specified: some
    list of its keys. *)
Class ClientOrder := {
  fds_of : gmap Z Buffer.Buffer -> list Z;
  fds_of_law m : fds_of m ≡ₚ elements (dom m);
}.

(** The ring, the event descriptors, the kernel, the members of [Server], and the
    variables [run] hands down by reference. *)
Record SSt (C E N : Type) := mk_SSt {
  ring : C;
  efds : E;
  net : N;
  m_clients : gmap Z Buffer.Buffer;
  listen_fd : Z;
  state : State;
  ingressPaused : bool;
}.
Arguments mk_SSt {C E N} _ _ _ _ _ _ _.
Arguments ring {C E N} _.
Arguments efds {C E N} _.
Arguments net {C E N} _.
Arguments m_clients {C E N} _.
Arguments listen_fd {C E N} _.
Arguments state {C E N} _.
Arguments ingressPaused {C E N} _.

Section updates.
Context {C E N : Type}.
Implicit Types s : SSt C E N.

Definition with_ring c s : SSt C E N :=
  mk_SSt c (efds s) (net s) (m_clients s) (listen_fd s) (state s) (ingressPaused s).
Definition with_efds e s : SSt C E N :=
  mk_SSt (ring s) e (net s) (m_clients s) (listen_fd s) (state s) (ingressPaused s).
Definition with_net n s : SSt C E N :=
  mk_SSt (ring s) (efds s) n (m_clients s) (listen_fd s) (state s) (ingressPaused s).
Definition with_clients m s : SSt C E N :=
  mk_SSt (ring s) (efds s) (net s) m (listen_fd s) (state s) (ingressPaused s).
Definition with_listen fd s : SSt C E N :=
  mk_SSt (ring s) (efds s) (net s) (m_clients s) fd (state s) (ingressPaused s).
Definition with_state st s : SSt C E N :=
  mk_SSt (ring s) (efds s) (net s) (m_clients s) (listen_fd s) st (ingressPaused s).
Definition with_paused b s : SSt C E N :=
  mk_SSt (ring s) (efds s) (net s) (m_clients s) (listen_fd s) (state s) b.

End updates.

Definition has_any (mask bits : Z) : bool := negb (Z.land mask bits =? 0).

(** [htons] and [htonl], as the bytes in memory. *)
Definition htons (x : Z) : bytes := [byte_of_Z (Z.shiftr x 8); byte_of_Z x].
Definition htonl (x : Z) : bytes :=
  [byte_of_Z (Z.shiftr x 24); byte_of_Z (Z.shiftr x 16); byte_of_Z (Z.shiftr x 8); byte_of_Z x].

(** [validFrames] and [invalidError] after the validation loop over [n] frames from
    [index] on. *)
Fixpoint validate_frames (n : nat) (index validFrames : Z) (b : Buffer.Buffer)
  : Z * DecodeError :=
  match n with
  | O => (validFrames, None_)
  | S n =>
      let decoded :=
        decode (zslice (Buffer.offset b + index * kFrameSize) kFrameSize (Buffer.data b)) in
      if negb (result_ok decoded) then (validFrames, error decoded)
      else validate_frames n (index + 1) (validFrames + 1) b
  end.

Section server.
Context {C E N : Type} `{RingProducer C} `{EventFdApi E} `{NetApi N} `{ClientOrder}.
Variable fuel : nat.

Abbreviation handler A := (M (SSt C E N) A).

Definition on_ring {A} (f : C -> A * C) : handler A := lift ring with_ring (call f).
Definition on_efds {A} (m : M E A) : handler A := lift efds with_efds m.
Definition sys {A} (f : N -> A * N) : handler A := lift net with_net (call f).
Definition set_clients (f : gmap Z Buffer.Buffer -> gmap Z Buffer.Buffer) : handler unit :=
  modify (fun s => with_clients (f (m_clients s)) s).
Definition set_listen_fd (fd : Z) : handler unit := modify (with_listen fd).
Definition set_state (st : State) : handler unit := modify (with_state st).
Definition set_paused (b : bool) : handler unit := modify (with_paused b).

(** [client], the reference to a map entry. *)
Definition client (fd : Z) : handler Buffer.Buffer :=
  gets (fun s => default Buffer.new_buffer (m_clients s !! fd)).
Definition update_client (fd : Z) (f : Buffer.Buffer -> Buffer.Buffer) : handler unit :=
  set_clients (alter f fd).

(** ** Socket setup *)

Definition createSocket : handler Z :=
  r ← sys (socket AF_INET (Z.lor (Z.lor SOCK_STREAM SOCK_NONBLOCK) SOCK_CLOEXEC) 0);
  mret (match r with Ok fd => fd | Err _ => -1 end).

Definition setSocketOptions (fd : Z) : handler bool :=
  r ← sys (setsockopt fd SOL_SOCKET SO_REUSEADDR 1);
  mret (is_ok r).

Definition bindSocket (config : ServerConfig) (fd : Z) : handler bool :=
  r ← sys (bind fd {| sin_family := AF_INET; sin_port := htons (port config);
                      sin_addr := htonl INADDR_ANY |});
  mret (is_ok r).

Definition addEpollFd (epollFd fd evs : Z) : handler bool :=
  r ← sys (epoll_ctl epollFd EPOLL_CTL_ADD fd (Some {| events := evs; event_fd := fd |}));
  mret (is_ok r).

Definition modifyEpollFd (epollFd fd evs : Z) : handler bool :=
  r ← sys (epoll_ctl epollFd EPOLL_CTL_MOD fd (Some {| events := evs; event_fd := fd |}));
  mret (is_ok r).

Definition removeEpollFd (epollFd fd : Z) : handler bool :=
  r ← sys (epoll_ctl epollFd EPOLL_CTL_DEL fd None);
  mret (is_ok r).

Definition clientEvents : Z := Z.lor (Z.lor (Z.lor EPOLLIN EPOLLRDHUP) EPOLLERR) EPOLLHUP.
Definition watchEvents : Z := Z.lor (Z.lor EPOLLIN EPOLLERR) EPOLLHUP.

(** ** Clients *)

Definition removeClient (epollFd fd : Z) : handler unit :=
  removeEpollFd epollFd fd;;;
  sys (close fd);;;
  set_clients (delete fd).

(** The loop of [removeAllClients]; the number of clients is its fuel. *)
Fixpoint remove_all (n : nat) (epollFd : Z) : handler unit :=
  s ← get;
  match fds_of (m_clients s) with
  | [] => mret tt
  | clientFd :: _ =>
      match n with
      | O => out_of_fuel
      | S n => removeClient epollFd clientFd;;; remove_all n epollFd
      end
  end.

Definition removeAllClients (epollFd : Z) : handler unit :=
  s ← get;
  remove_all (size (m_clients s)) epollFd.

Fixpoint accept_loop (n : nat) (epollFd listenFd : Z) : handler bool :=
  match n with
  | O => out_of_fuel
  | S n =>
      r ← sys (accept4 listenFd (Z.lor SOCK_NONBLOCK SOCK_CLOEXEC));
      match r with
      | Ok clientFd =>
          ok ← addEpollFd epollFd clientFd clientEvents;
          if negb ok then sys (close clientFd);;; accept_loop n epollFd listenFd
          else
            set_clients (fun m =>
              match m !! clientFd with Some _ => m | None => <[clientFd := Buffer.new_buffer]> m end);;;
            accept_loop n epollFd listenFd
      | Err e =>
          if (e =? EAGAIN) || (e =? EWOULDBLOCK) then mret true
          else if e =? EINTR then accept_loop n epollFd listenFd
          else mret false
      end
  end.

Definition acceptClients (epollFd listenFd : Z) : handler bool := accept_loop fuel epollFd listenFd.

(** ** Reading a client *)

Definition notifyPublished (dataReadyFd : Z) (publishedAny : bool) : handler bool :=
  if negb publishedAny then mret true else on_efds (notifyEvent fuel dataReadyFd).

(** The block under [validFrames != 0]: [publishedAny] and [pauseIngressRequested]
    after it, or [None] where the server has to stop. *)
Definition publish (clientFd dataReadyFd validFrames : Z) (pauseRequested : bool)
  : handler (option (bool * bool)) :=
  b ← client clientFd;
  pushed ← on_ring (p_tryPushBatch
    (zslice (Buffer.offset b) (u64 (validFrames * kFrameSize)) (Buffer.data b)));
  update_client clientFd (Buffer.consume (u64 (pushed * kFrameSize)));;;
  let publishedAny := negb (pushed =? 0) in
  if negb (pushed =? validFrames) then
    ok ← notifyPublished dataReadyFd publishedAny;
    if negb ok then mret None else mret None
  else
    pending ← on_ring p_pendingBytes;
    mret (Some (publishedAny, if kPauseIngressBytes <=? pending then true else pauseRequested)).

(** The end of the [bytesRead > 0] branch: reject, or wake the reader and go on. *)
Definition finish_batch (epollFd clientFd dataReadyFd : Z) (invalidError : DecodeError)
    (publishedAny pauseRequested : bool) : handler (option bool * bool) :=
  if negb (bool_decide (invalidError = None_)) then
    ok ← notifyPublished dataReadyFd publishedAny;
    if negb ok then mret (Some false, pauseRequested)
    else removeClient epollFd clientFd;;; mret (Some true, pauseRequested)
  else
    ok ← notifyPublished dataReadyFd publishedAny;
    if negb ok then mret (Some false, pauseRequested)
    else
      update_client clientFd (Buffer.compact Buffer.kCompactThreshold);;;
      if pauseRequested then mret (Some true, pauseRequested)
      else mret (None, pauseRequested).

(** The [bytesRead > 0] branch: [Some ok] where it returns, [None] where it goes on
    to the next [recv], and [pauseIngressRequested]. *)
Definition handle_batch (epollFd clientFd dataReadyFd : Z) (pauseRequested : bool) (bs : bytes)
  : handler (option bool * bool) :=
  update_client clientFd (Buffer.append bs);;;
  b ← client clientFd;
  if kMaxClientBuffer <? Buffer.pendingBytes b then
    removeClient epollFd clientFd;;; mret (Some true, pauseRequested)
  else
    let availableFrames := Buffer.pendingBytes b / kFrameSize in
    let '(validFrames, invalidError) := validate_frames (Z.to_nat availableFrames) 0 0 b in
    published ← (if negb (validFrames =? 0)
                 then publish clientFd dataReadyFd validFrames pauseRequested
                 else mret (Some (false, pauseRequested)));
    match (published : option (bool * bool)) with
    | None => mret (Some false, pauseRequested)
    | Some (publishedAny, pauseRequested) =>
        finish_batch epollFd clientFd dataReadyFd invalidError publishedAny pauseRequested
    end.

Fixpoint read_loop (n : nat) (epollFd clientFd dataReadyFd : Z) (pauseRequested : bool)
  : handler (bool * bool) :=
  match n with
  | O => out_of_fuel
  | S n =>
      r ← sys (recv clientFd kReadBufferSize);
      match r with
      | Ok bs =>
          if 0 <? zlen bs then
            res ← handle_batch epollFd clientFd dataReadyFd pauseRequested bs;
            match res.1 with
            | Some ok => mret (ok, res.2)
            | None => read_loop n epollFd clientFd dataReadyFd res.2
            end
          else removeClient epollFd clientFd;;; mret (true, pauseRequested)
      | Err e =>
          if e =? EINTR then read_loop n epollFd clientFd dataReadyFd pauseRequested
          else if (e =? EAGAIN) || (e =? EWOULDBLOCK) then mret (true, pauseRequested)
          else removeClient epollFd clientFd;;; mret (true, pauseRequested)
      end
  end.

(** The result and [pauseIngressRequested]. *)
Definition readClient (epollFd clientFd dataReadyFd : Z) : handler (bool * bool) :=
  s ← get;
  match m_clients s !! clientFd with
  | None => mret (true, false)
  | Some _ => read_loop fuel epollFd clientFd dataReadyFd false
  end.

(** ** Back pressure *)

(** The loop of [updateIngressInterest]. *)
Fixpoint update_clients (epollFd : Z) (fds : list Z) (enabled : bool) : handler bool :=
  match fds with
  | [] => mret true
  | clientFd :: fds =>
      ok ← (if enabled then addEpollFd epollFd clientFd clientEvents
            else removeEpollFd epollFd clientFd);
      if negb ok then mret false else update_clients epollFd fds enabled
  end.

Definition updateIngressInterest (epollFd listenFd : Z) (enabled : bool) : handler bool :=
  let listenEvents :=
    if enabled then Z.lor (Z.lor EPOLLERR EPOLLHUP) EPOLLIN else Z.lor EPOLLERR EPOLLHUP in
  ok ← modifyEpollFd epollFd listenFd listenEvents;
  if negb ok then mret false
  else
    s ← get;
    update_clients epollFd (fds_of (m_clients s)) enabled.

(** ** Events *)

Definition handleEvent (event : epoll_event) (epollFd listenFd dataReadyFd spaceReadyFd : Z)
  : handler bool :=
  let fd := event_fd event in
  let eventMask := events event in
  s ← get;
  if fd =? listenFd then
    ok ← (if negb (ingressPaused s) && has_any eventMask EPOLLIN
          then acceptClients epollFd listenFd else mret true);
    if negb ok then mret false
    else if has_any eventMask (Z.lor EPOLLERR EPOLLHUP) then mret false
    else mret true
  else if fd =? spaceReadyFd then
    ok ← (if has_any eventMask EPOLLIN then
            ok ← on_efds (consumeEvent fuel spaceReadyFd);
            if negb ok then mret false
            else
              resume ← (if bool_decide (state s = Running) && ingressPaused s then
                          pending ← on_ring p_pendingBytes;
                          mret (pending <=? kResumeIngressBytes)
                        else mret false);
              if (resume : bool) then
                ok ← updateIngressInterest epollFd listenFd true;
                if negb ok then mret false else set_paused false;;; mret true
              else mret true
          else mret true);
    if negb ok then mret false
    else if has_any eventMask (Z.lor EPOLLERR EPOLLHUP) then mret false
    else mret true
  else
    (** [Some ok] is [return ok]. *)
    early ← (if negb (ingressPaused s) && has_any eventMask EPOLLIN then
               r ← readClient epollFd fd dataReadyFd;
               if negb r.1 then mret (Some false)
               else if (r.2 : bool) then
                 ok ← updateIngressInterest epollFd listenFd false;
                 if negb ok then mret (Some false)
                 else set_paused true;;; mret (Some true)
               else mret None
             else mret None);
    match (early : option bool) with
    | Some ok => mret ok
    | None =>
        s ← get;
        if ingressPaused s then mret true
        else
          (if has_any eventMask (Z.lor (Z.lor EPOLLRDHUP EPOLLHUP) EPOLLERR) then
             match m_clients s !! fd with
             | Some _ => removeClient epollFd fd
             | None => mret tt
             end
           else mret tt);;;
          mret true
    end.

(** ** Signals *)

Fixpoint signal_loop (n : nat) (signalFd readerPid : Z) (st : SignalState)
  : handler (bool * SignalState) :=
  match n with
  | O => out_of_fuel
  | S n =>
      r ← sys (read_siginfo signalFd);
      match r with
      | Ok (bytesRead, info) =>
          if bytesRead =? sizeof_siginfo then
            if (ssi_signo info =? SIGINT) || (ssi_signo info =? SIGTERM) then
              signal_loop n signalFd readerPid
                {| shutdownRequested := true; readerTerminated := readerTerminated st |}
            else if ssi_signo info =? SIGCHLD then
              if negb (ssi_pid info =? u32 readerPid) then signal_loop n signalFd readerPid st
              else
                let terminated :=
                  (ssi_code info =? CLD_EXITED) || (ssi_code info =? CLD_KILLED) ||
                  (ssi_code info =? CLD_DUMPED) in
                signal_loop n signalFd readerPid
                  (if terminated
                   then {| shutdownRequested := shutdownRequested st; readerTerminated := true |}
                   else st)
            else signal_loop n signalFd readerPid st
          else mret (false, st)
      | Err e =>
          if e =? EINTR then signal_loop n signalFd readerPid st
          else if (e =? EAGAIN) || (e =? EWOULDBLOCK) then mret (true, st)
          else mret (false, st)
      end
  end.

Definition handleSignalFd (signalFd readerPid : Z) (st : SignalState) : handler (bool * SignalState) :=
  signal_loop fuel signalFd readerPid st.

Definition beginDraining (epollFd : Z) : handler unit :=
  s ← get;
  (if negb (listen_fd s =? -1) then
     removeEpollFd epollFd (listen_fd s);;;
     sys (close (listen_fd s));;;
     set_listen_fd (-1)
   else mret tt);;;
  removeAllClients epollFd.

Definition handleSignalEvent (event : epoll_event) (epollFd readerPid : Z) : handler bool :=
  ok ← (if has_any (events event) EPOLLIN then
          r ← handleSignalFd (event_fd event) readerPid
                {| shutdownRequested := false; readerTerminated := false |};
          if negb r.1 then mret false
          else if readerTerminated r.2 then mret false
          else
            s ← get;
            (if shutdownRequested r.2 && bool_decide (state s = Running) then
               set_state Draining;;; beginDraining epollFd
             else mret tt);;;
            mret true
        else mret true);
  if negb ok then mret false
  else if has_any (events event) (Z.lor EPOLLERR EPOLLHUP) then mret false
  else mret true.

(** ** The event loop *)

(** The [for] loop over the events of one [epoll_wait]; [false] is
    [running = false], and [result] is [EXIT_FAILURE] then. *)
Fixpoint handle_events (evs : list epoll_event)
    (epollFd dataReadyFd spaceReadyFd signalFd readerPid : Z) : handler bool :=
  match evs with
  | [] => mret true
  | event :: evs =>
      s ← get;
      ok ← (if event_fd event =? signalFd then handleSignalEvent event epollFd readerPid
            else handleEvent event epollFd (listen_fd s) dataReadyFd spaceReadyFd);
      if negb ok then mret false
      else handle_events evs epollFd dataReadyFd spaceReadyFd signalFd readerPid
  end.

(** The [while] loop; [None] is a server that waits for ever. *)
Fixpoint event_loop (n : nat) (epollFd dataReadyFd spaceReadyFd signalFd readerPid : Z)
  : handler (option Z) :=
  match n with
  | O => out_of_fuel
  | S n =>
      s ← get;
      drained ← (if bool_decide (state s = Draining) then on_ring p_empty else mret false);
      if (drained : bool) then mret (Some EXIT_SUCCESS)
      else
        ready ← sys (epoll_wait epollFd kMaxEvents);
        match (ready : option (sysres (list epoll_event))) with
        | None => mret None
        | Some (Err e) =>
            if e =? EINTR then event_loop n epollFd dataReadyFd spaceReadyFd signalFd readerPid
            else mret (Some EXIT_FAILURE)
        | Some (Ok evs) =>
            ok ← handle_events evs epollFd dataReadyFd spaceReadyFd signalFd readerPid;
            if negb ok then mret (Some EXIT_FAILURE)
            else event_loop n epollFd dataReadyFd spaceReadyFd signalFd readerPid
        end
  end.

(** The setup of [run]: the epoll descriptor, or [None] after a failure. *)
Definition setup (config : ServerConfig) (spaceReadyFd signalFd : Z) : handler (option Z) :=
  listenFd ← createSocket;
  set_listen_fd listenFd;;;
  if listenFd =? -1 then mret None
  else
    ok ← setSocketOptions listenFd;
    if negb ok then sys (close listenFd);;; mret None
    else
      ok ← bindSocket config listenFd;
      if negb ok then sys (close listenFd);;; mret None
      else
        r ← sys (listen listenFd SOMAXCONN);
        if negb (is_ok r) then sys (close listenFd);;; mret None
        else
          r ← sys (epoll_create1 EPOLL_CLOEXEC);
          match r with
          | Err _ => sys (close listenFd);;; mret None
          | Ok epollFd =>
              ok ← addEpollFd epollFd listenFd watchEvents;
              if negb ok then sys (close epollFd);;; sys (close listenFd);;; mret None
              else
                ok ← addEpollFd epollFd spaceReadyFd watchEvents;
                if negb ok then sys (close epollFd);;; sys (close listenFd);;; mret None
                else
                  ok ← addEpollFd epollFd signalFd watchEvents;
                  if negb ok then sys (close epollFd);;; sys (close listenFd);;; mret None
                  else mret (Some epollFd)
          end.

(** The end of [run]. *)
Definition shutdown (epollFd : Z) : handler unit :=
  removeAllClients epollFd;;;
  s ← get;
  (if negb (listen_fd s =? -1) then sys (close (listen_fd s));;; mret tt else mret tt);;;
  sys (close epollFd);;;
  mret tt.

Definition run (config : ServerConfig) (dataReadyFd spaceReadyFd signalFd readerPid : Z)
  : handler (option Z) :=
  r ← setup config spaceReadyFd signalFd;
  match r with
  | None => mret (Some EXIT_FAILURE)
  | Some epollFd =>
      set_state Running;;;
      set_paused false;;;
      result ← event_loop fuel epollFd dataReadyFd spaceReadyFd signalFd readerPid;
      match (result : option Z) with
      | None => mret None
      | Some result =>
          shutdown epollFd;;;
          mret (Some result)
      end
  end.

(** [~Server]. *)
Fixpoint close_fds (fds : list Z) : handler unit :=
  match fds with
  | [] => mret tt
  | fd :: fds => sys (close fd);;; close_fds fds
  end.

Definition destroy : handler unit :=
  s ← get;
  close_fds (fds_of (m_clients s)).

End server.

End Server.
