(* ===== verification/ServerSpec.v ===== *)
(** * Server: what the event loop guarantees

    The abstract server [ingest] turns the history of accepted, received and closed
    connections into the bytes published and each connection's backlog; the
    definitions of [Server.v] refine it.  The invariant also says which descriptors
    are open and which the epoll descriptor watches. *)

From S2P Require Import Prelude Codec Frames Ring Buffer EventFd Producer NetApi Server.
Import Codec Frames EventFd Producer NetApi Server.

Module ServerSpec.

(** ** The abstract server *)

(** The bytes of each connection that are not a whole valid frame yet, and all
    that was published. *)
Record Ingest := { backlog : gmap Z bytes; published : bytes }.

(** Publish the valid frames at the front of what a connection has sent. *)
Definition receive (fd : Z) (bs : bytes) (i : Ingest) : Ingest :=
  match backlog i !! fd with
  | None => i
  | Some u =>
      let n := valid_bytes (u ++ bs) in
      {| backlog := <[fd := zdrop n (u ++ bs)]> (backlog i);
         published := published i ++ ztake n (u ++ bs) |}
  end.

Definition ingest_step (i : Ingest) (ev : net_event) : Ingest :=
  match ev with
  | Accepted fd => {| backlog := <[fd := []]> (backlog i); published := published i |}
  | Received fd bs => receive fd bs i
  | Signalled _ => i
  | Closed fd => {| backlog := delete fd (backlog i); published := published i |}
  end.

Definition ingest (trace : list net_event) : Ingest :=
  fold_left ingest_step trace {| backlog := ∅; published := [] |}.

Lemma ingest_snoc trace ev : ingest (trace ++ [ev]) = ingest_step (ingest trace) ev.
Proof. unfold ingest. by rewrite fold_left_app. Qed.

(** Nothing invalid is published, and a frame is never split. *)
Lemma ingest_valid trace :
  valid_frames (published (ingest trace)) /\ (kFrameSize | zlen (published (ingest trace))).
Proof.
  induction trace as [|ev trace IH] using rev_ind.
  { split; [constructor|apply Z.divide_0_r]. }
  rewrite ingest_snoc. destruct ev as [fd|fd bs|info|fd]; cbn [ingest_step]; try done.
  unfold receive. destruct (backlog _ !! fd) as [u|]; [|done]. cbn [published].
  destruct IH as [Hv Hd]. destruct (valid_bytes_range (u ++ bs)) as [Hr Hk]. split.
  - apply valid_frames_app; [done|]. split; [done|apply valid_bytes_valid].
  - rewrite zlen_app, zlen_take, Z.max_r, Z.min_l by lia. by apply Z.divide_add_r.
Qed.

(** However a stream is cut into pieces, the same is published. *)
Lemma receive_app fd a b i :
  (forall u, backlog i !! fd = Some u -> zlen (zdrop (valid_bytes (u ++ a)) (u ++ a)) < kFrameSize) ->
  receive fd b (receive fd a i) = receive fd (a ++ b) i.
Proof.
  intros Hs. unfold receive at 2. destruct (backlog i !! fd) as [u|] eqn:Eu.
  2: { unfold receive. by rewrite Eu. }
  unfold receive. cbn [backlog published]. rewrite lookup_insert_eq, Eu, insert_insert_eq.
  set (n := valid_bytes (u ++ a)). destruct (valid_bytes_range (u ++ a)) as [Hn Hd]. fold n in Hn, Hd.
  assert (valid_bytes ((u ++ a) ++ b) = n + valid_bytes (zdrop n (u ++ a) ++ b)) as E.
  { rewrite <- (ztake_zdrop n (u ++ a)) at 1. rewrite <- app_assoc.
    assert (zlen (ztake n (u ++ a)) = n) as El by (rewrite zlen_take; lia).
    rewrite valid_bytes_app; [by rewrite El|apply valid_bytes_valid|by rewrite El]. }
  destruct (valid_bytes_range (zdrop n (u ++ a) ++ b)) as [Hm _].
  set (m := valid_bytes (zdrop n (u ++ a) ++ b)) in *.
  assert (zdrop n (u ++ a) ++ b = zdrop n ((u ++ a) ++ b)) as Ed
    by (symmetry; apply zdrop_app_le; lia).
  rewrite (app_assoc u a b), E, <- (app_assoc (published i)), Ed. f_equal.
  - f_equal. by rewrite zdrop_zdrop by lia.
  - f_equal. rewrite ztake_add by lia. f_equal. symmetry. apply ztake_app_le. lia.
Qed.

(** The validation loop finds the valid beginning of the unread bytes. *)
Lemma validate_loop_spec n index v b :
  0 <= Buffer.offset b -> 0 <= index ->
  let fs := split_frames n (zdrop (Buffer.offset b + index * kFrameSize) (Buffer.data b)) in
  exists err, validate_frames n index v b = (v + Z.of_nat (leading_valid fs), err) /\
    (err = None_ <-> leading_valid fs = n).
Proof.
  intros Ho. revert index v. induction n as [|n IH]; intros index v Hi; cbn [validate_frames].
  { exists None_. cbn. split; [f_equal; lia|done]. }
  cbn [split_frames]. cbv zeta. unfold zslice. set (f := ztake kFrameSize _).
  cbn [leading_valid]. destruct (result_ok (decode f)) eqn:Ed; cbn [negb].
  - specialize (IH (index + 1) (v + 1) ltac:(lia)). cbv zeta in IH.
    rewrite zdrop_zdrop by (unfold kFrameSize; lia).
    replace (Buffer.offset b + (index + 1) * kFrameSize) with
      (Buffer.offset b + index * kFrameSize + kFrameSize) in IH by (unfold kFrameSize; lia).
    destruct IH as (err & -> & Herr). exists err. split; [f_equal; lia|]. rewrite Herr. lia.
  - exists (error (decode f)). split; [f_equal; lia|].
    unfold result_ok in Ed. apply bool_decide_eq_false in Ed. split; [done|lia].
Qed.

Lemma validate_frames_spec b :
  Buffer.buffer_ok b ->
  exists err,
    validate_frames (Z.to_nat (Buffer.pendingBytes b / kFrameSize)) 0 0 b =
      (valid_bytes (Buffer.unread b) / kFrameSize, err) /\
    (err = None_ <-> zlen (zdrop (valid_bytes (Buffer.unread b)) (Buffer.unread b)) < kFrameSize).
Proof.
  intros Hb. rewrite Buffer.pendingBytes_unread by done. pose proof Hb as [Ho _].
  set (u := Buffer.unread b). set (n := Z.to_nat (zlen u / kFrameSize)).
  destruct (validate_loop_spec n 0 0 b ltac:(lia) ltac:(lia)) as (err & E & Herr).
  rewrite Z.mul_0_l, Z.add_0_r in E, Herr. change (zdrop _ _) with u in E, Herr.
  exists err. change (split_frames n u) with (frames_of u) in *. split.
  - rewrite E, Z.add_0_l. unfold valid_bytes. by rewrite Z.div_mul.
  - rewrite Herr, zlen_drop. destruct (valid_bytes_range u) as [Hr _]. pose proof (zlen_nonneg u).
    pose proof (leading_valid_le (frames_of u)). pose proof (length_frames_of u).
    unfold valid_bytes, n, kFrameSize in *. split; intros; div_lia.
Qed.

(** ** What stays true *)

Definition watch (fd mask : Z) : epoll_event := {| events := mask; event_fd := fd |}.

(** The signals read, those that ask to stop, and the reader's end. *)
Definition signals (trace : list net_event) : list signalfd_siginfo :=
  omap (fun ev => match ev with Signalled info => Some info | _ => None end) trace.

Definition asks_to_stop (info : signalfd_siginfo) : bool :=
  (ssi_signo info =? SIGINT) || (ssi_signo info =? SIGTERM).

Definition reader_gone (pid : Z) (info : signalfd_siginfo) : bool :=
  (ssi_signo info =? SIGCHLD) && (ssi_pid info =? u32 pid) &&
  ((ssi_code info =? CLD_EXITED) || (ssi_code info =? CLD_KILLED) || (ssi_code info =? CLD_DUMPED)).

(** Less than a frame is waiting, and less than the threshold has been consumed. *)
Definition small (b : Buffer.Buffer) : Prop :=
  zlen (Buffer.unread b) < kFrameSize /\ Buffer.offset b < Buffer.kCompactThreshold.

Section specs.
Context {C E N : Type} `{RingProducerLaws C} `{EventFdLaws E} `{NetLaws N} `{ClientOrder}.
Variable fuel : nat.

(** The epoll descriptor, the descriptors [run] is given, the reader, and the
    descriptors that were open before. *)
Variables ep dfd sfd gfd pid : Z.
Variable ext : gset Z.

Abbreviation st := (SSt C E N).
Implicit Types s : st.

Definition kv s : KView := kview (net s).

(** Things left to happen only get fewer. *)
Definition after s s' : Prop :=
  (net_budget (net s') <= net_budget (net s))%nat /\ (ev_budget (efds s') <= ev_budget (efds s))%nat.

Definition plenty (t : bool) s : Prop :=
  t = true -> (net_budget (net s) < fuel)%nat /\ (ev_budget (efds s) < fuel)%nat.

(** [spaceReadyFd] is read when [epoll] has reported it, by this process only, so a read
    of it does not wait. *)
Definition space_ready (t : bool) : Prop := t = true -> reads_at_once (E:=E) sfd.

Definition listen_set s : gset Z := if decide (listen_fd s = -1) then ∅ else {[listen_fd s]}.

(** True wherever the server stops: its descriptors are accounted for, and what it
    has published and what its buffers hold is what the abstract server says. *)
Record winv s : Prop := {
  w_epoll : k_epoll (kv s) = Some ep;
  w_open : k_open (kv s) = ext ∪ {[ep]} ∪ listen_set s ∪ dom (m_clients s);
  w_ep : ep ∉ ext;
  w_listen : listen_fd s = -1 \/ 0 <= listen_fd s /\ listen_fd s ∉ ext ∪ {[ep]};
  w_clients fd : fd ∈ dom (m_clients s) -> 0 <= fd /\ fd ∉ ext ∪ {[ep]} ∪ listen_set s;
  w_buffers fd b : m_clients s !! fd = Some b ->
    Buffer.buffer_ok b /\ zlen (Buffer.data b) < 2 ^ 32;
  w_backlog : backlog (ingest (k_trace (kv s))) = Buffer.unread <$> m_clients s;
  w_published : published (ingest (k_trace (kv s))) = pushed (ring s);
  w_ring : ring_open (ring s);
}.

(** What the epoll descriptor watches. *)
Definition expected (paused : bool) s (fd : Z) : option epoll_event :=
  if decide (fd = sfd \/ fd = gfd) then Some (watch fd watchEvents)
  else if decide (fd = listen_fd s /\ fd <> -1) then
    Some (watch fd (if paused then Z.lor EPOLLERR EPOLLHUP else watchEvents))
  else if decide (fd ∈ dom (m_clients s)) then
    if paused then None else Some (watch fd clientEvents)
  else None.

(** The state follows the signals. *)
Definition sig_ok (state : State) (infos : list signalfd_siginfo) : Prop :=
  Forall (fun i => reader_gone pid i = false) infos /\
  (state = Draining <-> Exists (fun i => asks_to_stop i = true) infos).

(** True between events, except that the buffer of [x] may be anything. *)
Record core (paused : bool) (x : option Z) s : Prop := {
  c_winv : winv s;
  c_small fd b : m_clients s !! fd = Some b -> x <> Some fd -> small b;
  c_state : match state s with
            | Running => listen_fd s <> -1
            | Draining => listen_fd s = -1 /\ m_clients s = ∅
            end;
  c_watch fd : k_interest (kv s) !! fd = expected paused s fd;
  c_signals : sig_ok (state s) (signals (k_trace (kv s)));
}.

Definition headroom s : Prop := queued (ring s) < kPauseIngressBytes.

Definition sinv s : Prop :=
  core (ingressPaused s) None s /\ (ingressPaused s = false -> headroom s).

Hypothesis ext_fds : sfd ∈ ext /\ gfd ∈ ext /\ forall fd, fd ∈ ext -> 0 <= fd.

Lemma elem_of_listen_set s fd : fd ∈ listen_set s <-> fd = listen_fd s /\ fd <> -1.
Proof. unfold listen_set. case_decide; set_solver. Qed.

Lemma after_refl s : after s s.
Proof. by split. Qed.

Lemma after_trans s1 s2 s3 : after s1 s2 -> after s2 s3 -> after s1 s3.
Proof. unfold after. lia. Qed.

Lemma plenty_after t s s' : plenty t s -> after s s' -> plenty t s'.
Proof. unfold plenty, after. intros Hp Ha Ht. specialize (Hp Ht). lia. Qed.

Lemma signals_snoc trace ev :
  signals (trace ++ [ev]) = signals trace ++ match ev with Signalled i => [i] | _ => [] end.
Proof. unfold signals. rewrite omap_app. by destruct ev. Qed.

(** ** The kernel's calls *)

Lemma wp_net {A} t (f : N -> A * N) happens post Q s :
  net_law kview net_budget f happens post ->
  (forall r n, post (kv s) r (kview n) -> (net_budget n <= net_budget (net s))%nat ->
     (happens r = true -> (net_budget n < net_budget (net s))%nat) -> Q r (with_net n s)) ->
  wp t (sys f) Q s.
Proof.
  intros Hl HQ. unfold sys. apply wp_lift, wp_call. intros r n Hr.
  destruct (Hl _ _ _ Hr) as (? & ? & ?). by apply HQ.
Qed.

(** Only the kernel has moved, to [k]. *)
Definition net_to (k : KView) s s' : Prop :=
  exists n, s' = with_net n s /\ kview n = k /\ (net_budget n <= net_budget (net s))%nat.

Lemma net_to_after k s s' : net_to k s s' -> after s s'.
Proof. intros (n & -> & _ & Hb). split; [done|]. by cbn [efds with_net]. Qed.

Lemma addEpollFd_spec t fd mask s :
  k_epoll (kv s) = Some ep ->
  wp t (addEpollFd ep fd mask) (fun ok s' =>
    if ok then k_interest (kv s) !! fd = None /\
               net_to (k_watch (<[fd := watch fd mask]> (k_interest (kv s))) (kv s)) s s'
    else net_to (kv s) s s') s.
Proof.
  intros He. unfold addEpollFd. apply wp_bind. eapply wp_net; [apply epoll_ctl_law|].
  intros r n Hp Hb _. apply wp_ret. specialize (Hp He). destruct r as [?|e]; cbn [is_ok].
  - destruct Hp as (Ha & _). destruct (Ha eq_refl _ eq_refl) as [Hn Hk]. split; [done|].
    by exists n.
  - by exists n.
Qed.

Lemma modifyEpollFd_spec t fd mask s :
  k_epoll (kv s) = Some ep ->
  wp t (modifyEpollFd ep fd mask) (fun ok s' =>
    net_to (if ok then k_watch (<[fd := watch fd mask]> (k_interest (kv s))) (kv s) else kv s) s s') s.
Proof.
  intros He. unfold modifyEpollFd. apply wp_bind. eapply wp_net; [apply epoll_ctl_law|].
  intros r n Hp Hb _. apply wp_ret. specialize (Hp He). destruct r as [?|e]; cbn [is_ok].
  - destruct Hp as (_ & Ha & _). destruct (Ha eq_refl _ eq_refl) as [Hn Hk]. by exists n.
  - by exists n.
Qed.

Lemma removeEpollFd_spec t fd s :
  k_epoll (kv s) = Some ep ->
  wp t (removeEpollFd ep fd) (fun ok s' =>
    net_to (if ok then k_watch (delete fd (k_interest (kv s))) (kv s) else kv s) s s') s.
Proof.
  intros He. unfold removeEpollFd. apply wp_bind. eapply wp_net; [apply epoll_ctl_law|].
  intros r n Hp Hb _. apply wp_ret. specialize (Hp He). destruct r as [?|e]; cbn [is_ok].
  - destruct Hp as (_ & _ & Ha). destruct (Ha eq_refl) as [Hn Hk]. by exists n.
  - by exists n.
Qed.

Lemma close_spec t fd s :
  wp t (sys (close fd)) (fun _ s' => net_to (k_shut fd (kv s)) s s') s.
Proof. eapply wp_net; [apply net_close_law|]. intros r n Hp Hb _. by exists n. Qed.

Lemma k_shut_unwatched fd k : k_shut fd (k_watch (delete fd (k_interest k)) k) = k_shut fd k.
Proof.
  unfold k_shut, k_watch. cbn [k_open k_epoll k_interest k_trace].
  destruct (bool_decide _); [done|]. by rewrite delete_delete_eq.
Qed.

(** ** Removing clients *)

Definition removed (fd : Z) s s' : Prop :=
  exists n, s' = with_clients (delete fd (m_clients s)) (with_net n s) /\
    kview n = k_shut fd (kv s) /\ (net_budget n <= net_budget (net s))%nat.

(** A watched descriptor that is removed and closed. *)
Lemma unwatch_close_spec t fd s (Q : unit -> st -> Prop) m :
  k_epoll (kv s) = Some ep ->
  (forall s', net_to (k_shut fd (kv s)) s s' -> wp t m Q s') ->
  wp t (removeEpollFd ep fd;;; sys (close fd);;; m) Q s.
Proof.
  intros He Hm. apply wp_bind. eapply wp_mono; [by apply removeEpollFd_spec|].
  intros ok s1 (n1 & -> & Hk1 & Hb1). apply wp_bind.
  eapply wp_mono; [apply close_spec|]. intros _ s2 (n2 & -> & Hk2 & Hb2).
  apply Hm. exists n2. cbn [with_net net] in *. split; [done|]. split; [|lia].
  rewrite Hk2. unfold kv at 1. cbn [net with_net]. rewrite Hk1.
  destruct ok; [apply k_shut_unwatched|done].
Qed.

Lemma removeClient_spec t fd s :
  k_epoll (kv s) = Some ep -> wp t (removeClient ep fd) (fun _ s' => removed fd s s') s.
Proof.
  intros He. unfold removeClient. apply unwatch_close_spec; [done|].
  intros s' (n & -> & Hk & Hb). unfold set_clients. apply wp_modify. by exists n.
Qed.

(** Closing a descriptor other than the epoll descriptor. *)
Lemma k_shut_other fd k :
  k_epoll k = Some ep -> fd <> ep ->
  k_shut fd k = {| k_open := k_open k ∖ {[fd]}; k_epoll := Some ep;
                   k_interest := delete fd (k_interest k); k_trace := k_trace k ++ [Closed fd] |}.
Proof.
  intros He Hne. unfold k_shut. rewrite He. rewrite bool_decide_eq_false_2; [done|]. congruence.
Qed.

Lemma client_not_ep s fd : winv s -> fd ∈ dom (m_clients s) -> fd <> ep.
Proof. intros W Hin ->. apply (w_clients _ W) in Hin. set_solver. Qed.

Lemma removed_winv fd s s' :
  winv s -> fd ∈ dom (m_clients s) -> removed fd s s' -> winv s'.
Proof.
  intros W Hin (n & -> & Hk & Hb). pose proof (w_clients _ W fd Hin) as [Hfd Hout].
  rewrite k_shut_other in Hk by (apply W || by apply (client_not_ep s)).
  constructor; unfold kv, listen_set; cbn [net ring m_clients listen_fd with_clients with_net];
    rewrite ?Hk; cbn [k_open k_epoll k_trace]; try apply W.
  - done.
  - rewrite (w_open _ W), dom_delete_L. fold (listen_set s). set_solver.
  - intros fd'. rewrite dom_delete_L. intros Hin'. apply (w_clients _ W). set_solver.
  - intros fd' b [_ Hb']%lookup_delete_Some. by apply (w_buffers _ W fd').
  - rewrite ingest_snoc. cbn [ingest_step backlog]. by rewrite (w_backlog _ W), fmap_delete.
  - rewrite ingest_snoc. cbn [ingest_step published]. apply W.
Qed.

Lemma removed_core p x fd s s' :
  core p x s -> x = None \/ x = Some fd -> fd ∈ dom (m_clients s) -> removed fd s s' ->
  core p None s'.
Proof.
  intros K Hx Hin Hrem. pose proof (c_winv _ _ _ K) as W.
  pose proof (removed_winv fd s s' W Hin Hrem) as W'. destruct Hrem as (n & -> & Hk & Hb).
  pose proof (w_clients _ W fd Hin) as [Hfd Hout].
  rewrite k_shut_other in Hk by (apply W || by apply (client_not_ep s)).
  constructor; [done|..]; unfold kv; cbn [net ring m_clients listen_fd state with_clients with_net];
    rewrite ?Hk; cbn [k_interest k_trace].
  - intros fd' b [Hne Hb']%lookup_delete_Some _. apply (c_small _ _ _ K fd'); [done|].
    destruct Hx as [->| ->]; congruence.
  - pose proof (c_state _ _ _ K) as Hst. destruct (state s); [done|].
    destruct Hst as [? ->]. set_solver.
  - intros fd'. destruct (decide (fd' = fd)) as [->|Hne].
    + rewrite lookup_delete_eq. unfold expected. cbn [listen_fd m_clients with_clients with_net].
      rewrite decide_False by (destruct ext_fds as (? & ? & ?); intros [-> | ->]; set_solver).
      rewrite decide_False by (rewrite <- elem_of_listen_set; set_solver).
      rewrite decide_False; [done|]. rewrite dom_delete_L. set_solver.
    + rewrite lookup_delete_ne by done. rewrite (c_watch _ _ _ K). unfold expected.
      cbn [listen_fd m_clients with_clients with_net]. case_decide; [done|]. case_decide; [done|].
      destruct (decide (fd' ∈ dom (m_clients s))) as [Hd|Hd], (decide (fd' ∈ dom (delete fd (m_clients s)))) as [Hd'|Hd'];
        rewrite dom_delete_L in Hd'; set_solver.
  - rewrite signals_snoc, app_nil_r. apply K.
Qed.

Lemma removed_frame fd s s' :
  removed fd s s' -> after s s' /\ ring s' = ring s /\ efds s' = efds s /\
    listen_fd s' = listen_fd s /\ state s' = state s /\ ingressPaused s' = ingressPaused s /\
    m_clients s' = delete fd (m_clients s).
Proof. intros (n & -> & _ & Hb). by split_and!; [split|..]. Qed.

(** All the clients are gone; only they have changed. *)
Definition emptied s s' : Prop :=
  after s s' /\ ring s' = ring s /\ efds s' = efds s /\ listen_fd s' = listen_fd s /\
  state s' = state s /\ ingressPaused s' = ingressPaused s /\ m_clients s' = ∅ /\ winv s' /\
  signals (k_trace (kv s')) = signals (k_trace (kv s)) /\
  forall fd, k_interest (kv s') !! fd =
    if decide (fd ∈ dom (m_clients s)) then None else k_interest (kv s) !! fd.

Lemma fds_of_nil m : fds_of m = [] -> m = ∅.
Proof.
  intros Em. pose proof (fds_of_law m) as Hp. rewrite Em in Hp. apply Permutation_nil in Hp.
  apply dom_empty_iff_L. by apply leibniz_equiv, elements_empty_iff.
Qed.

Lemma fds_of_elem m fd : fd ∈ fds_of m <-> fd ∈ dom m.
Proof. rewrite fds_of_law. apply elem_of_elements. Qed.

Lemma remove_all_spec t n s :
  winv s -> (size (m_clients s) <= n)%nat -> wp t (remove_all n ep) (fun _ s' => emptied s s') s.
Proof.
  revert s. induction n as [|n IH]; intros s W Hn; cbn [remove_all]; apply wp_bind, wp_get;
    (destruct (fds_of (m_clients s)) as [|fd rest] eqn:Ef;
     [apply wp_ret; apply fds_of_nil in Ef; split_and!; try done; by rewrite Ef|]).
  - assert (m_clients s = ∅) as Em by (apply map_size_empty_inv; lia).
    assert (fd ∈ dom (m_clients s)) as Hin by (apply fds_of_elem; rewrite Ef; by left).
    rewrite Em in Hin. set_solver.
  - assert (fd ∈ dom (m_clients s)) as Hin by (apply fds_of_elem; rewrite Ef; by left).
    apply wp_bind. eapply wp_mono; [apply removeClient_spec, W|]. intros u s1 Hrem.
    pose proof (removed_winv fd s s1 W Hin Hrem) as W1.
    destruct (removed_frame fd s s1 Hrem) as (Ha & Er & Ee & El & Es & Ep & Em).
    eapply wp_mono; [apply (IH s1 W1)|].
    { rewrite Em. apply elem_of_dom in Hin as [b Hb]. rewrite map_size_delete, Hb. cbn. lia. }
    intros _ s2 (Ha2 & Er2 & Ee2 & El2 & Es2 & Ep2 & Em2 & W2 & Hsig & Hint).
    destruct Hrem as (n' & -> & Hk & _).
    rewrite k_shut_other in Hk by (apply W || by apply (client_not_ep s)).
    unfold kv in Hsig, Hint. cbn [net with_clients with_net] in Hsig, Hint.
    rewrite Hk in Hsig, Hint. cbn [k_trace k_interest] in Hsig, Hint.
    split; [by eapply after_trans|]. do 5 (split; [congruence|]).
    split; [done|]. split; [done|]. split.
    + unfold kv at 1. by rewrite Hsig, signals_snoc, app_nil_r.
    + intros fd'. unfold kv at 1. rewrite Hint, Em, dom_delete_L. destruct (decide (fd' = fd)) as [->|].
      * rewrite lookup_delete_eq. do 2 case_decide; set_solver.
      * rewrite lookup_delete_ne by done. do 2 case_decide; set_solver.
Qed.

Lemma removeAllClients_spec t s :
  winv s -> wp t (removeAllClients ep) (fun _ s' => emptied s s') s.
Proof. intros W. unfold removeAllClients. apply wp_bind, wp_get. by apply remove_all_spec. Qed.

(** Moves of the kernel that the invariant does not see. *)
Record k_equiv (k k' : KView) : Prop := {
  ke_open : k_open k' = k_open k;
  ke_epoll : k_epoll k' = k_epoll k;
  ke_interest : k_interest k' = k_interest k;
  ke_ingest : ingest (k_trace k') = ingest (k_trace k);
  ke_signals : signals (k_trace k') = signals (k_trace k);
}.

(** The same clients, modes and published bytes. *)
Record alike s s' : Prop := {
  a_clients : m_clients s' = m_clients s;
  a_listen : listen_fd s' = listen_fd s;
  a_pushed : pushed (ring s') = pushed (ring s);
  a_open : ring_open (ring s) -> ring_open (ring s');
}.

Lemma winv_equiv s s' : winv s -> k_equiv (kv s) (kv s') -> alike s s' -> winv s'.
Proof.
  intros W Q A. assert (listen_set s' = listen_set s) as El by (unfold listen_set; by rewrite (a_listen _ _ A)).
  constructor; rewrite ?(ke_open _ _ Q), ?(ke_epoll _ _ Q), ?(ke_ingest _ _ Q), ?El, ?(a_clients _ _ A),
    ?(a_listen _ _ A), ?(a_pushed _ _ A); try apply W. apply A, W.
Qed.

Lemma core_equiv p x s s' :
  core p x s -> k_equiv (kv s) (kv s') -> alike s s' -> state s' = state s -> core p x s'.
Proof.
  intros K Q A Es. pose proof (winv_equiv s s' (c_winv _ _ _ K) Q A) as W.
  constructor; rewrite ?(a_clients _ _ A), ?(a_listen _ _ A), ?Es, ?(ke_interest _ _ Q), ?(ke_signals _ _ Q);
    try done; try apply K.
  intros fd. rewrite (c_watch _ _ _ K). unfold expected.
  by rewrite (a_clients _ _ A), (a_listen _ _ A).
Qed.

Lemma k_equiv_refl k : k_equiv k k.
Proof. by constructor. Qed.

(** An end of file has no data. *)
Lemma eof_equiv fd b s :
  winv s -> m_clients s !! fd = Some b -> small b ->
  k_equiv (kv s) (k_log (Received fd []) (kv s)).
Proof.
  intros W Hb [Hs _]. constructor; cbn [k_open k_epoll k_interest k_trace k_log]; try done.
  - rewrite ingest_snoc. cbn [ingest_step]. unfold receive.
    assert (backlog (ingest (k_trace (kv s))) !! fd = Some (Buffer.unread b)) as Eb
      by (rewrite (w_backlog _ W), lookup_fmap, Hb; done).
    rewrite Eb, app_nil_r. destruct (valid_bytes_range (Buffer.unread b)) as [Hr [k Hk]].
    assert (valid_bytes (Buffer.unread b) = 0) as -> by (unfold kFrameSize in *; lia).
    rewrite zdrop_nonpos, ztake_nonpos, app_nil_r by done.
    rewrite insert_id by done. by destruct (ingest _).
  - by rewrite signals_snoc, app_nil_r.
Qed.

(** ** Reading a client *)

Lemma alter_lookup_insert (m : gmap Z Buffer.Buffer) f fd b :
  m !! fd = Some b -> alter f fd m = <[fd := f b]> m.
Proof.
  intros Hb. apply map_eq. intros i. destruct (decide (i = fd)) as [->|].
  - by rewrite lookup_alter_eq, lookup_insert_eq, Hb.
  - by rewrite lookup_alter_ne, lookup_insert_ne.
Qed.

(** [fd] has received [bs], what was valid has been published, and its buffer is
    now [b']. *)
Record taken (fd : Z) (bs : bytes) (b b' : Buffer.Buffer) s s' : Prop := {
  t_kv : kv s' = k_log (Received fd bs) (kv s);
  t_clients : m_clients s' = <[fd := b']> (m_clients s);
  t_before : m_clients s !! fd = Some b;
  t_unread : let u := Buffer.unread b ++ bs in
    Buffer.unread b' = zdrop (valid_bytes u) u /\
    pushed (ring s') = pushed (ring s) ++ ztake (valid_bytes u) u;
  t_ok : Buffer.buffer_ok b' /\ zlen (Buffer.data b') < 2 ^ 32;
  t_ring : ring_open (ring s');
  t_listen : listen_fd s' = listen_fd s;
  t_state : state s' = state s;
}.

Lemma taken_winv fd bs b b' s s' : winv s -> taken fd bs b b' s s' -> winv s'.
Proof.
  intros W T. pose proof (t_clients _ _ _ _ _ _ T) as Ec.
  assert (dom (m_clients s') = dom (m_clients s)) as Ed.
  { rewrite Ec, dom_insert_L. pose proof (elem_of_dom_2 _ _ _ (t_before _ _ _ _ _ _ T)). set_solver. }
  destruct (t_unread _ _ _ _ _ _ T) as [Hu Hp].
  assert (listen_set s' = listen_set s) as El by (unfold listen_set; by rewrite (t_listen _ _ _ _ _ _ T)).
  assert (backlog (ingest (k_trace (kv s))) !! fd = Some (Buffer.unread b)) as Eb
    by (rewrite (w_backlog _ W), lookup_fmap, (t_before _ _ _ _ _ _ T); done).
  constructor; rewrite ?(t_kv _ _ _ _ _ _ T), ?El, ?Ed, ?(t_listen _ _ _ _ _ _ T);
    cbn [k_log k_epoll k_open k_trace]; try apply W.
  - rewrite Ec. intros fd' b1 [[<- <-]|[_ Hb]]%lookup_insert_Some; [apply T|]. by apply (w_buffers _ W fd').
  - rewrite ingest_snoc. cbn [ingest_step]. unfold receive. rewrite Eb. cbn [backlog].
    by rewrite (w_backlog _ W), Ec, fmap_insert, Hu.
  - rewrite ingest_snoc. cbn [ingest_step]. unfold receive. rewrite Eb. cbn [published].
    by rewrite (w_published _ W), Hp.
  - apply T.
Qed.

Lemma taken_core p fd bs b b' s s' :
  core p None s -> taken fd bs b b' s s' -> core p (Some fd) s'.
Proof.
  intros K T. pose proof (c_winv _ _ _ K) as W. pose proof (taken_winv _ _ _ _ _ _ W T) as W'.
  pose proof (t_clients _ _ _ _ _ _ T) as Ec. pose proof (t_before _ _ _ _ _ _ T) as Hb0.
  constructor; rewrite ?(t_kv _ _ _ _ _ _ T), ?(t_state _ _ _ _ _ _ T), ?(t_listen _ _ _ _ _ _ T);
    cbn [k_log k_interest k_trace]; try done.
  - rewrite Ec. intros fd' b1 [[-> _]|[_ Hb]]%lookup_insert_Some Hne; [done|].
    by apply (c_small _ _ _ K fd').
  - pose proof (c_state _ _ _ K) as Hst. destruct (state s); [done|].
    destruct Hst as [_ Em]. rewrite Em, lookup_empty in Hb0. done.
  - intros fd'. rewrite (c_watch _ _ _ K). unfold expected. rewrite (t_listen _ _ _ _ _ _ T).
    case_decide; [done|]. case_decide; [done|]. apply elem_of_dom_2 in Hb0.
    destruct (decide (fd' ∈ dom (m_clients s))) as [Hd|Hd], (decide (fd' ∈ dom (m_clients s'))) as [Hd'|Hd'];
      rewrite Ec, dom_insert_L in Hd'; set_solver.
  - rewrite signals_snoc, app_nil_r. apply K.
Qed.

Lemma small_core p fd s b :
  core p (Some fd) s -> m_clients s !! fd = Some b -> small b -> core p None s.
Proof.
  intros K Hb Hs. destruct K. constructor; try done. intros fd' b1 Hb1 _.
  destruct (decide (fd' = fd)) as [->|]; [by simplify_eq|]. apply c_small0 with fd'; congruence.
Qed.

(** A push of a valid beginning that fits. *)
Lemma publish_spec t fd pr b s :
  m_clients s !! fd = Some b -> Buffer.buffer_ok b ->
  let n := valid_bytes (Buffer.unread b) in
  n <> 0 -> ring_open (ring s) -> queued (ring s) + n <= Ring.capacityBytes ->
  wp t (publish fuel fd dfd (n / kFrameSize) pr) (fun r s' => exists c pr',
    r = Some (true, pr') /\
    s' = with_ring c (with_clients (<[fd := Buffer.consume n b]> (m_clients s)) s) /\
    ring_open c /\ pushed c = pushed (ring s) ++ ztake n (Buffer.unread b) /\
    (pr' = false -> pr = false /\ queued c < kPauseIngressBytes)) s.
Proof.
  intros Hb Hok n Hn Ho Hfit. destruct (valid_bytes_range (Buffer.unread b)) as [Hr Hd]. fold n in Hr, Hd.
  pose proof (Buffer.zlen_unread b Hok) as Hlu. pose proof Hok as [_ Hlen].
  assert (n / kFrameSize * kFrameSize = n) as En by (destruct Hd as [k ->]; by rewrite Z.div_mul).
  assert (u64 n = n) as Eu by (apply u64_small; unfold Buffer.buffer_ok in Hok; lia).
  unfold publish. apply wp_bind. unfold client. apply wp_gets. rewrite Hb. cbn [default from_option id].
  apply wp_bind. unfold on_ring at 1. apply wp_lift, wp_call. rewrite En, Eu.
  change (zslice (Buffer.offset b) n (Buffer.data b)) with (ztake n (Buffer.unread b)).
  intros m c1 Hpush. assert (zlen (ztake n (Buffer.unread b)) = n) as El by (rewrite zlen_take; lia).
  destruct (push_law (ztake n (Buffer.unread b)) (ring s) m c1 Ho ltac:(by rewrite El)
    ltac:(by rewrite El) ltac:(unfold Buffer.buffer_ok in Hok; lia) Hpush) as (Ho1 & Hm0 & Hm & Hp1 & Hq1 & Hall).
  rewrite El in Hm, Hall. specialize (Hall Hfit).
  rewrite Hall in Hp1. rewrite ztake_ge in Hp1 by lia.
  apply wp_bind. unfold update_client, set_clients. apply wp_modify.
  cbn [with_ring m_clients]. rewrite Hall, Eu, (alter_lookup_insert _ _ _ _ Hb).
  assert ((m =? n / kFrameSize) = true) as -> by (apply Z.eqb_eq; rewrite <- Hall; by rewrite Z.div_mul).
  assert ((m =? 0) = false) as -> by (apply Z.eqb_neq; unfold kFrameSize in *; lia).
  cbn [negb]. apply wp_bind. unfold on_ring. apply wp_lift, wp_call. cbn [ring with_clients with_ring].
  intros pend c2 Hpend. destruct (pending_law _ _ _ Ho1 Hpend) as (Ho2 & Hp2 & Hq2).
  apply wp_ret. eexists c2, _. split; [done|]. split; [done|]. split; [done|].
  split; [by rewrite Hp2|].
  destruct (Z.leb_spec kPauseIngressBytes pend); [done|]. intros ->. split; [done|lia].
Qed.

Lemma notifyPublished_spec t pub s :
  plenty t s ->
  wp t (notifyPublished fuel dfd pub) (fun ok s' => exists e,
    s' = with_efds e s /\ after s s' /\ (ok = false -> pub = true) /\
    ev_log e = ev_log (efds s) ++ (if ok && pub then [Notified dfd] else [])) s.
Proof.
  intros Hp. unfold notifyPublished. destruct pub; cbn [negb].
  - unfold on_efds. apply wp_lift. eapply wp_mono; [apply notifyEvent_spec; intros Ht; by apply Hp|].
    intros ok e [Hl Hb]. exists e. split; [done|]. split; [by split|]. split; [done|].
    by rewrite Hl, andb_true_r.
  - apply wp_ret. exists (efds s). split; [by destruct s|]. split; [apply after_refl|].
    split; [done|]. by rewrite app_nil_r.
Qed.

(** Nothing but the ring, the descriptors, the kernel and the clients has changed. *)
Definition same_mode s s' : Prop :=
  listen_fd s' = listen_fd s /\ state s' = state s /\ ingressPaused s' = ingressPaused s.

(** What a batch leaves, from [s], then [s1] when it has been received: all its valid frames are published, with one notification
    for all; a client that sent something else is gone, and the others stay. *)
Definition batch_done (fd : Z) (bs : bytes) (b : Buffer.Buffer) s s1
    (res : option bool * bool) s' : Prop :=
  let u := Buffer.unread b ++ bs in
  let n := valid_bytes u in
  after s1 s' /\ same_mode s s' /\ pushed (ring s') = pushed (ring s) ++ ztake n u /\
  if bool_decide (res.1 = Some false) then
    winv s' /\ n <> 0 /\ ev_log (efds s') = ev_log (efds s)
  else
    core false None s' /\
    ev_log (efds s') = ev_log (efds s) ++ (if n =? 0 then [] else [Notified dfd]) /\
    (res.2 = false -> headroom s') /\ (res.1 = None -> res.2 = false) /\
    if zlen (zdrop n u) <? kFrameSize then
      exists b', m_clients s' = <[fd := b']> (m_clients s) /\ Buffer.unread b' = zdrop n u
    else m_clients s' = delete fd (m_clients s) /\ res.1 = Some true.

Lemma with_efds_taken fd bs b b' s s' e :
  taken fd bs b b' s s' -> taken fd bs b b' s (with_efds e s').
Proof. intros []. by constructor. Qed.

Lemma compact_taken fd bs b b' s s' :
  taken fd bs b b' s s' ->
  let b2 := Buffer.compact Buffer.kCompactThreshold b' in
  taken fd bs b b2 s (with_clients (<[fd := b2]> (m_clients s')) s').
Proof.
  intros T b2. pose proof (t_ok _ _ _ _ _ _ T) as [Hok Hlen].
  pose proof (Buffer.compact_ok b' Buffer.kCompactThreshold Hok) as Hok2.
  pose proof (Buffer.unread_compact b' Buffer.kCompactThreshold Hok) as Hu2.
  destruct T. constructor; cbn [ring net m_clients listen_fd state with_clients]; try done.
  - by rewrite t_clients0, insert_insert_eq.
  - fold b2 in Hu2. by rewrite Hu2.
  - split; [done|]. fold b2 in Hok2. unfold Buffer.buffer_ok in Hok2.
    pose proof (Buffer.zlen_unread b2 Hok2) as L2. pose proof (Buffer.zlen_unread b' Hok) as L1.
    unfold b2 in L2 at 1. rewrite Hu2, L1 in L2.
    pose proof (Buffer.compact_offset b' Buffer.kCompactThreshold eq_refl) as Ho.
    fold b2 in Ho. unfold Buffer.compact in b2. unfold b2.
    destruct (_ =? 0); [done|]. destruct (Buffer.empty b'); [by vm_compute|].
    destruct (_ <=? _); [|done]. cbn [Buffer.data]. rewrite zlen_drop. lia.
Qed.

Lemma finish_batch_spec t fd bs b b' err pub pr s0 sa s :
  core false None s0 -> taken fd bs b b' s0 s -> efds s = efds s0 -> same_mode s0 s ->
  after sa s -> plenty t s -> (pr = false -> headroom s) ->
  let u := Buffer.unread b ++ bs in
  let n := valid_bytes u in
  pub = negb (n =? 0) -> (err = None_ <-> zlen (zdrop n u) < kFrameSize) ->
  wp t (finish_batch fuel ep fd dfd err pub pr) (fun res s' => batch_done fd bs b s0 sa res s') s.
Proof.
  intros K T Ee Hm Ha Hp Hh u n Epub Herr. unfold finish_batch.
  pose proof (c_winv _ _ _ K) as W. pose proof (t_unread _ _ _ _ _ _ T) as HT. cbv zeta in HT.
  fold u n in HT. destruct HT as [Hu Hpu].
  assert (forall e, pub = true -> after s (with_efds e s) -> ev_log e = ev_log (efds s) ->
    batch_done fd bs b s0 sa (Some false, pr) (with_efds e s)) as Hstop.
  { intros e Hpub Ha' He. unfold batch_done. fold u n. cbn [fst]. rewrite bool_decide_true by done.
    split; [by eapply after_trans|]. split; [done|]. split; [done|]. split.
    - eapply taken_winv; [done|]. by apply with_efds_taken.
    - cbn [efds with_efds]. rewrite He, Ee. split; [|done]. subst pub.
      by destruct (Z.eqb_spec n 0). }
  destruct (decide (err = None_)) as [Eerr|Eerr].
  - rewrite bool_decide_true by done. cbn [negb]. apply wp_bind.
    eapply wp_mono; [by apply (notifyPublished_spec t pub s)|].
    intros ok s1 (e & -> & Ha1 & Hok & Hl). destruct ok; cbn [negb].
    2: { apply wp_ret. rewrite app_nil_r in Hl. by apply Hstop; [apply Hok|..]. }
    apply wp_bind. unfold update_client, set_clients. apply wp_modify.
    pose proof (with_efds_taken _ _ _ _ _ _ e T) as T1.
    rewrite (alter_lookup_insert _ _ fd b')
      by (rewrite (t_clients _ _ _ _ _ _ T1); apply lookup_insert_eq).
    pose proof (compact_taken _ _ _ _ _ _ T1) as T2. cbv zeta in T2.
    set (b2 := Buffer.compact _ _) in *. set (s2 := with_clients _ _) in *.
    assert (Buffer.unread b2 = zdrop n u) as Hu2 by (by destruct (t_unread _ _ _ _ _ _ T2)).
    assert (core false None s2) as K2.
    { apply (small_core _ fd _ b2); [by apply (taken_core false fd bs b b2 s0)|
        cbn [s2 m_clients with_clients]; apply lookup_insert_eq|].
      split; [rewrite Hu2; by apply Herr|].
      pose proof (Buffer.compact_offset b' Buffer.kCompactThreshold eq_refl) as Hoff.
      unfold Buffer.kCompactThreshold in *. fold b2 in Hoff. lia. }
    assert (forall r, r = Some true \/ r = None /\ pr = false -> batch_done fd bs b s0 sa (r, pr) s2) as Hgo.
    { intros r Hr. unfold batch_done. fold u n. cbn [fst snd].
      rewrite bool_decide_false by (destruct Hr as [-> |[-> _]]; done).
      split; [by eapply after_trans; [|exact Ha1]|]. split; [done|]. split; [done|]. split; [done|].
      split.
      - cbn [s2 efds with_clients with_efds]. rewrite Hl, Ee. subst pub. by destruct (n =? 0).
      - split; [done|]. split; [by intros ->; destruct Hr as [|[_ ?]]|].
        apply Herr, Z.ltb_lt in Eerr. rewrite Eerr. exists b2. split; [|done].
        cbn [s2 m_clients with_clients with_efds]. by rewrite (t_clients _ _ _ _ _ _ T), insert_insert_eq. }
    destruct pr; apply wp_ret, Hgo; auto.
  - rewrite bool_decide_false by done. cbn [negb]. apply wp_bind.
    eapply wp_mono; [by apply (notifyPublished_spec t pub s)|].
    intros ok s1 (e & -> & Ha1 & Hok & Hl). destruct ok; cbn [negb].
    2: { apply wp_ret. rewrite app_nil_r in Hl. by apply Hstop; [apply Hok|..]. }
    pose proof (with_efds_taken _ _ _ _ _ _ e T) as T1.
    pose proof (taken_core _ _ _ _ _ _ _ K T1) as K1. apply wp_bind.
    eapply wp_mono; [apply removeClient_spec, K1|]. intros v s2 Hrem. apply wp_ret.
    assert (fd ∈ dom (m_clients (with_efds e s))) as Hin
      by (rewrite (t_clients _ _ _ _ _ _ T1), dom_insert_L; set_solver).
    pose proof (removed_core _ _ fd _ s2 K1 (or_intror eq_refl) Hin Hrem) as K2.
    destruct (removed_frame _ _ _ Hrem) as (Ha2 & Er & Ee2 & El & Es & Epa & Em).
    unfold batch_done. fold u n. cbn [fst snd]. rewrite bool_decide_false by done.
    split; [exact (after_trans _ _ _ Ha (after_trans _ _ _ Ha1 Ha2))|].
    split; [unfold same_mode in *; by rewrite El, Es, Epa|].
    split; [by rewrite Er|]. split; [done|]. split.
    + rewrite Ee2. cbn [efds with_efds]. rewrite Hl, Ee. subst pub. by destruct (n =? 0).
    + split; [unfold headroom; by rewrite Er|]. split; [done|].
      destruct (Z.ltb_spec (zlen (zdrop n u)) kFrameSize) as [Hlt|Hge].
      { by apply Herr in Hlt. }
      split; [|done]. rewrite Em. cbn [m_clients with_efds].
      by rewrite (t_clients _ _ _ _ _ _ T), delete_insert_eq.
Qed.

(** What one [recv] adds to a client's buffer. *)
Lemma append_small fd bs b s :
  core false None s -> m_clients s !! fd = Some b -> zlen bs <= kReadBufferSize ->
  let b1 := Buffer.append bs b in
  Buffer.buffer_ok b1 /\ zlen (Buffer.data b1) < 2 ^ 32 /\
  Buffer.unread b1 = Buffer.unread b ++ bs /\ zlen (Buffer.unread b1) < 8192.
Proof.
  intros K Hb Hlen b1. destruct (w_buffers _ (c_winv _ _ _ K) _ _ Hb) as [Hok Hdl].
  destruct (c_small _ _ _ K _ _ Hb ltac:(done)) as [Hsu Hso].
  pose proof (Buffer.zlen_unread b Hok) as Hlu. pose proof (zlen_nonneg bs).
  assert (zlen (Buffer.data b1) < 2 ^ 32) as Hd1.
  { cbn [b1 Buffer.append Buffer.data]. rewrite zlen_app.
    unfold kFrameSize, Buffer.kCompactThreshold, kReadBufferSize in *. lia. }
  assert (Buffer.unread b1 = Buffer.unread b ++ bs) as Eu by (by apply Buffer.unread_append).
  split_and!; try done.
  - apply Buffer.append_ok; [done|]. cbn [b1 Buffer.append Buffer.data] in Hd1.
    rewrite zlen_app in Hd1. lia.
  - rewrite Eu, zlen_app. unfold kFrameSize, kReadBufferSize in *. lia.
Qed.

(** The limit on a client's input and the full ring never come up. *)
Lemma handle_batch_spec t fd bs b s0 s :
  core false None s0 -> headroom s0 -> m_clients s0 !! fd = Some b ->
  net_to (k_log (Received fd bs) (kv s0)) s0 s -> zlen bs <= kReadBufferSize -> plenty t s ->
  wp t (handle_batch fuel ep fd dfd false bs) (fun res s' => batch_done fd bs b s0 s res s') s.
Proof.
  intros K Hh Hb Hnet Hlen Hp. pose proof (net_to_after _ _ _ Hnet) as Ha.
  destruct Hnet as (n1 & -> & Hk & Hbud). pose proof (c_winv _ _ _ K) as W.
  destruct (append_small fd bs b s0 K Hb Hlen) as (Hok1 & Hd1 & Eu & Hus).
  set (b1 := Buffer.append bs b) in *. rewrite Eu in Hus.
  set (u := Buffer.unread b ++ bs) in *. set (n := valid_bytes u).
  unfold handle_batch. apply wp_bind. unfold update_client, set_clients. apply wp_modify.
  cbn [m_clients with_net]. rewrite (alter_lookup_insert _ _ _ _ Hb). fold b1.
  set (s1 := with_clients _ _). apply wp_bind. unfold client. apply wp_gets.
  assert (m_clients s1 !! fd = Some b1) as Hb1 by apply lookup_insert_eq.
  rewrite Hb1. cbn [default from_option id].
  pose proof (Buffer.pendingBytes_unread b1 Hok1) as Hpend.
  assert ((kMaxClientBuffer <? Buffer.pendingBytes b1) = false) as ->.
  { apply Z.ltb_ge. rewrite Hpend, Eu. unfold kMaxClientBuffer. lia. }
  destruct (validate_frames_spec b1 Hok1) as (err & -> & Herr). rewrite Eu in *. fold n in Herr |- *.
  destruct (valid_bytes_range u) as [Hn [k Hnk]]. fold n in Hn, Hnk.
  assert ((n / kFrameSize =? 0) = (n =? 0)) as ->.
  { rewrite Hnk, Z.div_mul by done. unfold kFrameSize. destruct (Z.eqb_spec k 0), (Z.eqb_spec (k * 32) 0); lia. }
  apply wp_bind. destruct (Z.eqb_spec n 0) as [En|En]; cbn [negb].
  - apply wp_ret. assert (taken fd bs b b1 s0 s1) as T.
    { constructor; try done.
      - cbv zeta. fold u n. rewrite En, zdrop_nonpos, ztake_nonpos, app_nil_r by done. by rewrite Eu.
      - apply W. }
    eapply finish_batch_spec; try done. fold u n. by rewrite En.
  - pose proof (publish_spec t fd false b1 s1 Hb1 Hok1) as HP. cbv zeta in HP. rewrite Eu in HP.
    fold n in HP. eapply wp_mono; [apply HP|]; [done|apply W| |].
    { cbn [s1 ring with_clients with_net]. unfold headroom, kPauseIngressBytes in Hh.
      change Ring.capacityBytes with 4194304. lia. }
    intros r s2 (c & pr & -> & -> & Ho & Hpc & Hpr).
    destruct (Buffer.consume_spec b1 n Hok1 ltac:(rewrite Eu; lia)) as [Hok2 Hu2].
    assert (taken fd bs b (Buffer.consume n b1) s0
      (with_ring c (with_clients (<[fd := Buffer.consume n b1]> (m_clients s1)) s1))) as T.
    { constructor; try done.
      - cbn [m_clients with_ring with_clients s1 with_net]. by rewrite insert_insert_eq.
      - cbv zeta. fold u n. split; [by rewrite Hu2, Eu|done]. }
    eapply finish_batch_spec; try done.
    + intros ->. cbn [ring with_ring]. by apply Hpr.
    + fold u n. by destruct (Z.eqb_spec n 0).
Qed.

(** [readClient] and its loop. *)
Definition read_done s (r : bool * bool) s' : Prop :=
  after s s' /\ same_mode s s' /\
  if r.1 then core false None s' /\ (r.2 = false -> headroom s') else winv s'.

Lemma same_mode_trans s1 s2 s3 : same_mode s1 s2 -> same_mode s2 s3 -> same_mode s1 s3.
Proof. intros (? & ? & ?) (? & ? & ?). unfold same_mode. split_and!; congruence. Qed.

Lemma read_done_after s s1 r s' :
  after s s1 -> same_mode s s1 -> read_done s1 r s' -> read_done s r s'.
Proof.
  intros Ha Hm (Ha1 & Hm1 & HR). split; [by eapply after_trans|].
  split; [by eapply same_mode_trans|done].
Qed.

Lemma remove_read_done t fd s :
  core false None s -> headroom s -> fd ∈ dom (m_clients s) ->
  wp t (removeClient ep fd;;; mret (true, false)) (read_done s) s.
Proof.
  intros K Hh Hin. apply wp_bind. eapply wp_mono; [apply removeClient_spec, K|].
  intros v s2 Hrem. apply wp_ret.
  pose proof (removed_core false None fd s s2 K (or_introl eq_refl) Hin Hrem) as K2.
  destruct (removed_frame _ _ _ Hrem) as (Ha2 & Er & _ & El & Es & Epa & _).
  split; [done|]. split; [done|]. split; [done|]. intros _. unfold headroom. by rewrite Er.
Qed.

Lemma read_loop_spec t fd n s :
  core false None s -> headroom s -> fd ∈ dom (m_clients s) -> plenty t s ->
  (t = true -> (net_budget (net s) < n)%nat) ->
  wp t (read_loop fuel n ep fd dfd false) (read_done s) s.
Proof.
  revert s. induction n as [|n IH]; intros s K Hh Hin Hp Ht; cbn [read_loop].
  { apply wp_out_of_fuel. destruct t; [|done]. specialize (Ht eq_refl). lia. }
  pose proof Hin as [b Hb]%elem_of_dom. apply wp_bind.
  eapply wp_net; [apply recv_law|]. intros r m Hr Hbud Hhap.
  assert (after s (with_net m s)) as Ha by (by split).
  pose proof (plenty_after _ _ _ Hp Ha) as Hp1.
  assert (forall k, kview m = k -> k_equiv (kv s) k -> core false None (with_net m s)) as Hcore.
  { intros k Hk Q. eapply core_equiv; [done| |by constructor|done].
    unfold kv at 2. cbn [net with_net]. by rewrite Hk. }
  assert (forall k, kview m = k -> k_equiv (kv s) k ->
    wp t (removeClient ep fd;;; mret (true, false)) (read_done s) (with_net m s)) as Hrem.
  { intros k Hk Q. eapply wp_mono; [by apply remove_read_done; [eapply Hcore| |]|].
    intros r' s' HR. by eapply read_done_after. }
  destruct r as [bs|e].
  - destruct Hr as [Hlen Hk]. destruct (Z.ltb_spec 0 (zlen bs)) as [Hpos|Hneg].
    + apply wp_bind. eapply wp_mono.
      { apply (handle_batch_spec t fd bs b s); try done. by exists m. }
      intros [res pr] s1 (Ha1 & Hm1 & _ & HB). cbn [fst snd] in *.
      destruct res as [[]|].
      * rewrite bool_decide_false in HB by done. apply wp_ret.
        split; [by eapply after_trans|]. split; [done|]. split; apply HB.
      * rewrite bool_decide_true in HB by done. apply wp_ret.
        split; [by eapply after_trans|]. split; [done|]. apply HB.
      * rewrite bool_decide_false in HB by done. destruct HB as (K1 & _ & Hh1 & Hpr & HC).
        specialize (Hpr eq_refl) as ->. specialize (Hh1 eq_refl).
        assert (fd ∈ dom (m_clients s1)) as Hin1.
        { destruct (_ <? _); [|by destruct HC]. destruct HC as (b1 & -> & _). rewrite dom_insert_L. set_solver. }
        eapply wp_mono; [apply (IH s1 K1 Hh1 Hin1); [by apply (plenty_after _ (with_net m s))|]|].
        { intros Ht'. specialize (Ht Ht'). specialize (Hhap ltac:(cbn; apply negb_true_iff, Z.eqb_neq; lia)).
          destruct Ha1 as [Hb1 _]. cbn [net with_net] in Hb1. lia. }
        intros r s' HR. by apply (read_done_after _ s1); [eapply after_trans| |].
    + assert (bs = []) as -> by (apply zlen_zero; pose proof (zlen_nonneg bs); lia).
      eapply Hrem; [exact Hk|]. eapply eof_equiv; [apply K|done|].
      by apply (c_small _ _ _ K fd).
  - cbn in Hr. destruct (Z.eqb_spec e EINTR) as [->|He].
    + eapply wp_mono; [apply (IH (with_net m s)); try done|].
      * eapply Hcore; [exact Hr|apply k_equiv_refl].
      * intros Ht'. specialize (Ht Ht'). specialize (Hhap eq_refl). cbn [net with_net]. lia.
      * intros r s' HR. by eapply read_done_after.
    + destruct ((e =? EAGAIN) || (e =? EWOULDBLOCK)).
      * apply wp_ret. split; [done|]. split; [done|]. split; [|done].
        eapply Hcore; [exact Hr|apply k_equiv_refl].
      * eapply Hrem; [exact Hr|apply k_equiv_refl].
Qed.

Lemma readClient_spec t fd s :
  core false None s -> headroom s -> plenty t s ->
  wp t (readClient fuel ep fd dfd)
    (fun r s' => read_done s r s' /\ (r.2 = true -> state s = Running)) s.
Proof.
  intros K Hh Hp. unfold readClient. apply wp_bind, wp_get.
  destruct (m_clients s !! fd) as [b|] eqn:Eb.
  - assert (state s = Running) as Es.
    { pose proof (c_state _ _ _ K) as Hst. destruct (state s); [done|].
      destruct Hst as [_ Em]. by rewrite Em, lookup_empty in Eb. }
    eapply wp_mono; [apply read_loop_spec; try done|].
    + by apply elem_of_dom_2 in Eb.
    + intros Ht. by apply Hp.
    + by intros r s' HR.
  - apply wp_ret. split; [|done]. split; [apply after_refl|]. by split.
Qed.

(** ** Back pressure *)

Lemma k_watch_same k : k_watch (k_interest k) k = k.
Proof. by destruct k. Qed.

Lemma net_to_trans k1 k2 s1 s2 s3 : net_to k1 s1 s2 -> net_to k2 s2 s3 -> net_to k2 s1 s3.
Proof.
  intros (n1 & -> & _ & Hb1) (n2 & -> & Hk & Hb2). exists n2. split; [done|]. split; [done|].
  cbn [net with_net] in Hb2. lia.
Qed.

Lemma net_to_kv k s s' : net_to k s s' -> kv s' = k.
Proof. by intros (n & -> & Hk & _). Qed.

Lemma update_clients_spec t fds en s :
  k_epoll (kv s) = Some ep ->
  wp t (update_clients ep fds en) (fun ok s' => exists I, net_to (k_watch I (kv s)) s s' /\
    (ok = true -> forall fd, I !! fd =
      if decide (fd ∈ fds) then (if en then Some (watch fd clientEvents) else None)
      else k_interest (kv s) !! fd)) s.
Proof.
  revert s. induction fds as [|fd fds IH]; intros s He; cbn [update_clients].
  { apply wp_ret. exists (k_interest (kv s)). rewrite k_watch_same.
    split; [by exists (net s); destruct s|]. intros _ fd. by rewrite decide_False by apply not_elem_of_nil. }
  set (I1 := if en then <[fd := watch fd clientEvents]> (k_interest (kv s))
             else delete fd (k_interest (kv s))).
  apply wp_bind. apply (wp_mono _ _ (fun ok s' =>
    net_to (if (ok : bool) then k_watch I1 (kv s) else kv s) s s')).
  { unfold I1. destruct en.
    - eapply wp_mono; [by apply addEpollFd_spec|]. intros [] s'; [by intros [_ ?]|done].
    - eapply wp_mono; [by apply removeEpollFd_spec|]. by intros [] s'. }
  intros ok s1 Hnet. destruct ok; cbn [negb].
  - pose proof (net_to_kv _ _ _ Hnet) as Hk1.
    eapply wp_mono; [apply IH; by rewrite Hk1|].
    intros ok s2 (I & Hnet2 & HI). exists I. rewrite Hk1 in Hnet2, HI.
    split; [by eapply net_to_trans|]. intros Hok fd'. rewrite (HI Hok). cbn [k_interest k_watch].
    destruct (decide (fd' ∈ fds)) as [Hin|Hin].
    + rewrite decide_True by (by right). done.
    + unfold I1. destruct (decide (fd' = fd)) as [->|Hne].
      * rewrite decide_True by (by left). destruct en; [by rewrite lookup_insert_eq|by rewrite lookup_delete_eq].
      * rewrite decide_False by (rewrite elem_of_cons; naive_solver).
        destruct en; [by rewrite lookup_insert_ne|by rewrite lookup_delete_ne].
  - apply wp_ret. exists (k_interest (kv s)). rewrite k_watch_same. split; [done|]. done.
Qed.

(** Only what is watched has changed. *)
Lemma rewatched_winv I s s' : winv s -> net_to (k_watch I (kv s)) s s' -> winv s'.
Proof.
  intros W Hnet. pose proof (net_to_kv _ _ _ Hnet) as Hk. destruct Hnet as (n & -> & _ & _).
  destruct W. constructor; rewrite ?Hk; done.
Qed.

Lemma rewatched_core p q I s s' :
  core p None s -> net_to (k_watch I (kv s)) s s' -> (forall fd, I !! fd = expected q s fd) ->
  core q None s'.
Proof.
  intros K Hnet HI. pose proof (rewatched_winv _ _ _ (c_winv _ _ _ K) Hnet) as W.
  pose proof (net_to_kv _ _ _ Hnet) as Hk. destruct Hnet as (n & -> & _ & _).
  constructor; try done; try apply K; rewrite Hk; cbn [k_interest k_watch k_trace]; [|apply K].
  intros fd. by rewrite HI.
Qed.

Lemma listen_not_given s : winv s -> ~ (listen_fd s = sfd \/ listen_fd s = gfd).
Proof.
  intros W. destruct ext_fds as (Hs & Hg & Hm). destruct (w_listen _ W) as [E1|[_ Hout]].
  - apply Hm in Hs, Hg. lia.
  - apply not_elem_of_union in Hout as [Hout _]. intros [Ef|Ef]; by rewrite Ef in Hout.
Qed.

(** Pausing takes every client out of [epoll] and reads no more from the listening
    socket; resuming puts them back. *)
Lemma updateIngressInterest_spec t en s :
  core en None s -> listen_fd s <> -1 ->
  wp t (updateIngressInterest ep (listen_fd s) en) (fun ok s' =>
    (exists I, net_to (k_watch I (kv s)) s s') /\
    if ok then core (negb en) None s' else winv s') s.
Proof.
  intros K Hl. pose proof (c_winv _ _ _ K) as W. pose proof (w_epoll _ W) as He.
  unfold updateIngressInterest. apply wp_bind.
  eapply wp_mono; [by apply modifyEpollFd_spec|]. intros ok s1 Hnet1.
  destruct ok; cbn [negb].
  2: { apply wp_ret. rewrite <- (k_watch_same (kv s)) in Hnet1.
       split; [by eexists|by eapply rewatched_winv]. }
  pose proof (net_to_kv _ _ _ Hnet1) as Hk1. apply wp_bind, wp_get.
  eapply wp_mono; [apply update_clients_spec; by rewrite Hk1|].
  intros ok s2 (I & Hnet2 & HI). rewrite Hk1 in Hnet2, HI.
  pose proof (net_to_trans _ _ _ _ _ Hnet1 Hnet2) as Hnet. 
  change (k_watch I (k_watch _ (kv s))) with (k_watch I (kv s)) in Hnet.
  split; [by exists I|]. destruct ok; [|by eapply rewatched_winv].
  eapply rewatched_core; [done..|]. intros fd. rewrite (HI eq_refl).
  destruct Hnet1 as (n1 & -> & _ & _). cbn [m_clients with_net k_interest k_watch].
  rewrite (decide_ext _ (fd ∈ dom (m_clients s)) _ _ (fds_of_elem _ _)).
  unfold expected. destruct (decide (fd ∈ dom (m_clients s))) as [Hd|Hd].
  - pose proof (w_clients _ W fd Hd) as [Hfd Hout].
    rewrite decide_False by (destruct ext_fds as (? & ? & ?); intros [-> | ->]; set_solver).
    rewrite decide_False by (rewrite <- elem_of_listen_set; set_solver). by destruct en.
  - destruct (decide (fd = listen_fd s)) as [->|Hne].
    + rewrite lookup_insert_eq. rewrite decide_False by (by apply listen_not_given).
      rewrite decide_True by done. by destruct en.
    + rewrite lookup_insert_ne by done. rewrite (c_watch _ _ _ K). unfold expected.
      case_decide; [done|]. rewrite !decide_False by (naive_solver). done.
Qed.

(** ** Accepting clients *)

Lemma not_open fd s :
  winv s -> fd ∉ k_open (kv s) ->
  fd ∉ ext /\ fd <> ep /\ fd ∉ listen_set s /\ fd ∉ dom (m_clients s).
Proof. intros W. rewrite (w_open _ W). set_solver. Qed.

(** A descriptor of the server's own is not one of those it was given. *)
Lemma own_not_given fd : fd ∉ ext -> ~ (fd = sfd \/ fd = gfd).
Proof. destruct ext_fds as (Hs & Hg & _). by intros Hn [-> | ->]. Qed.

Lemma not_open_unwatched p x fd s : core p x s -> fd ∉ k_open (kv s) -> k_interest (kv s) !! fd = None.
Proof.
  intros K Hn. rewrite (c_watch _ _ _ K).
  destruct (not_open fd s (c_winv _ _ _ K) Hn) as (H1' & H2' & H3' & H4').
  unfold expected. rewrite decide_False by (by apply own_not_given).
  rewrite decide_False by (by rewrite <- elem_of_listen_set). by rewrite decide_False.
Qed.

Definition accepted (fd : Z) s : KView := k_log (Accepted fd) (k_add fd (kv s)).

Lemma accepted_core fd s n :
  core false None s -> state s = Running -> 0 <= fd -> fd ∉ k_open (kv s) ->
  kview n = k_watch (<[fd := watch fd clientEvents]> (k_interest (kv s))) (accepted fd s) ->
  core false None (with_clients (<[fd := Buffer.new_buffer]> (m_clients s)) (with_net n s)).
Proof.
  intros K Hst Hfd Hn Hk. pose proof (c_winv _ _ _ K) as W.
  destruct (not_open fd s W Hn) as (Hext & Hep & Hls & Hcl).
  assert (m_clients s !! fd = None) as Hnone by (by apply not_elem_of_dom).
  constructor; [constructor|..]; unfold kv, listen_set;
    cbn [net ring m_clients listen_fd state with_clients with_net];
    rewrite ?Hk; cbn [k_watch accepted k_log k_add k_open k_epoll k_interest k_trace]; try apply W.
  - rewrite (w_open _ W), dom_insert_L. fold (listen_set s). set_solver.
  - intros fd'. rewrite dom_insert_L. fold (listen_set s). intros [Hi|Hi]%elem_of_union.
    + apply elem_of_singleton in Hi as ->. split; [done|]. set_solver.
    + by apply (w_clients _ W).
  - intros fd' b [[<- <-]|[_ Hb]]%lookup_insert_Some; [|by apply (w_buffers _ W fd')].
    split; [apply Buffer.new_buffer_ok|by vm_compute].
  - rewrite ingest_snoc. cbn [ingest_step backlog]. by rewrite (w_backlog _ W), fmap_insert.
  - rewrite ingest_snoc. cbn [ingest_step published]. apply W.
  - intros fd' b [[<- <-]|[_ Hb]]%lookup_insert_Some _; [|by apply (c_small _ _ _ K fd')].
    by vm_compute.
  - pose proof (c_state _ _ _ K) as Hs. rewrite Hst in Hs |- *. done.
  - intros fd'. destruct (decide (fd' = fd)) as [->|Hne].
    + rewrite lookup_insert_eq. unfold expected. cbn [listen_fd m_clients with_clients with_net].
      rewrite decide_False by (by apply own_not_given).
      rewrite decide_False by (by rewrite <- elem_of_listen_set).
      rewrite decide_True; [done|]. rewrite dom_insert_L. set_solver.
    + rewrite lookup_insert_ne by done. rewrite (c_watch _ _ _ K). unfold expected.
      cbn [listen_fd m_clients with_clients with_net]. case_decide; [done|]. case_decide; [done|].
      assert (fd' ∈ dom (m_clients s) <-> fd' ∈ dom (<[fd := Buffer.new_buffer]> (m_clients s))) as Hiff
        by (rewrite dom_insert_L; set_solver).
      by rewrite (decide_ext _ _ _ _ Hiff).
  - rewrite signals_snoc, app_nil_r. apply K.
Qed.

(** A connection that could not be watched is closed again. *)
Lemma accept_undone p x fd s :
  core p x s -> fd ∉ k_open (kv s) -> k_equiv (kv s) (k_shut fd (accepted fd s)).
Proof.
  intros K Hn. pose proof (c_winv _ _ _ K) as W.
  destruct (not_open fd s W Hn) as (Hext & Hep & Hls & Hcl).
  pose proof (not_open_unwatched p x fd s K Hn) as Hun.
  rewrite k_shut_other by (done || apply W). unfold accepted.
  constructor; cbn [k_open k_epoll k_interest k_trace k_log k_add].
  - set_solver.
  - symmetry. apply W.
  - by apply delete_id.
  - rewrite !ingest_snoc. cbn [ingest_step backlog published]. rewrite delete_insert_id.
    + by destruct (ingest _).
    + rewrite (w_backlog _ W), lookup_fmap. by apply not_elem_of_dom in Hcl as ->.
  - by rewrite !signals_snoc, !app_nil_r.
Qed.

(** What [acceptClients] keeps, whatever it returns. *)
Definition accept_done s s' : Prop :=
  after s s' /\ same_mode s s' /\ ring s' = ring s /\ efds s' = efds s /\ core false None s'.

Lemma accept_done_trans s1 s2 s3 : accept_done s1 s2 -> accept_done s2 s3 -> accept_done s1 s3.
Proof.
  intros (A1 & M1 & R1 & E1 & K1) (A2 & M2 & R2 & E2 & K2).
  split; [by eapply after_trans|]. split; [by eapply same_mode_trans|].
  split; [congruence|]. split; [congruence|done].
Qed.

Lemma accept_loop_spec t n lfd s :
  core false None s -> state s = Running -> plenty t s ->
  (t = true -> (net_budget (net s) < n)%nat) ->
  wp t (accept_loop n ep lfd) (fun _ s' => accept_done s s') s.
Proof.
  revert s. induction n as [|n IH]; intros s K Hst Hp Ht; cbn [accept_loop].
  { apply wp_out_of_fuel. destruct t; [|done]. specialize (Ht eq_refl). lia. }
  apply wp_bind. eapply wp_net; [apply accept4_law|]. intros r m Hr Hbud Hhap.
  pose proof (c_winv _ _ _ K) as W.
  assert (forall s1, accept_done s s1 -> (net_budget (net s1) <= net_budget m)%nat ->
    ok_or_intr r = true -> wp t (accept_loop n ep lfd) (fun _ s' => accept_done s s') s1) as Hnext.
  { intros s1 HD Hb1 Hok. pose proof HD as (A1 & (_ & Es & _) & _ & _ & K1).
    eapply wp_mono; [apply (IH s1 K1); [congruence|by eapply plenty_after|]|].
    - intros Ht'. specialize (Ht Ht'). specialize (Hhap Hok). lia.
    - intros b s2 HD2. by eapply accept_done_trans. }
  assert (forall e, r = Err e -> accept_done s (with_net m s)) as Herr.
  { intros e ->. cbn in Hr. split; [by split|]. do 3 (split; [done|]).
    eapply core_equiv; [done| |by constructor|done].
    unfold kv at 2. cbn [net with_net]. rewrite Hr. apply k_equiv_refl. }
  destruct r as [fd|e].
  - destruct Hr as (Hfd & Hnew & Hk). fold (accepted fd s) in Hk.
    destruct (not_open fd s W Hnew) as (_ & Hep & _ & Hcl).
    assert (k_epoll (kv (with_net m s)) = Some ep) as He
      by (unfold kv; cbn [net with_net]; rewrite Hk; apply W).
    apply wp_bind. eapply wp_mono; [by apply addEpollFd_spec|].
    intros ok s1 HB. destruct ok; cbn [negb].
    + destruct HB as (_ & n1 & -> & Hk1 & Hb1). apply wp_bind. unfold set_clients. apply wp_modify.
      cbn [m_clients with_net]. apply not_elem_of_dom in Hcl as Hnone. rewrite Hnone.
      apply Hnext; [|done|done]. split; [split; cbn [net efds with_clients with_net] in *; lia|].
      do 3 (split; [done|]). apply (accepted_core fd s n1); try done.
      unfold kv in Hk1. cbn [net with_net] in Hk1. rewrite Hk in Hk1. exact Hk1.
    + destruct HB as (n1 & -> & Hk1 & Hb1). apply wp_bind.
      eapply wp_mono; [apply close_spec|]. intros u s2 (n2 & -> & Hk2 & Hb2).
      unfold kv in Hk1, Hk2. cbn [net with_net] in *. rewrite Hk1, Hk in Hk2.
      apply Hnext; [|cbn [net with_net] in *; lia|done].
      split; [split; cbn [net efds with_clients with_net] in *; lia|]. do 3 (split; [done|]).
      eapply core_equiv; [done| |by constructor|done].
      unfold kv at 2. cbn [net with_net]. rewrite Hk2. by eapply accept_undone.
  - destruct ((e =? EAGAIN) || (e =? EWOULDBLOCK)); [by apply wp_ret, (Herr e)|].
    destruct (Z.eqb_spec e EINTR) as [->|He]; [|by apply wp_ret, (Herr e)].
    apply Hnext; [by apply (Herr EINTR)|done|done].
Qed.

(** ** Events *)

(** What handling an event keeps, and when a pause may end. *)
Definition event_done s (ok : bool) s' : Prop :=
  after s s' /\ listen_fd s' = listen_fd s /\ state s' = state s /\
  (if ok then sinv s' else winv s') /\
  (ingressPaused s = true -> ingressPaused s' = false ->
     state s = Running /\ queued (ring s') <= kResumeIngressBytes).

(** A move that leaves the kernel, the clients and the modes. *)
Lemma core_moved p x s s' :
  core p x s -> net s' = net s -> alike s s' -> state s' = state s -> core p x s'.
Proof.
  intros K En A Es. eapply core_equiv; [done| |done..]. unfold kv. rewrite En. apply k_equiv_refl.
Qed.

Lemma efds_core p x s e : core p x s -> core p x (with_efds e s).
Proof. intros K. by eapply core_moved; [done|done|constructor|]. Qed.

Lemma paused_core p x s b : core p x s -> core p x (with_paused b s).
Proof. intros K. by eapply core_moved; [done|done|constructor|]. Qed.

Lemma ring_core p x s c :
  core p x s -> pushed c = pushed (ring s) -> ring_open c -> core p x (with_ring c s).
Proof. intros K Hp Ho. by eapply core_moved; [done|done|constructor|]. Qed.

Lemma winv_event s s' : after s s' -> same_mode s s' -> winv s' -> event_done s false s'.
Proof.
  intros Ha (El & Es & Ep) W. do 3 (split; [done|]). split; [done|]. intros E1 E2. congruence.
Qed.

Lemma sinv_event s s' ok :
  after s s' -> same_mode s s' -> core (ingressPaused s) None s' ->
  (ingressPaused s = false -> headroom s') -> event_done s ok s'.
Proof.
  intros Ha (El & Es & Ep) K Hh. do 3 (split; [done|]). split.
  - destruct ok; [|apply K]. split; by rewrite Ep.
  - intros E1 E2. congruence.
Qed.

(** The check that ends the handling of a listening socket or the space event. *)
Lemma event_flags t (m : M st bool) bad s s0 :
  wp t m (event_done s0) s ->
  wp t (ok ← m; if negb ok then mret false else if (bad : bool) then mret false else mret true)
    (event_done s0) s.
Proof.
  intros Hm. apply wp_bind. eapply wp_mono; [exact Hm|]. intros ok s' HD.
  destruct ok; cbn [negb]; [|by apply wp_ret]. destruct bad; apply wp_ret; [|exact HD].
  destruct HD as (Ha & El & Es & HS & Hr). do 3 (split; [done|]). split; [|done].
  apply (proj1 HS).
Qed.

Lemma listen_event_spec t b s :
  sinv s -> listen_fd s <> -1 -> plenty t s ->
  wp t (if negb (ingressPaused s) && b then acceptClients fuel ep (listen_fd s) else mret true)
    (event_done s) s.
Proof.
  intros [K Hh] Hl Hp. destruct (negb (ingressPaused s) && b) eqn:Eb.
  - apply andb_true_iff in Eb as [Epa _]. apply negb_true_iff in Epa.
    pose proof (c_state _ _ _ K) as Hst. rewrite Epa in K.
    eapply wp_mono; [apply (accept_loop_spec t fuel (listen_fd s) s K)|].
    + destruct (state s); [done|]. by destruct Hst.
    + done.
    + intros Ht. by apply Hp.
    + intros ok s' (Ha & Hm & Er & _ & K'). apply sinv_event; try done; rewrite ?Epa; [done|].
      intros _. unfold headroom. rewrite Er. by apply Hh.
  - apply wp_ret. by apply sinv_event.
Qed.

Lemma after_steps s s1 s' : after s s1 -> same_mode s s1 -> ring s1 = ring s ->
  forall ok, event_done s1 ok s' -> event_done s ok s'.
Proof.
  intros Ha (El & Es & Ep) Er ok (Ha' & El' & Es' & HS & Hr).
  split; [by eapply after_trans|]. split; [congruence|]. split; [congruence|]. split; [done|].
  intros E1 E2. rewrite <- Es. apply Hr; [congruence|done].
Qed.

(** Ending a pause. *)
Lemma resume_spec t s :
  core true None s -> ingressPaused s = true -> state s = Running ->
  queued (ring s) <= kResumeIngressBytes ->
  wp t (ok ← updateIngressInterest ep (listen_fd s) true;
        if negb ok then mret false else set_paused false;;; mret true) (event_done s) s.
Proof.
  intros K Epa Est Hq. pose proof (c_state _ _ _ K) as Hl. rewrite Est in Hl.
  apply wp_bind. eapply wp_mono; [by apply updateIngressInterest_spec|].
  intros ok s1 [(I & Hnet) HB]. pose proof (net_to_after _ _ _ Hnet) as Ha.
  destruct Hnet as (n & -> & _ & _). destruct ok; cbn [negb].
  - apply wp_bind. unfold set_paused. apply wp_modify, wp_ret.
    do 3 (split; [done|]). split; [|by split]. split; [by apply paused_core|].
    intros _. unfold headroom. cbn [ring with_net with_paused].
    unfold kResumeIngressBytes, kPauseIngressBytes in *. lia.
  - apply wp_ret. by apply winv_event.
Qed.

Lemma space_event_spec t b s :
  sinv s -> plenty t s -> space_ready t ->
  wp t (if (b : bool) then
          ok ← on_efds (consumeEvent fuel sfd);
          if negb ok then mret false
          else
            resume ← (if bool_decide (state s = Running) && ingressPaused s then
                        pending ← on_ring p_pendingBytes;
                        mret (pending <=? kResumeIngressBytes)
                      else mret false);
            if (resume : bool) then
              ok ← updateIngressInterest ep (listen_fd s) true;
              if negb ok then mret false else set_paused false;;; mret true
            else mret true
        else mret true) (event_done s) s.
Proof.
  intros [K Hh] Hp Hsp. destruct b; [|by apply wp_ret, sinv_event].
  apply wp_bind. unfold on_efds. apply wp_lift.
  eapply wp_mono; [apply consumeEvent_spec; [done|intros Ht; by apply Hp]|].
  intros ok e [_ Hb]. assert (after s (with_efds e s)) as Ha by (by split).
  pose proof (efds_core _ _ _ e K) as K1.
  destruct ok; cbn [negb]; [|apply wp_ret; by apply sinv_event].
  apply wp_bind. destruct (bool_decide (state s = Running) && ingressPaused s) eqn:Eb.
  2: { apply wp_ret, wp_ret. by apply sinv_event. }
  apply andb_true_iff in Eb as [Est%bool_decide_eq_true Epa].
  apply wp_bind. unfold on_ring. apply wp_lift, wp_call. cbn [ring with_efds].
  intros p c Hc. destruct (pending_law _ _ _ (w_ring _ (c_winv _ _ _ K)) Hc) as (Ho & Hpc & Hq).
  apply wp_ret. set (s2 := with_ring c (with_efds e s)).
  assert (core true None s2) as K2 by (rewrite Epa in K1; by apply ring_core).
  destruct (Z.leb_spec p kResumeIngressBytes) as [Hle|Hgt].
  - eapply wp_mono; [apply (resume_spec t s2 K2 Epa Est); cbn [s2 ring with_ring]; lia|].
    intros ok s' (Ha' & El' & Es' & HS & Hr). split; [by eapply after_trans|].
    do 2 (split; [done|]). split; [done|]. by intros; apply Hr.
  - apply wp_ret. apply sinv_event; try done; rewrite Epa; [done|discriminate].
Qed.

(** Starting a pause, after a client that asked for it. *)
Lemma pause_spec t s :
  core false None s -> ingressPaused s = false -> state s = Running ->
  wp t (ok ← updateIngressInterest ep (listen_fd s) false;
        if negb ok then mret (Some false) else set_paused true;;; mret (Some true))
    (fun r s' => exists ok, r = Some ok /\ event_done s ok s') s.
Proof.
  intros K Epa Est. pose proof (c_state _ _ _ K) as Hl. rewrite Est in Hl.
  apply wp_bind. eapply wp_mono; [by apply updateIngressInterest_spec|].
  intros ok s1 [(I & Hnet) HB]. pose proof (net_to_after _ _ _ Hnet) as Ha.
  destruct Hnet as (n & -> & _ & _). destruct ok; cbn [negb].
  - apply wp_bind. unfold set_paused. apply wp_modify, wp_ret. exists true. split; [done|].
    do 3 (split; [done|]). split; [|intros E1; congruence].
    split; [by apply paused_core|]. discriminate.
  - apply wp_ret. exists false. split; [done|]. by apply winv_event.
Qed.

Lemma event_done_running s s1 ok s' :
  after s s1 -> same_mode s s1 -> ingressPaused s = false -> event_done s1 ok s' -> event_done s ok s'.
Proof.
  intros Ha (El & Es & Ep) Epa (Ha' & El' & Es' & HS & Hr).
  split; [by eapply after_trans|]. split; [congruence|]. split; [congruence|]. split; [done|].
  intros E1. congruence.
Qed.

Lemma client_event_spec t fd b s :
  sinv s -> plenty t s ->
  wp t (if negb (ingressPaused s) && b then
          r ← readClient fuel ep fd dfd;
          if negb r.1 then mret (Some false)
          else if (r.2 : bool) then
            ok ← updateIngressInterest ep (listen_fd s) false;
            if negb ok then mret (Some false) else set_paused true;;; mret (Some true)
          else mret None
        else mret None)
    (fun r s' => match r with
                 | Some ok => event_done s ok s'
                 | None => event_done s true s' /\ ingressPaused s' = ingressPaused s
                 end) s.
Proof.
  intros [K Hh] Hp. destruct (negb (ingressPaused s) && b) eqn:Eb.
  2: { apply wp_ret. split; [|done]. by apply sinv_event. }
  apply andb_true_iff in Eb as [Epa _]. apply negb_true_iff in Epa.
  specialize (Hh Epa). rewrite Epa in K.
  apply wp_bind. eapply wp_mono; [by apply readClient_spec|].
  intros [ok pr] s1 [(Ha & Hm & HR) Hrun]. cbn [fst snd] in *. pose proof Hm as (El & Es & Ep).
  destruct ok; cbn [negb].
  2: { apply wp_ret. by apply winv_event. }
  destruct HR as [K1 Hh1]. destruct pr.
  - rewrite <- El. eapply wp_mono; [apply pause_spec; [done|congruence|rewrite Es; by apply Hrun]|].
    intros r s2 (ok & -> & HD). by eapply event_done_running.
  - apply wp_ret. split; [|done]. apply sinv_event; try done; rewrite Epa; [done|].
    intros _. by apply Hh1.
Qed.

Lemma handleEvent_spec t ev s :
  sinv s -> 0 <= event_fd ev -> plenty t s -> space_ready t ->
  wp t (handleEvent fuel ev ep (listen_fd s) dfd sfd) (event_done s) s.
Proof.
  intros S Hfd Hp Hsp. unfold handleEvent. apply wp_bind, wp_get.
  destruct (Z.eqb_spec (event_fd ev) (listen_fd s)) as [Ef|Ef].
  { apply event_flags, listen_event_spec; [done|lia|done]. }
  destruct (Z.eqb_spec (event_fd ev) sfd) as [Ef2|Ef2].
  { by apply event_flags, space_event_spec. }
  apply wp_bind. eapply wp_mono; [by apply client_event_spec|].
  intros [ok|] s1; [by intros; apply wp_ret|]. intros [HD Epa].
  apply wp_bind, wp_get. destruct (ingressPaused s1) eqn:Ep1; [by apply wp_ret|].
  apply wp_bind. destruct HD as (Ha & El & Es & [K1 Hh1] & Hr).
  assert (event_done s true s1) as HD by (split; [done|]; do 2 (split; [done|]); by split).
  destruct (has_any _ _); [|by apply wp_ret, wp_ret].
  destruct (m_clients s1 !! event_fd ev) as [b|] eqn:Eb; [|by apply wp_ret, wp_ret].
  eapply wp_mono; [apply removeClient_spec, K1|]. intros u s2 Hrem. apply wp_ret.
  apply elem_of_dom_2 in Eb. rewrite Ep1 in K1.
  pose proof (removed_core _ None _ s1 s2 K1 (or_introl eq_refl) Eb Hrem) as K2.
  destruct (removed_frame _ _ _ Hrem) as (Ha2 & Er2 & _ & El2 & Es2 & Ep2 & _).
  apply sinv_event.
  - by eapply after_trans.
  - unfold same_mode. split_and!; congruence.
  - by rewrite <- Epa.
  - intros _. unfold headroom. rewrite Er2. by apply Hh1.
Qed.

(** ** Signals *)

Definition k_signals (infos : list signalfd_siginfo) (k : KView) : KView :=
  {| k_open := k_open k; k_epoll := k_epoll k; k_interest := k_interest k;
     k_trace := k_trace k ++ map Signalled infos |}.

Lemma k_signals_nil k : k_signals [] k = k.
Proof. unfold k_signals. rewrite app_nil_r. by destruct k. Qed.

Lemma k_signals_cons i infos k :
  k_signals infos (k_log (Signalled i) k) = k_signals (i :: infos) k.
Proof. unfold k_signals, k_log. cbn. by rewrite <- app_assoc. Qed.

Lemma ingest_signals trace infos : ingest (trace ++ map Signalled infos) = ingest trace.
Proof.
  induction infos as [|i infos IH] using rev_ind; [by rewrite app_nil_r|].
  rewrite map_app, app_assoc. cbn [map]. by rewrite ingest_snoc.
Qed.

Lemma signals_signals trace infos : signals (trace ++ map Signalled infos) = signals trace ++ infos.
Proof.
  unfold signals. rewrite omap_app. f_equal. induction infos as [|i infos IH]; [done|].
  cbn. f_equal. exact IH.
Qed.

(** Every pending signal is read, and remembered by what it asks for. *)
Definition signals_read s (st0 : SignalState) (r : bool * SignalState) s' : Prop :=
  exists infos, net_to (k_signals infos (kv s)) s s' /\
    shutdownRequested r.2 = shutdownRequested st0 || existsb asks_to_stop infos /\
    readerTerminated r.2 = readerTerminated st0 || existsb (reader_gone pid) infos.

(** The state after one signal. *)
Lemma signal_step_state i st0 :
  let st1 :=
    if asks_to_stop i then {| shutdownRequested := true; readerTerminated := readerTerminated st0 |}
    else if ssi_signo i =? SIGCHLD then
      if negb (ssi_pid i =? u32 pid) then st0
      else if (ssi_code i =? CLD_EXITED) || (ssi_code i =? CLD_KILLED) || (ssi_code i =? CLD_DUMPED)
           then {| shutdownRequested := shutdownRequested st0; readerTerminated := true |}
           else st0
    else st0 in
  shutdownRequested st1 = shutdownRequested st0 || asks_to_stop i /\
  readerTerminated st1 = readerTerminated st0 || reader_gone pid i.
Proof.
  unfold reader_gone. destruct (asks_to_stop i) eqn:Ea.
  - assert ((ssi_signo i =? SIGCHLD) = false) as ->.
    { unfold asks_to_stop in Ea. apply orb_true_iff in Ea as [Ea|Ea]; apply Z.eqb_eq in Ea; by rewrite Ea. }
    cbn. by rewrite orb_true_r, orb_false_r.
  - rewrite orb_false_r. destruct (ssi_signo i =? SIGCHLD); cbn [andb]; [|by rewrite orb_false_r].
    destruct (ssi_pid i =? u32 pid); cbn [andb negb]; [|by rewrite orb_false_r].
    destruct (_ || _); cbn; by rewrite ?orb_true_r, ?orb_false_r.
Qed.

(** Signals are read on after a whole record and after an interruption; there are no
    more when the call would wait. *)
Definition read_on (r : sysres (Z * signalfd_siginfo)) : bool :=
  match r with Ok (n, _) => n =? sizeof_siginfo | Err e => e =? EINTR end.
Definition none_left (r : sysres (Z * signalfd_siginfo)) : bool :=
  match r with Ok _ => false | Err e => (e =? EAGAIN) || (e =? EWOULDBLOCK) end.
Definition infos_of (rs : list (sysres (Z * signalfd_siginfo))) : list signalfd_siginfo :=
  omap (fun r => match r with Ok (_, i) => Some i | Err _ => None end) rs.

(** The calls of [handleSignalFd], and what comes out: it stops at the first answer
    that is neither a record nor an interruption. *)
Definition signals_exact (fd : Z) (s : st) (st0 : SignalState) (r : bool * SignalState) (s' : st)
  : Prop :=
  exists got last, answers (sys (read_siginfo fd)) s (got ++ [last]) s' /\
    Forall (fun a => read_on a = true) got /\ read_on last = false /\ r.1 = none_left last /\
    shutdownRequested r.2 = shutdownRequested st0 || existsb asks_to_stop (infos_of got) /\
    readerTerminated r.2 = readerTerminated st0 || existsb (reader_gone pid) (infos_of got) /\
    s' = with_net (net s') s /\ kv s' = k_signals (infos_of got) (kv s).

(** The signal a call has taken from the queue is logged. *)
Lemma siginfo_kview fd (n : N) a m :
  read_siginfo fd n = (a, m) -> kview m = if read_on a then k_signals (infos_of [a]) (kview n) else kview n.
Proof.
  intros Hf. destruct (read_siginfo_law fd _ _ _ Hf) as (Hp & _). destruct a as [[k i]|e]; cbn in *.
  - rewrite Hp. destruct (k =? sizeof_siginfo); [|done]. by rewrite <- k_signals_cons, k_signals_nil.
  - rewrite Hp. unfold infos_of. cbn. rewrite k_signals_nil. by destruct (e =? EINTR).
Qed.

Lemma k_signals_app a b k : k_signals b (k_signals a k) = k_signals (a ++ b) k.
Proof. unfold k_signals. cbn. by rewrite map_app, app_assoc. Qed.

Lemma sys_answer {A} (f : N -> A * N) (s : st) :
  sys f s = Some ((f (net s)).1, with_net (f (net s)).2 s).
Proof. unfold sys, lift, call. by destruct (f (net s)). Qed.

Lemma signals_exact_cons fd s st0 st1 a m r s' :
  read_siginfo fd (net s) = (a, m) -> read_on a = true ->
  shutdownRequested st1 = shutdownRequested st0 || existsb asks_to_stop (infos_of [a]) ->
  readerTerminated st1 = readerTerminated st0 || existsb (reader_gone pid) (infos_of [a]) ->
  signals_exact fd (with_net m s) st1 r s' -> signals_exact fd s st0 r s'.
Proof.
  intros Hf Ha E1 E2 (got & last & Hans & Hgot & Hlast & Hr & ES & ET & Es & Ek). exists (a :: got), last.
  split_and!; [|by constructor|done..| | |done|].
  - eapply answers_one; [|exact Hans]. by rewrite sys_answer, Hf.
  - rewrite ES, E1. unfold infos_of. cbn. destruct a as [[??]|?]; cbn; by rewrite ?orb_false_r, ?orb_assoc.
  - rewrite ET, E2. unfold infos_of. cbn. destruct a as [[??]|?]; cbn; by rewrite ?orb_false_r, ?orb_assoc.
  - rewrite Ek. pose proof (siginfo_kview _ _ _ _ Hf) as Hk. rewrite Ha in Hk.
    unfold kv. cbn [net with_net]. rewrite Hk, k_signals_app. by destruct a as [[??]|?].
Qed.

Lemma signals_exact_last fd s st0 a m :
  read_siginfo fd (net s) = (a, m) -> read_on a = false ->
  signals_exact fd s st0 (none_left a, st0) (with_net m s).
Proof.
  intros Hf Ha. exists [], a. split_and!; try done; cbn; rewrite ?orb_false_r; try done.
  - eapply answers_one; [|constructor]. by rewrite sys_answer, Hf.
  - pose proof (siginfo_kview _ _ _ _ Hf) as Hk. rewrite Ha in Hk. by rewrite k_signals_nil.
Qed.

Lemma signal_loop_exact t n fd st0 s :
  (t = true -> (net_budget (net s) < n)%nat) ->
  wp t (signal_loop n fd pid st0) (signals_exact fd s st0) s.
Proof.
  revert st0 s. induction n as [|n IH]; intros st0 s Ht; cbn [signal_loop].
  { apply wp_out_of_fuel. destruct t; [|done]. specialize (Ht eq_refl). lia. }
  apply wp_bind. unfold wp at 1. rewrite sys_answer.
  destruct (read_siginfo fd (net s)) as [r m] eqn:Hf. cbn [fst snd].
  destruct (read_siginfo_law fd _ _ _ Hf) as (_ & Hbud & Hhap).
  assert (forall st1, read_on r = true ->
    shutdownRequested st1 = shutdownRequested st0 || existsb asks_to_stop (infos_of [r]) ->
    readerTerminated st1 = readerTerminated st0 || existsb (reader_gone pid) (infos_of [r]) ->
    wp t (signal_loop n fd pid st1) (signals_exact fd s st0) (with_net m s)) as Hgo.
  { intros st1 Hok E1 E2. eapply wp_mono; [apply IH|].
    - intros Ht'. specialize (Ht Ht'). cbn [net with_net]. destruct r as [[??]|e]; cbn in *.
      + specialize (Hhap eq_refl). lia.
      + specialize (Hhap Hok). lia.
    - intros r' s' HR. by eapply signals_exact_cons. }
  pose proof (signals_exact_last fd s st0 r m Hf) as Hstop.
  destruct r as [[bytesRead i]|e]; cbn [read_on none_left] in *.
  - destruct (bytesRead =? sizeof_siginfo); [|apply wp_ret; by apply Hstop].
    pose proof (signal_step_state i st0) as HS. cbv zeta in HS. unfold asks_to_stop at 1 3 in HS.
    cbn in Hgo. rewrite !orb_false_r in Hgo.
    destruct ((ssi_signo i =? SIGINT) || (ssi_signo i =? SIGTERM));
      [|destruct (ssi_signo i =? SIGCHLD); [destruct (negb (ssi_pid i =? u32 pid))|]];
      (apply Hgo; [done|apply HS..]).
  - destruct (e =? EINTR); [apply Hgo; cbn; by rewrite ?orb_false_r|].
    destruct ((e =? EAGAIN) || (e =? EWOULDBLOCK)); apply wp_ret; by apply Hstop.
Qed.

Lemma answers_budget {A} (f : N -> A * N) happens (post : KView -> A -> KView -> Prop) s rs s' :
  net_law kview net_budget f happens post -> answers (sys f) s rs s' ->
  (net_budget (net s') <= net_budget (net s))%nat.
Proof.
  intros Hlaw Hans. induction Hans as [s|s r s1 rs s' Hr _ IH]; [done|].
  rewrite sys_answer in Hr. injection Hr as _ <-. destruct (f (net s)) as [a m] eqn:Ef.
  destruct (Hlaw _ _ _ Ef) as (_ & Hb & _). cbn [net with_net snd] in *. lia.
Qed.

Lemma signal_loop_spec t n fd st0 s :
  (t = true -> (net_budget (net s) < n)%nat) ->
  wp t (signal_loop n fd pid st0) (signals_read s st0) s.
Proof.
  intros Ht. eapply wp_mono; [by apply signal_loop_exact|].
  intros r s' (got & last & Hans & _ & _ & _ & HS & HT & Hs & Hk).
  exists (infos_of got). split; [|done]. exists (net s'). split; [done|]. split; [exact Hk|].
  eapply answers_budget; [apply read_siginfo_law|exact Hans].
Qed.

(** ** Draining *)

(** The listening socket is closed. *)
Lemma listen_closed_winv s n :
  winv s -> listen_fd s <> -1 -> kview n = k_shut (listen_fd s) (kv s) ->
  winv (with_listen (-1) (with_net n s)) /\ listen_fd s ∉ dom (m_clients s) /\ listen_fd s <> ep.
Proof.
  intros W Hl Hk. destruct (w_listen _ W) as [|[Hl0 Hout]]; [done|].
  apply not_elem_of_union in Hout as [Hext Hep]. rewrite elem_of_singleton in Hep.
  assert (listen_fd s ∉ dom (m_clients s)) as Hcl.
  { intros Hin. apply (w_clients _ W) in Hin as [_ Hin]. apply Hin.
    apply elem_of_union. right. by apply elem_of_listen_set. }
  rewrite k_shut_other in Hk by (done || apply W). split; [|done].
  constructor; unfold kv, listen_set; cbn [net ring m_clients listen_fd with_listen with_net];
    rewrite ?Hk; cbn [k_open k_epoll k_trace]; rewrite ?ingest_snoc; cbn [ingest_step backlog published];
    try apply W.
  - done.
  - rewrite (w_open _ W). unfold listen_set. rewrite decide_False by done.
    rewrite decide_True by done. set_solver.
  - by left.
  - intros fd Hin. rewrite decide_True by done. pose proof (w_clients _ W fd Hin). set_solver.
  - rewrite (w_backlog _ W). apply delete_id. rewrite lookup_fmap.
    by apply not_elem_of_dom in Hcl as ->.
Qed.

Definition drained_to s s' : Prop :=
  after s s' /\ ring s' = ring s /\ efds s' = efds s /\ listen_fd s' = -1 /\ state s' = state s /\
  ingressPaused s' = ingressPaused s /\ m_clients s' = ∅ /\ winv s' /\
  signals (k_trace (kv s')) = signals (k_trace (kv s)) /\
  forall fd, k_interest (kv s') !! fd =
    if decide (fd = listen_fd s \/ fd ∈ dom (m_clients s)) then None else k_interest (kv s) !! fd.

Lemma beginDraining_spec t s :
  winv s -> listen_fd s <> -1 -> wp t (beginDraining ep) (fun _ s' => drained_to s s') s.
Proof.
  intros W Hl. unfold beginDraining. apply wp_bind, wp_get, wp_bind.
  rewrite (proj2 (Z.eqb_neq _ _) Hl). cbn [negb]. apply unwatch_close_spec; [apply W|].
  intros s1 (n & -> & Hk & Hb). unfold set_listen_fd. apply wp_modify.
  destruct (listen_closed_winv s n W Hl Hk) as (W1 & Hcl & Hep).
  eapply wp_mono; [by apply removeAllClients_spec|].
  intros u s2 (Ha & Er & Ee & El & Es & Ep & Em & W2 & Hsig & Hint).
  rewrite k_shut_other in Hk by (done || apply W).
  unfold kv in Hsig, Hint. cbn [net with_listen with_net m_clients] in Hsig, Hint.
  rewrite Hk in Hsig, Hint. cbn [k_trace k_interest] in Hsig, Hint.
  split; [destruct Ha; split; cbn [net efds with_listen with_net] in *; lia|].
  do 6 (split; [done|]). split; [done|]. split.
  - unfold kv at 1. by rewrite Hsig, signals_snoc, app_nil_r.
  - intros fd. unfold kv at 1. rewrite Hint. destruct (decide (fd = listen_fd s)) as [->|Hne].
    + rewrite decide_False by done. rewrite lookup_delete_eq. by rewrite decide_True by (by left).
    + rewrite lookup_delete_ne by done.
      assert (fd ∈ dom (m_clients s) <-> fd = listen_fd s \/ fd ∈ dom (m_clients s)) as Hiff by tauto.
      by rewrite (decide_ext _ _ _ _ Hiff).
Qed.

Lemma sig_ok_app state infos more :
  sig_ok state infos -> existsb (reader_gone pid) more = false ->
  (state = Running -> existsb asks_to_stop more = false) -> sig_ok state (infos ++ more).
Proof.
  intros [Hg Hs] Hgone Hstop. split.
  - apply Forall_app. split; [done|]. apply Forall_forall. intros i Hi.
    destruct (reader_gone pid i) eqn:Eg; [|done]. exfalso. rewrite <- not_true_iff_false in Hgone.
    apply Hgone, existsb_exists. exists i. split; [by apply list_elem_of_In|done].
  - rewrite Exists_app. split; [by intros ->; left; apply Hs|].
    intros [He|He]; [by apply Hs|]. destruct state; [|done]. specialize (Hstop eq_refl).
    rewrite <- not_true_iff_false in Hstop. exfalso. apply Hstop, existsb_exists.
    apply Exists_exists in He as (i & Hi & Ei). exists i. split; [by apply list_elem_of_In|done].
Qed.

(** Reading signals changes nothing else. *)
Lemma signals_winv infos s s' : winv s -> net_to (k_signals infos (kv s)) s s' -> winv s'.
Proof.
  intros W Hnet. pose proof (net_to_kv _ _ _ Hnet) as Hk. destruct Hnet as (n & -> & _ & _).
  destruct W. constructor; rewrite ?Hk; cbn [k_signals k_open k_epoll k_trace]; rewrite ?ingest_signals;
    done.
Qed.

Lemma signals_core p infos s s' :
  core p None s -> net_to (k_signals infos (kv s)) s s' ->
  existsb (reader_gone pid) infos = false ->
  (state s = Running -> existsb asks_to_stop infos = false) -> core p None s'.
Proof.
  intros K Hnet Hg Hs. pose proof (signals_winv _ _ _ (c_winv _ _ _ K) Hnet) as W.
  pose proof (net_to_kv _ _ _ Hnet) as Hk. destruct Hnet as (n & -> & _ & _).
  constructor; try done; try apply K; rewrite Hk; cbn [k_signals k_interest k_trace]; [apply K|].
  rewrite signals_signals. apply sig_ok_app; [apply K|done|done].
Qed.

Lemma drained_core p infos s s1 s2 :
  core p None s -> net_to (k_signals infos (kv s)) s s1 -> state s = Running ->
  existsb (reader_gone pid) infos = false -> existsb asks_to_stop infos = true ->
  drained_to (with_state Draining s1) s2 -> core p None s2.
Proof.
  intros K Hnet Hst Hg Hs (_ & _ & _ & El & Es & _ & Em & W2 & Hsig & Hint).
  pose proof (net_to_kv _ _ _ Hnet) as Hk. destruct Hnet as (n & -> & _ & _).
  unfold kv at 2 in Hsig. unfold kv at 2 in Hint.
  cbn [net with_state with_net listen_fd m_clients state] in *.
  unfold kv at 1 in Hk. cbn [net with_net] in Hk. rewrite Hk in Hsig, Hint.
  cbn [k_signals k_trace k_interest] in Hsig, Hint.
  constructor; [done|..].
  - intros fd b. by rewrite Em, lookup_empty.
  - by rewrite Es, El, Em.
  - intros fd. rewrite Hint, (c_watch _ _ _ K). unfold expected. rewrite El, Em, dom_empty_L.
    destruct (decide (fd = sfd \/ fd = gfd)) as [Hsp|Hsp].
    + rewrite decide_False; [done|]. intros [->|Hin].
      * by apply (listen_not_given s (c_winv _ _ _ K)).
      * apply (w_clients _ (c_winv _ _ _ K)) in Hin as [_ Hin].
        apply (own_not_given fd); [|done]. set_solver.
    + rewrite (decide_False (P:=fd = -1 /\ fd <> -1)) by tauto.
      rewrite (decide_False (P:=fd ∈ ∅)) by set_solver.
      destruct (decide (fd = listen_fd s \/ fd ∈ dom (m_clients s))) as [|Hn]; [done|].
      rewrite !decide_False by tauto. done.
  - rewrite Es, Hsig, signals_signals. split.
    + pose proof (c_signals _ _ _ K) as [Hg0 _]. apply Forall_app. split; [done|].
      apply Forall_forall. intros i Hi. destruct (reader_gone pid i) eqn:Eg; [|done].
      rewrite <- not_true_iff_false in Hg. exfalso. apply Hg, existsb_exists.
      exists i. split; [by apply list_elem_of_In|done].
    + split; [|done]. intros _. apply Exists_app. right. apply existsb_exists in Hs as (i & Hi & Ei).
      apply Exists_exists. exists i. split; [by apply list_elem_of_In|done].
Qed.

(** What handling a signal keeps: a server that drains goes on draining. *)
Definition signal_done s (ok : bool) s' : Prop :=
  after s s' /\ (if ok then sinv s' else winv s') /\ ring s' = ring s /\ efds s' = efds s /\
  (state s = Draining -> state s' = Draining).

Lemma signal_flags t (m : M st bool) bad s s0 :
  wp t m (signal_done s0) s ->
  wp t (ok ← m; if negb ok then mret false else if (bad : bool) then mret false else mret true)
    (signal_done s0) s.
Proof.
  intros Hm. apply wp_bind. eapply wp_mono; [exact Hm|]. intros ok s' HD.
  destruct ok; cbn [negb]; [|by apply wp_ret]. destruct bad; apply wp_ret; [|exact HD].
  destruct HD as (Ha & [K _] & HD). split; [done|]. split; [apply K|done].
Qed.

Lemma handleSignalEvent_spec t ev s :
  sinv s -> plenty t s -> wp t (handleSignalEvent fuel ev ep pid) (signal_done s) s.
Proof.
  intros [K Hh] Hp. apply signal_flags. destruct (has_any _ _).
  2: { apply wp_ret. split; [apply after_refl|]. by split. }
  apply wp_bind. eapply wp_mono; [apply signal_loop_spec; intros Ht; by apply Hp|].
  intros [ok st1] s1 (infos & Hnet & ES & ET). cbn [fst snd shutdownRequested readerTerminated orb] in *.
  pose proof (net_to_after _ _ _ Hnet) as Ha.
  assert (signal_done s false s1) as Hfail.
  { split; [done|]. split; [by eapply signals_winv; [apply K|]|]. by destruct Hnet as (n & -> & _). }
  destruct ok; cbn [negb]; [|by apply wp_ret]. rewrite ET.
  destruct (existsb (reader_gone pid) infos) eqn:Eg; [by apply wp_ret|].
  apply wp_bind, wp_get, wp_bind. rewrite ES.
  assert (state s1 = state s /\ listen_fd s1 = listen_fd s /\ ring s1 = ring s /\ efds s1 = efds s /\
          ingressPaused s1 = ingressPaused s) as (Es1 & El1 & Er1 & Ee1 & Ep1)
    by (by destruct Hnet as (n & -> & _)).
  destruct (existsb asks_to_stop infos && bool_decide (state s1 = Running)) eqn:Eb.
  - apply andb_true_iff in Eb as [Ea Est%bool_decide_eq_true]. rewrite Es1 in Est.
    pose proof (c_state _ _ _ K) as Hl. rewrite Est in Hl.
    apply wp_bind. unfold set_state. apply wp_modify.
    pose proof (signals_winv _ _ _ (c_winv _ _ _ K) Hnet) as W1.
    assert (winv (with_state Draining s1)) as W1' by (by destruct W1; constructor).
    eapply wp_mono; [apply beginDraining_spec; [done|cbn [listen_fd with_state]; congruence]|].
    intros u s2 HD. apply wp_ret. pose proof HD as (Ha2 & Er2 & Ee2 & _ & Es2 & Ep2 & _).
    split; [eapply after_trans; [exact Ha|]; destruct Ha2; by split|].
    cbn [ring efds state ingressPaused with_state] in *. split; [|split_and!; congruence].
    split; [rewrite Ep2, Ep1; by eapply drained_core|].
    intros E1. unfold headroom. rewrite Er2, Er1. apply Hh. congruence.
  - apply wp_ret, wp_ret. split; [done|]. split; [|split_and!; congruence].
    split; [rewrite Ep1|intros E1; unfold headroom; rewrite Er1; apply Hh; congruence].
    eapply signals_core; [done..|]. intros Est. rewrite Es1, Est in Eb.
    by rewrite bool_decide_true, andb_true_r in Eb by done.
Qed.

(** ** The event loop *)

(** Handled events: a server that drains goes on draining. *)
Definition handled s (ok : bool) s' : Prop :=
  after s s' /\ (if ok then sinv s' else winv s') /\ (state s = Draining -> state s' = Draining).

Lemma handle_events_spec t evs s :
  sinv s -> Forall (fun e => 0 <= event_fd e) evs -> plenty t s -> space_ready t ->
  wp t (handle_events fuel evs ep dfd sfd gfd pid) (handled s) s.
Proof.
  intros S Hf Hp Hsp. revert s S Hf Hp. induction evs as [|ev evs IH]; intros s S Hf Hp; cbn [handle_events].
  { apply wp_ret. split; [apply after_refl|]. by split. }
  apply Forall_cons in Hf as [Hfd Hf]. apply wp_bind, wp_get, wp_bind.
  apply (wp_mono _ _ (handled s)).
  { destruct (event_fd ev =? gfd).
    - eapply wp_mono; [by apply handleSignalEvent_spec|]. intros ok s1 (Ha & HS & _ & _ & Hd).
      split; [done|]. by split.
    - eapply wp_mono; [by apply handleEvent_spec|]. intros ok s1 (Ha & _ & Es & HS & _).
      split; [done|]. split; [done|]. by rewrite Es. }
  intros ok s1 HD. destruct ok; cbn [negb]; [|by apply wp_ret].
  destruct HD as (Ha & S1 & Hd). eapply wp_mono; [apply (IH s1 S1 Hf); by eapply plenty_after|].
  intros ok s2 (Ha2 & S2 & Hd2). split; [by eapply after_trans|]. split; [done|]. auto.
Qed.

Lemma watched_nonneg p x fd i s :
  core p x s -> k_interest (kv s) !! fd = Some i -> 0 <= event_fd i.
Proof.
  intros K. rewrite (c_watch _ _ _ K). unfold expected. pose proof (c_winv _ _ _ K) as W.
  destruct ext_fds as (Hs & Hg & Hpos).
  case_decide as Hsp; [intros [= <-]; cbn [watch event_fd]; destruct Hsp as [-> | ->]; auto|].
  case_decide as Hl; [intros [= <-]; cbn [watch event_fd]; destruct (w_listen _ W); lia|].
  case_decide as Hc; [|done]. destruct p; [done|]. intros [= <-]. by apply (w_clients _ W).
Qed.

(** How the loop ends: it waits for ever in good order, or stops; with success only
    when draining is over. *)
Definition loop_done (r : option Z) (s' : st) : Prop :=
  match r with
  | None => sinv s'
  | Some code => winv s' /\
      (code = EXIT_FAILURE \/
       code = EXIT_SUCCESS /\ sinv s' /\ state s' = Draining /\ queued (ring s') = 0)
  end.

(** The check that ends draining. *)
Lemma drained_check t s :
  sinv s ->
  wp t (if bool_decide (state s = Draining) then on_ring p_empty else mret false)
    (fun b s1 => sinv s1 /\ after s s1 /\ net s1 = net s /\ efds s1 = efds s /\
       (b = true -> state s1 = Draining /\ queued (ring s1) = 0)) s.
Proof.
  intros S. destruct (decide (state s = Draining)) as [Hd|Hd].
  - rewrite bool_decide_true by done. unfold on_ring. apply wp_lift, wp_call. intros b c Hc.
    destruct S as [K Hh].
    destruct (empty_law _ _ _ (w_ring _ (c_winv _ _ _ K)) Hc) as (Ho & Hpu & Hq & Hz).
    split; [split|].
    + by apply ring_core.
    + intros E1. specialize (Hh E1). unfold headroom in *. cbn [ring with_ring]. lia.
    + split; [by split|]. do 2 (split; [done|]). intros ->. split; [done|]. by apply Hz.
  - rewrite bool_decide_false by done. apply wp_ret. split; [done|]. split; [apply after_refl|done].
Qed.

(** Waiting changes nothing. *)
Lemma waited_sinv s m : sinv s -> kview m = kv s -> sinv (with_net m s).
Proof.
  intros [K Hh] Hk. split; [|done]. eapply core_equiv; [exact K| |by constructor|done].
  unfold kv at 2. cbn [net with_net]. rewrite Hk. apply k_equiv_refl.
Qed.

Lemma server_loop_spec t n s :
  sinv s -> plenty t s -> space_ready t -> (t = true -> (net_budget (net s) < n)%nat) ->
  wp t (event_loop fuel n ep dfd sfd gfd pid) loop_done s.
Proof.
  intros S Hp Hsp. revert s S Hp. induction n as [|n IH]; intros s S Hp Ht; cbn [event_loop].
  { apply wp_out_of_fuel. destruct t; [|done]. specialize (Ht eq_refl). lia. }
  apply wp_bind, wp_get, wp_bind.
  eapply wp_mono; [by apply drained_check|].
  intros b s1 (S1 & Ha & En & _ & Hb). destruct b.
  { apply wp_ret. split; [apply S1|]. right. destruct (Hb eq_refl). by split_and!. }
  clear Hb. pose proof (plenty_after _ _ _ Hp Ha) as Hp1. apply wp_bind.
  eapply wp_net; [apply epoll_wait_law|]. intros r m [Hk Hev] Hbud Hhap.
  assert (after s1 (with_net m s1)) as Ha2 by (by split).
  pose proof (waited_sinv s1 m S1 Hk) as S2.
  assert (forall s2, sinv s2 -> after (with_net m s1) s2 -> returned r = true ->
    wp t (event_loop fuel n ep dfd sfd gfd pid) loop_done s2) as Hgo.
  { intros s2 S3 [Ha3 Hb3] Hret. apply IH; [done| |].
    - eapply plenty_after; [exact Hp1|]. eapply after_trans; [exact Ha2|by split].
    - intros Ht'. specialize (Ht Ht'). specialize (Hhap Hret). rewrite <- En in Ht.
      cbn [net with_net] in Ha3. lia. }
  destruct r as [[evs|e]|]; [| |by apply wp_ret].
  - assert (Forall (fun e => 0 <= event_fd e) evs) as Hf.
    { destruct S1 as [K _]. specialize (Hev (w_epoll _ (c_winv _ _ _ K)) evs eq_refl).
      eapply Forall_impl; [exact Hev|]. intros ev (fd & i & Hi & <-).
      by eapply watched_nonneg. }
    apply wp_bind. eapply wp_mono; [apply handle_events_spec; [done|done| |done]|].
    { eapply plenty_after; [exact Hp1|done]. }
    intros ok s2 (Ha3 & S3 & _). destruct ok; cbn [negb]; [by apply Hgo|].
    apply wp_ret. split; [exact S3|by left].
  - destruct (Z.eqb_spec e EINTR) as [->|]; [by apply Hgo; [|apply after_refl|]|].
    apply wp_ret. split; [apply S2|by left].
Qed.

(** The server has let go of everything. *)
Definition released s s' : Prop :=
  m_clients s' = ∅ /\ k_open (kv s') = ext /\ k_interest (kv s') = ∅ /\ k_epoll (kv s') = None /\
  ring s' = ring s /\ state s' = state s /\
  published (ingest (k_trace (kv s'))) = published (ingest (k_trace (kv s))) /\
  signals (k_trace (kv s')) = signals (k_trace (kv s)).

Lemma close_epoll_spec t s s0 :
  k_epoll (kv s) = Some ep -> k_open (kv s) = ext ∪ {[ep]} -> ep ∉ ext ->
  m_clients s = ∅ -> ring s = ring s0 -> state s = state s0 ->
  published (ingest (k_trace (kv s))) = published (ingest (k_trace (kv s0))) ->
  signals (k_trace (kv s)) = signals (k_trace (kv s0)) ->
  wp t (sys (close ep);;; mret tt) (fun _ s' => released s0 s') s.
Proof.
  intros He Eo Hep Em Er Es Ei Esg. apply wp_bind. eapply wp_mono; [apply close_spec|].
  intros u s' (n & -> & Hk & _). apply wp_ret. unfold released, kv. cbn [net ring state m_clients with_net].
  rewrite Hk. unfold k_shut. cbn [k_open k_interest k_epoll k_trace].
  rewrite bool_decide_true by done. rewrite ingest_snoc, signals_snoc, app_nil_r.
  cbn [ingest_step published]. split_and!; try done. rewrite Eo. set_solver.
Qed.

Lemma shutdown_spec t s :
  winv s ->
  wp t (shutdown ep) (fun _ s' => released s s') s.
Proof.
  intros W. unfold shutdown. apply wp_bind. eapply wp_mono; [by apply removeAllClients_spec|].
  intros u s1 (_ & Er & _ & El & Es & _ & Em & W1 & Hsig & _).
  assert (published (ingest (k_trace (kv s1))) = published (ingest (k_trace (kv s)))) as Ei
    by (by rewrite (w_published _ W1), (w_published _ W), Er).
  apply wp_bind, wp_get, wp_bind. destruct (Z.eqb_spec (listen_fd s1) (-1)) as [El1|El1]; cbn [negb].
  { apply wp_ret. apply close_epoll_spec; try done; try apply W1.
    rewrite (w_open _ W1), Em, dom_empty_L. unfold listen_set. rewrite decide_True by done. set_solver. }
  apply wp_bind. eapply wp_mono; [apply close_spec|]. intros v s2 (n & -> & Hk & _). apply wp_ret.
  destruct (listen_closed_winv s1 n W1 El1 Hk) as (W2 & Hcl & Hne).
  assert (kv (with_net n s1) = kv (with_listen (-1) (with_net n s1))) as Ek by done.
  apply close_epoll_spec; rewrite ?Ek; try done; try apply W2.
  - rewrite (w_open _ W2). cbn [m_clients with_listen with_net]. rewrite Em, dom_empty_L.
    unfold listen_set. cbn [listen_fd with_listen]. rewrite decide_True by done. set_solver.
  - rewrite (w_published _ W2). cbn [ring with_listen with_net]. rewrite Er. symmetry. apply W.
  - unfold kv at 1. cbn [net with_listen with_net]. rewrite Hk, k_shut_other by (done || apply W1).
    cbn [k_trace]. by rewrite signals_snoc, app_nil_r, Hsig.
Qed.

End specs.

(** ** Draining is final *)

Section draining.
Context {C E N : Type} `{RingProducerLaws C} `{EventFdLaws E} `{NetLaws N} `{ClientOrder}.
Variable fuel : nat.
Variables ep dfd sfd gfd pid : Z.

Abbreviation st := (SSt C E N).
Implicit Types s : st.

(** Only signals have been read. *)
Definition idle s s' : Prop :=
  after s s' /\ state s' = Draining /\ m_clients s' = ∅ /\ listen_fd s' = -1 /\ ring s' = ring s /\
  ingressPaused s' = ingressPaused s /\ exists infos, kv s' = k_signals infos (kv s).

Lemma idle_refl s : state s = Draining -> m_clients s = ∅ -> listen_fd s = -1 -> idle s s.
Proof.
  intros. split; [by split|]. split_and!; try done. exists []. by rewrite k_signals_nil.
Qed.

Lemma idle_trans s1 s2 s3 : idle s1 s2 -> idle s2 s3 -> idle s1 s3.
Proof.
  intros (A1 & _ & _ & _ & R1 & P1 & i1 & K1) (A2 & D & M' & L & R2 & P2 & i2 & K2).
  split; [by eapply after_trans|]. split_and!; try congruence. exists (i1 ++ i2).
  rewrite K2, K1. unfold k_signals. cbn. by rewrite map_app, app_assoc.
Qed.

Lemma draining_event_spec t ev s :
  state s = Draining -> m_clients s = ∅ -> listen_fd s = -1 -> 0 <= event_fd ev -> plenty fuel t s ->
  space_ready (E:=E) sfd t ->
  wp t (handleEvent fuel ev ep (listen_fd s) dfd sfd) (fun _ s' => idle s s') s.
Proof.
  intros Hst Hm Hl Hfd Hp Hsp. pose proof (idle_refl s Hst Hm Hl) as Hid.
  unfold handleEvent. apply wp_bind, wp_get. rewrite Hl, (proj2 (Z.eqb_neq _ _)) by lia.
  rewrite Hst. change (bool_decide (Draining = Running)) with false. cbn [andb].
  destruct (event_fd ev =? sfd).
  - apply wp_bind. apply (wp_mono _ _ (fun _ s' => idle s s')).
    + destruct (has_any _ _); [|by apply wp_ret]. apply wp_bind. unfold on_efds. apply wp_lift.
      eapply wp_mono; [apply consumeEvent_spec; [done|intros Ht; by apply Hp]|].
      intros ok e [_ Hb]. assert (idle s (with_efds e s)) as Hid2.
      { split; [by split|]. split_and!; try done. exists []. by rewrite k_signals_nil. }
      destruct ok; cbn [negb]; [by apply wp_bind, wp_ret, wp_ret|by apply wp_ret].
    + intros ok s' HI. destruct ok; cbn [negb]; [|by apply wp_ret].
      destruct (has_any _ _); by apply wp_ret.
  - apply wp_bind. apply (wp_mono _ _ (fun r s' => r = None /\ s' = s)).
    + destruct (negb (ingressPaused s) && _); [|by apply wp_ret]. unfold readClient.
      apply wp_bind, wp_bind, wp_get. rewrite Hm, lookup_empty. by apply wp_ret, wp_ret.
    + intros r s' [-> ->]. apply wp_bind, wp_get. destruct (ingressPaused s); [by apply wp_ret|].
      apply wp_bind. rewrite Hm, lookup_empty. destruct (has_any _ _); by apply wp_ret, wp_ret.
Qed.

Lemma draining_signal_spec t ev s :
  state s = Draining -> m_clients s = ∅ -> listen_fd s = -1 -> plenty fuel t s ->
  wp t (handleSignalEvent fuel ev ep pid) (fun _ s' => idle s s') s.
Proof.
  intros Hst Hm Hl Hp. pose proof (idle_refl s Hst Hm Hl) as Hid.
  unfold handleSignalEvent. apply wp_bind. apply (wp_mono _ _ (fun _ s' => idle s s')).
  - destruct (has_any _ _); [|by apply wp_ret]. apply wp_bind.
    eapply wp_mono; [apply signal_loop_spec; intros Ht; by apply Hp|].
    intros [ok st1] s1 (infos & Hnet & _). cbn [fst snd].
    pose proof (net_to_after _ _ _ Hnet) as Ha. pose proof (net_to_kv _ _ _ Hnet) as Hk.
    assert (idle s s1) as Hid1.
    { destruct Hnet as (n & -> & _). split; [done|]. split_and!; try done. by exists infos. }
    destruct ok; cbn [negb]; [|by apply wp_ret]. destruct (readerTerminated st1); [by apply wp_ret|].
    apply wp_bind, wp_get, wp_bind. pose proof Hid1 as (_ & -> & _).
    change (bool_decide (Draining = Running)) with false. rewrite andb_false_r.
    by apply wp_ret, wp_ret.
  - intros ok s' HI. destruct ok; cbn [negb]; [|by apply wp_ret].
    destruct (has_any _ _); by apply wp_ret.
Qed.

Lemma draining_events_spec t evs s :
  state s = Draining -> m_clients s = ∅ -> listen_fd s = -1 ->
  Forall (fun e => 0 <= event_fd e) evs -> plenty fuel t s -> space_ready (E:=E) sfd t ->
  wp t (handle_events fuel evs ep dfd sfd gfd pid) (fun _ s' => idle s s') s.
Proof.
  intros Hst Hm Hl Hf Hp Hsp. revert s Hst Hm Hl Hf Hp. induction evs as [|ev evs IH]; intros s Hst Hm Hl Hf Hp; cbn [handle_events].
  { apply wp_ret. by apply idle_refl. }
  apply Forall_cons in Hf as [Hfd Hf]. apply wp_bind, wp_get, wp_bind.
  apply (wp_mono _ _ (fun _ s' => idle s s')).
  { destruct (event_fd ev =? gfd); [by apply draining_signal_spec|by apply draining_event_spec]. }
  intros ok s1 HI. destruct ok; cbn [negb]; [|by apply wp_ret].
  pose proof HI as (Ha & Hst1 & Hm1 & Hl1 & _).
  eapply wp_mono; [apply (IH s1); try done; by eapply plenty_after|].
  intros ok s2 HI2. by eapply idle_trans.
Qed.

End draining.

(** ** The whole run *)

Section whole_run.
Context {C E N : Type} `{RingProducerLaws C} `{EventFdLaws E} `{NetLaws N} `{ClientOrder}.
Variable fuel : nat.
Variables dfd sfd gfd pid : Z.
Variable ext : gset Z.
Variable config : ServerConfig.

Abbreviation st := (SSt C E N).
Implicit Types s : st.

(** What [main] and the environment give the server: an empty history, an open
    ring with room, and open descriptors for the events and signals; [spaceReadyFd]
    is read by the server alone, and only when [epoll] has reported it. *)
Record start_ok s : Prop := {
  so_given : sfd ∈ ext /\ gfd ∈ ext /\ forall fd, fd ∈ ext -> 0 <= fd;
  so_open : k_open (kv s) = ext;
  so_epoll : k_epoll (kv s) = None;
  so_trace : k_trace (kv s) = [];
  so_clients : m_clients s = ∅;
  so_pushed : pushed (ring s) = [];
  so_ring : ring_open (ring s) /\ queued (ring s) < kPauseIngressBytes;
  so_space : reads_at_once (E:=E) sfd;
}.

(** The history [s'] ends with; nothing is left open. *)
Definition gave_up s s' : Prop :=
  m_clients s' = ∅ /\ ring s' = ring s /\ k_open (kv s') = ext /\
  published (ingest (k_trace (kv s'))) = [] /\ signals (k_trace (kv s')) = [].

(** Setting up has failed, after [closes]. *)
Definition failed_view (k : KView) : Prop :=
  k_open k = ext /\ published (ingest (k_trace k)) = [] /\ signals (k_trace k) = [].

Definition ready (ep : Z) s s' : Prop :=
  core ep sfd gfd pid ext false None (with_paused false (with_state Running s')) /\
  ring s' = ring s /\ after s s'.

Lemma same_call t {A} (f : N -> sysres A * N) s :
  net_law kview net_budget f never same_post ->
  wp t (r ← sys f; mret (is_ok r)) (fun _ s' => net_to (kv s) s s') s.
Proof.
  intros Hl. apply wp_bind. eapply wp_net; [exact Hl|]. intros r n Hk Hb _. apply wp_ret.
  by exists n.
Qed.

(** Closing what was opened, after a step that failed. *)
Lemma close_fail t fd s0 s k :
  net_to k s0 s -> failed_view (k_shut fd k) ->
  wp t (sys (close fd);;; mret None)
    (fun (r : option Z) s' => r = None /\ exists k', net_to k' s0 s' /\ failed_view k') s.
Proof.
  intros Hnet Hf. apply wp_bind. eapply wp_mono; [apply close_spec|].
  intros u s' Hnet'. apply wp_ret. split; [done|].
  rewrite (net_to_kv _ _ _ Hnet) in Hnet'. eexists. split; [by eapply net_to_trans|done].
Qed.

Lemma close_both_fail t ep fd s0 s k :
  net_to k s0 s -> failed_view (k_shut fd (k_shut ep k)) ->
  wp t (sys (close ep);;; sys (close fd);;; mret None)
    (fun (r : option Z) s' => r = None /\ exists k', net_to k' s0 s' /\ failed_view k') s.
Proof.
  intros Hnet Hf. apply wp_bind. eapply wp_mono; [apply close_spec|].
  intros u s' Hnet'. rewrite (net_to_kv _ _ _ Hnet) in Hnet'.
  eapply close_fail; [by eapply net_to_trans|done].
Qed.

Lemma add_step t ep fd mask s0 s k (Q : bool -> st -> Prop) :
  net_to k s0 s -> k_epoll k = Some ep ->
  (forall s', net_to (k_watch (<[fd := watch fd mask]> (k_interest k)) k) s0 s' -> Q true s') ->
  (forall s', net_to k s0 s' -> Q false s') ->
  wp t (addEpollFd ep fd mask) Q s.
Proof.
  intros Hnet He Ht Hf. pose proof (net_to_kv _ _ _ Hnet) as Hk.
  eapply wp_mono; [apply addEpollFd_spec; by rewrite Hk|]. rewrite Hk.
  intros [] s'; [intros [_ Hn]; apply Ht|intros Hn; apply Hf]; by eapply net_to_trans.
Qed.

(** The kernel with the listening socket and the epoll descriptor, before anything
    is watched. *)
Definition view0 (lfd ep : Z) : KView :=
  {| k_open := {[ep]} ∪ ({[lfd]} ∪ ext); k_epoll := Some ep; k_interest := ∅; k_trace := [] |}.

Lemma failed_listen lfd k :
  k_open k = {[lfd]} ∪ ext -> lfd ∉ ext -> k_trace k = [] -> failed_view (k_shut lfd k).
Proof.
  intros Ho Hn Ht. unfold failed_view, k_shut. cbn [k_open k_trace]. rewrite Ho, Ht.
  split; [set_solver|done].
Qed.

Lemma failed_both lfd ep m :
  lfd ∉ ext -> ep ∉ {[lfd]} ∪ ext ->
  failed_view (k_shut lfd (k_shut ep (k_watch m (view0 lfd ep)))).
Proof.
  intros Hl He. unfold failed_view, k_shut, view0. cbn [k_open k_trace k_watch].
  split; [set_solver|done].
Qed.

Lemma ready_core lfd ep s s' :
  start_ok s -> 0 <= lfd -> 0 <= ep -> lfd ∉ ext -> ep ∉ {[lfd]} ∪ ext ->
  net_to (k_watch (<[gfd := watch gfd watchEvents]> (<[sfd := watch sfd watchEvents]>
    (<[lfd := watch lfd watchEvents]> ∅))) (view0 lfd ep)) (with_listen lfd s) s' ->
  ready ep s s'.
Proof.
  intros S Hl0 He0 Hl He Hnet. pose proof (net_to_after _ _ _ Hnet) as Ha.
  pose proof (net_to_kv _ _ _ Hnet) as Hk. destruct Hnet as (n & -> & _ & _).
  split; [|done]. destruct (so_given _ S) as (Hs & Hg & Hpos).
  constructor; [constructor|..];
    unfold kv in *; cbn [net ring m_clients listen_fd state with_paused with_state with_net with_listen] in *;
    rewrite ?Hk, ?(so_clients _ S); cbn [k_watch view0 k_open k_epoll k_interest k_trace]; try done.
  - unfold listen_set. cbn [listen_fd with_paused with_state with_net with_listen].
    rewrite decide_False by lia. rewrite dom_empty_L. set_solver.
  - set_solver.
  - right. split; [done|]. set_solver.
  - by rewrite (so_pushed _ S).
  - apply (so_ring _ S).
  - lia.
  - intros fd. unfold expected. cbn [listen_fd m_clients with_paused with_state with_net with_listen].
    rewrite (so_clients _ S), dom_empty_L. rewrite (decide_False (P:=fd ∈ ∅)) by set_solver.
    destruct (decide (fd = gfd)) as [->|Hng].
    { rewrite lookup_insert_eq. by rewrite decide_True by (by right). }
    rewrite lookup_insert_ne by done. destruct (decide (fd = sfd)) as [->|Hns].
    { rewrite lookup_insert_eq. by rewrite decide_True by (by left). }
    rewrite lookup_insert_ne by done. rewrite (decide_False (P:=fd = sfd \/ fd = gfd)) by tauto.
    destruct (decide (fd = lfd)) as [->|Hnl].
    + rewrite lookup_insert_eq. by rewrite decide_True by lia.
    + rewrite lookup_insert_ne, lookup_empty by done. rewrite decide_False by tauto. done.
  - split; [constructor|]. split; [done|]. by intros ?%Exists_nil.
Qed.

Definition setup_done s (r : option Z) s' : Prop :=
  match r with
  | Some ep => ready ep s s'
  | None => m_clients s' = ∅ /\ ring s' = ring s /\ failed_view (kv s')
  end.

Lemma gave_up_done s lfd r s' :
  start_ok s -> r = None /\ (exists k', net_to k' (with_listen lfd s) s' /\ failed_view k') ->
  setup_done s r s'.
Proof.
  intros S (-> & k' & Hnet & Hf). pose proof (net_to_kv _ _ _ Hnet) as Hk.
  destruct Hnet as (n & -> & _ & _). cbn [setup_done m_clients ring with_net with_listen].
  split; [apply S|]. split; [done|]. by rewrite Hk.
Qed.

(** From the epoll descriptor on. *)
Lemma watch_all_spec t lfd ep s s1 :
  start_ok s -> 0 <= lfd -> 0 <= ep -> lfd ∉ ext -> ep ∉ {[lfd]} ∪ ext ->
  net_to (view0 lfd ep) (with_listen lfd s) s1 ->
  wp t (ok ← addEpollFd ep lfd watchEvents;
        if negb ok then sys (close ep);;; sys (close lfd);;; mret None
        else
          ok ← addEpollFd ep sfd watchEvents;
          if negb ok then sys (close ep);;; sys (close lfd);;; mret None
          else
            ok ← addEpollFd ep gfd watchEvents;
            if negb ok then sys (close ep);;; sys (close lfd);;; mret None
            else mret (Some ep)) (setup_done s) s1.
Proof.
  intros S Hl0 He0 Hl He Hnet.
  assert (forall m s2, net_to (k_watch m (view0 lfd ep)) (with_listen lfd s) s2 ->
    wp t (sys (close ep);;; sys (close lfd);;; mret None) (setup_done s) s2) as Hstop.
  { intros m s2 Hn. eapply wp_mono; [eapply close_both_fail; [exact Hn|by apply failed_both]|].
    intros r s' HR. exact (gave_up_done s lfd r s' S HR). }
  apply wp_bind. eapply add_step; [exact Hnet|done| |].
  2: { intros s2 Hn. apply (Hstop ∅). exact Hn. }
  intros s2 Hn2. cbn [negb]. apply wp_bind.
  eapply add_step; [exact Hn2|done| |intros s3 Hn3;
    exact (Hstop (<[lfd := watch lfd watchEvents]> ∅) s3 Hn3)].
  intros s3 Hn3. cbn [negb]. apply wp_bind.
  eapply add_step; [exact Hn3|done| |intros s4 Hn4;
    exact (Hstop (<[sfd := watch sfd watchEvents]> (<[lfd := watch lfd watchEvents]> ∅)) s4 Hn4)].
  intros s4 Hn4. cbn [negb]. apply wp_ret. exact (ready_core lfd ep s s4 S Hl0 He0 Hl He Hn4).
Qed.

Lemma setup_spec t s : start_ok s -> wp t (setup config sfd gfd) (setup_done s) s.
Proof.
  intros S. unfold setup. apply wp_bind. unfold createSocket. apply wp_bind.
  eapply wp_net; [apply socket_law|]. intros r n Hr Hb _. apply wp_ret, wp_bind.
  unfold set_listen_fd. apply wp_modify. destruct r as [lfd|e].
  2: { cbn in Hr. rewrite Z.eqb_refl. apply wp_ret. split; [apply S|]. split; [done|].
       unfold kv. cbn [net with_listen with_net]. rewrite Hr. unfold failed_view.
       by rewrite (so_open _ S), (so_trace _ S). }
  destruct Hr as (Hl0 & Hl & Hk). assert (lfd ∉ ext) as Hext by (by rewrite <- (so_open _ S)).
  rewrite (proj2 (Z.eqb_neq lfd (-1))) by lia.
  set (k1 := k_add lfd (kv s)).
  assert (net_to k1 (with_listen lfd s) (with_listen lfd (with_net n s))) as Hn1 by (by exists n).
  assert (forall s2, net_to k1 (with_listen lfd s) s2 ->
    wp t (sys (close lfd);;; mret None) (setup_done s) s2) as Hstop.
  { intros s2 Hn. eapply wp_mono; [eapply close_fail; [exact Hn|]|].
    - apply failed_listen; [|done|apply S]. cbn [k1 k_add k_open]. by rewrite (so_open _ S).
    - intros r s' HR. exact (gave_up_done s lfd r s' S HR). }
  apply wp_bind. eapply wp_mono; [apply same_call; apply setsockopt_law|]. intros ok s2 Hn2.
  rewrite (net_to_kv _ _ _ Hn1) in Hn2. pose proof (net_to_trans _ _ _ _ _ Hn1 Hn2) as Hn2'.
  destruct ok; cbn [negb]; [|by apply Hstop].
  apply wp_bind. eapply wp_mono; [apply same_call; apply bind_law|]. intros ok s3 Hn3.
  rewrite (net_to_kv _ _ _ Hn2) in Hn3. pose proof (net_to_trans _ _ _ _ _ Hn2' Hn3) as Hn3'.
  destruct ok; cbn [negb]; [|by apply Hstop].
  apply wp_bind. eapply wp_net; [apply listen_law|]. intros r n4 Hk4 Hb4 _.
  assert (net_to k1 (with_listen lfd s) (with_net n4 s3)) as Hn4.
  { eapply net_to_trans; [exact Hn3'|]. exists n4. split; [done|]. split; [|done].
    rewrite Hk4. by rewrite (net_to_kv _ _ _ Hn3). }
  destruct r as [?|e]; cbn [is_ok negb]; [|by apply Hstop].
  apply wp_bind. eapply wp_net; [apply epoll_create1_law|]. intros r n5 Hr5 Hb5 _.
  rewrite (net_to_kv _ _ _ Hn4) in Hr5. specialize (Hr5 (so_epoll _ S)). destruct r as [ep|e].
  - destruct Hr5 as (He0 & He & Hk5). cbn [k1 k_add k_open] in He. rewrite (so_open _ S) in He.
    apply watch_all_spec; try done. eapply net_to_trans; [exact Hn4|]. exists n5.
    split; [done|]. split; [|done]. rewrite Hk5. unfold k1, k_add_epoll, k_add, view0.
    cbn [k_open k_trace]. by rewrite (so_open _ S), (so_trace _ S).
  - apply Hstop. eapply net_to_trans; [exact Hn4|]. exists n5. split; [done|]. split; [|done].
    exact Hr5.
Qed.

(** How a run ends.  It waits for ever in good order, or returns having closed all
    it opened; with success only after it was asked to stop, and never after the
    reader has gone. *)
Definition run_done (r : option Z) (s' : st) : Prop :=
  published (ingest (k_trace (kv s'))) = pushed (ring s') /\
  match r with
  | None => exists ep, sinv ep sfd gfd pid ext s'
  | Some code =>
      m_clients s' = ∅ /\ k_open (kv s') = ext /\
      (code = EXIT_FAILURE \/
       code = EXIT_SUCCESS /\ queued (ring s') = 0 /\
       Exists (fun i => asks_to_stop i = true) (signals (k_trace (kv s'))) /\
       Forall (fun i => reader_gone pid i = false) (signals (k_trace (kv s'))))
  end.

Lemma server_run_spec t s :
  start_ok s -> plenty fuel t s -> wp t (run fuel config dfd sfd gfd pid) run_done s.
Proof.
  intros S Hp. unfold run. apply wp_bind. eapply wp_mono; [by apply setup_spec|].
  intros [ep|] s1.
  2: { intros (Em & Er & Ho & Hpu & _). apply wp_ret. split; [by rewrite Hpu, Er, (so_pushed _ S)|].
       split; [done|]. split; [done|]. by left. }
  intros (K & Er & Ha). apply wp_bind. unfold set_state. apply wp_modify, wp_bind.
  unfold set_paused. apply wp_modify. set (s2 := with_paused _ _) in *. apply wp_bind.
  pose proof (plenty_after fuel t s s2 Hp Ha) as Hp2.
  eapply wp_mono; [apply (server_loop_spec fuel ep dfd sfd gfd pid ext (so_given _ S) t fuel s2)|].
  { split; [exact K|]. intros _. unfold headroom. cbn [s2 ring with_paused with_state].
    rewrite Er. apply (so_ring _ S). }
  { done. }
  { intros _. apply (so_space _ S). }
  { intros Ht. by apply Hp2. }
  intros [code|] s3 HL.
  2: { apply wp_ret. pose proof (w_published _ _ _ (c_winv _ _ _ _ _ _ _ _ (proj1 HL))) as Hpu.
       split; [exact Hpu|]. by exists ep. }
  destruct HL as (W & Hcode). pose proof (w_published _ _ _ W) as Hpu.
  assert (forall s4, released ext s3 s4 -> run_done (Some code) s4) as Hend.
  { intros s4 (Em & Ho & _ & _ & Er4 & Es4 & Hp4 & Hsg). split; [by rewrite Hp4, Hpu, Er4|].
    split; [done|]. split; [done|]. destruct Hcode as [->|(-> & [K3 _] & Hd & Hq)]; [by left|right].
    split; [done|]. rewrite Er4. split; [done|]. rewrite Hsg.
    pose proof (c_signals _ _ _ _ _ _ _ _ K3) as [Hg Hs]. split; [by apply Hs|done]. }
  apply wp_bind. eapply wp_mono; [by apply (shutdown_spec ep sfd gfd ext (so_given _ S))|].
  intros u s4 HR. by apply wp_ret, Hend.
Qed.

End whole_run.

End ServerSpec.
