(* ===== verification/ServerProps.v ===== *)
(** * Server: the properties

    Stated over any kernel, event descriptors and ring with the promised behaviour,
    and met by concrete ones in the witnesses. *)

From S2P Require Import Prelude Codec Frames Ring Buffer EventFd MemFs Producer NetApi Server ServerSpec.
Import Codec Frames EventFd Producer NetApi Server ServerSpec.

Module ServerProps.

(** ** Theorems *)

Section properties.
Context {C E N : Type} `{RingProducerLaws C} `{EventFdLaws E} `{NetLaws N} `{ClientOrder}.
Implicit Types s : SSt C E N.

(** C1: [run] refines the abstract server.  When finitely many things happen it
    comes back, or waits in [epoll_wait] for ever; either way what it has published
    is exactly what [ingest] makes of the connections' history - for every
    connection the valid frames of its byte stream, up to the first invalid frame,
    whatever the sizes of the [recv]s - and nothing else; all of it valid frames.
    While it waits, each client's buffer holds exactly the bytes not yet a frame. *)
Theorem server_run_refines fuel config dfd sfd gfd pid ext s :
  start_ok sfd gfd ext s ->
  (net_budget (net s) < fuel)%nat -> (ev_budget (efds s) < fuel)%nat ->
  exists r s', run fuel config dfd sfd gfd pid s = Some (r, s') /\
    let history := ingest (k_trace (kview (net s'))) in
    pushed (ring s') = published history /\ valid_frames (pushed (ring s')) /\
    (r = None -> backlog history = Buffer.unread <$> m_clients s').
Proof.
  intros S Hn He.
  destruct (wp_total _ _ _ (server_run_spec fuel dfd sfd gfd pid ext config true s S
    (fun _ => conj Hn He))) as (r & s' & Hrun & Hp & Hr).
  exists r, s'. split; [done|]. cbv zeta. split; [done|]. split.
  - rewrite <- Hp. apply ingest_valid.
  - intros ->. destruct Hr as (ep & K & _). apply K.
Qed.

(** C16: one [recv]'s worth of input, on every branch.  From a good state below the
    pause threshold, the bytes are appended, every valid frame up to the first
    invalid one is published, with one notification for all of them and none when
    there are none; a client that sent an invalid frame is dropped after that, any
    other keeps exactly its incomplete frame.  The 64 KiB limit and the full ring
    never come up, and the invariant holds again unless the notification failed. *)
Theorem handle_batch_exact fuel ep dfd sfd gfd pid ext fd bs b s s1 :
  (sfd ∈ ext /\ gfd ∈ ext /\ forall fd, fd ∈ ext -> 0 <= fd) ->
  core ep sfd gfd pid ext false None s -> headroom s -> m_clients s !! fd = Some b ->
  net_to (k_log (Received fd bs) (kview (net s))) s s1 -> zlen bs <= kReadBufferSize ->
  (net_budget (net s1) < fuel)%nat -> (ev_budget (efds s1) < fuel)%nat ->
  exists res s', handle_batch fuel ep fd dfd false bs s1 = Some (res, s') /\
    let u := Buffer.unread b ++ bs in
    let n := valid_bytes u in
    pushed (ring s') = pushed (ring s) ++ ztake n u /\
    if bool_decide (res.1 = Some false) then n <> 0 /\ ev_log (efds s') = ev_log (efds s)
    else
      core ep sfd gfd pid ext false None s' /\ (res.2 = false -> headroom s') /\
      ev_log (efds s') = ev_log (efds s) ++ (if n =? 0 then [] else [Notified dfd]) /\
      if zlen (zdrop n u) <? kFrameSize then
        exists b', m_clients s' = <[fd := b']> (m_clients s) /\ Buffer.unread b' = zdrop n u
      else m_clients s' = delete fd (m_clients s) /\ res.1 = Some true.
Proof.
  intros Hext K Hh Hb Hnet Hlen Hn He.
  destruct (wp_total _ _ _ (handle_batch_spec fuel ep dfd sfd gfd pid ext Hext true fd bs b s s1
    K Hh Hb Hnet Hlen (fun _ => conj Hn He))) as (res & s' & Hrun & _ & _ & Hp & HB).
  exists res, s'. split; [done|]. cbv zeta. split; [done|].
  destruct (bool_decide _); [by destruct HB as (_ & ? & ?)|].
  destruct HB as (? & ? & ? & _ & ?). done.
Qed.

(** C15: whatever events [epoll_wait] reports, handling them ends, and unless the
    server stops the invariant holds again (a read of the space descriptor, which the
    server alone reads and only when [epoll] reports it, does not wait): descriptors are accounted for, the epoll
    descriptor watches the right ones with the right masks (no client while ingress
    is paused), buffers hold less than a frame, the ring has a megabyte of headroom
    unless ingress is paused, and the state follows the signals read. *)
Theorem events_keep_invariant fuel ep dfd sfd gfd pid ext evs s :
  (sfd ∈ ext /\ gfd ∈ ext /\ forall fd, fd ∈ ext -> 0 <= fd) ->
  sinv ep sfd gfd pid ext s -> Forall (fun e => 0 <= event_fd e) evs ->
  reads_at_once (E:=E) sfd ->
  (net_budget (net s) < fuel)%nat -> (ev_budget (efds s) < fuel)%nat ->
  exists ok s', handle_events fuel evs ep dfd sfd gfd pid s = Some (ok, s') /\
    if (ok : bool) then sinv ep sfd gfd pid ext s' else winv ep ext s'.
Proof.
  intros Hext S Hf Hsp Hn He.
  destruct (wp_total _ _ _ (handle_events_spec fuel ep dfd sfd gfd pid ext Hext true evs s S Hf
    (fun _ => conj Hn He) (fun _ => Hsp))) as (ok & s' & Hrun & _ & HS & _).
  by exists ok, s'.
Qed.

(** C23: a run that returns has closed every descriptor it opened and has no client
    left, on every path, setup failures included. *)
Theorem server_closes_all fuel config dfd sfd gfd pid ext s code s' :
  start_ok sfd gfd ext s ->
  run fuel config dfd sfd gfd pid s = Some (Some code, s') ->
  k_open (kview (net s')) = ext /\ m_clients s' = ∅ /\
  (code = EXIT_SUCCESS \/ code = EXIT_FAILURE).
Proof.
  intros S Hrun.
  destruct (wp_run _ _ _ _ _ _ (server_run_spec fuel dfd sfd gfd pid ext config false s S
    ltac:(discriminate)) Hrun) as (_ & Hm & Ho & Hc).
  split_and!; [exact Ho|exact Hm|]. destruct Hc as [->|[-> _]]; auto.
Qed.

(** C22: the server succeeds only after draining: it has read SIGINT or SIGTERM, it
    has not been told that the reader is gone (which takes precedence over a
    shutdown request), and the reader has taken every frame from the ring. *)
Theorem success_means_drained fuel config dfd sfd gfd pid ext s s' :
  start_ok sfd gfd ext s ->
  run fuel config dfd sfd gfd pid s = Some (Some EXIT_SUCCESS, s') ->
  queued (ring s') = 0 /\
  let infos := signals (k_trace (kview (net s'))) in
  Exists (fun i => asks_to_stop i = true) infos /\
  Forall (fun i => reader_gone pid i = false) infos.
Proof.
  intros S Hrun.
  destruct (wp_run _ _ _ _ _ _ (server_run_spec fuel dfd sfd gfd pid ext config false s S
    ltac:(discriminate)) Hrun) as (_ & _ & _ & Hc).
  destruct Hc as [?|(_ & Hq & Hs & Hg)]; [done|]. by split_and!.
Qed.

(** C24: a server that drains never goes back: whatever is reported, it accepts
    nobody, receives, publishes and resumes nothing, and stays without clients; it
    only reads signals (a read of the space descriptor does not wait). *)
Theorem draining_is_final fuel ep dfd sfd gfd pid evs s :
  state s = Draining -> m_clients s = ∅ -> listen_fd s = -1 ->
  Forall (fun e => 0 <= event_fd e) evs -> reads_at_once (E:=E) sfd ->
  (net_budget (net s) < fuel)%nat -> (ev_budget (efds s) < fuel)%nat ->
  exists ok s', handle_events fuel evs ep dfd sfd gfd pid s = Some (ok, s') /\
    state s' = Draining /\ m_clients s' = ∅ /\ listen_fd s' = -1 /\ ring s' = ring s /\
    ingressPaused s' = ingressPaused s /\
    exists infos, k_trace (kview (net s')) = k_trace (kview (net s)) ++ map Signalled infos.
Proof.
  intros Hst Hm Hl Hf Hsp Hn He.
  destruct (wp_total _ _ _ (draining_events_spec fuel ep dfd sfd gfd pid true evs s Hst Hm Hl Hf
    (fun _ => conj Hn He) (fun _ => Hsp))) as (ok & s' & Hrun & _ & Hst' & Hm' & Hl' & Hr' & Hp' & infos & Hk).
  exists ok, s'. split_and!; try done. exists infos. unfold kv in Hk. by rewrite Hk.
Qed.

(** While ingress is paused an event of a client, a hangup or an error too,
    changes nothing at all: the client is not closed, so nothing it has sent is
    lost. *)
Theorem paused_client_untouched fuel ep lfd dfd sfd ev s :
  ingressPaused s = true -> event_fd ev <> lfd -> event_fd ev <> sfd ->
  handleEvent fuel ev ep lfd dfd sfd s = Some (true, s).
Proof.
  intros Hp Hl Hs. unfold handleEvent, mbind, M_bind, get, mret, M_ret.
  rewrite (proj2 (Z.eqb_neq _ _) Hl), (proj2 (Z.eqb_neq _ _) Hs), Hp. cbn [negb andb].
  by rewrite Hp.
Qed.

(** C30: [handleSignalFd] reads every pending signal and gives the right account of
    all of them.  It calls [read] over and over, past whole records and
    interruptions, up to the first other answer, and returns [true] exactly when that
    answer is that no signal is left.  A shutdown is requested exactly if one of the
    records read was SIGINT or SIGTERM; the reader is gone exactly if one was a
    SIGCHLD of its own for an exit, a kill or a core dump.  Only these calls change
    the state, and the records read are all the signals that were taken. *)
Theorem signals_accounted fuel fd pid s :
  (net_budget (net s) < fuel)%nat ->
  let none := {| shutdownRequested := false; readerTerminated := false |} in
  exists r s' got last, handleSignalFd fuel fd pid none s = Some (r, s') /\
    answers (Server.sys (read_siginfo fd)) s (got ++ [last]) s' /\
    Forall (fun a => read_on a = true) got /\ read_on last = false /\ r.1 = none_left last /\
    shutdownRequested r.2 = existsb asks_to_stop (infos_of got) /\
    readerTerminated r.2 = existsb (reader_gone pid) (infos_of got) /\
    s' = with_net (net s') s /\
    k_trace (kview (net s')) = k_trace (kview (net s)) ++ map Signalled (infos_of got).
Proof.
  intros Hn none.
  destruct (wp_total _ _ _ (signal_loop_exact pid true fuel fd none s (fun _ => Hn)))
    as (r & s' & Hrun & got & last & Hans & Hgot & Hlast & Hr & HS & HT & Hs & Hk).
  exists r, s', got, last. unfold kv in Hk. by rewrite Hk.
Qed.

End properties.

(** ** A sample run *)

#[export] Instance sample_order : ClientOrder := {
  fds_of m := elements (dom m);
  fds_of_law m := reflexivity _;
}.

Abbreviation sample_st := (SSt EagerRing ScriptedEventFd MemNet).

Definition given : gset Z := {[3; 4; 5]}.

(** The descriptors of the listening socket, of [epoll] and of the first client. *)
Definition lfd0 : Z := MemFs.unused given.
Definition ep0 : Z := MemFs.unused ({[lfd0]} ∪ given).
Definition client0 : Z := MemFs.unused ({[ep0]} ∪ ({[lfd0]} ∪ given)).

Definition wake (fd mask : Z) : happening := HWake [{| events := mask; event_fd := fd |}].

(** A client connects, sends a frame in two pieces and then half a frame; SIGTERM. *)
Definition sample_script : list happening :=
  [wake lfd0 EPOLLIN; HConnect; wake client0 EPOLLIN;
   HBytes (ztake 20 (encode default_record));
   HBytes (zdrop 20 (encode default_record) ++ ztake 16 (encode default_record));
   HFail EINTR; wake 5 EPOLLIN;
   HSignal {| ssi_signo := SIGCHLD; ssi_pid := 9; ssi_code := CLD_EXITED |};
   HSignal {| ssi_signo := SIGTERM; ssi_pid := 0; ssi_code := 0 |}].

Definition sample_net (script : list happening) : MemNet :=
  {| mkview := {| k_open := given; k_epoll := None; k_interest := ∅; k_trace := [] |};
     todo := script |}.

Definition sample_start : sample_st :=
  mk_SSt {| all_sent := []; eager_closed := false |} {| script := [EINTR]; log := [] |} (sample_net sample_script)
    ∅ (-1) Running false.

Lemma sample_given : 4 ∈ given /\ 5 ∈ given /\ forall fd, fd ∈ given -> 0 <= fd.
Proof. unfold given. split; [set_solver|]. split; [set_solver|]. intros fd. set_solver by lia. Qed.

Lemma sample_start_ok : start_ok 4 5 given sample_start.
Proof. constructor; try done. exact sample_given. Qed.

Definition sample_end : sample_st :=
  match run 20 default_config 3 4 5 77 sample_start with
  | Some (_, s) => s
  | None => sample_start
  end.

Lemma sample_ends : run 20 default_config 3 4 5 77 sample_start = Some (Some EXIT_SUCCESS, sample_end).
Proof. by vm_compute. Qed.

Example sample_published : pushed (ring sample_end) = encode default_record.
Proof. by vm_compute. Qed.

Lemma server_run_refines_witness :
  start_ok 4 5 given sample_start /\
  exists r s', run 20 default_config 3 4 5 77 sample_start = Some (r, s') /\
    pushed (ring s') = published (ingest (k_trace (kview (net s')))).
Proof.
  split; [exact sample_start_ok|].
  destruct (server_run_refines 20 default_config 3 4 5 77 given sample_start sample_start_ok)
    as (r & s' & Hrun & Hp & _); [vm_compute; lia|vm_compute; lia|].
  exists r, s'. split; [exact Hrun|exact Hp].
Defined.

Lemma server_closes_all_witness :
  run 20 default_config 3 4 5 77 sample_start = Some (Some EXIT_SUCCESS, sample_end) /\
  k_open (kview (net sample_end)) = given.
Proof.
  split; [exact sample_ends|].
  exact (proj1 (server_closes_all 20 default_config 3 4 5 77 given sample_start EXIT_SUCCESS sample_end
    sample_start_ok sample_ends)).
Defined.

Lemma success_means_drained_witness :
  run 20 default_config 3 4 5 77 sample_start = Some (Some EXIT_SUCCESS, sample_end) /\
  Exists (fun i => asks_to_stop i = true) (signals (k_trace (kview (net sample_end)))).
Proof.
  split; [exact sample_ends|].
  exact (proj1 (proj2 (success_means_drained 20 default_config 3 4 5 77 given sample_start sample_end
    sample_start_ok sample_ends))).
Defined.

(** The server set up, and with a client. *)
Definition sample_setup : sample_st :=
  match setup default_config 4 5 sample_start with Some (_, s) => s | None => sample_start end.

Definition sample_ready : sample_st := with_paused false (with_state Running sample_setup).

Lemma sample_sets_up : setup default_config 4 5 sample_start = Some (Some ep0, sample_setup).
Proof. by vm_compute. Qed.

Lemma sample_ready_core : core ep0 4 5 77 given false None sample_ready.
Proof.
  destruct (wp_run _ _ _ _ _ _ (setup_spec 4 5 77 given default_config false sample_start
    sample_start_ok) sample_sets_up) as [K _]. exact K.
Qed.

Lemma sample_ready_sinv : sinv ep0 4 5 77 given sample_ready.
Proof. split; [exact sample_ready_core|]. intros _. by vm_compute. Qed.

Definition sample_events : list epoll_event :=
  [{| events := EPOLLHUP; event_fd := 9 |}; {| events := EPOLLIN; event_fd := lfd0 |}].

Lemma sample_events_ok : Forall (fun e => 0 <= event_fd e) sample_events.
Proof. repeat constructor; by vm_compute. Qed.

Lemma events_keep_invariant_witness :
  sinv ep0 4 5 77 given sample_ready /\
  exists ok s', handle_events 20 sample_events ep0 3 4 5 77 sample_ready = Some (ok, s') /\
    if (ok : bool) then sinv ep0 4 5 77 given s' else winv ep0 given s'.
Proof.
  split; [exact sample_ready_sinv|].
  apply (events_keep_invariant 20 ep0 3 4 5 77 given sample_events sample_ready sample_given
    sample_ready_sinv sample_events_ok (scripted_at_once 4)); vm_compute; lia.
Defined.

(** With the next happening a connection. *)
Definition sample_waiting : sample_st :=
  with_net {| mkview := mkview (net sample_ready); todo := [HConnect] |} sample_ready.

Lemma sample_waiting_core : core ep0 4 5 77 given false None sample_waiting.
Proof. eapply core_equiv; [exact sample_ready_core|apply k_equiv_refl|by constructor|done]. Qed.

Definition sample_connected : sample_st :=
  match accept_loop 5 ep0 lfd0 sample_waiting with Some (_, s) => s | None => sample_waiting end.

Lemma sample_connects : accept_loop 5 ep0 lfd0 sample_waiting = Some (true, sample_connected).
Proof. by vm_compute. Qed.

Lemma sample_connected_core : core ep0 4 5 77 given false None sample_connected.
Proof.
  destruct (wp_run _ _ _ _ _ _ (accept_loop_spec 20 ep0 4 5 77 given sample_given false 5 lfd0
    sample_waiting sample_waiting_core eq_refl ltac:(discriminate) ltac:(discriminate))
    sample_connects) as (_ & _ & _ & _ & K). exact K.
Qed.

Definition sample_bytes : bytes := encode default_record ++ ztake 7 (encode default_record).

Definition sample_received : sample_st :=
  with_net {| mkview := k_log (Received client0 sample_bytes) (mkview (net sample_connected));
              todo := [] |} sample_connected.

Lemma sample_receives :
  net_to (k_log (Received client0 sample_bytes) (kview (net sample_connected)))
    sample_connected sample_received.
Proof. eexists. split; [reflexivity|]. split; [reflexivity|]. vm_compute. lia. Qed.

Lemma handle_batch_exact_witness :
  core ep0 4 5 77 given false None sample_connected /\
  exists res s', handle_batch 20 ep0 client0 3 false sample_bytes sample_received = Some (res, s') /\
    pushed (ring s') = pushed (ring sample_connected) ++ ztake (valid_bytes sample_bytes) sample_bytes.
Proof.
  split; [exact sample_connected_core|].
  destruct (handle_batch_exact 20 ep0 3 4 5 77 given client0 sample_bytes Buffer.new_buffer
    sample_connected sample_received sample_given sample_connected_core)
    as (res & s' & Hrun & Hp & _).
  - by vm_compute.
  - by vm_compute.
  - exact sample_receives.
  - by vm_compute.
  - vm_compute. lia.
  - vm_compute. lia.
  - exists res, s'. split; [exact Hrun|exact Hp].
Defined.

(** A server that drains, with more to come. *)
Definition sample_draining : sample_st :=
  mk_SSt {| all_sent := []; eager_closed := false |} {| script := []; log := [] |} (sample_net sample_script)
    ∅ (-1) Draining true.

Lemma draining_is_final_witness :
  state sample_draining = Draining /\
  exists ok s', handle_events 20 sample_events ep0 3 4 5 77 sample_draining = Some (ok, s') /\
    ring s' = ring sample_draining.
Proof.
  split; [reflexivity|].
  destruct (draining_is_final 20 ep0 3 4 5 77 sample_events sample_draining eq_refl eq_refl eq_refl
    sample_events_ok (scripted_at_once 4)) as (ok & s' & Hrun & _ & _ & _ & Hr & _);
    [vm_compute; lia|vm_compute; lia|].
  exists ok, s'. split; [exact Hrun|exact Hr].
Defined.

Lemma paused_client_untouched_witness :
  ingressPaused sample_draining = true /\
  handleEvent 20 {| events := EPOLLHUP; event_fd := 9 |} ep0 (-1) 3 4 sample_draining =
    Some (true, sample_draining).
Proof.
  split; [reflexivity|].
  apply (paused_client_untouched 20 ep0 (-1) 3 4 {| events := EPOLLHUP; event_fd := 9 |}
    sample_draining eq_refl); vm_compute; discriminate.
Defined.

Definition sample_signalled : sample_st :=
  with_net (sample_net [HSignal {| ssi_signo := SIGINT; ssi_pid := 0; ssi_code := 0 |}]) sample_start.

Lemma signals_accounted_witness :
  (net_budget (net sample_signalled) < 20)%nat /\
  exists r s' got last, handleSignalFd 20 5 77 {| shutdownRequested := false; readerTerminated := false |}
      sample_signalled = Some (r, s') /\
    answers (Server.sys (read_siginfo 5)) sample_signalled (got ++ [last]) s' /\
    r.1 = none_left last /\ shutdownRequested r.2 = existsb asks_to_stop (infos_of got).
Proof.
  assert (net_budget (net sample_signalled) < 20)%nat as Hb by (vm_compute; lia).
  split; [exact Hb|].
  destruct (signals_accounted 20 5 77 sample_signalled Hb)
    as (r & s' & got & last & Hrun & Ha & _ & _ & Hl & Hs & _).
  exists r, s', got, last. split; [exact Hrun|]. split; [exact Ha|]. split; [exact Hl|exact Hs].
Defined.

End ServerProps.
