(* ===== verification/ServerCauses.v ===== *)
(** * Failures of the server have causes

    The theorems of [ServerProps.v] say what the server has done when it stops; here
    stopping with a failure is shown to have a cause.  The calls are watched
    ([Watching]); when none has gone wrong and the reader has not ended, the server
    waits for ever or drains.  In particular neither the limit on a client's input
    nor a full ring ever stops it. *)

From S2P Require Import Prelude Codec Frames Ring Buffer EventFd MemFs Producer NetApi Server ServerSpec ServerProps Watching.
Import Codec Frames EventFd Producer NetApi Server ServerSpec Watching.

Module ServerCauses.

(** ** The kernel, watched *)

Definition again (e : Z) : bool := (e =? EAGAIN) || (e =? EWOULDBLOCK) || (e =? EINTR).

(** A descriptor that is not watched cannot be removed from [epoll]; everything else
    asked of [epoll_ctl] can be done. *)
Definition wrong_ctl (op fd : Z) (k : KView) (r : sysres unit) : bool :=
  failed r && negb ((op =? EPOLL_CTL_DEL) && bool_decide (k_interest k !! fd = None)).

(** An error or hang-up of a descriptor that is not a connection. *)
Definition alarming (k : KView) (e : epoll_event) : bool :=
  has_any (events e) (Z.lor EPOLLERR EPOLLHUP) &&
  bool_decide (backlog (ingest (k_trace k)) !! event_fd e = None).

Definition wrong_wait (k : KView) (r : option (sysres (list epoll_event))) : bool :=
  match r with
  | None => false
  | Some (Err e) => negb (e =? EINTR)
  | Some (Ok evs) => existsb (alarming k) evs
  end.

Definition wrong_accept (r : sysres Z) : bool :=
  match r with Ok _ => false | Err e => negb (again e) end.

Definition wrong_siginfo (r : sysres (Z * signalfd_siginfo)) : bool :=
  match r with Ok (n, _) => negb (n =? sizeof_siginfo) | Err e => negb (again e) end.

(** Errors of a connection ([recv]) and of [close] stop nothing. *)
Section watched.
Context {N : Type} `{NetLaws N}.

Definition watch_net {A} (wrong : KView -> A -> bool) (f : N -> A * N) (w : Watched N)
  : A * Watched N :=
  watch (wrong (kview (world w))) f w.

#[export] Instance watched_net : NetApi (Watched N) := {
  socket d t p := watch_net (fun _ => failed) (socket d t p);
  setsockopt fd l o v := watch_net (fun _ => failed) (setsockopt fd l o v);
  bind fd a := watch_net (fun _ => failed) (bind fd a);
  listen fd b := watch_net (fun _ => failed) (listen fd b);
  epoll_create1 f := watch_net (fun _ => failed) (epoll_create1 f);
  epoll_ctl ep op fd e := watch_net (wrong_ctl op fd) (epoll_ctl ep op fd e);
  epoll_wait ep max := watch_net wrong_wait (epoll_wait ep max);
  accept4 fd f := watch_net (fun _ => wrong_accept) (accept4 fd f);
  recv fd n := watch_net (fun _ _ => false) (recv fd n);
  read_siginfo fd := watch_net (fun _ => wrong_siginfo) (read_siginfo fd);
  close fd := watch_net (fun _ _ => false) (close fd);
}.

Lemma watch_net_law {A} (f : N -> A * N) wrong happens post :
  net_law kview net_budget f happens post ->
  net_law (fun w => kview (world w)) (fun w => net_budget (world w)) (watch_net wrong f) happens post.
Proof.
  intros Hf w r w' Hw. unfold watch_net, watch in Hw. destruct (f (world w)) as [r0 w0] eqn:E.
  injection Hw as <- <-. exact (Hf _ _ _ E).
Qed.

#[export] Instance watched_net_laws : NetLaws (Watched N).
Proof.
  refine {| kview w := kview (world w); net_budget w := net_budget (world w) |};
    intros; apply watch_net_law.
  - apply socket_law.
  - apply setsockopt_law.
  - apply bind_law.
  - apply listen_law.
  - apply epoll_create1_law.
  - apply epoll_ctl_law.
  - apply epoll_wait_law.
  - apply accept4_law.
  - apply recv_law.
  - apply read_siginfo_law.
  - apply net_close_law.
Defined.

End watched.

(** ** The handlers *)

Section handlers.
Context {C E N : Type} `{RingProducerLaws C} `{EventFdLaws E} `{NetLaws N} `{ClientOrder}.
Variable fuel : nat.
Variables ep dfd sfd gfd pid : Z.
Variable ext : gset Z.

Abbreviation st := (SSt C (Watched E) (Watched N)).
Implicit Types s : st.

(** A call has gone wrong, or the reader has ended. *)
Definition trouble s : Prop := troubled (efds s) = true \/ troubled (net s) = true.
Definition gone s : Prop :=
  Exists (fun i => reader_gone pid i = true) (signals (k_trace (kv s))).
Abbreviation blamed := (blamed trouble gone).

(** What went wrong stays so. *)
Definition calm s s' : Prop := trouble s -> trouble s'.

Lemma calm_refl s : calm s s.
Proof. by intros ?. Qed.

Lemma calm_trans s1 s2 s3 : calm s1 s2 -> calm s2 s3 -> calm s1 s3.
Proof. unfold calm. auto. Qed.

Lemma calm_same s s' : efds s' = efds s -> net s' = net s -> calm s s'.
Proof. unfold calm, trouble. by intros -> ->. Qed.

Lemma calm_blamed s s' : calm s s' -> blamed s s' false.
Proof. by split. Qed.

Lemma trouble_blamed s s' b : calm s s' -> (b = true -> trouble s') -> blamed s s' b.
Proof. intros Hc Hb. split; [done|]. intros E1. left. auto. Qed.

Lemma blamed_calm s1 s2 s3 b : calm s1 s2 -> blamed s2 s3 b -> blamed s1 s3 b.
Proof. intros Hc Hb. exact (blamed_trans _ _ _ _ _ _ _ (calm_blamed _ _ Hc) Hb). Qed.

(** A watched call, and one whose law is needed too. *)
Lemma wp_watched_law {A} wrong (f : N -> A * N) happens post (Q : A -> st -> Prop) s :
  net_law kview net_budget f happens post ->
  (forall r n, post (kv s) r (kview n) -> (net_budget n <= net_budget (net s))%nat ->
     calm s (with_net n s) -> (wrong (kv s) r = true -> trouble (with_net n s)) ->
     Q r (with_net n s)) ->
  wp false (sys (watch_net wrong f)) Q s.
Proof.
  intros Hl HQ. unfold sys. apply wp_lift, wp_call. intros r n Hr.
  destruct (watch_net_law f wrong happens post Hl _ _ _ Hr) as (Hp & Hb & _).
  unfold watch_net, watch in Hr.
  destruct (f (world (net s))) as [r0 n0]. injection Hr as <- <-. apply HQ; [done|done| |].
  - unfold calm, trouble. cbn [efds net with_net troubled]. rewrite orb_true_iff. tauto.
  - intros Hw. right. cbn [net with_net troubled]. unfold kv in Hw. cbn in Hw.
    rewrite Hw. apply orb_true_r.
Qed.

Lemma wp_watched {A} wrong (f : N -> A * N) (Q : A -> st -> Prop) s :
  (forall r n, calm s (with_net n s) -> (wrong (kv s) r = true -> trouble (with_net n s)) ->
     Q r (with_net n s)) ->
  wp false (sys (watch_net wrong f)) Q s.
Proof.
  intros HQ. unfold sys. apply wp_lift, wp_call. intros r n Hr. unfold watch_net, watch in Hr.
  destruct (f (world (net s))) as [r0 n0]. injection Hr as <- <-. apply HQ.
  - unfold calm, trouble. cbn [efds net with_net troubled]. rewrite orb_true_iff. tauto.
  - intros Hw. right. cbn [net with_net troubled]. unfold kv in Hw. cbn in Hw.
    rewrite Hw. apply orb_true_r.
Qed.

(** One whose result decides. *)
Lemma blame_call {A} wrong (f : N -> sysres A * N) s :
  (forall k r, is_ok r = false -> wrong k r = true) ->
  wp false (r ← sys (watch_net wrong f); mret (is_ok r)) (fun ok s' => blamed s s' (negb ok)) s.
Proof.
  intros Hw. apply wp_bind, wp_watched. intros r n Hc Hr. apply wp_ret, trouble_blamed; [done|].
  intros Hok%negb_true_iff. by apply Hr, Hw.
Qed.

Lemma failed_wrong {A} (k : KView) (r : sysres A) : is_ok r = false -> failed r = true.
Proof. unfold failed. by intros ->. Qed.

Lemma blame_add fd mask s :
  wp false (addEpollFd ep fd mask) (fun ok s' => blamed s s' (negb ok)) s.
Proof. apply blame_call. intros k r Hr. unfold wrong_ctl, failed. by rewrite Hr. Qed.

Lemma blame_modify fd mask s :
  wp false (modifyEpollFd ep fd mask) (fun ok s' => blamed s s' (negb ok)) s.
Proof. apply blame_call. intros k r Hr. unfold wrong_ctl, failed. by rewrite Hr. Qed.

Lemma blame_remove fd s :
  wp false (removeEpollFd ep fd)
    (fun ok s' => calm s s' /\ (ok = false -> trouble s' \/ k_interest (kv s) !! fd = None)) s.
Proof.
  unfold removeEpollFd. apply wp_bind, wp_watched. intros r n Hc Hr. apply wp_ret. split; [done|].
  intros Hok. destruct (k_interest (kv s) !! fd) eqn:Ei; [left|by right]. apply Hr.
  unfold wrong_ctl, failed. by rewrite Hok, Ei.
Qed.

Lemma calm_close fd s : wp false (sys (close fd)) (fun _ s' => calm s s') s.
Proof. apply wp_watched. by intros r n Hc _. Qed.

Lemma calm_removeClient fd s : wp false (removeClient ep fd) (fun _ s' => calm s s') s.
Proof.
  unfold removeClient. apply wp_bind. eapply wp_mono; [apply blame_remove|]. intros ok s1 [Hc1 _].
  apply wp_bind. eapply wp_mono; [apply calm_close|]. intros u s2 Hc2.
  unfold set_clients. apply wp_modify. eapply calm_trans; [exact Hc1|].
  eapply calm_trans; [exact Hc2|]. by apply calm_same.
Qed.

Lemma calm_removeAllClients s : wp false (removeAllClients ep) (fun _ s' => calm s s') s.
Proof.
  unfold removeAllClients. apply wp_bind, wp_get. generalize (size (m_clients s)) as n. intros n.
  revert s. induction n as [|n IH]; intros s; cbn [remove_all]; apply wp_bind, wp_get;
    (destruct (fds_of (m_clients s)) as [|fd rest]; [apply wp_ret, calm_refl|]);
    [by apply wp_out_of_fuel|].
  apply wp_bind. eapply wp_mono; [apply calm_removeClient|]. intros u s1 Hc1.
  eapply wp_mono; [apply IH|]. intros v s2. by apply calm_trans.
Qed.

(** *** The start and the end of [run] *)

Lemma blamed_close fd s0 s b :
  blamed s0 s b -> wp false (sys (close fd)) (fun _ s' => blamed s0 s' b) s.
Proof.
  intros [K1 K2]. apply (wp_watched_law _ _ _ _ _ _ (net_close_law fd)). intros r n Hk _ Hc _.
  split; [unfold calm in Hc; auto|]. intros Hb. destruct (K2 Hb) as [Ht|Hg]; [left; by apply Hc|right].
  unfold gone, kv in *. cbn [net with_net]. change (kview n = k_shut fd (kview (net s))) in Hk.
  rewrite Hk. cbn [k_shut k_trace]. by rewrite signals_snoc, app_nil_r.
Qed.

Lemma blamed_close_stop fd s0 s :
  blamed s0 s true ->
  wp false (sys (close fd);;; mret None) (fun (r : option Z) s' => blamed s0 s' (is_none r)) s.
Proof.
  intros Hb. apply wp_bind. eapply wp_mono; [by apply blamed_close|]. intros u s1 Hb1. by apply wp_ret.
Qed.

(** A step of [setup]: what follows, or closing and giving up. *)
Lemma blame_step (m : M st bool) stop (k : M st (option Z)) s0 s :
  calm s0 s ->
  wp false m (fun ok s' => blamed s s' (negb ok)) s ->
  (forall s', blamed s0 s' true ->
     wp false stop (fun r s' => blamed s0 s' (is_none r)) s') ->
  (forall s', calm s0 s' -> wp false k (fun r s' => blamed s0 s' (is_none r)) s') ->
  wp false (ok ← m; if negb ok then stop else k) (fun r s' => blamed s0 s' (is_none r)) s.
Proof.
  intros Hc Hm Hs Hk. apply wp_bind. eapply wp_mono; [exact Hm|]. intros ok s' Hb.
  pose proof (blamed_calm _ _ _ _ Hc Hb) as Hb'.
  destruct ok; cbn [negb] in *; [apply Hk; exact (proj1 Hb')|by apply Hs].
Qed.

(** *** Accepting and reading *)

Lemma blame_accept_loop n lfd s :
  wp false (accept_loop n ep lfd) (fun ok s' => blamed s s' (negb ok)) s.
Proof.
  revert s. induction n as [|n IH]; intros s; cbn [accept_loop]; [by apply wp_out_of_fuel|].
  assert (forall s1, calm s s1 ->
    wp false (accept_loop n ep lfd) (fun ok s' => blamed s s' (negb ok)) s1) as Hgo.
  { intros s1 Hc. eapply wp_mono; [apply IH|]. intros ok s2. by apply blamed_calm. }
  apply wp_bind, wp_watched. intros [fd|e] m Hc Hr.
  - apply wp_bind. eapply wp_mono; [apply blame_add|]. intros ok s1 [Hc1 _].
    destruct ok; cbn [negb]; apply wp_bind.
    + unfold set_clients. apply wp_modify, Hgo. eapply calm_trans; [exact Hc|].
      eapply calm_trans; [exact Hc1|]. by apply calm_same.
    + eapply wp_mono; [apply calm_close|]. intros u s2 Hc2. apply Hgo.
      eapply calm_trans; [exact Hc|]. by eapply calm_trans.
  - unfold wrong_accept, again in Hr.
    destruct ((e =? EAGAIN) || (e =? EWOULDBLOCK)); [by apply wp_ret, calm_blamed|].
    destruct (e =? EINTR); [by apply Hgo|]. apply wp_ret, trouble_blamed; auto.
Qed.

(** The event descriptors. *)
Lemma blame_event n fd s :
  wp false (on_efds (notifyEvent n fd)) (fun ok s' => blamed s s' (negb ok)) s.
Proof.
  unfold on_efds. apply wp_lift. eapply wp_mono; [apply smooth_notify|]. intros ok e [K1 K2].
  unfold Watching.blamed, trouble in *. cbn [efds net with_efds]. split; [tauto|]. intros Hok.
  left. left. destruct (troubled e); [done|]. by rewrite K2 in Hok.
Qed.

Lemma blame_notify pub s :
  wp false (notifyPublished fuel dfd pub) (fun ok s' => blamed s s' (negb ok)) s.
Proof.
  unfold notifyPublished. destruct pub; cbn [negb]; [apply blame_event|apply wp_ret, blamed_refl].
Qed.

(** [res.1] is [Some false] where the server has to stop. *)
Definition stops (r : option bool) : bool := bool_decide (r = Some false).

Lemma blame_finish fd err pub pr s :
  wp false (finish_batch fuel ep fd dfd err pub pr) (fun res s' => blamed s s' (stops res.1)) s.
Proof.
  unfold finish_batch. destruct (negb _); apply wp_bind;
    (eapply wp_mono; [apply blame_notify|]); intros ok s1 Hb1; destruct ok; cbn [negb] in *;
    try (by apply wp_ret); apply wp_bind.
  - eapply wp_mono; [apply calm_removeClient|]. intros u s2 Hc2. apply wp_ret, calm_blamed.
    eapply calm_trans; [exact (proj1 Hb1)|done].
  - unfold update_client, set_clients. apply wp_modify. set (s2 := with_clients _ _).
    assert (calm s s2) as Hc by (eapply calm_trans; [exact (proj1 Hb1)|by apply calm_same]).
    destruct pr; by apply wp_ret, calm_blamed.
Qed.

(** The limit on a client's input and the full ring are not among the causes. *)
Lemma blame_batch fd bs b s0 s :
  core ep sfd gfd pid ext false None s0 -> headroom s0 -> m_clients s0 !! fd = Some b ->
  net_to (k_log (Received fd bs) (kv s0)) s0 s -> zlen bs <= kReadBufferSize ->
  wp false (handle_batch fuel ep fd dfd false bs) (fun res s' => blamed s s' (stops res.1)) s.
Proof.
  intros K Hh Hb Hnet Hlen. destruct Hnet as (n1 & -> & _ & _).
  destruct (append_small _ _ _ _ _ fd bs b s0 K Hb Hlen) as (Hok & _ & Eu & Hus).
  set (b1 := Buffer.append bs b) in *. set (n := valid_bytes (Buffer.unread b1)).
  unfold handle_batch. apply wp_bind. unfold update_client, set_clients. apply wp_modify.
  cbn [m_clients with_net]. rewrite (alter_lookup_insert _ _ _ _ Hb). fold b1.
  set (s1 := with_clients _ _). apply wp_bind. unfold client. apply wp_gets.
  assert (m_clients s1 !! fd = Some b1) as Hb1 by apply lookup_insert_eq.
  rewrite Hb1. cbn [default from_option id].
  rewrite (proj2 (Z.ltb_ge _ _)) by (rewrite (Buffer.pendingBytes_unread b1 Hok); unfold kMaxClientBuffer; lia).
  destruct (validate_frames_spec b1 Hok) as (err & -> & _). fold n.
  apply wp_bind. assert (calm (with_net n1 s0) s1) as Hc1 by (by apply calm_same).
  destruct (Z.eqb_spec (n / kFrameSize) 0) as [En|En]; cbn [negb].
  { apply wp_ret. eapply wp_mono; [apply blame_finish|]. intros res s2. by apply blamed_calm. }
  destruct (valid_bytes_range (Buffer.unread b1)) as [Hn _]. fold n in Hn.
  eapply wp_mono; [apply (publish_spec fuel dfd false fd false b1 s1 Hb1 Hok)|].
  - fold n. intros E0. by rewrite E0 in En.
  - apply (w_ring _ _ _ (c_winv _ _ _ _ _ _ _ _ K)).
  - cbn [s1 ring with_clients with_net]. unfold headroom, kPauseIngressBytes in Hh.
    change Ring.capacityBytes with 4194304. fold n. lia.
  - intros r s2 (c & pr & -> & -> & _). eapply wp_mono; [apply blame_finish|].
    intros res s3. apply blamed_calm. by apply calm_same.
Qed.

Hypothesis ext_fds : sfd ∈ ext /\ gfd ∈ ext /\ forall fd, fd ∈ ext -> 0 <= fd.

Lemma blame_read_loop fd n s :
  core ep sfd gfd pid ext false None s -> headroom s -> fd ∈ dom (m_clients s) ->
  wp false (read_loop fuel n ep fd dfd false) (fun r s' => blamed s s' (negb r.1)) s.
Proof.
  revert s. induction n as [|n IH]; intros s K Hh Hin; cbn [read_loop]; [by apply wp_out_of_fuel|].
  pose proof Hin as [b Hb]%elem_of_dom.
  assert (forall m r, calm s (with_net m s) ->
    wp false (removeClient ep fd;;; mret (true, r)) (fun (r : bool * bool) s' => blamed s s' (negb r.1)) (with_net m s))
    as Hrem.
  { intros m r Hc. apply wp_bind. eapply wp_mono; [apply calm_removeClient|]. intros u s1 Hc1.
    apply wp_ret, calm_blamed. by eapply calm_trans. }
  apply wp_bind, (wp_watched_law _ _ _ _ _ _ (recv_law fd kReadBufferSize)).
  intros [bs|e] m Hr Hbud Hc _.
  - destruct (Z.ltb_spec 0 (zlen bs)) as [Hpos|Hneg]; [|by apply Hrem].
    destruct Hr as [Hlen Hk].
    assert (net_to (k_log (Received fd bs) (kv s)) s (with_net m s)) as Hnet by (by exists m).
    apply wp_bind. eapply wp_mono; [apply (wp_conj false _ _ _ (with_net m s)
      (blame_batch fd bs b s _ K Hh Hb Hnet Hlen)
      (handle_batch_spec fuel ep dfd sfd gfd pid ext ext_fds false fd bs b s _ K Hh Hb Hnet Hlen ltac:(done)))|].
    intros [res pr] s1 [Hb1 (_ & _ & _ & HB)]. cbn [fst snd] in *.
    pose proof (blamed_calm _ _ _ _ Hc Hb1) as Hb2. unfold stops in Hb2.
    destruct res as [[]|]; [by apply wp_ret..|].
    rewrite bool_decide_false in HB, Hb2 by done. destruct HB as (K1 & _ & Hh1 & Hpr & HC).
    specialize (Hpr eq_refl) as ->. specialize (Hh1 eq_refl).
    assert (fd ∈ dom (m_clients s1)) as Hin1.
    { destruct (_ <? _); [|by destruct HC]. destruct HC as (b1 & -> & _).
      rewrite dom_insert_L. set_solver. }
    eapply wp_mono; [apply (IH s1 K1 Hh1 Hin1)|]. intros r s2. exact (blamed_calm _ _ _ _ (proj1 Hb2)).
  - destruct (e =? EINTR).
    + eapply wp_mono; [apply (IH (with_net m s)); [|done|done]|].
      * eapply core_equiv; [exact K| |by constructor|done].
        unfold kv at 2. cbn [net with_net]. change (kview m = kv s) in Hr. rewrite Hr. apply k_equiv_refl.
      * intros r s2. by apply blamed_calm.
    + destruct (_ || _); [by apply wp_ret, calm_blamed|by apply Hrem].
Qed.

Lemma blame_readClient fd s :
  core ep sfd gfd pid ext false None s -> headroom s ->
  wp false (readClient fuel ep fd dfd) (fun r s' => blamed s s' (negb r.1)) s.
Proof.
  intros K Hh. unfold readClient. apply wp_bind, wp_get.
  destruct (m_clients s !! fd) as [b|] eqn:Eb; [|apply wp_ret, blamed_refl].
  apply elem_of_dom_2 in Eb. by apply blame_read_loop.
Qed.

(** *** Back pressure *)

Lemma blame_update_clients fds en s :
  k_epoll (kv s) = Some ep -> NoDup fds ->
  (en = false -> forall fd, fd ∈ fds -> is_Some (k_interest (kv s) !! fd)) ->
  wp false (update_clients ep fds en) (fun ok s' => blamed s s' (negb ok)) s.
Proof.
  intros He Hnd Hw. destruct en.
  { clear He Hnd Hw. revert s. induction fds as [|fd fds IH]; intros s; cbn [update_clients];
      [apply wp_ret, blamed_refl|].
    apply wp_bind. eapply wp_mono; [apply blame_add|]. intros ok s1 Hb1. destruct ok; cbn [negb];
      [|by apply wp_ret]. eapply wp_mono; [apply IH|]. intros ok s2. exact (blamed_calm _ _ _ _ (proj1 Hb1)). }
  specialize (Hw eq_refl). revert s He Hw. induction Hnd as [|fd fds Hout Hnd IH]; intros s He Hw;
    cbn [update_clients]; [apply wp_ret, blamed_refl|].
  apply wp_bind. eapply wp_mono; [apply (wp_conj false _ _ _ s (blame_remove fd s)
    (removeEpollFd_spec ep false fd s He))|].
  intros ok s1 [[Hc1 Hok] Hnet]. pose proof (net_to_kv _ _ _ Hnet) as Hk1. destruct ok; cbn [negb].
  - eapply wp_mono; [apply IH|]; [by rewrite Hk1| |].
    + intros fd' Hin. rewrite Hk1. cbn [k_watch k_interest]. rewrite lookup_delete_ne by (by intros ->).
      apply Hw. by right.
    + intros ok s2. by apply blamed_calm.
  - apply wp_ret, trouble_blamed; [done|]. intros _. destruct (Hok eq_refl) as [|Hn]; [done|].
    destruct (Hw fd ltac:(by left)) as [i Hi]. by rewrite Hi in Hn.
Qed.

Lemma blame_interest en s :
  core ep sfd gfd pid ext en None s -> listen_fd s <> -1 ->
  wp false (updateIngressInterest ep (listen_fd s) en) (fun ok s' => blamed s s' (negb ok)) s.
Proof.
  intros K Hl. pose proof (c_winv _ _ _ _ _ _ _ _ K) as W.
  unfold updateIngressInterest. apply wp_bind.
  eapply wp_mono; [apply (wp_conj false _ _ _ s (blame_modify _ _ s)
    (modifyEpollFd_spec ep false _ _ s (w_epoll _ _ _ W)))|].
  intros ok s1 [Hb1 Hnet]. destruct ok; cbn [negb] in *; [|by apply wp_ret].
  pose proof (net_to_kv _ _ _ Hnet) as Hk1. destruct Hnet as (n & -> & _ & _).
  apply wp_bind, wp_get. eapply wp_mono; [apply blame_update_clients|].
  - rewrite Hk1. apply W.
  - rewrite fds_of_law. apply NoDup_elements.
  - intros -> fd Hin%fds_of_elem. cbn [m_clients with_net] in Hin.
    pose proof (w_clients _ _ _ W fd Hin) as [_ Hout].
    rewrite Hk1. cbn [k_watch k_interest]. apply lookup_insert_is_Some'. right.
    rewrite (c_watch _ _ _ _ _ _ _ _ K). unfold expected.
    destruct ext_fds as (Hs & Hg & _).
    rewrite decide_False by (intros [-> | ->]; set_solver).
    rewrite decide_False by (rewrite <- elem_of_listen_set; set_solver).
    rewrite decide_True by done. by eexists.
  - intros ok s2. exact (blamed_calm _ _ _ _ (proj1 Hb1)).
Qed.

(** *** Events *)

(** No error or hang-up of the listening socket or of the descriptors given. *)
Definition quiet (lfd : Z) (ev : epoll_event) : Prop :=
  event_fd ev = lfd \/ event_fd ev = sfd \/ event_fd ev = gfd ->
  has_any (events ev) (Z.lor EPOLLERR EPOLLHUP) = false.

Lemma blame_flags (m : M st bool) (bad : bool) s s0 :
  trouble s0 \/ bad = false ->
  wp false m (fun ok s' => blamed s0 s' (negb ok)) s ->
  wp false (ok ← m; if negb ok then mret false else if bad then mret false else mret true)
    (fun ok s' => blamed s0 s' (negb ok)) s.
Proof.
  intros Hbad Hm. apply wp_bind. eapply wp_mono; [exact Hm|]. intros ok s' Hb.
  destruct ok; cbn [negb] in *; [|by apply wp_ret].
  destruct Hbad as [Ht| ->]; [|by apply wp_ret].
  destruct bad; apply wp_ret; [|done]. apply trouble_blamed; [exact (proj1 Hb)|].
  intros _. exact (proj1 Hb Ht).
Qed.

Lemma blame_resume s :
  core ep sfd gfd pid ext true None s -> listen_fd s <> -1 ->
  wp false (ok ← updateIngressInterest ep (listen_fd s) true;
        if negb ok then mret false else set_paused false;;; mret true)
    (fun ok s' => blamed s s' (negb ok)) s.
Proof.
  intros K Hl. apply wp_bind. eapply wp_mono; [by apply blame_interest|].
  intros ok s1 Hb1. destruct ok; cbn [negb] in *; [|by apply wp_ret].
  apply wp_bind. unfold set_paused. apply wp_modify, wp_ret. exact Hb1.
Qed.

Lemma blame_space_event (b : bool) s :
  sinv ep sfd gfd pid ext s ->
  wp false (if b then
          ok ← on_efds (consumeEvent fuel sfd);
          if negb ok then mret false
          else
            resume ← (if bool_decide (state s = Running) && ingressPaused s then
                        pending ← on_ring p_pendingBytes;
                        mret (pending <=? kResumeIngressBytes)
                      else mret false);
            if (resume : bool) then
              ok ← updateIngressInterest ep (listen_fd s) true;
              if negb ok then mret false else set_paused false;;; mret true
            else mret true
        else mret true) (fun ok s' => blamed s s' (negb ok)) s.
Proof.
  intros [K _]. destruct b; [|apply wp_ret, blamed_refl].
  apply wp_bind. unfold on_efds. apply wp_lift. eapply wp_mono; [apply smooth_consume|].
  intros ok e [K1 K2]. set (s1 := with_efds e s).
  assert (blamed s s1 (negb ok)) as Hb1.
  { apply trouble_blamed; unfold calm, trouble; cbn [s1 efds net with_efds]; [tauto|]. intros Hok.
    left. destruct (troubled e); [done|]. by rewrite K2 in Hok. }
  destruct ok; cbn [negb] in *; [|by apply wp_ret]. apply wp_bind.
  destruct (bool_decide (state s = Running) && ingressPaused s) eqn:Eb; [|by apply wp_ret, wp_ret].
  apply andb_true_iff in Eb as [Est%bool_decide_eq_true Epa].
  apply wp_bind. unfold on_ring. apply wp_lift, wp_call. intros p c Hc.
  destruct (pending_law _ _ _ (w_ring _ _ _ (c_winv _ _ _ _ _ _ _ _ K)) Hc) as (Ho & Hpc & _).
  apply wp_ret. set (s2 := with_ring c s1). destruct (p <=? kResumeIngressBytes); [|by apply wp_ret].
  pose proof (c_state _ _ _ _ _ _ _ _ K) as Hl. rewrite Est in Hl. rewrite Epa in K.
  eapply wp_mono; [apply (blame_resume s2); [|done]|].
  - apply ring_core; [by apply efds_core|done|done].
  - intros ok s3. exact (blamed_calm _ _ _ _ (proj1 Hb1)).
Qed.

Lemma blame_client_event fd (b : bool) s :
  sinv ep sfd gfd pid ext s ->
  wp false (if negb (ingressPaused s) && b then
          r ← readClient fuel ep fd dfd;
          if negb r.1 then mret (Some false)
          else if (r.2 : bool) then
            ok ← updateIngressInterest ep (listen_fd s) false;
            if negb ok then mret (Some false) else set_paused true;;; mret (Some true)
          else mret None
        else mret None) (fun r s' => blamed s s' (stops r)) s.
Proof.
  intros [K Hh]. destruct (negb (ingressPaused s) && b) eqn:Eb; [|apply wp_ret, blamed_refl].
  apply andb_true_iff in Eb as [Epa _]. apply negb_true_iff in Epa.
  specialize (Hh Epa). rewrite Epa in K.
  apply wp_bind. eapply wp_mono; [apply (wp_conj false _ _ _ s (blame_readClient fd s K Hh)
    (readClient_spec fuel ep dfd sfd gfd pid ext ext_fds false fd s K Hh ltac:(done)))|].
  intros [ok pr] s1 [Hb1 [(_ & (El & Es & _) & HR) Hrun]]. cbn [fst snd] in *.
  destruct ok; cbn [negb] in *; [|by apply wp_ret]. destruct pr; [|by apply wp_ret].
  destruct HR as [K1 _]. pose proof (c_state _ _ _ _ _ _ _ _ K) as Hl. rewrite (Hrun eq_refl) in Hl.
  rewrite <- El. apply wp_bind. eapply wp_mono; [apply blame_interest; [done|congruence]|].
  intros ok s2 Hb2. pose proof (blamed_calm _ _ _ _ (proj1 Hb1) Hb2) as Hb.
  destruct ok; cbn [negb] in *; [|by apply wp_ret].
  apply wp_bind. unfold set_paused. apply wp_modify, wp_ret. exact Hb.
Qed.

Lemma blame_handleEvent ev s :
  sinv ep sfd gfd pid ext s -> trouble s \/ quiet (listen_fd s) ev ->
  wp false (handleEvent fuel ev ep (listen_fd s) dfd sfd) (fun ok s' => blamed s s' (negb ok)) s.
Proof.
  intros S Hq. unfold handleEvent. apply wp_bind, wp_get.
  destruct (Z.eqb_spec (event_fd ev) (listen_fd s)) as [Ef|Ef].
  { apply blame_flags; [destruct Hq as [|Hq]; [by left|right; apply Hq; by left]|].
    destruct (_ && _); [apply blame_accept_loop|apply wp_ret, blamed_refl]. }
  destruct (Z.eqb_spec (event_fd ev) sfd) as [Ef2|Ef2].
  { apply blame_flags; [destruct Hq as [|Hq]; [by left|right; apply Hq; by right; left]|].
    by apply blame_space_event. }
  apply wp_bind. eapply wp_mono; [by apply blame_client_event|].
  intros [ok|] s1 Hb1.
  { apply wp_ret. unfold stops in Hb1. by destruct ok. }
  apply wp_bind, wp_get. destruct (ingressPaused s1); [by apply wp_ret|].
  apply wp_bind. destruct (has_any _ _); [|by apply wp_ret, wp_ret].
  destruct (m_clients s1 !! event_fd ev); [|by apply wp_ret, wp_ret].
  eapply wp_mono; [apply calm_removeClient|]. intros u s2 Hc2. apply wp_ret, calm_blamed.
  exact (calm_trans _ _ _ (proj1 Hb1) Hc2).
Qed.

(** *** Signals *)

Lemma blame_signal_loop n fd st0 s :
  wp false (signal_loop n fd pid st0) (fun r s' => blamed s s' (negb r.1)) s.
Proof.
  revert st0 s. induction n as [|n IH]; intros st0 s; cbn [signal_loop]; [by apply wp_out_of_fuel|].
  apply wp_bind, wp_watched. intros r m Hc Hr.
  assert (forall st1, wp false (signal_loop n fd pid st1) (fun r s' => blamed s s' (negb r.1))
    (with_net m s)) as Hgo.
  { intros st1. eapply wp_mono; [apply IH|]. intros r' s2. by apply blamed_calm. }
  destruct r as [[bytesRead i]|e]; unfold wrong_siginfo, again in Hr.
  - destruct (bytesRead =? sizeof_siginfo); [|apply wp_ret, trouble_blamed; auto].
    destruct ((ssi_signo i =? SIGINT) || _); [by apply Hgo|].
    destruct (ssi_signo i =? SIGCHLD); [|by apply Hgo].
    destruct (negb (ssi_pid i =? u32 pid)); by apply Hgo.
  - destruct (e =? EINTR); [by apply Hgo|]. rewrite orb_false_r in Hr.
    destruct (_ || _); [by apply wp_ret, calm_blamed|]. apply wp_ret, trouble_blamed; auto.
Qed.

Lemma calm_beginDraining s : wp false (beginDraining ep) (fun _ s' => calm s s') s.
Proof.
  unfold beginDraining. apply wp_bind, wp_get, wp_bind.
  assert (forall s1, calm s s1 ->
    wp false (removeAllClients ep) (fun _ s' => calm s s') s1) as Hgo.
  { intros s1 Hc. eapply wp_mono; [apply calm_removeAllClients|]. intros u s2. by apply calm_trans. }
  destruct (negb _); [|apply wp_ret, Hgo, calm_refl].
  apply wp_bind. eapply wp_mono; [apply blame_remove|]. intros ok s1 [Hc1 _].
  apply wp_bind. eapply wp_mono; [apply calm_close|]. intros u s2 Hc2.
  unfold set_listen_fd. apply wp_modify, Hgo. eapply calm_trans; [exact Hc1|].
  eapply calm_trans; [exact Hc2|]. by apply calm_same.
Qed.

(** The listening socket stays, or is closed. *)
Definition keeps_listening s s' : Prop := listen_fd s' = listen_fd s \/ listen_fd s' = -1.

Lemma blame_signal_event ev s :
  sinv ep sfd gfd pid ext s ->
  trouble s \/ has_any (events ev) (Z.lor EPOLLERR EPOLLHUP) = false ->
  wp false (handleSignalEvent fuel ev ep pid)
    (fun ok s' => blamed s s' (negb ok) /\ keeps_listening s s') s.
Proof.
  intros [K _] Hq. unfold handleSignalEvent. apply wp_bind.
  apply (wp_mono _ _ (fun (ok : bool) s' => blamed s s' (negb ok) /\ keeps_listening s s')).
  - destruct (has_any (events ev) EPOLLIN); [|apply wp_ret; split; [apply blamed_refl|by left]].
    apply wp_bind. eapply wp_mono; [apply (wp_conj false _ _ _ s (blame_signal_loop fuel _ _ s)
      (signal_loop_spec pid false fuel _ _ s ltac:(done)))|].
    intros [ok st1] s1 [Hb1 (infos & Hnet & _ & ET)]. cbn [fst snd readerTerminated orb] in *.
    assert (keeps_listening s s1) as Hl1 by (left; by destruct Hnet as (n & -> & _)).
    destruct ok; cbn [negb] in *; [|by apply wp_ret]. rewrite ET.
    destruct (existsb (reader_gone pid) infos) eqn:Eg.
    + apply wp_ret. split; [|done]. split; [exact (proj1 Hb1)|]. intros _. right. unfold gone.
      rewrite (net_to_kv _ _ _ Hnet). cbn [k_signals k_trace]. rewrite signals_signals.
      apply Exists_app. right. apply existsb_exists in Eg as (i & Hi & Ei).
      apply Exists_exists. exists i. by rewrite list_elem_of_In.
    + apply wp_bind, wp_get, wp_bind. destruct (_ && bool_decide (state s1 = Running)) eqn:Eb;
        [|by apply wp_ret, wp_ret].
      apply andb_true_iff in Eb as [_ Est%bool_decide_eq_true].
      apply wp_bind. unfold set_state. apply wp_modify.
      pose proof (signals_winv _ _ _ _ _ (c_winv _ _ _ _ _ _ _ _ K) Hnet) as W1.
      assert (winv ep ext (with_state Draining s1)) as W1' by (by destruct W1; constructor).
      assert (listen_fd (with_state Draining s1) <> -1) as Hl.
      { destruct Hnet as (n & -> & _). pose proof (c_state _ _ _ _ _ _ _ _ K) as Hst.
        cbn [state with_net] in Est. by rewrite Est in Hst. }
      eapply wp_mono; [apply (wp_conj false _ _ _ _ (calm_beginDraining _)
        (beginDraining_spec ep sfd gfd ext ext_fds false _ W1' Hl))|].
      intros u s2 [Hc2 (_ & _ & _ & El & _)]. apply wp_ret. split; [|by right].
      apply calm_blamed. exact (calm_trans _ _ _ (proj1 Hb1) Hc2).
  - intros ok s1 [Hb1 Hl1]. destruct ok; cbn [negb] in *; [|by apply wp_ret].
    destruct Hq as [Ht|Hq]; [|rewrite Hq; by apply wp_ret].
    destruct (has_any _ _); apply wp_ret; [|done]. split; [|done].
    apply trouble_blamed; [exact (proj1 Hb1)|]. intros _. exact (proj1 Hb1 Ht).
Qed.

(** *** The event loop *)

Lemma quiet_kept s s' ev :
  keeps_listening s s' -> 0 <= event_fd ev -> quiet (listen_fd s) ev -> quiet (listen_fd s') ev.
Proof.
  intros Hl Hfd Hq [E1|E1]; apply Hq; [|by right]. destruct Hl as [Hl|Hl]; [left; congruence|lia].
Qed.

Lemma blame_events evs s :
  sinv ep sfd gfd pid ext s -> Forall (fun e => 0 <= event_fd e) evs ->
  trouble s \/ Forall (quiet (listen_fd s)) evs ->
  wp false (handle_events fuel evs ep dfd sfd gfd pid) (fun ok s' => blamed s s' (negb ok)) s.
Proof.
  revert s. induction evs as [|ev evs IH]; intros s S Hf Hq; cbn [handle_events];
    [apply wp_ret, blamed_refl|].
  apply Forall_cons in Hf as [Hfd Hf]. apply wp_bind, wp_get, wp_bind.
  apply (wp_mono _ _ (fun (ok : bool) s' => blamed s s' (negb ok) /\ keeps_listening s s' /\
    (ok = true -> sinv ep sfd gfd pid ext s'))).
  - destruct (Z.eqb_spec (event_fd ev) gfd) as [Eg|Eg].
    + assert (trouble s \/ has_any (events ev) (Z.lor EPOLLERR EPOLLHUP) = false) as Hq1.
      { destruct Hq as [|[Hq _]%Forall_cons]; [by left|right; apply Hq; by right; right]. }
      eapply wp_mono; [apply (wp_conj false _ _ _ s (blame_signal_event ev s S Hq1)
        (handleSignalEvent_spec fuel ep sfd gfd pid ext ext_fds false ev s S ltac:(done)))|].
      intros ok s1 [[Hb Hl] (_ & HS & _)]. split; [done|]. split; [done|]. by intros ->.
    + assert (trouble s \/ quiet (listen_fd s) ev) as Hq1
        by (destruct Hq as [|[Hq _]%Forall_cons]; [by left|by right]).
      eapply wp_mono; [apply (wp_conj false _ _ _ s (blame_handleEvent ev s S Hq1)
        (handleEvent_spec fuel ep dfd sfd gfd pid ext ext_fds false ev s S Hfd ltac:(done) ltac:(done)))|].
      intros ok s1 [Hb (_ & El & _ & HS & _)]. split; [done|]. split; [by left|]. by intros ->.
  - intros ok s1 (Hb1 & Hl & HS). destruct ok; cbn [negb] in *; [|by apply wp_ret].
    eapply wp_mono; [apply (IH s1 (HS eq_refl) Hf)|].
    + destruct Hq as [Ht|[_ Hq]%Forall_cons]; [left; exact (proj1 Hb1 Ht)|right].
      eapply Forall_impl; [apply Forall_and; exact (conj Hf Hq)|].
      intros e [He1 He2]. by eapply quiet_kept.
    + intros ok s2. exact (blamed_calm _ _ _ _ (proj1 Hb1)).
Qed.

(** What [epoll_wait] reports is quiet, or something is wrong. *)
Lemma not_alarming s evs :
  sinv ep sfd gfd pid ext s -> Forall (fun e => 0 <= event_fd e) evs ->
  existsb (alarming (kv s)) evs = false -> Forall (quiet (listen_fd s)) evs.
Proof.
  intros [K _] Hf Ha. pose proof (c_winv _ _ _ _ _ _ _ _ K) as W. apply Forall_forall.
  intros e He Hown. assert (alarming (kv s) e = false) as Hae.
  { apply not_true_iff_false. intros Hae. apply not_true_iff_false in Ha. apply Ha, existsb_exists.
    exists e. by rewrite <- list_elem_of_In. }
  unfold alarming in Hae. rewrite bool_decide_eq_true_2 in Hae; [by rewrite andb_true_r in Hae|].
  rewrite (w_backlog _ _ _ W), lookup_fmap. assert (event_fd e ∉ dom (m_clients s)) as Hout.
  { intros Hin. pose proof (w_clients _ _ _ W _ Hin) as [Hfd Hout]. destruct ext_fds as (Hs & Hg & _).
    destruct Hown as [E1|[E1|E1]]; rewrite E1 in *; [|set_solver..].
    apply Hout, elem_of_union. right. unfold listen_set. rewrite decide_False by lia. set_solver. }
  by apply not_elem_of_dom in Hout as ->.
Qed.

Definition fails (r : option Z) : bool :=
  match r with Some code => negb (code =? EXIT_SUCCESS) | None => false end.

Lemma blame_event_loop n s :
  sinv ep sfd gfd pid ext s ->
  wp false (event_loop fuel n ep dfd sfd gfd pid) (fun r s' => blamed s s' (fails r)) s.
Proof.
  revert s. induction n as [|n IH]; intros s S; cbn [event_loop]; [by apply wp_out_of_fuel|].
  apply wp_bind, wp_get, wp_bind. eapply wp_mono; [by apply drained_check|].
  intros b s1 (S1 & _ & En & Ee & _). assert (calm s s1) as Hc1 by (by apply calm_same).
  destruct b; [by apply wp_ret, calm_blamed|].
  apply wp_bind, (wp_watched_law _ _ _ _ _ _ (epoll_wait_law ep kMaxEvents)).
  intros r m [Hk Hev] _ Hc2 Hr. pose proof (calm_trans _ _ _ Hc1 Hc2) as Hc.
  pose proof (waited_sinv _ _ _ _ _ s1 m S1 Hk) as S2.
  destruct r as [[evs|e]|]; [| |by apply wp_ret, calm_blamed].
  - assert (Forall (fun e => 0 <= event_fd e) evs) as Hf.
    { destruct S1 as [K _]. specialize (Hev (w_epoll _ _ _ (c_winv _ _ _ _ _ _ _ _ K)) evs eq_refl).
      eapply Forall_impl; [exact Hev|]. intros ev (fd & i & Hi & <-).
      exact (watched_nonneg ep sfd gfd pid ext ext_fds _ _ _ _ s1 K Hi). }
    assert (trouble (with_net m s1) \/ Forall (quiet (listen_fd (with_net m s1))) evs) as Hq.
    { destruct (existsb (alarming (kv s1)) evs) eqn:Ea; [left; by apply Hr|right].
      apply not_alarming; [done|done|]. rewrite <- Ea. f_equal. unfold kv at 1. cbn [net with_net].
      by rewrite Hk. }
    apply wp_bind. eapply wp_mono; [apply (wp_conj false _ _ _ _ (blame_events evs _ S2 Hf Hq)
      (handle_events_spec fuel ep dfd sfd gfd pid ext ext_fds false evs _ S2 Hf ltac:(done) ltac:(done)))|].
    intros ok s2 [Hb2 (_ & S3 & _)]. pose proof (blamed_calm _ _ _ _ Hc Hb2) as Hb.
    destruct ok; cbn [negb] in *; [|by apply wp_ret].
    eapply wp_mono; [by apply IH|]. intros r s3. exact (blamed_calm _ _ _ _ (proj1 Hb)).
  - destruct (Z.eqb_spec e EINTR) as [->|He].
    + eapply wp_mono; [by apply IH|]. intros r s3. by apply blamed_calm.
    + apply wp_ret, trouble_blamed; [done|]. intros _. apply Hr. cbn.
      by apply negb_true_iff, Z.eqb_neq.
Qed.

End handlers.

Section whole_run.
Context {C E N : Type} `{RingProducerLaws C} `{EventFdLaws E} `{NetLaws N} `{ClientOrder}.
Variable fuel : nat.
Variables dfd sfd gfd pid : Z.
Variable ext : gset Z.
Variable config : ServerConfig.
Abbreviation st := (SSt C (Watched E) (Watched N)).
Implicit Types s : st.
Abbreviation blamed := (blamed trouble (gone pid)).

Lemma blame_setup s :
  wp false (setup config sfd gfd) (fun r s' => blamed s s' (is_none r)) s.
Proof.
  unfold setup, createSocket. do 2 apply wp_bind.
  apply (wp_watched_law _ _ _ _ _ _ (socket_law _ _ _)). intros r n Hp _ Hc Hr.
  apply wp_ret, wp_bind. unfold set_listen_fd. apply wp_modify. set (s1 := with_listen _ _).
  assert (calm s s1) as Hc1 by (eapply calm_trans; [exact Hc|by apply calm_same]).
  destruct r as [lfd|e].
  2: { rewrite Z.eqb_refl. apply wp_ret, trouble_blamed; [done|]. intros _. by apply Hr. }
  destruct Hp as [Hl _]. rewrite (proj2 (Z.eqb_neq lfd (-1))) by lia. clear Hc Hr.
  assert (forall s', blamed s s' true -> wp false (sys (close lfd);;; mret None)
    (fun (r : option Z) s' => blamed s s' (is_none r)) s') as Hstop
    by (intros s'; apply blamed_close_stop).
  eapply blame_step; [exact Hc1|apply blame_call; by intros k r' ?%failed_wrong|exact Hstop|].
  intros s2 Hc2. unfold bindSocket.
  eapply blame_step; [exact Hc2|apply blame_call; by intros k r' ?%failed_wrong|exact Hstop|].
  intros s3 Hc3. apply wp_bind, wp_watched. intros r m Hc4 Hr.
  pose proof (calm_trans _ _ _ Hc3 Hc4) as Hc4'.
  destruct r as [u|e]; cbn [is_ok negb].
  2: { apply Hstop, trouble_blamed; [done|]. intros _. by apply Hr. }
  apply wp_bind, wp_watched. intros r m5 Hc5 Hr5. pose proof (calm_trans _ _ _ Hc4' Hc5) as Hc5'.
  destruct r as [ep|e].
  2: { apply Hstop, trouble_blamed; [done|]. intros _. by apply Hr5. }
  assert (forall s', blamed s s' true -> wp false (sys (close ep);;; sys (close lfd);;; mret None)
    (fun (r : option Z) s' => blamed s s' (is_none r)) s') as Hstop2.
  { intros s' Hb. apply wp_bind. eapply wp_mono; [by apply blamed_close|]. intros v s6. apply Hstop. }
  eapply blame_step; [exact Hc5'|apply blame_add|exact Hstop2|]. intros s6 Hc6.
  eapply blame_step; [exact Hc6|apply blame_add|exact Hstop2|]. intros s7 Hc7.
  eapply blame_step; [exact Hc7|apply blame_add|exact Hstop2|]. intros s8 Hc8.
  by apply wp_ret, calm_blamed.
Qed.

Lemma calm_shutdown ep s : wp false (shutdown ep) (fun _ s' => calm s s') s.
Proof.
  unfold shutdown. apply wp_bind. eapply wp_mono; [apply calm_removeAllClients|]. intros u s1 Hc1.
  assert (forall s2, calm s s2 -> wp false (sys (close ep);;; mret tt) (fun _ s' => calm s s') s2) as Hgo.
  { intros s2 Hc2. apply wp_bind. eapply wp_mono; [apply calm_close|]. intros v s3 Hc3.
    apply wp_ret. exact (calm_trans _ _ _ Hc2 Hc3). }
  apply wp_bind, wp_get, wp_bind. destruct (negb _); [|by apply wp_ret, Hgo].
  apply wp_bind. eapply wp_mono; [apply calm_close|]. intros v s2 Hc2. apply wp_ret, Hgo.
  exact (calm_trans _ _ _ Hc1 Hc2).
Qed.

Lemma blame_server_run s :
  start_ok sfd gfd ext s ->
  wp false (run fuel config dfd sfd gfd pid) (fun r s' => blamed s s' (fails r)) s.
Proof.
  intros S. unfold run. apply wp_bind. eapply wp_mono; [apply (wp_conj false _ _ _ s (blame_setup s)
    (setup_spec sfd gfd pid ext config false s S))|].
  intros [ep|] s1 [Hb1 Hd]; [|by apply wp_ret]. destruct Hd as (K & Er & _).
  apply wp_bind. unfold set_state. apply wp_modify, wp_bind.
  unfold set_paused. apply wp_modify. set (s2 := with_paused _ _) in *.
  assert (calm s s2) as Hc2 by exact (proj1 Hb1).
  assert (sinv ep sfd gfd pid ext s2) as S2.
  { split; [exact K|]. intros _. unfold headroom. cbn [s2 ring with_paused with_state].
    rewrite Er. apply (so_ring _ _ _ _ S). }
  pose proof (so_given _ _ _ _ S) as Hg.
  apply wp_bind. eapply wp_mono; [apply (wp_conj false _ _ _ s2
    (blame_event_loop fuel ep dfd sfd gfd pid ext Hg fuel s2 S2)
    (server_loop_spec fuel ep dfd sfd gfd pid ext Hg false fuel s2 S2 ltac:(done) ltac:(done) ltac:(done)))|].
  intros [code|] s3 [Hb3 HL]; pose proof (blamed_calm _ _ _ _ _ Hc2 Hb3) as Hb; [|by apply wp_ret].
  destruct HL as [W _]. apply wp_bind.
  eapply wp_mono; [apply (wp_conj false _ _ _ s3 (calm_shutdown ep s3)
    (shutdown_spec ep sfd gfd ext Hg false s3 W))|].
  intros u s4 [Hc4 (_ & _ & _ & _ & _ & _ & _ & Hsg)]. apply wp_ret. destruct Hb as [K1 K2].
  split; [unfold calm in Hc4; auto|]. intros Hf. destruct (K2 Hf) as [Ht|Hgo]; [left; by apply Hc4|right].
  unfold gone in *. by rewrite Hsg.
Qed.

End whole_run.

(** ** Properties *)

(** C10: the server fails only for a cause.  Over a kernel and event descriptors
    that are watched for calls gone wrong (interruptions, exhausted sockets, errors
    and hang-ups of connections are not wrong), a run in which none did and in which
    the reader did not end waits for ever or returns [EXIT_SUCCESS], and then only
    because it was asked to stop and with an empty ring. *)
Theorem server_succeeds {C E N} `{RingProducerLaws C} `{EventFdLaws E} `{NetLaws N} `{ClientOrder}
    fuel config dfd sfd gfd pid ext (s : SSt C (Watched E) (Watched N)) :
  start_ok sfd gfd ext s ->
  (net_budget (net s) < fuel)%nat -> (ev_budget (efds s) < fuel)%nat ->
  exists r s', run fuel config dfd sfd gfd pid s = Some (r, s') /\
    (troubled (efds s') = false -> troubled (net s') = false ->
     Forall (fun i => reader_gone pid i = false) (signals (k_trace (kview (net s')))) ->
     r = None \/
     r = Some EXIT_SUCCESS /\ queued (ring s') = 0 /\
     Exists (fun i => asks_to_stop i = true) (signals (k_trace (kview (net s'))))).
Proof.
  intros S Hn He.
  destruct (wp_total _ _ _ (server_run_spec fuel dfd sfd gfd pid ext config true s S
    (fun _ => conj Hn He))) as (r & s' & Hrun & _ & Hr).
  pose proof (blame_server_run fuel dfd sfd gfd pid ext config s S) as Hb.
  unfold wp in Hb. rewrite Hrun in Hb. destruct Hb as [_ Hb].
  exists r, s'. split; [done|]. intros He' Hn' Hg. destruct r as [code|]; [right|by left].
  destruct Hr as (_ & _ & [->|(-> & Hq & Hs & _)]); [|done].
  destruct (Hb eq_refl) as [[Ht|Ht]|Hgone]; [by rewrite He' in Ht|by rewrite Hn' in Ht|].
  exfalso. unfold gone, kv in Hgone. apply Exists_exists in Hgone as (i & Hi & Ei).
  rewrite Forall_forall in Hg. by rewrite (Hg i Hi) in Ei.
Qed.

Import ServerProps.

(** The sample run of [ServerProps.v], watched. *)
Definition sample_watched_server : SSt EagerRing (Watched ScriptedEventFd) (Watched MemNet) :=
  let s := sample_start in
  mk_SSt (ring s) (mk_Watched (efds s) false) (mk_Watched (net s) false) (m_clients s) (listen_fd s)
    (state s) (ingressPaused s).

Lemma sample_watched_start : start_ok 4 5 given sample_watched_server.
Proof.
  constructor; try done; [exact sample_given|]. apply watched_at_once, scripted_at_once.
Qed.

Definition sample_watched_stop : SSt EagerRing (Watched ScriptedEventFd) (Watched MemNet) :=
  end_state sample_watched_server (run 20 default_config 3 4 5 77 sample_watched_server).

Lemma sample_watched_stops :
  (fst <$> run 20 default_config 3 4 5 77 sample_watched_server) = Some (Some EXIT_SUCCESS) /\
  troubled (efds sample_watched_stop) = false /\ troubled (net sample_watched_stop) = false /\
  forallb (fun i => negb (reader_gone 77 i))
    (signals (k_trace (kview (net sample_watched_stop)))) = true.
Proof. split_and!; vm_compute; reflexivity. Qed.

Lemma server_succeeds_witness :
  start_ok 4 5 given sample_watched_server /\
  run 20 default_config 3 4 5 77 sample_watched_server = Some (Some EXIT_SUCCESS, sample_watched_stop) /\
  queued (ring sample_watched_stop) = 0.
Proof.
  destruct sample_watched_stops as (Hcode & He & Hn & Hg). apply (ends_in sample_watched_server) in Hcode.
  fold sample_watched_stop in Hcode. split; [exact sample_watched_start|]. split; [exact Hcode|].
  destruct (server_succeeds 20 default_config 3 4 5 77 given sample_watched_server sample_watched_start)
    as (r & s' & Hrun & HA); [vm_compute; lia|vm_compute; lia|].
  assert (Some (r, s') = Some (Some EXIT_SUCCESS, sample_watched_stop)) as E
    by (rewrite <- Hrun; exact Hcode).
  clear Hcode Hrun. revert He Hn Hg E. generalize sample_watched_stop. intros s2 He Hn Hg E.
  injection E as -> ->. destruct HA as [E|(_ & Hq & _)]; [exact He|exact Hn| |discriminate|exact Hq].
  apply Forall_forall. intros i Hi. apply negb_true_iff. rewrite forallb_forall in Hg.
  apply Hg. by apply list_elem_of_In.
Defined.

End ServerCauses.
