(* ===== verification/Sessions.v ===== *)
(** * One connection at a time

    What the abstract server publishes, told apart by the connection it came from:
    [ServerSpec.ingest] interleaves the connections, and here each of them is shown
    to have exactly the valid beginning of its own byte stream published, in order,
    whatever the others do and however [recv] cuts the streams. *)

From S2P Require Import Prelude Codec Frames Ring Buffer EventFd MemFs Producer NetApi Server.
From S2P Require Import ServerSpec ServerProps.
Import Codec Frames EventFd Producer NetApi Server ServerSpec.

Module Sessions.

(** Byte strings, each with the number of the connection it belongs to. *)
Abbreviation tagged := (list (nat * bytes)).

(** The bytes of connection [c]. *)
Definition from (c : nat) (l : tagged) : bytes := concat (map snd (filter (fun p => p.1 = c) l)).

(** The bytes of all connections as they come. *)
Definition together (l : tagged) : bytes := concat (map snd l).

(** The connection each open descriptor stands for, the number of connections
    accepted so far, and the pieces received from each. *)
Record Sessions := { live : gmap Z nat; accepted : nat; pieces : tagged }.

Definition session_step (s : Sessions) (ev : net_event) : Sessions :=
  match ev with
  | Accepted fd =>
      {| live := <[fd := accepted s]> (live s); accepted := S (accepted s); pieces := pieces s |}
  | Received fd bs =>
      match live s !! fd with
      | Some c => {| live := live s; accepted := accepted s; pieces := pieces s ++ [(c, bs)] |}
      | None => s
      end
  | Signalled _ => s
  | Closed fd => {| live := delete fd (live s); accepted := accepted s; pieces := pieces s |}
  end.

Definition sessions (trace : list net_event) : Sessions :=
  fold_left session_step trace {| live := ∅; accepted := 0; pieces := [] |}.

(** The byte stream of the [c]th connection accepted. *)
Definition stream (c : nat) (trace : list net_event) : bytes := from c (pieces (sessions trace)).

(** The frames of a stream before the first invalid one. *)
Definition valid_part (b : bytes) : bytes := ztake (valid_bytes b) b.

(** [taken] says of what was published which connection it came from. *)
Definition shares (taken : tagged) (trace : list net_event) (all : bytes) : Prop :=
  together taken = all /\ forall c, from c taken = valid_part (stream c trace).

(** ** Lemmas *)

Lemma from_app c l k : from c (l ++ k) = from c l ++ from c k.
Proof. unfold from. by rewrite filter_app, map_app, concat_app. Qed.

Lemma from_one c d bs : from c [(d, bs)] = if decide (d = c) then bs else [].
Proof.
  unfold from. rewrite filter_cons. cbn [fst]. destruct (decide (d = c)); cbn; [apply app_nil_r|done].
Qed.

Lemma together_snoc l d bs : together (l ++ [(d, bs)]) = together l ++ bs.
Proof. unfold together. rewrite map_app, concat_app. cbn. by rewrite app_nil_r. Qed.

Lemma sessions_snoc trace ev : sessions (trace ++ [ev]) = session_step (sessions trace) ev.
Proof. unfold sessions. by rewrite fold_left_app. Qed.

(** More of a stream: what is published of it is the valid part of what was left. *)
Lemma valid_bytes_more u bs :
  valid_bytes (u ++ bs) =
  valid_bytes u + valid_bytes (zdrop (valid_bytes u) u ++ bs).
Proof.
  destruct (valid_bytes_range u) as [Hr Hd].
  assert (zlen (ztake (valid_bytes u) u) = valid_bytes u) as El by (rewrite zlen_take; lia).
  rewrite <- (ztake_zdrop (valid_bytes u) u) at 1. rewrite <- app_assoc.
  rewrite valid_bytes_app; [by rewrite El|apply valid_bytes_valid|by rewrite El].
Qed.

Lemma valid_part_more u bs :
  valid_part (u ++ bs) = valid_part u ++ valid_part (zdrop (valid_bytes u) u ++ bs).
Proof.
  unfold valid_part. destruct (valid_bytes_range u) as [Hr _].
  destruct (valid_bytes_range (zdrop (valid_bytes u) u ++ bs)) as [Hm _].
  rewrite valid_bytes_more, ztake_add by lia. rewrite ztake_app_le, zdrop_app_le by lia. done.
Qed.

Lemma zdrop_more u bs :
  zdrop (valid_bytes (u ++ bs)) (u ++ bs) =
  let r := zdrop (valid_bytes u) u ++ bs in zdrop (valid_bytes r) r.
Proof.
  destruct (valid_bytes_range u) as [Hr _].
  destruct (valid_bytes_range (zdrop (valid_bytes u) u ++ bs)) as [Hm _].
  cbv zeta. rewrite valid_bytes_more, <- zdrop_zdrop by lia. by rewrite zdrop_app_le by lia.
Qed.

(** Connections and the abstract server: an open descriptor's backlog is what its
    stream has beyond its valid part. *)
Record linked (trace : list net_event) (taken : tagged) : Prop := {
  l_shares : shares taken trace (published (ingest trace));
  l_live fd : backlog (ingest trace) !! fd =
    (fun c => let u := stream c trace in zdrop (valid_bytes u) u) <$> live (sessions trace) !! fd;
  l_new c : (accepted (sessions trace) <= c)%nat -> stream c trace = [];
  l_range fd c : live (sessions trace) !! fd = Some c -> (c < accepted (sessions trace))%nat;
  l_inj fd1 fd2 c : live (sessions trace) !! fd1 = Some c -> live (sessions trace) !! fd2 = Some c ->
    fd1 = fd2;
}.

Lemma valid_part_nil : valid_part [] = [].
Proof. done. Qed.

Lemma linked_nil : linked [] [].
Proof.
  constructor; cbn; try done; try (intros *; rewrite lookup_empty; done).
Qed.

(** Nothing is received: every stream stays as it is. *)
Lemma stream_same trace ev c :
  (forall fd bs, ev <> Received fd bs) -> stream c (trace ++ [ev]) = stream c trace.
Proof.
  intros Hev. unfold stream. rewrite sessions_snoc. destruct ev; try done. by destruct (Hev fd bs).
Qed.

Lemma linked_accept trace taken fd :
  linked trace taken -> linked (trace ++ [Accepted fd]) taken.
Proof.
  intros [[Hall Hfrom] Hl Hn Hr Hi].
  assert (forall c, stream c (trace ++ [Accepted fd]) = stream c trace) as Es
    by (intros; by apply stream_same).
  constructor; rewrite ?ingest_snoc, ?sessions_snoc; cbn [ingest_step session_step live accepted backlog published].
  - split; [done|]. intros c. by rewrite Es.
  - intros fd'. destruct (decide (fd' = fd)) as [->|Hne].
    + rewrite !lookup_insert_eq. cbn. by rewrite Es, Hn.
    + rewrite !lookup_insert_ne by done. rewrite Hl. apply option_fmap_ext. intros c. cbv zeta. by rewrite Es.
  - intros c Hc. rewrite Es. apply Hn. lia.
  - intros fd' c. destruct (decide (fd' = fd)) as [->|Hne].
    + rewrite lookup_insert_eq. intros [= <-]. lia.
    + rewrite lookup_insert_ne by done. intros E. apply Hr in E. lia.
  - intros fd1 fd2 c. rewrite !lookup_insert. intros E1 E2. repeat case_decide; simplify_eq;
      first [done | by eapply Hi | by apply Hr in E2; lia | by apply Hr in E1; lia].
Qed.

Lemma linked_close trace taken fd :
  linked trace taken -> linked (trace ++ [Closed fd]) taken.
Proof.
  intros [[Hall Hfrom] Hl Hn Hr Hi].
  assert (forall c, stream c (trace ++ [Closed fd]) = stream c trace) as Es
    by (intros; by apply stream_same).
  constructor; rewrite ?ingest_snoc, ?sessions_snoc; cbn [ingest_step session_step live accepted backlog published].
  - split; [done|]. intros c. by rewrite Es.
  - intros fd'. rewrite !lookup_delete. destruct (decide (fd = fd')); [done|].
    rewrite Hl. apply option_fmap_ext. intros c. cbv zeta. by rewrite Es.
  - intros c Hc. rewrite Es. by apply Hn.
  - intros fd' c E. apply lookup_delete_Some in E as [_ E]. by apply (Hr fd').
  - intros fd1 fd2 c E1 E2. apply lookup_delete_Some in E1 as [_ E1].
    apply lookup_delete_Some in E2 as [_ E2]. by apply (Hi fd1 fd2 c).
Qed.

Lemma linked_signal trace taken info :
  linked trace taken -> linked (trace ++ [Signalled info]) taken.
Proof.
  intros [[Hall Hfrom] Hl Hn Hr Hi].
  assert (forall c, stream c (trace ++ [Signalled info]) = stream c trace) as Es
    by (intros; by apply stream_same).
  constructor; rewrite ?ingest_snoc, ?sessions_snoc; cbn [ingest_step session_step]; try done.
  - split; [done|]. intros c. by rewrite Es.
  - intros fd'. rewrite Hl. apply option_fmap_ext. intros c. cbv zeta. by rewrite Es.
  - intros c Hc. rewrite Es. by apply Hn.
Qed.

(** Bytes arrive: what is published of them belongs to their connection. *)
Lemma linked_receive trace taken fd bs :
  linked trace taken -> exists more, linked (trace ++ [Received fd bs]) (taken ++ more).
Proof.
  intros [[Hall Hfrom] Hl Hn Hr Hi]. pose proof (Hl fd) as Hfd.
  destruct (live (sessions trace) !! fd) as [c|] eqn:Ec; cbn in Hfd.
  2: { exists []. rewrite app_nil_r.
       assert (sessions (trace ++ [Received fd bs]) = sessions trace) as Es
         by (rewrite sessions_snoc; cbn [session_step]; by rewrite Ec).
       assert (ingest (trace ++ [Received fd bs]) = ingest trace) as Ei
         by (rewrite ingest_snoc; cbn [ingest_step]; unfold receive; by rewrite Hfd).
       constructor; unfold shares, stream; rewrite ?Es, ?Ei; done. }
  set (u := stream c trace) in *. set (r := zdrop (valid_bytes u) u) in *.
  exists [(c, valid_part (r ++ bs))].
  assert (forall d, stream d (trace ++ [Received fd bs]) =
    if decide (c = d) then u ++ bs else stream d trace) as Es.
  { intros d. unfold stream. rewrite sessions_snoc. cbn [session_step]. rewrite Ec. cbn [pieces].
    rewrite from_app, from_one. destruct (decide (c = d)) as [->|]; [done|]. by rewrite app_nil_r. }
  constructor; rewrite ?ingest_snoc, ?sessions_snoc; cbn [ingest_step session_step];
    rewrite ?Ec; unfold receive; rewrite ?Hfd; cbn [live accepted pieces backlog published].
  - split; [rewrite together_snoc; by rewrite Hall|]. intros d. rewrite from_app, from_one, Es, Hfrom.
    destruct (decide (c = d)) as [<-|]; [by rewrite (valid_part_more u)|by rewrite app_nil_r].
  - intros fd'. destruct (decide (fd' = fd)) as [->|Hne].
    + rewrite lookup_insert_eq, Ec. cbn. rewrite Es, decide_True by done. by rewrite (zdrop_more u).
    + rewrite lookup_insert_ne by done. rewrite Hl.
      destruct (live (sessions trace) !! fd') as [d|] eqn:Ed; [|done]. cbn. rewrite Es.
      destruct (decide (c = d)) as [->|]; [by destruct (Hne (Hi fd' fd d Ed Ec))|done].
  - intros d Hd. rewrite Es. destruct (decide (c = d)) as [->|]; [|by apply Hn].
    apply Hr in Ec. lia.
  - done.
  - done.
Qed.

Lemma linked_trace trace : exists taken, linked trace taken.
Proof.
  induction trace as [|ev trace [taken IH]] using rev_ind; [exists []; apply linked_nil|].
  destruct ev as [fd|fd bs|info|fd].
  - exists taken. by apply linked_accept.
  - destruct (linked_receive _ _ fd bs IH) as [more Hm]. by exists (taken ++ more).
  - exists taken. by apply linked_signal.
  - exists taken. by apply linked_close.
Qed.

Lemma ingest_shares trace : exists taken, shares taken trace (published (ingest trace)).
Proof. destruct (linked_trace trace) as [taken [Hs _ _ _ _]]. by exists taken. Qed.

(** A stream of valid frames is published whole. *)
Lemma valid_part_all b : valid_frames b -> (kFrameSize | zlen b) -> valid_part b = b.
Proof. intros Hv Hd. unfold valid_part. rewrite valid_bytes_all by done. by apply ztake_ge. Qed.

(** ** Properties *)

Section properties.
Context {C E N : Type} `{RingProducerLaws C} `{EventFdLaws E} `{NetLaws N} `{ClientOrder}.
Implicit Types s : SSt C E N.

(** C7: the server is fair to every connection.  Whenever a run is over, or waits for
    ever, what it has published can be told apart by connection so that each
    connection, of however many open at once or one after the other on one
    descriptor, has had published exactly the frames of its byte stream before the
    first invalid one, in order, none lost and none repeated, whatever the others
    send and however [recv] cuts the streams. *)
Theorem connections_published_whole fuel config dfd sfd gfd pid ext s r s' :
  start_ok sfd gfd ext s -> run fuel config dfd sfd gfd pid s = Some (r, s') ->
  exists taken, shares taken (k_trace (kview (net s'))) (pushed (ring s')).
Proof.
  intros S Hrun.
  destruct (wp_run _ _ _ _ _ _ (server_run_spec fuel dfd sfd gfd pid ext config false s S
    ltac:(done)) Hrun) as [Hpub _].
  rewrite <- Hpub. apply ingest_shares.
Qed.

End properties.

Import ServerProps.

Lemma connections_published_whole_witness :
  run 20 default_config 3 4 5 77 ServerProps.sample_start =
    Some (Some EXIT_SUCCESS, ServerProps.sample_end) /\
  exists taken, shares taken (k_trace (kview (net ServerProps.sample_end)))
    (pushed (ring ServerProps.sample_end)).
Proof.
  split; [exact ServerProps.sample_ends|].
  exact (connections_published_whole 20 default_config 3 4 5 77 ServerProps.given
    ServerProps.sample_start (Some EXIT_SUCCESS) ServerProps.sample_end ServerProps.sample_start_ok
    ServerProps.sample_ends).
Defined.

(** The sample client's stream, and what is published of it. *)
Example sample_stream :
  stream 0 (k_trace (kview (net ServerProps.sample_end))) =
    encode default_record ++ ztake 16 (encode default_record) /\
  valid_part (stream 0 (k_trace (kview (net ServerProps.sample_end)))) = encode default_record.
Proof. by vm_compute. Qed.

End Sessions.
