(* ===== verification/Main.v ===== *)
(** * main: the two processes

    [src/main.cpp]: the options, the signal mask, the ring and the event descriptors,
    then [fork], the reader in the child and the server in the parent, and the exit
    status.  The process calls are the parameter [MainApi].  The world keeps, besides
    the components' states, the history of the calls of [main] that concern the other
    process: the reader's process runs by itself, and when [waitpid] comes back depends
    on what it was told.  Diagnostics are left out. *)

From S2P Require Import Prelude Config Ring Buffer EventFd FsApi MemFs FileStore Reader.
From S2P Require Import Producer NetApi Server ServerProps.
Import Config EventFd Producer MemFs NetApi ServerProps.

Module Main.

(** ** The process's calls *)

Definition SIGKILL : Z := 9.
Definition EFD_CLOEXEC : Z := 524288.
Definition SFD_NONBLOCK : Z := 2048.
Definition SFD_CLOEXEC : Z := 524288.

(** A call of [main], with its answer: the calls that make descriptors and the other
    process, and those that end it.  [Fork dataReadyFd r]: the child reads
    [dataReadyFd]. *)
Inductive action :=
| SigProcMask (mask : list Z) (r : sysres unit)
| EventFd (r : sysres Z)
| Fork (dataReadyFd : Z) (r : sysres Z)
| SignalFd (mask : list Z) (r : sysres Z)
| CloseProducer
| NotifyEvent (fd : Z) (ok : bool)
| Kill (pid signal : Z) (r : sysres unit)
| Close (fd : Z)
| WaitPid (pid : Z) (r : sysres Z).

(** A signal set is the list of its members; [waitpid] gives the status word.  It is
    given the history, and is [None] when it waits for ever. *)
Class MainApi (P : Type) := {
  sigemptyset : P -> sysres (list Z) * P;
  sigaddset : list Z -> Z -> P -> sysres (list Z) * P;
  sigprocmask : list Z -> P -> sysres unit * P;
  setvbuf : P -> Z * P;
  eventfd : Z -> Z -> P -> sysres Z * P;
  fork : P -> sysres Z * P;
  signalfd : Z -> list Z -> Z -> P -> sysres Z * P;
  kill : Z -> Z -> P -> sysres unit * P;
  waitpid : list action -> Z -> P -> option (sysres Z * P);
  close_fd : Z -> P -> sysres unit * P;
}.

(** The macros of [<sys/wait.h>]. *)
Definition WTERMSIG (status : Z) : Z := Z.land status 127.
Definition WIFEXITED (status : Z) : bool := WTERMSIG status =? 0.
Definition WEXITSTATUS (status : Z) : Z := Z.land (Z.shiftr status 8) 255.
Definition WIFSIGNALED (status : Z) : bool :=
  negb (WTERMSIG status =? 0) && negb (WTERMSIG status =? 127).

(** [fd] was notified after the ring had been closed. *)
Fixpoint woken_after_close (fd : Z) (h : list action) : bool :=
  match h with
  | [] => false
  | CloseProducer :: h =>
      existsb (fun a => match a with NotifyEvent fd' ok => (fd' =? fd) && ok | _ => false end) h ||
      woken_after_close fd h
  | _ :: h => woken_after_close fd h
  end.

(** The child [pid] has been told to end: it was killed; or the ring was closed and
    after that the descriptor it reads notified. *)
Definition told (h : list action) (pid : Z) : bool :=
  existsb (fun a => match a with
    | Kill p n (Ok _) => (p =? pid) && (n =? SIGKILL)
    | Fork dfd (Ok p) => (p =? pid) && woken_after_close dfd h
    | _ => false
    end) h.

(** Only finitely many calls are interrupted. *)
Definition proc_law {P A} (budget : P -> nat) (f : P -> sysres A * P) : Prop :=
  forall w r w', f w = (r, w') ->
    (budget w' <= budget w)%nat /\ (is_intr r = true -> (budget w' < budget w)%nat).

(** Waiting for a child that has been told to end does not last for ever: [SIGKILL]
    ends a process, and a reader that finds its ring closed when it is woken returns
    ([Reader.run_outcome]). *)
Class MainLaws (P : Type) `{MainApi P} := {
  proc_budget : P -> nat;
  kill_law pid signal : proc_law proc_budget (kill pid signal);
  close_fd_law fd : proc_law proc_budget (close_fd fd);
  waitpid_law h pid p r p' : waitpid h pid p = Some (r, p') ->
    (proc_budget p' <= proc_budget p)%nat /\
    (is_intr r = true -> (proc_budget p' < proc_budget p)%nat);
  waitpid_returns h pid p : told h pid = true -> waitpid h pid p <> None;
}.

(** The process, the server's state (with the ring and the event descriptors), the
    reader's, and the history. *)
Record World (P C E N W F : Type) := mk_World {
  proc : P;
  server : Server.SSt C E N;
  reader : Reader.RSt W F;
  history : list action;
}.
Arguments mk_World {P C E N W F} _ _ _ _.
Arguments proc {P C E N W F} _.
Arguments server {P C E N W F} _.
Arguments reader {P C E N W F} _.
Arguments history {P C E N W F} _.

Section main.
Context {P C E N W F : Type} `{MainApi P} `{RingProducer C} `{EventFdApi E} `{NetApi.NetApi N}
  `{Server.ClientOrder} `{Reader.RingConsumer W} `{EventFdApi W} `{FsApi.FileApi F}.
Variable fuel : nat.

Abbreviation program A := (M (World P C E N W F) A).

Definition on_proc {A} (m : M P A) : program A :=
  lift proc (fun p w => mk_World p (server w) (reader w) (history w)) m.
Definition on_server {A} (m : M (Server.SSt C E N) A) : program A :=
  lift server (fun s w => mk_World (proc w) s (reader w) (history w)) m.
Definition on_reader {A} (m : M (Reader.RSt W F) A) : program A :=
  lift reader (fun r w => mk_World (proc w) (server w) r (history w)) m.
Definition psys {A} (f : P -> A * P) : program A := on_proc (call f).

(** Keep a call in the history; a call that is kept there with its answer. *)
Definition note (a : action) : program unit :=
  modify (fun w => mk_World (proc w) (server w) (reader w) (history w ++ [a])).
Definition noted {A} (a : A -> action) (m : program A) : program A :=
  r ← m; note (a r);;; mret r.

Definition wait (pid : Z) : program (sysres Z) :=
  noted (WaitPid pid) (fun w => on_proc (waitpid (history w) pid : M P _) w).
Definition close_noted (fd : Z) : program (sysres unit) :=
  noted (fun _ => Close fd) (psys (close_fd fd)).

(** The mask, or [None] for [false]. *)
Definition blockManagedSignals : program (option (list Z)) :=
  r ← psys sigemptyset;
  match r with
  | Err _ => mret None
  | Ok mask =>
      r ← psys (sigaddset mask NetApi.SIGINT);
      match r with
      | Err _ => mret None
      | Ok mask =>
          r ← psys (sigaddset mask NetApi.SIGTERM);
          match r with
          | Err _ => mret None
          | Ok mask =>
              r ← psys (sigaddset mask NetApi.SIGCHLD);
              match r with
              | Err _ => mret None
              | Ok mask =>
                  r ← noted (SigProcMask mask) (psys (sigprocmask mask));
                  mret (if is_ok r then Some mask else None)
              end
          end
      end
  end.

(** The configurations of the two processes. *)
Definition readerConfig (config : AppConfig) : Reader.ReaderConfig :=
  {| Reader.dataFilePath := dataFilePath config;
     Reader.maxSegmentBytes := maxSegmentBytes config;
     Reader.syncEveryBytes := syncEveryBytes config;
     Reader.quiet := quiet config |}.

Definition serverConfig (config : AppConfig) : Server.ServerConfig :=
  {| Server.port := port config; Server.quiet := quiet config |}.

(** The child; [_exit] ends it. *)
Definition child (dataReadyFd spaceReadyFd : Z) (config : Reader.ReaderConfig) : program Z :=
  result ← on_reader (Reader.run fuel dataReadyFd spaceReadyFd config);
  close_noted dataReadyFd;;;
  close_noted spaceReadyFd;;;
  mret result.

(** [ring.closeProducer()] and [notifyEvent(dataReadyFd)]. *)
Definition end_of_input (dataReadyFd : Z) : program bool :=
  noted (fun _ => CloseProducer) (on_server (Server.on_ring (fun c => (tt, p_closeProducer c))));;;
  noted (NotifyEvent dataReadyFd) (on_server (Server.on_efds (notifyEvent fuel dataReadyFd))).

(** [kill(readerPid, SIGKILL)] where the notification failed. *)
Definition kill_unless (ok : bool) (readerPid : Z) : program unit :=
  if negb ok then noted (Kill readerPid SIGKILL) (psys (kill readerPid SIGKILL));;; mret tt
  else mret tt.

(** The parent when there is no [signalfd]. *)
Definition parent_without_signals (dataReadyFd spaceReadyFd readerPid : Z) : program Z :=
  ok ← end_of_input dataReadyFd;
  kill_unless ok readerPid;;;
  close_noted dataReadyFd;;;
  close_noted spaceReadyFd;;;
  retry_eintr fuel (wait readerPid);;;
  mret EXIT_FAILURE.

(** [Server{serverConfig}.run(...)]: a new server, its run and its destructor. *)
Definition run_server (config : Server.ServerConfig)
    (dataReadyFd spaceReadyFd signalFd readerPid : Z) : program (option Z) :=
  on_server (Server.set_clients (fun _ => ∅));;;
  result ← on_server (Server.run fuel config dataReadyFd spaceReadyFd signalFd readerPid);
  match (result : option Z) with
  | None => mret None
  | Some result => on_server Server.destroy;;; mret (Some result)
  end.

(** The exit status from the reader's. *)
Definition exit_status (serverResult status : Z) : Z :=
  if WIFSIGNALED status then EXIT_FAILURE
  else if negb (WIFEXITED status) then EXIT_FAILURE
  else if negb (WEXITSTATUS status =? EXIT_SUCCESS) then EXIT_FAILURE
  else serverResult.

(** The parent after the server has returned. *)
Definition finish (serverResult dataReadyFd spaceReadyFd signalFd readerPid : Z) : program Z :=
  ok ← end_of_input dataReadyFd;
  let serverResult := if negb ok then EXIT_FAILURE else serverResult in
  kill_unless ok readerPid;;;
  close_noted signalFd;;;
  close_noted dataReadyFd;;;
  close_noted spaceReadyFd;;;
  r ← retry_eintr fuel (wait readerPid);
  match r with
  | Err _ => mret EXIT_FAILURE
  | Ok status => mret (exit_status serverResult status)
  end.

Definition parent (config : Server.ServerConfig) (signalMask : list Z)
    (dataReadyFd spaceReadyFd readerPid : Z) : program (option Z) :=
  r ← noted (SignalFd signalMask)
        (psys (signalfd (-1) signalMask (Z.lor SFD_NONBLOCK SFD_CLOEXEC)));
  match r with
  | Err _ => code ← parent_without_signals dataReadyFd spaceReadyFd readerPid; mret (Some code)
  | Ok signalFd =>
      result ← run_server config dataReadyFd spaceReadyFd signalFd readerPid;
      match (result : option Z) with
      | None => mret None
      | Some result =>
          code ← finish result dataReadyFd spaceReadyFd signalFd readerPid; mret (Some code)
      end
  end.

(** From the ring on. *)
Definition start (config : AppConfig) (signalMask : list Z) : program (option Z) :=
  ok ← on_server (Server.on_ring p_create);
  if negb ok then mret (Some EXIT_FAILURE)
  else
    r ← noted EventFd (psys (eventfd 0 EFD_CLOEXEC));
    match r with
    | Err _ => mret (Some EXIT_FAILURE)
    | Ok dataReadyFd =>
        r ← noted EventFd (psys (eventfd 0 EFD_CLOEXEC));
        match r with
        | Err _ => close_noted dataReadyFd;;; mret (Some EXIT_FAILURE)
        | Ok spaceReadyFd =>
            r ← noted (Fork dataReadyFd) (psys fork);
            match r with
            | Err _ =>
                close_noted dataReadyFd;;;
                close_noted spaceReadyFd;;;
                mret (Some EXIT_FAILURE)
            | Ok readerPid =>
                if readerPid =? 0 then
                  code ← child dataReadyFd spaceReadyFd (readerConfig config); mret (Some code)
                else parent (serverConfig config) signalMask dataReadyFd spaceReadyFd readerPid
            end
        end
    end.

(** The exit status; [None] is a process that runs for ever. *)
Definition main (argv : list string) : program (option Z) :=
  match parseArguments argv Config.default_config EmptyString with
  | (HelpRequested, _, _) => mret (Some EXIT_SUCCESS)
  | (Error, _, _) => mret (Some EXIT_FAILURE)
  | (Success, config, _) =>
      mask ← blockManagedSignals;
      match mask with
      | None => mret (Some EXIT_FAILURE)
      | Some signalMask =>
          r ← psys setvbuf;
          if negb (r =? 0) then mret (Some EXIT_FAILURE) else start config signalMask
      end
  end.

End main.

(** ** What the processes do *)

(** Any call, by what it returns. *)
Lemma wp_self {S A} (m : M S A) (Q : A -> S -> Prop) s :
  (forall a s', m s = Some (a, s') -> Q a s') -> wp false m Q s.
Proof. unfold wp. destruct (m s) as [[a s']|]; auto. Qed.

(** A configuration the parser accepts is one the store accepts. *)
Lemma store_accepts config :
  config_valid config ->
  FileStore.FileStore.validateConfig (Reader.Reader.store_config (readerConfig config)) = true.
Proof.
  intros (_ & _ & Hm & Hd & Hs). unfold FileStore.FileStore.validateConfig.
  cbn [Reader.Reader.store_config readerConfig FileStore.FileStore.maxSegmentBytes
    FileStore.FileStore.syncEveryBytes Reader.Reader.maxSegmentBytes Reader.Reader.syncEveryBytes].
  apply Z.mod_divide in Hd; [|done]. rewrite (proj2 (Z.ltb_ge _ _) Hm), Hd. cbn [Z.eqb negb].
  destruct Hs as [->|Hs]; [done|]. by rewrite (proj2 (Z.ltb_ge _ _) Hs), andb_false_r.
Qed.

(** What telling the child to end looks like in the history. *)
Lemma told_in h pid a : a ∈ h ->
  (match a with
   | Kill p n (Ok _) => (p =? pid) && (n =? SIGKILL)
   | Fork dfd (Ok p) => (p =? pid) && woken_after_close dfd h
   | _ => false
   end) = true -> told h pid = true.
Proof. intros Ha E. apply existsb_exists. exists a. by rewrite list_elem_of_In in Ha. Qed.

Lemma told_killed h pid : Kill pid SIGKILL (Ok tt) ∈ h -> told h pid = true.
Proof. intros Hk. apply (told_in _ _ _ Hk). by rewrite !Z.eqb_refl. Qed.

Lemma told_woken dfd h pid :
  Fork dfd (Ok pid) ∈ h -> woken_after_close dfd h = true -> told h pid = true.
Proof. intros Hk Hw. apply (told_in _ _ _ Hk). by rewrite Z.eqb_refl. Qed.

Lemma woken_app dfd h l : woken_after_close dfd (h ++ CloseProducer :: NotifyEvent dfd true :: l) = true.
Proof. induction h as [|[] h IH]; cbn; rewrite ?Z.eqb_refl, ?IH, ?orb_true_r; done. Qed.

Section specs.
Context {P C E N W F : Type} `{MainLaws P} `{RingProducer C} `{EventFdLaws E} `{NetApi.NetApi N}
  `{Server.ClientOrder} `{Reader.RingConsumer W} `{EventFdApi W} `{FsApi.FileApi F}.
Variable fuel : nat.

Abbreviation world := (World P C E N W F).
Implicit Types w : world.

(** [w'] is [w] after calls of [main] alone that the history keeps as [h]. *)
Definition called (w : world) (h : list action) (w' : world) : Prop :=
  server w' = server w /\ reader w' = reader w /\ history w' = history w ++ h.

Lemma called_refl w : called w [] w.
Proof. split; [done|]. split; [done|]. by rewrite app_nil_r. Qed.

Lemma called_trans w1 w2 w3 h1 h2 : called w1 h1 w2 -> called w2 h2 w3 -> called w1 (h1 ++ h2) w3.
Proof.
  intros (E1 & E2 & E3) (E4 & E5 & E6). unfold called. by rewrite E4, E1, E5, E2, E6, E3, app_assoc.
Qed.

Lemma wp_psys t {A} (f : P -> A * P) (Q : A -> world -> Prop) w :
  (forall r p, f (proc w) = (r, p) -> Q r (mk_World p (server w) (reader w) (history w))) ->
  wp t (psys f) Q w.
Proof. intros HQ. unfold psys, on_proc. by apply wp_lift, wp_call. Qed.

Lemma wp_noted t {A} (a : A -> action) m (Q : A -> world -> Prop) w :
  wp t m (fun r w' => Q r (mk_World (proc w') (server w') (reader w') (history w' ++ [a r]))) w ->
  wp t (noted a m) Q w.
Proof.
  intros Hm. unfold noted. apply wp_bind. eapply wp_mono; [exact Hm|]. intros r w' HQ.
  by apply wp_bind, wp_modify, wp_ret.
Qed.

(** A call of the process that the history keeps. *)
Lemma wp_noted_psys t {A} (a : sysres A -> action) f (Q : sysres A -> world -> Prop) w :
  (forall r w', f (proc w) = (r, proc w') -> called w [a r] w' -> Q r w') ->
  wp t (noted a (psys f)) Q w.
Proof. intros HQ. apply wp_noted, wp_psys. intros r p Hf. by apply HQ. Qed.

(** Closing descriptors, before [m]. *)
Lemma close_step t fd w0 h w {A} (m : M world A) (Q : A -> world -> Prop) :
  called w0 h w -> (proc_budget (proc w) <= proc_budget (proc w0))%nat ->
  (forall w', called w0 (h ++ [Close fd]) w' -> (proc_budget (proc w') <= proc_budget (proc w0))%nat ->
     wp t m Q w') ->
  wp t (close_noted fd;;; m) Q w.
Proof.
  intros Hc Hb Hm. apply wp_bind, wp_noted_psys. intros r w' Hf Hw.
  destruct (close_fd_law fd _ _ _ Hf) as [Hb' _]. apply Hm; [by eapply called_trans|lia].
Qed.

(** All waits but the last were interrupted; they come back if the child was told to
    end. *)
Lemma wait_spec t pid w :
  (t = true -> (proc_budget (proc w) < fuel)%nat /\ forall h, told (history w ++ h) pid = true) ->
  wp t (retry_eintr fuel (wait pid)) (fun r w' => exists got,
    called w (WaitPid pid <$> got ++ [r]) w' /\
    Forall (fun r => is_intr r = true) got /\ is_intr r = false) w.
Proof.
  intros Ht. apply (wp_retry t fuel _ (fun w1 => exists got, called w (WaitPid pid <$> got) w1 /\
    Forall (fun r => is_intr r = true) got) (fun w => proc_budget (proc w))).
  - intros w1 (got & Hc & Hg). apply wp_noted. unfold on_proc. apply wp_lift. unfold wp.
    destruct (waitpid (history w1) pid (proc w1)) as [[r p]|] eqn:Hw.
    + destruct (waitpid_law _ _ _ _ _ Hw) as [_ Hi].
      assert (called w (WaitPid pid <$> got ++ [r])
        (mk_World p (server w1) (reader w1) (history w1 ++ [WaitPid pid r]))) as Hc'.
      { rewrite fmap_app. by eapply called_trans. }
      destruct (is_intr r) eqn:Ei; [|by exists got]. split; [|by apply Hi].
      exists (got ++ [r]). split; [done|]. apply Forall_app. by repeat constructor.
    + destruct t; [|done]. destruct (Ht eq_refl) as [_ Htold].
      destruct (waitpid_returns _ pid (proc w1) (Htold (WaitPid pid <$> got))).
      destruct Hc as (_ & _ & <-). exact Hw.
  - exists []. split; [apply called_refl|constructor].
  - intros E1. by apply Ht.
Qed.

(** The state after [end_of_input] and, where it failed, the kill. *)
Definition end_state_of (w : world) (dfd pid : Z) (ok : bool) (k : list action) (w' : world) : Prop :=
  (exists e, notifyEvent fuel dfd (Server.efds (server w)) = Some (ok, e) /\
     server w' = Server.with_efds e
       (Server.with_ring (p_closeProducer (Server.ring (server w))) (server w))) /\
  reader w' = reader w /\
  history w' = history w ++ [CloseProducer; NotifyEvent dfd ok] ++ k.

(** [ended w dfd pid fds ok w' r]: the calls from the end of input to the last wait,
    whose answer is [r], in their order. *)
Definition ended (w : world) (dfd pid : Z) (fds : list Z) (ok : bool) (w' : world) (r : sysres Z)
  : Prop :=
  exists killed got,
    end_state_of w dfd pid ok (killed ++ (Close <$> fds) ++ (WaitPid pid <$> got ++ [r])) w' /\
    (if ok then killed = [] else exists k, killed = [Kill pid SIGKILL k]) /\
    Forall (fun r => is_intr r = true) got /\ is_intr r = false.

(** The reader was reached: the notification worked, or else the kill. *)
Definition reaches (dfd pid : Z) (w : world) : Prop :=
  exists ok e, notifyEvent fuel dfd (Server.efds (server w)) = Some (ok, e) /\
    (ok = true \/ is_ok (kill pid SIGKILL (proc w)).1 = true).

Lemma ending_spec t dfd pid w {A} (m : bool -> M world A) (Q : A -> world -> Prop) :
  (t = true -> (ev_budget (Server.efds (server w)) < fuel)%nat) ->
  (forall ok killed w1, end_state_of w dfd pid ok killed w1 ->
     (if ok then killed = [] else exists k, killed = [Kill pid SIGKILL k]) ->
     (proc_budget (proc w1) <= proc_budget (proc w))%nat ->
     (Fork dfd (Ok pid) ∈ history w -> reaches dfd pid w ->
        forall h, told (history w1 ++ h) pid = true) ->
     wp t (m ok) Q w1) ->
  wp t (ok ← end_of_input fuel dfd; kill_unless ok pid;;; m ok) Q w.
Proof.
  intros Hf Hm. apply wp_bind. unfold end_of_input. apply wp_bind, wp_noted.
  unfold on_server at 1, Server.on_ring. apply wp_lift, wp_lift, wp_call. intros u c [= _ <-].
  apply wp_noted. unfold on_server, Server.on_efds. apply wp_lift, wp_lift.
  cbn [server Server.efds Server.with_ring]. pose proof (notifyEvent_spec t fuel dfd _ Hf) as Hn.
  unfold wp in Hn |- * at 1.
  destruct (notifyEvent fuel dfd (Server.efds (server w))) as [[ok e]|] eqn:En; [|done]. clear Hn.
  cbn [proc server reader history]. apply wp_bind. unfold kill_unless.
  destruct ok; cbn [negb].
  - apply wp_ret, (Hm true []); try done.
    + split; [by exists e|]. split; [done|]. cbn [history]. by rewrite <- app_assoc.
    + intros Hk _ h. apply (told_woken dfd); cbn [history]; rewrite <- !app_assoc; [set_solver|].
      apply woken_app.
  - apply wp_bind, wp_noted_psys. intros r w' Hr (E1 & E2 & E3). cbn [proc server reader history] in *.
    apply wp_ret, (Hm false [Kill pid SIGKILL r]).
    + split; [by exists e; rewrite E1|]. split; [done|]. by rewrite E3, <- !app_assoc.
    + by exists r.
    + by destruct (kill_law pid SIGKILL _ _ _ Hr).
    + intros _ (ok & e' & En' & [->|Hk]) h; [congruence|]. apply told_killed. rewrite Hr in Hk.
      rewrite E3. destruct r as [[]|]; [|done]. set_solver.
Qed.

(** The last wait, after the descriptors were closed. *)
Lemma ended_wait t dfd pid fds ok killed w w1 w2 :
  end_state_of w dfd pid ok killed w1 ->
  (if ok then killed = [] else exists k, killed = [Kill pid SIGKILL k]) ->
  called w1 (Close <$> fds) w2 ->
  (t = true -> (proc_budget (proc w2) < fuel)%nat /\ forall h, told (history w1 ++ h) pid = true) ->
  wp t (retry_eintr fuel (wait pid)) (fun r w' => ended w dfd pid fds ok w' r) w2.
Proof.
  intros ((e & En & Es) & Er & Eh) Hk (E1 & E2 & E3) Ht.
  eapply wp_mono; [apply wait_spec|].
  - intros Et. destruct (Ht Et) as [Hb Htold]. split; [done|]. intros h.
    by rewrite E3, <- app_assoc.
  - intros r w' (got & (E4 & E5 & E6) & Hg & Hi). exists killed, got. split; [|done].
    split; [exists e; by rewrite E4, E1|]. split; [by rewrite E5, E2|].
    by rewrite E6, E3, Eh, <- !app_assoc.
Qed.

Definition can_wait (t : bool) (dfd pid : Z) (w : world) : Prop :=
  t = true -> (ev_budget (Server.efds (server w)) < fuel)%nat /\
    (proc_budget (proc w) < fuel)%nat /\ Fork dfd (Ok pid) ∈ history w /\ reaches dfd pid w.

Lemma finish_spec t result dfd sfd gfd pid w :
  can_wait t dfd pid w ->
  wp t (finish fuel result dfd sfd gfd pid) (fun code w' => exists ok r,
    ended w dfd pid [gfd; dfd; sfd] ok w' r /\
    code = match r with
           | Err _ => EXIT_FAILURE
           | Ok status => exit_status (if ok then result else EXIT_FAILURE) status
           end) w.
Proof.
  intros Hf. unfold finish. cbv zeta. apply ending_spec; [intros Et; by apply Hf|].
  intros ok killed w1 He Hk Hb Ht.
  eapply close_step; [apply called_refl|done|]. intros w2 C2 B2.
  eapply close_step; [exact C2|done|]. intros w3 C3 B3.
  eapply close_step; [exact C3|done|]. intros w4 C4 B4.
  apply wp_bind. eapply wp_mono; [apply (ended_wait t dfd pid [gfd; dfd; sfd] ok killed w w1 w4 He Hk C4)|].
  - intros Et. destruct (Hf Et) as (_ & ? & ? & ?). split; [lia|by apply Ht].
  - intros r w5 D. destruct r; apply wp_ret; eexists ok, _; (split; [exact D|]); by destruct ok.
Qed.

Lemma parent_without_signals_spec t dfd sfd pid w :
  can_wait t dfd pid w ->
  wp t (parent_without_signals fuel dfd sfd pid) (fun code w' => exists ok r,
    ended w dfd pid [dfd; sfd] ok w' r /\ code = EXIT_FAILURE) w.
Proof.
  intros Hf. unfold parent_without_signals. apply ending_spec; [intros Et; by apply Hf|].
  intros ok killed w1 He Hk Hb Ht.
  eapply close_step; [apply called_refl|done|]. intros w2 C2 B2.
  eapply close_step; [exact C2|done|]. intros w3 C3 B3.
  apply wp_bind. eapply wp_mono; [apply (ended_wait t dfd pid [dfd; sfd] ok killed w w1 w3 He Hk C3)|].
  - intros Et. destruct (Hf Et) as (_ & ? & ? & ?). split; [lia|by apply Ht].
  - intros r w4 D. apply wp_ret. by exists ok, r.
Qed.

End specs.

(** ** Success *)

Section success.
Context {P C E N W F : Type} `{MainLaws P} `{RingProducer C} `{EventFdLaws E} `{NetApi.NetApi N}
  `{Server.ClientOrder} `{Reader.RingConsumer W} `{EventFdApi W} `{FsApi.FileApi F}.
Variable fuel : nat.

Abbreviation world := (World P C E N W F).
Implicit Types w : world.

(** The parent's successful run from [w] to [w']: every call and the state between
    them.  The ring was created; a new server ran on it to success, with the
    descriptors and the child of this run, and was destroyed; the ring was closed and
    then the child notified; the descriptors were closed; and the waits for that child
    were interrupted until one gave the status of a process that exited with 0. *)
Definition parent_succeeded (config : Server.ServerConfig) (w w' : world) : Prop :=
  exists mask dfd sfd gfd pid c s2 s3 e got status,
    p_create (Server.ring (server w)) = (true, c) /\
    Server.run fuel config dfd sfd gfd pid
      (Server.with_clients ∅ (Server.with_ring c (server w))) = Some (Some EXIT_SUCCESS, s2) /\
    Server.destroy s2 = Some (tt, s3) /\
    notifyEvent fuel dfd (Server.efds s3) = Some (true, e) /\
    server w' = Server.with_efds e (Server.with_ring (p_closeProducer (Server.ring s3)) s3) /\
    history w' = history w ++
      [SigProcMask mask (Ok tt); EventFd (Ok dfd); EventFd (Ok sfd); Fork dfd (Ok pid);
       SignalFd mask (Ok gfd); CloseProducer; NotifyEvent dfd true; Close gfd; Close dfd; Close sfd] ++
      (WaitPid pid <$> got ++ [Ok status]) /\
    Forall (fun r => is_intr r = true) got /\ pid <> 0 /\
    WIFEXITED status = true /\ WEXITSTATUS status = EXIT_SUCCESS.

(** The child's: the reader succeeded on the ring and the files as they were. *)
Definition child_succeeded (config : Reader.ReaderConfig) (w w' : world) : Prop :=
  exists mask dfd sfd,
    Reader.run fuel dfd sfd config (reader w) = Some (EXIT_SUCCESS, reader w') /\
    history w' = history w ++
      [SigProcMask mask (Ok tt); EventFd (Ok dfd); EventFd (Ok sfd); Fork dfd (Ok 0);
       Close dfd; Close sfd].

Lemma exit_status_success result status :
  exit_status result status = EXIT_SUCCESS ->
  result = EXIT_SUCCESS /\ WIFEXITED status = true /\ WEXITSTATUS status = EXIT_SUCCESS.
Proof.
  unfold exit_status. destruct (WIFSIGNALED status); [done|].
  destruct (WIFEXITED status); [|done]. destruct (Z.eqb_spec (WEXITSTATUS status) EXIT_SUCCESS); [|done].
  done.
Qed.

(** Any call, with whatever it returns. *)
Lemma wp_any {S A} (m : M S A) (Q : A -> S -> Prop) s : (forall a s', Q a s') -> wp false m Q s.
Proof. intros HQ. apply wp_self. auto. Qed.

(** The parent from [signalfd] on. *)
Lemma parent_success config mask dfd sfd pid w0 c w :
  server w = Server.with_ring c (server w0) -> p_create (Server.ring (server w0)) = (true, c) ->
  history w = history w0 ++ [SigProcMask mask (Ok tt); EventFd (Ok dfd); EventFd (Ok sfd); Fork dfd (Ok pid)] ->
  pid <> 0 ->
  wp false (parent fuel config mask dfd sfd pid) (fun code w' =>
    code = Some EXIT_SUCCESS -> parent_succeeded config w0 w') w.
Proof.
  intros Es Ec Eh Hpid. unfold parent. apply wp_bind, wp_noted_psys. intros [gfd|er] w1 _ (E1 & _ & E3).
  2: { apply wp_bind. eapply wp_mono; [by apply parent_without_signals_spec|].
       intros code w2 (ok & r & _ & ->). by apply wp_ret. }
  apply wp_bind. unfold run_server. apply wp_bind. unfold on_server at 1. apply wp_lift.
  unfold Server.set_clients. apply wp_modify, wp_bind. unfold on_server at 1.
  apply wp_lift, wp_self. cbn [server]. rewrite E1, Es. intros [code|] s2 Hrun; [|by apply wp_ret, wp_ret].
  apply wp_bind. unfold on_server. apply wp_lift, wp_self. cbn [server]. intros [] s3 Hd.
  apply wp_ret, wp_bind. eapply wp_mono; [by apply finish_spec|].
  intros code' w4 (ok & r & (killed & got & ((e & En & Es4) & _ & Eh4) & Hk & Hg & _) & ->).
  apply wp_ret. cbn [proc server reader history] in *. destruct r as [status|]; [|done].
  intros [= (Hr & Hx & Hs)%exit_status_success]. destruct ok; [|done]. subst killed code.
  exists mask, dfd, sfd, gfd, pid, c, s2, s3, e, got, status. split_and!; try done.
  by rewrite Eh4, E3, Eh, <- !app_assoc.
Qed.

Lemma start_success config mask w0 w :
  server w = server w0 -> reader w = reader w0 ->
  history w = history w0 ++ [SigProcMask mask (Ok tt)] ->
  wp false (start fuel config mask) (fun code w' => code = Some EXIT_SUCCESS ->
    parent_succeeded (serverConfig config) w0 w' \/ child_succeeded (readerConfig config) w0 w') w.
Proof.
  intros Es Er Eh. unfold start. apply wp_bind. unfold on_server, Server.on_ring.
  apply wp_lift, wp_lift, wp_call. rewrite Es.
  intros [] c Hc; cbn [negb]; [|by apply wp_ret].
  apply wp_bind, wp_noted_psys. intros [dfd|e] w2 _ (E1 & E2 & E3); [|by apply wp_ret].
  apply wp_bind, wp_noted_psys. intros [sfd|e] w3 _ (E4 & E5 & E6);
    [|by apply wp_bind, wp_any; intros; apply wp_ret].
  apply wp_bind, wp_noted_psys. intros [pid|e] w4 _ (E7 & E8 & E9).
  2: { apply wp_bind, wp_any. intros ? ?. by apply wp_bind, wp_any; intros; apply wp_ret. }
  cbn [server reader history] in *.
  assert (history w4 = history w0 ++
    [SigProcMask mask (Ok tt); EventFd (Ok dfd); EventFd (Ok sfd); Fork dfd (Ok pid)]) as Eh4
    by by rewrite E9, E6, E3, Eh, <- !app_assoc.
  destruct (Z.eqb_spec pid 0) as [->|Hpid].
  - apply wp_bind. unfold child. apply wp_bind. unfold on_reader. apply wp_lift, wp_self.
    intros code r Hrun. rewrite E8, E5, E2, Er in Hrun.
    apply wp_bind, wp_noted_psys. intros r1 w5 _ (_ & F1 & F2).
    apply wp_bind, wp_noted_psys. intros r2 w6 _ (_ & F3 & F4).
    apply wp_ret, wp_ret. intros [= ->]. right. exists mask, dfd, sfd. rewrite F3, F1. split; [done|].
    rewrite F4, F2. cbn [history]. by rewrite Eh4, <- !app_assoc.
  - eapply wp_mono; [eapply (parent_success _ mask _ _ _ w0 c); try done|by auto].
    by rewrite E7, E4, E1.
Qed.

(** The mask is the one blocked. *)
Lemma block_success w :
  wp false blockManagedSignals (fun mask w' => forall m, mask = Some m ->
    called w [SigProcMask m (Ok tt)] w') w.
Proof.
  unfold blockManagedSignals. do 4 (apply wp_bind, wp_psys; intros [?|?] ? _; [|by apply wp_ret]).
  apply wp_bind, wp_noted_psys. intros [[]|e] w' _ Hw; apply wp_ret; [|done].
  by intros m [= <-].
Qed.

End success.

(** What [ended] says of the ring. *)
Lemma ended_ring {P C E N W F} `{RingProducerLaws C} `{EventFdApi E} fuel (w w' : World P C E N W F)
    dfd pid fds ok r :
  ended fuel w dfd pid fds ok w' r ->
  ring_closed (Server.ring (server w')) /\
  pushed (Server.ring (server w')) = pushed (Server.ring (server w)).
Proof.
  intros (killed & got & ((e & _ & ->) & _) & _). exact (close_producer_law (Server.ring (server w))).
Qed.

(** ** Properties *)

(** C19: the exit status can be trusted.  [main] exits with success only when help
    was asked for, and then it has done nothing; or the options gave a valid
    configuration, whose port is in range and which the file store accepts, and one of
    two runs took place.  In the child, the reader succeeded, on the ring and the files
    as they were, and the descriptors of this run were closed.  In the parent, the ring
    was created and the server succeeded on it with the descriptors made and the child
    forked in this run; then the ring was closed, the child woken, the descriptors
    closed; and the waits for that same child were interrupted until one reported that
    it exited by itself with status 0.  Nothing else was done. *)
Theorem main_success {P C E N W F} `{MainLaws P} `{RingProducer C} `{EventFdLaws E}
    `{NetApi.NetApi N} `{Server.ClientOrder} `{Reader.RingConsumer W} `{EventFdApi W}
    `{FsApi.FileApi F} fuel argv (w w' : World P C E N W F) :
  main fuel argv w = Some (Some EXIT_SUCCESS, w') ->
  exists config err,
    parseArguments argv Config.default_config EmptyString = (HelpRequested, config, err) /\ w' = w \/
    parseArguments argv Config.default_config EmptyString = (Success, config, err) /\
    1 <= port config <= 65535 /\
    FileStore.FileStore.validateConfig (Reader.Reader.store_config (readerConfig config)) = true /\
    (parent_succeeded fuel (serverConfig config) w w' \/
     child_succeeded fuel (readerConfig config) w w').
Proof.
  unfold main. pose proof (parse_loop_post (tail argv) Config.default_config EmptyString) as Hpp.
  specialize (Hpp ltac:(by vm_compute)). unfold parseArguments.
  destruct (parse_loop (tail argv) Config.default_config EmptyString) as [[st config] err].
  intros Hrun. exists config, err. destruct st; [right|left; by injection Hrun as <-|by injection Hrun].
  destruct Hpp as [_ [Hv _]]. split; [done|]. split; [apply Hv|]. split; [by apply store_accepts|].
  match type of Hrun with ?m w = _ =>
    enough (wp false m (fun code w' => code = Some EXIT_SUCCESS ->
      parent_succeeded fuel (serverConfig config) w w' \/ child_succeeded fuel (readerConfig config) w w') w)
      as Hwp by exact (wp_run _ _ _ _ _ _ Hwp Hrun eq_refl)
  end.
  apply wp_bind. eapply wp_mono; [apply block_success|]. intros [mask|] w1 Hb; [|by apply wp_ret].
  destruct (Hb mask eq_refl) as (E1 & E2 & E3).
  apply wp_bind, wp_psys. intros r p _. destruct (negb (r =? 0)); [by apply wp_ret|].
  by apply start_success.
Qed.

(** C17: the parent always brings the reader to its end.  When finitely many signals
    interrupt it, the code after the server's return has closed the ring, then notified
    the child, or killed it where that failed, then closed the three descriptors, and
    then waited for that child until a wait was not interrupted; success is reported
    only if the notification worked and the child exited with 0.  It comes back unless
    neither the notification nor the kill reached the child, where the last wait may
    last for ever.  The path without a [signalfd] does the same and reports failure. *)
Theorem parent_ends_reader {P C E N W F} `{MainLaws P} `{RingProducerLaws C} `{EventFdLaws E}
    fuel result dfd sfd gfd pid (w : World P C E N W F) :
  Fork dfd (Ok pid) ∈ history w ->
  (ev_budget (Server.efds (server w)) < fuel)%nat -> (proc_budget (proc w) < fuel)%nat ->
  match finish fuel result dfd sfd gfd pid w with
  | Some (code, w') => exists ok r, ended fuel w dfd pid [gfd; dfd; sfd] ok w' r /\
      ring_closed (Server.ring (server w')) /\
      pushed (Server.ring (server w')) = pushed (Server.ring (server w)) /\
      code = match r with
             | Err _ => EXIT_FAILURE
             | Ok status => exit_status (if ok then result else EXIT_FAILURE) status
             end
  | None => ~ reaches fuel dfd pid w
  end /\
  match parent_without_signals fuel dfd sfd pid w with
  | Some (code, w') => exists ok r, ended fuel w dfd pid [dfd; sfd] ok w' r /\
      ring_closed (Server.ring (server w')) /\
      pushed (Server.ring (server w')) = pushed (Server.ring (server w)) /\ code = EXIT_FAILURE
  | None => ~ reaches fuel dfd pid w
  end.
Proof.
  intros Hk He Hb. split.
  - pose proof (finish_spec fuel false result dfd sfd gfd pid w ltac:(done)) as Hp.
    pose proof (finish_spec fuel true result dfd sfd gfd pid w) as Ht. unfold wp in *.
    destruct (finish fuel result dfd sfd gfd pid w) as [[code w']|].
    + destruct Hp as (ok & r & D & Hc). exists ok, r. destruct (ended_ring _ _ _ _ _ _ _ _ D). done.
    + intros Hr. by specialize (Ht (fun _ => conj He (conj Hb (conj Hk Hr)))).
  - pose proof (parent_without_signals_spec fuel false dfd sfd pid w ltac:(done)) as Hp.
    pose proof (parent_without_signals_spec fuel true dfd sfd pid w) as Ht. unfold wp in *.
    destruct (parent_without_signals fuel dfd sfd pid w) as [[code w']|].
    + destruct Hp as (ok & r & D & Hc). exists ok, r. destruct (ended_ring _ _ _ _ _ _ _ _ D). done.
    + intros Hr. by specialize (Ht (fun _ => conj He (conj Hb (conj Hk Hr)))).
Qed.

(** ** A sample process *)

#[local] Existing Instances Reader.shared_consumer Reader.shared_events.

(** [errnos]: how the next calls fail, [0] for success; [next]: the next descriptor;
    [forked]: what [fork] returns; [status]: the reader's. *)
Record Proc := {
  errnos : list Z;
  next : Z;
  forked : Z;
  status : Z;
}.

Definition proc_call {A} (v : A) (fd : bool) (p : Proc) : sysres A * Proc :=
  (match errnos p with [] => Ok v | e :: _ => if e =? 0 then Ok v else Err e end,
   {| errnos := tail (errnos p); next := if fd then next p + 1 else next p;
      forked := forked p; status := status p |}).

(** A child that has not been told to end is waited for for ever. *)
#[export] Instance proc_api : MainApi Proc := {
  sigemptyset := proc_call [] false;
  sigaddset mask n := proc_call (mask ++ [n]) false;
  sigprocmask _ := proc_call tt false;
  setvbuf p := (0, p);
  eventfd _ _ p := proc_call (next p) true p;
  fork p := proc_call (forked p) false p;
  signalfd _ _ _ p := proc_call (next p) true p;
  kill pid n := proc_call tt false;
  waitpid h pid p := if told h pid then Some (proc_call (status p) false p) else None;
  close_fd fd := proc_call tt false;
}.

Lemma proc_call_law {A} (f : Proc -> A) fd :
  proc_law (fun p => length (errnos p)) (fun p => proc_call (f p) fd p).
Proof.
  intros p r p' [= <- <-]. cbn [errnos]. destruct (errnos p) as [|e es]; [done|].
  cbn [tail length]. split; lia.
Qed.

#[export] Instance proc_laws : MainLaws Proc.
Proof.
  refine {| proc_budget p := length (errnos p) |}.
  - intros pid n. apply (proc_call_law (fun _ => tt)).
  - intros fd. apply (proc_call_law (fun _ => tt)).
  - intros h pid p r p'. cbn [waitpid proc_api]. destruct (told h pid); [|done].
    intros Hp. apply (proc_call_law status false p r p'). by injection Hp as <- <-.
  - intros h pid p Ht. cbn [waitpid proc_api]. by rewrite Ht.
Defined.

Abbreviation sample_W :=
  (World Proc EagerRing ScriptedEventFd NetApi.MemNet Reader.SharedRing MemFs.MemFs).

Definition sample_world : sample_W :=
  mk_World {| errnos := []; next := 3; forked := 77; status := 0 |}
    ServerProps.sample_start
    (Reader.mk_RSt Reader.sample_shared FileStore.sample_state [] 0 []) [].

Definition sample_final : sample_W :=
  end_state sample_world (main 20 ["telemetry-server"%string] sample_world).

Lemma sample_main :
  main 20 ["telemetry-server"%string] sample_world = Some (Some EXIT_SUCCESS, sample_final).
Proof. apply ends_in. vm_compute. reflexivity. Qed.

Lemma sample_history : nth_error (history sample_final) 3 = Some (Fork 3 (Ok 77)).
Proof. vm_compute. reflexivity. Qed.

Lemma sample_no_child mask dfd sfd :
  history sample_final <> history sample_world ++
    [SigProcMask mask (Ok tt); EventFd (Ok dfd); EventFd (Ok sfd); Fork dfd (Ok 0); Close dfd; Close sfd].
Proof. intros E. pose proof sample_history as Hh. rewrite E in Hh. discriminate Hh. Qed.

Lemma main_success_witness :
  main 20 ["telemetry-server"%string] sample_world = Some (Some EXIT_SUCCESS, sample_final) /\
  exists config, 1 <= port config <= 65535 /\
    parent_succeeded 20 (serverConfig config) sample_world sample_final.
Proof.
  split; [exact sample_main|].
  destruct (main_success 20 ["telemetry-server"%string] sample_world sample_final sample_main)
    as (config & err & [[Hh _]|(Hs & Hport & _ & [Hp|Hc])]).
  - exfalso. vm_compute in Hh. discriminate Hh.
  - exists config. split; [exact Hport|exact Hp].
  - exfalso. destruct Hc as (mask & dfd & sfd & _ & Eh).
    exact (sample_no_child mask dfd sfd Eh).
Defined.

(** The notification and the first wait are interrupted. *)
Definition sample_returned : sample_W :=
  mk_World {| errnos := [0; 0; 0; EINTR]; next := 6; forked := 77; status := 9 |}
    (server sample_world) (reader sample_world) [Fork 3 (Ok 77)].

Lemma sample_reaches : reaches 20 3 77 sample_returned.
Proof. exists true. eexists. split; [vm_compute; reflexivity|by left]. Qed.

Lemma parent_ends_reader_witness :
  (ev_budget (Server.efds (server sample_returned)) < 20)%nat /\
  exists code w', finish 20 EXIT_SUCCESS 3 4 5 77 sample_returned = Some (code, w') /\
    ring_closed (Server.ring (server w')).
Proof.
  assert (ev_budget (Server.efds (server sample_returned)) < 20)%nat as He by (vm_compute; lia).
  assert (proc_budget (proc sample_returned) < 20)%nat as Hb by (vm_compute; lia).
  assert (Fork 3 (Ok 77) ∈ history sample_returned) as Hk by (cbn; apply list_elem_of_here).
  split; [exact He|].
  destruct (parent_ends_reader 20 EXIT_SUCCESS 3 4 5 77 sample_returned Hk He Hb) as [Hf _].
  destruct (finish 20 EXIT_SUCCESS 3 4 5 77 sample_returned) as [[code w']|].
  - destruct Hf as (ok & r & _ & Hc & _). exists code, w'. split; [reflexivity|exact Hc].
  - exfalso. apply Hf. exact sample_reaches.
Defined.

End Main.
