(* ===== verification/Load.v ===== *)
(** * The load generator

    [bench/telemetry_load.cpp]: a client that sends frames to the server.  Its socket
    calls are the parameter [SendApi]; what the code relies on is [SendLaws];
    [ScriptedPeer] is an instance.  Diagnostics and the timing are left out. *)

From S2P Require Import Prelude Codec Frames Charconv NetApi Server.
Import Codec Frames Charconv.

Module Load.

(** ** Options *)

Record Options := { frames : Z; batchFrames : Z; port : Z }.

(** [Options o;]. *)
Definition default_options : Options := {| frames := 100000; batchFrames := 128; port := 19000 |}.

Definition set_frames n o := {| frames := n; batchFrames := batchFrames o; port := port o |}.
Definition set_batchFrames n o := {| frames := frames o; batchFrames := n; port := port o |}.
Definition set_port n o := {| frames := frames o; batchFrames := batchFrames o; port := n |}.

(** The verdict and the new value of the variable passed by reference. *)
Definition parseNumber (text : string) (value : Z) : bool * Z :=
  if bool_decide (text = EmptyString) then (false, value)
  else
    let r := from_chars 64 text in
    let value := default value (parsed r) in
    match ec r with
    | errc_ok => (bool_decide (ptr r = EmptyString), value)
    | _ => (false, value)
    end.

(** The check after the loop. *)
Definition in_range (o : Options) : bool :=
  (1 <=? frames o) && (frames o <=? 1000000) && (1 <=? batchFrames o) && (batchFrames o <=? 4096) &&
  (1 <=? port o).

(** [std::exit], or what [parseOptions] returns with the options as they are then. *)
Inductive parse_end := Exits (code : Z) | Returns (ok : bool) (o : Options).

Fixpoint parse_loop (args : list string) (o : Options) : parse_end :=
  match args with
  | [] => Returns (in_range o) o
  | key :: rest =>
      if bool_decide (key = "--help") then Exits EXIT_SUCCESS
      else if negb (bool_decide (key = "--frames")) && negb (bool_decide (key = "--batch-frames")) &&
              negb (bool_decide (key = "--port")) then Returns false o
      else
        match rest with
        | [] => Returns false o
        | text :: rest =>
            let '(ok, value) := parseNumber text 0 in
            if negb ok then Returns false o
            else
              let o := if bool_decide (key = "--frames") then set_frames value o else o in
              let o := if bool_decide (key = "--batch-frames") then set_batchFrames value o else o in
              if bool_decide (key = "--port") then
                if 65535 <? value then Returns false o else parse_loop rest (set_port (u16 value) o)
              else parse_loop rest o
        end
  end.

Definition parseOptions (argv : list string) (o : Options) : parse_end := parse_loop (tail argv) o.

(** ** The socket calls *)

Class SendApi (W : Type) := {
  socket : Z -> Z -> Z -> W -> sysres Z * W;
  connect : Z -> NetApi.sockaddr_in -> W -> sysres unit * W;
  send : Z -> bytes -> Z -> W -> sysres Z * W;
  shutdown : Z -> Z -> W -> sysres unit * W;
  close : Z -> W -> sysres unit * W;
}.

Definition MSG_NOSIGNAL : Z := 16384.
Definition INADDR_LOOPBACK : Z := 2130706433.
Definition SHUT_WR : Z := 1.

(** What happened to the process's sockets. *)
Inductive client_event :=
| Opened (fd : Z)
| Connected (fd : Z) (address : NetApi.sockaddr_in)
| Sent (fd : Z) (bs : bytes)
| Finished (fd : Z)
| Closed (fd : Z).

(** A call that succeeds happens once, one that fails does nothing, but [close]
    always releases the descriptor; [send] takes some beginning of the data; signals
    interrupt finitely many calls. *)
Class SendLaws (W : Type) `{SendApi W} := {
  c_log : W -> list client_event;
  c_budget : W -> nat;
  socket_law d t p w r w' : socket d t p w = (r, w') ->
    c_log w' = c_log w ++ (match r with Ok fd => [Opened fd] | Err _ => [] end) /\
    (c_budget w' <= c_budget w)%nat;
  connect_law fd a w r w' : connect fd a w = (r, w') ->
    c_log w' = c_log w ++ (if is_ok r then [Connected fd a] else []) /\
    (c_budget w' <= c_budget w)%nat;
  send_law fd bs fl w r w' : send fd bs fl w = (r, w') ->
    match r with
    | Ok n => 0 <= n <= zlen bs /\ c_log w' = c_log w ++ [Sent fd (ztake n bs)]
    | Err _ => c_log w' = c_log w
    end /\
    (c_budget w' <= c_budget w)%nat /\ (is_intr r = true -> (c_budget w' < c_budget w)%nat);
  shutdown_law fd h w r w' : shutdown fd h w = (r, w') ->
    c_log w' = c_log w ++ (if is_ok r then [Finished fd] else []) /\
    (c_budget w' <= c_budget w)%nat;
  close_law fd w r w' : close fd w = (r, w') ->
    c_log w' = c_log w ++ [Closed fd] /\ (c_budget w' <= c_budget w)%nat;
}.

(** ** Sending *)

Section program.
Context {W : Type} `{SendApi W}.
Variable fuel : nat.

(** The [while] loop of [sendAll]. *)
Fixpoint send_loop (n : nat) (fd : Z) (data : bytes) (offset : Z) : M W bool :=
  match n with
  | O => out_of_fuel
  | S n =>
      if offset <? zlen data then
        r ← call (send fd (zdrop offset data) MSG_NOSIGNAL);
        match (r : sysres Z) with
        | Ok k => if 0 <? k then send_loop n fd data (u64 (offset + k)) else mret false
        | Err errno => if errno =? EINTR then send_loop n fd data offset else mret false
        end
      else mret true
  end.

Definition sendAll (fd : Z) (data : bytes) : M W bool := send_loop fuel fd data 0.

(** The pattern of the [double] [1.0]. *)
Definition one : Z := Z.shiftl 1023 52.

Definition load_record (timestampNs : Z) : TelemetryRecord :=
  {| sensorId := 1; metricId := 2; timestampNs := timestampNs; value := one |}.

(** The [for] loop that fills the buffer, [n] frames from the [i]th on. *)
Fixpoint fill (n : nat) (i sent : Z) (buffer : bytes) : bytes :=
  match n with
  | O => buffer
  | S n =>
      let frame := encode (load_record (u64 (u64 (sent + i) + 1))) in
      fill n (i + 1) sent (blit (i * kFrameSize) frame buffer)
  end.

(** The [while] loop of [main]; it gives whether all was sent, and how much. *)
Fixpoint batch_loop (n : nat) (fd : Z) (o : Options) (buffer : bytes) (sent : Z) : M W (bool * Z) :=
  match n with
  | O => out_of_fuel
  | S n =>
      if sent <? frames o then
        let count := Z.min (batchFrames o) (u64 (frames o - sent)) in
        let buffer := fill (Z.to_nat count) 0 sent buffer in
        ok ← sendAll fd (ztake (count * kFrameSize) buffer);
        if negb ok then mret (false, sent)
        else batch_loop n fd o buffer (u64 (sent + count))
      else mret (true, sent)
  end.

Definition address_of (o : Options) : NetApi.sockaddr_in :=
  {| NetApi.sin_family := NetApi.AF_INET; NetApi.sin_port := Server.htons (port o);
     NetApi.sin_addr := Server.htonl INADDR_LOOPBACK |}.

(** [close(fd); return code;]. *)
Definition close_and (fd code : Z) : M W Z := _ ← call (close fd); mret code.

(** [main] once it is connected. *)
Definition transmit (fd : Z) (o : Options) : M W Z :=
  let buffer := replicate (Z.to_nat (batchFrames o * kFrameSize)) Byte.x00 in
  r ← batch_loop fuel fd o buffer 0;
  if negb r.1 then close_and fd EXIT_FAILURE
  else
    r ← call (shutdown fd SHUT_WR);
    if negb (is_ok r) then close_and fd EXIT_FAILURE else close_and fd EXIT_SUCCESS.

Definition main (argv : list string) : M W Z :=
  match parseOptions argv default_options with
  | Exits code => mret code
  | Returns false _ => mret EXIT_FAILURE
  | Returns true o =>
      r ← call (socket NetApi.AF_INET (Z.lor NetApi.SOCK_STREAM NetApi.SOCK_CLOEXEC) 0);
      match (r : sysres Z) with
      | Err _ => mret EXIT_FAILURE
      | Ok fd =>
          r ← call (connect fd (address_of o));
          if negb (is_ok r) then close_and fd EXIT_FAILURE else transmit fd o
      end
  end.

End program.

(** ** What it sends *)

(** The frames numbered from [i] on, [n] of them. *)
Definition workload_from (i n : nat) : bytes :=
  concat (map (fun k => encode (load_record (Z.of_nat k))) (seq i n)).

(** All frames of a run. *)
Definition workload (n : Z) : bytes := workload_from 1 (Z.to_nat n).

(** Only bytes were sent on [fd]; the bytes. *)
Definition only_sends (fd : Z) (evs : list client_event) : Prop :=
  Forall (fun ev => exists bs, ev = Sent fd bs) evs.
Definition payload (evs : list client_event) : bytes :=
  concat (map (fun ev => match ev with Sent _ bs => bs | _ => [] end) evs).

(** The fields have their C++ types. *)
Definition options_ok (o : Options) : Prop :=
  is_u 64 (frames o) /\ is_u 64 (batchFrames o) /\ is_u 16 (port o).

Definition options_accepted (o : Options) : Prop :=
  1 <= frames o <= 1000000 /\ 1 <= batchFrames o <= 4096 /\ 1 <= port o <= 65535.

(** *** What the arguments say *)

(** What an option with its value sets, if it is one the program takes. *)
Definition setting (key text : string) : option (Options -> Options) :=
  v ← whole_number 64 text;
  if bool_decide (key = "--frames") then Some (set_frames v)
  else if bool_decide (key = "--batch-frames") then Some (set_batchFrames v)
  else if bool_decide (key = "--port") && (v <=? 65535) then Some (set_port v)
  else None.

(** [args] are the settings [fs], one after the other, and then [rest]. *)
Inductive settings : list string -> list (Options -> Options) -> list string -> Prop :=
| settings_end rest : settings rest [] rest
| settings_one key text f args fs rest :
    setting key text = Some f -> settings args fs rest ->
    settings (key :: text :: args) (f :: fs) rest.

(** No setting begins [rest]. *)
Definition no_setting (rest : list string) : Prop :=
  match rest with key :: text :: _ => setting key text = None | _ => True end.

(** ** Lemmas *)

Lemma in_range_spec o :
  in_range o = true -> 1 <= frames o <= 1000000 /\ 1 <= batchFrames o <= 4096 /\ 1 <= port o.
Proof. unfold in_range. rewrite !andb_true_iff, !Z.leb_le. lia. Qed.

Lemma parseNumber_exact text value :
  match whole_number 64 text with
  | Some v => parseNumber text value = (true, v)
  | None => (parseNumber text value).1 = false
  end.
Proof.
  rewrite from_chars_whole. unfold parseNumber. destruct text as [|c s]; [done|].
  rewrite bool_decide_eq_false_2 by done. cbv zeta. unfold from_chars.
  destruct (span_digits _) as [[|c' d] r]; [done|]. cbv zeta.
  destruct (_ <? _); [|done]. by destruct r.
Qed.

(** A setting keeps the types. *)
Lemma setting_typed key text f o : setting key text = Some f -> options_ok o -> options_ok (f o).
Proof.
  unfold setting. destruct (whole_number 64 text) as [v|] eqn:Ev; [|done]. cbn.
  apply whole_number_typed in Ev. intros Hf (H1 & H2 & H3). repeat case_bool_decide; cbn in Hf;
    try (injection Hf as <-; by split_and!); try done.
  destruct (Z.leb_spec v 65535); [|done]. injection Hf as <-. split_and!; try done.
  unfold is_u in *. cbn. change (2 ^ 16) with 65536. lia.
Qed.

(** The loop takes one setting, or stops where there is none. *)
Lemma parse_loop_step key rest o :
  key <> "--help"%string ->
  match rest with
  | text :: rest' =>
      match setting key text with
      | Some f => parse_loop (key :: rest) o = parse_loop rest' (f o)
      | None => parse_loop (key :: rest) o = Returns false o
      end
  | [] => parse_loop (key :: rest) o = Returns false o
  end.
Proof.
  intros Hk. cbn [parse_loop]. rewrite bool_decide_eq_false_2 by done.
  destruct rest as [|text rest]; [by destruct (_ && _)|].
  pose proof (parseNumber_exact text 0) as Hn. unfold setting.
  destruct (whole_number 64 text) as [v|] eqn:Ev; cbn [mbind option_bind].
  - rewrite Hn. apply whole_number_typed in Ev. destruct Ev as [Hv _].
    repeat (case_bool_decide; simplify_eq; try done; cbn [negb andb]).
    rewrite Z.ltb_antisym. destruct (Z.leb_spec v 65535); [|done]. cbn [negb].
    by rewrite u16_small by lia.
  - destruct (parseNumber text 0) as [got v]. cbn [fst] in Hn. subst got. by destruct (_ && _).
Qed.

(** What the loop makes of the settings and of what follows them. *)
Definition parsed_as (rest : list string) (o : Options) (e : parse_end) : Prop :=
  match e with
  | Exits code => code = EXIT_SUCCESS /\ head rest = Some "--help"%string
  | Returns ok o' =>
      o' = o /\ head rest <> Some "--help"%string /\ no_setting rest /\
      (ok = true <-> rest = [] /\ options_accepted o)
  end.

Lemma parse_loop_exact args o :
  options_ok o ->
  exists fs rest, settings args fs rest /\
    options_ok (fold_left (fun o f => f o) fs o) /\
    parsed_as rest (fold_left (fun o f => f o) fs o) (parse_loop args o).
Proof.
  remember (length args) as n eqn:En. revert args o En.
  induction (lt_wf n) as [n _ IH]. intros [|key rest] o -> Ho.
  { exists [], []. split; [constructor|]. split; [done|]. cbn. split_and!; [done..|].
    pose proof (in_range_spec o). destruct Ho as (_ & _ & Hp).
    unfold options_accepted, in_range in *. unfold is_u in Hp. change (2 ^ 16) with 65536 in Hp.
    rewrite !andb_true_iff, !Z.leb_le in *. intuition lia. }
  destruct (decide (key = "--help"%string)) as [->|Hk].
  { exists [], ("--help"%string :: rest). split; [constructor|done]. }
  pose proof (parse_loop_step key rest o Hk) as Hs.
  assert (forall tl, no_setting (key :: tl) -> parse_loop (key :: tl) o = Returns false o ->
    exists fs rest0, settings (key :: tl) fs rest0 /\
      options_ok (fold_left (fun o f => f o) fs o) /\
      parsed_as rest0 (fold_left (fun o f => f o) fs o) (parse_loop (key :: tl) o)) as Hstop.
  { intros tl Hno ->. exists [], (key :: tl). split; [constructor|]. split; [done|].
    split_and!; [done|by intros [= ?]|done|]. split; [done|by intros [? _]]. }
  destruct rest as [|text rest]; [by apply Hstop|].
  destruct (setting key text) as [f|] eqn:Ef; [|by apply Hstop]. rewrite Hs.
  destruct (IH (length rest)) with (args := rest) (o := f o) as (fs & rest0 & H1 & H2 & H3);
    [cbn; lia|done|by eapply setting_typed|].
  exists (f :: fs), rest0. split; [by econstructor|done].
Qed.

Lemma parse_accepted argv o :
  parseOptions argv default_options = Returns true o -> options_accepted o.
Proof.
  intros E. destruct (parse_loop_exact (tail argv) default_options) as (fs & rest & _ & _ & Hp);
    [by split_and!|]. unfold parseOptions in E. rewrite E in Hp.
  destruct Hp as (-> & _ & _ & Hok). by apply Hok.
Qed.

Lemma payload_app a b : payload (a ++ b) = payload a ++ payload b.
Proof. unfold payload. by rewrite map_app, concat_app. Qed.

Lemma only_sends_app fd a b : only_sends fd a -> only_sends fd b -> only_sends fd (a ++ b).
Proof. intros Ha Hb. by apply Forall_app. Qed.

Lemma workload_from_app i n m :
  workload_from i (n + m) = workload_from i n ++ workload_from (i + n) m.
Proof. unfold workload_from. by rewrite seq_app, map_app, concat_app. Qed.

Lemma workload_from_S i n :
  workload_from i (S n) = encode (load_record (Z.of_nat i)) ++ workload_from (S i) n.
Proof. done. Qed.

Lemma zlen_workload_from i n : zlen (workload_from i n) = Z.of_nat n * kFrameSize.
Proof.
  revert i. induction n as [|n IH]; intros i; [done|].
  rewrite workload_from_S, zlen_app, zlen_encode, IH. unfold kFrameSize. lia.
Qed.

(** All of it valid frames, and read back they are the records. *)
Lemma frames_of_workload i n :
  frames_of (workload_from i n) = map (fun k => encode (load_record (Z.of_nat k))) (seq i n).
Proof.
  revert i. induction n as [|n IH]; intros i; [done|].
  rewrite workload_from_S, frames_of_app by (rewrite zlen_encode; apply Z.divide_refl).
  rewrite frames_of_one by apply zlen_encode. by rewrite IH.
Qed.

Lemma load_record_ok k : is_u 64 k -> record_ok (load_record k).
Proof. intros Hk. split_and!; [split; vm_compute; done..|exact Hk|split; vm_compute; done]. Qed.

Lemma workload_valid i n : Z.of_nat i + Z.of_nat n <= 2 ^ 64 -> valid_frames (workload_from i n).
Proof.
  intros Hn. unfold valid_frames. rewrite frames_of_workload, Forall_map, Forall_forall.
  intros k Hk%elem_of_seq. unfold compose. rewrite decode_encode_eq; [done|].
  apply load_record_ok. unfold is_u. lia.
Qed.

(** The buffer's first [n] frames are the workload's. *)
Lemma fill_spec n i sent buffer :
  0 <= i -> 0 <= sent -> sent + i + Z.of_nat n < 2 ^ 64 ->
  (i + Z.of_nat n) * kFrameSize <= zlen buffer ->
  zlen (fill n i sent buffer) = zlen buffer /\
  ztake ((i + Z.of_nat n) * kFrameSize) (fill n i sent buffer) =
    ztake (i * kFrameSize) buffer ++ workload_from (Z.to_nat (sent + i + 1)) n.
Proof.
  unfold kFrameSize. revert i buffer. induction n as [|n IH]; intros i buffer Hi Hs Hb Hl; cbn [fill].
  { split; [done|]. change (workload_from _ 0) with (@nil byte). rewrite app_nil_r. f_equal. lia. }
  cbv zeta. rewrite (u64_small (sent + i)), u64_small by lia.
  set (frame := encode _). assert (zlen frame = 32) as Hf by apply zlen_encode.
  unfold kFrameSize. set (buffer' := blit _ _ _).
  assert (zlen buffer' = zlen buffer) as El by (apply zlen_blit; lia).
  destruct (IH (i + 1) buffer') as [-> E]; [lia..|]. split; [done|].
  replace (i + Z.of_nat (S n)) with (i + 1 + Z.of_nat n) by lia. rewrite E.
  replace (Z.to_nat (sent + i + 1)) with (S (Z.to_nat (sent + i))) by lia.
  rewrite workload_from_S. replace (Z.of_nat (S (Z.to_nat (sent + i)))) with (sent + i + 1) by lia.
  replace (Z.to_nat (sent + (i + 1) + 1)) with (S (S (Z.to_nat (sent + i)))) by lia.
  rewrite app_assoc. f_equal. unfold buffer', blit. rewrite app_assoc.
  assert (zlen (ztake (i * 32) buffer) = i * 32) as Et by (rewrite zlen_take; lia).
  rewrite ztake_app_le by (rewrite zlen_app; lia). rewrite ztake_ge by (rewrite zlen_app; lia). done.
Qed.

Section specs.
Context {W : Type} `{SendLaws W}.
Implicit Types w : W.

(** From [w] to [w'] just [evs] happened. *)
Definition went (w : W) (evs : list client_event) (w' : W) : Prop :=
  c_log w' = c_log w ++ evs /\ (c_budget w' <= c_budget w)%nat.

Lemma went_refl w : went w [] w.
Proof. split; [by rewrite app_nil_r|done]. Qed.

Lemma went_trans w1 w2 w3 a b : went w1 a w2 -> went w2 b w3 -> went w1 (a ++ b) w3.
Proof. intros [E1 B1] [E2 B2]. split; [by rewrite E2, E1, app_assoc|lia]. Qed.

(** [sendAll] sends a beginning of the data, all of it when it succeeds. *)
Definition all_sent (fd : Z) (data : bytes) (w : W) (ok : bool) (w' : W) : Prop :=
  exists evs, went w evs w' /\ only_sends fd evs /\ payload evs `prefix_of` data /\
    (ok = true -> payload evs = data).

Lemma send_loop_spec t n fd data offset w :
  0 <= offset <= zlen data -> zlen data < 2 ^ 64 ->
  (t = true -> Z.of_nat (c_budget w) + (zlen data - offset) < Z.of_nat n) ->
  wp t (send_loop n fd data offset) (all_sent fd (zdrop offset data) w) w.
Proof.
  revert offset w. induction n as [|n IH]; intros offset w Ho Hd Ht; cbn [send_loop].
  { apply wp_out_of_fuel. destruct t; [|done]. specialize (Ht eq_refl). lia. }
  destruct (Z.ltb_spec offset (zlen data)) as [Hlt|Hge].
  2: { apply wp_ret. exists []. rewrite zdrop_ge by lia. split_and!; [apply went_refl|constructor|done..]. }
  apply wp_bind, wp_call. intros r w1 Hr. destruct (send_law _ _ _ _ _ _ Hr) as (Hl & Hb & Hi).
  destruct r as [k|errno].
  - destruct Hl as [Hk Hl]. rewrite zlen_drop in Hk.
    set (sent := ztake k (zdrop offset data)) in *.
    assert (went w [Sent fd sent] w1) as Hw by done.
    assert (only_sends fd [Sent fd sent]) as Hs by (repeat constructor; by eexists).
    destruct (Z.ltb_spec 0 k) as [Hp|Hp].
    + rewrite u64_small by lia. eapply wp_mono; [apply IH; [lia|done|]|].
      { intros Ht'. specialize (Ht Ht'). lia. }
      intros ok w2 (evs & Hw2 & Hs2 & Hp2 & Hok). exists ([Sent fd sent] ++ evs).
      assert (zdrop offset data = sent ++ zdrop (offset + k) data) as Ed.
      { rewrite <- (zdrop_zdrop offset k) by lia. symmetry. apply ztake_zdrop. }
      rewrite payload_app. cbn [payload map concat]. change (payload [Sent fd sent]) with (sent ++ []).
      rewrite app_nil_r, Ed. split_and!.
      * by eapply went_trans.
      * by apply only_sends_app.
      * by apply prefix_app.
      * intros E. by rewrite Hok.
    + apply wp_ret. exists [Sent fd sent]. change (payload _) with (sent ++ []). rewrite app_nil_r.
      split_and!; try done. exists (zdrop k (zdrop offset data)). symmetry. apply ztake_zdrop.
  - assert (went w [] w1) as Hw by (split; [by rewrite app_nil_r|done]).
    destruct (Z.eqb_spec errno EINTR) as [->|].
    + specialize (Hi eq_refl). eapply wp_mono; [apply IH; [done..|]|].
      { intros Ht'. specialize (Ht Ht'). lia. }
      intros ok w2 (evs & Hw2 & Hs2 & Hp2 & Hok). exists ([] ++ evs).
      split_and!; try done. by eapply went_trans.
    + apply wp_ret. exists []. split_and!; [done|constructor|apply prefix_nil|done].
Qed.

(** The largest batch in bytes. *)
Definition maxBatchBytes : Z := 4096 * 32.

Lemma batch_loop_spec t fuel n fd o buffer sent w :
  options_accepted o -> zlen buffer = batchFrames o * kFrameSize -> 0 <= sent <= frames o ->
  (t = true -> Z.of_nat (c_budget w) + maxBatchBytes < Z.of_nat fuel /\
     frames o - sent < Z.of_nat n) ->
  wp t (batch_loop fuel n fd o buffer sent)
    (fun r => all_sent fd (workload_from (Z.to_nat (sent + 1)) (Z.to_nat (frames o - sent))) w r.1) w.
Proof.
  intros (Hf & Hb & _). revert buffer sent w. induction n as [|n IH]; intros buffer sent w Hl Hs Ht;
    cbn [batch_loop].
  { apply wp_out_of_fuel. destruct t; [|done]. specialize (Ht eq_refl). lia. }
  destruct (Z.ltb_spec sent (frames o)) as [Hlt|Hge].
  2: { apply wp_ret. exists []. replace (frames o - sent) with 0 by lia.
       split_and!; [apply went_refl|constructor|done..]. }
  cbv zeta. rewrite u64_small by lia. set (count := Z.min _ _).
  assert (0 < count <= batchFrames o /\ sent + count <= frames o) as Hc by lia.
  unfold kFrameSize in *.
  destruct (fill_spec (Z.to_nat count) 0 sent buffer) as [El Ec]; [unfold kFrameSize in *; lia..|].
  unfold kFrameSize in Ec. rewrite Z2Nat.id, Z.add_0_l, Z.add_0_r in Ec by lia.
  set (buffer' := fill _ _ _ _) in *. rewrite Ec, ztake_nonpos by lia. cbn [app].
  set (data := workload_from _ (Z.to_nat count)).
  assert (zlen data = count * 32) as Ed
    by (unfold data; rewrite zlen_workload_from; unfold kFrameSize; lia).
  replace (Z.to_nat (frames o - sent)) with (Z.to_nat count + Z.to_nat (frames o - (sent + count)))%nat
    by lia.
  rewrite workload_from_app. fold data.
  replace (Z.to_nat (sent + 1) + Z.to_nat count)%nat with (Z.to_nat (sent + count + 1)) by lia.
  set (rest := workload_from (Z.to_nat (sent + count + 1)) _).
  unfold sendAll. apply wp_bind. unfold maxBatchBytes in *.
  eapply wp_mono; [apply (send_loop_spec t fuel fd data 0 w)|]; [lia|lia| |].
  { intros Ht'. specialize (Ht Ht'). lia. }
  rewrite zdrop_nonpos by done. intros ok w1 (evs & Hw & Hsd & Hp & Hok).
  destruct ok; cbn [negb].
  - specialize (Hok eq_refl). rewrite u64_small by lia. eapply wp_mono; [apply IH; [lia|lia|]|].
    { intros Ht'. specialize (Ht Ht'). destruct Hw as [_ Hw]. lia. }
    fold rest. intros [ok k] w2 (evs2 & Hw2 & Hsd2 & Hp2 & Hok2). cbn [fst] in *.
    exists (evs ++ evs2). rewrite payload_app, Hok. split_and!.
    + by eapply went_trans.
    + by apply only_sends_app.
    + by apply prefix_app.
    + intros E. by rewrite Hok2.
  - apply wp_ret. exists evs. split_and!; try done. by apply prefix_app_r.
Qed.

(** The socket's life from the first [send] on. *)
Definition transmitted (fd : Z) (o : Options) (w : W) (code : Z) (w' : W) : Prop :=
  exists sends finish, went w (sends ++ finish ++ [Closed fd]) w' /\ only_sends fd sends /\
    (code = EXIT_SUCCESS /\ payload sends = workload (frames o) /\ finish = [Finished fd] \/
     code = EXIT_FAILURE /\ payload sends `prefix_of` workload (frames o) /\ finish = []).

Lemma close_and_spec t fd code w Q :
  (forall w', went w [Closed fd] w' -> Q code w') -> wp t (close_and fd code) Q w.
Proof.
  intros HQ. unfold close_and. apply wp_bind, wp_call. intros r w1 Hr.
  destruct (close_law _ _ _ _ Hr). apply wp_ret. by apply HQ.
Qed.

(** More fuel than any accepted run needs. *)
Definition plenty_of (t : bool) (fuel : nat) (w : W) : Prop :=
  t = true -> Z.of_nat (c_budget w) + 2000000 < Z.of_nat fuel.

Lemma transmit_spec t fuel fd o w :
  options_accepted o -> plenty_of t fuel w ->
  wp t (transmit fuel fd o) (transmitted fd o w) w.
Proof.
  intros Ho Ht. unfold transmit. cbv zeta. apply wp_bind.
  eapply wp_mono; [apply (batch_loop_spec t fuel fuel fd o)|]; [done| | | |].
  - destruct Ho as (_ & Hb & _). unfold zlen. rewrite length_replicate. unfold kFrameSize. lia.
  - destruct Ho as (Hf & _). lia.
  - intros Ht'. specialize (Ht Ht'). destruct Ho as (Hf & _). unfold maxBatchBytes. lia.
  - rewrite Z.sub_0_r. change (workload_from _ _) with (workload (frames o)).
    intros [ok sent] w1 (evs & Hw & Hs & Hp & Hok). cbn [fst] in *.
    destruct ok; cbn [negb].
    + specialize (Hok eq_refl). apply wp_bind, wp_call. intros r w2 Hr.
      apply shutdown_law in Hr. destruct r as [u|e]; cbn [is_ok negb] in *; apply close_and_spec.
      * intros w3 Hc. exists evs, [Finished fd]. split_and!; [|done|by left].
        eapply went_trans; [done|]. by eapply went_trans.
      * intros w3 Hc. exists evs, []. split_and!; [|done|right; by rewrite Hok].
        eapply went_trans; [done|]. by eapply (went_trans w1 w2 w3 []).
    + apply close_and_spec. intros w3 Hc. exists evs, []. split_and!; [|done|by right].
      by eapply went_trans.
Qed.

(** What a run did to the network, by exit status. *)
Definition load_done (argv : list string) (code : Z) (evs : list client_event) : Prop :=
  match parseOptions argv default_options with
  | Exits c => code = c /\ evs = []
  | Returns false _ => code = EXIT_FAILURE /\ evs = []
  | Returns true o =>
      options_accepted o /\
      (code = EXIT_FAILURE /\ (evs = [] \/ exists fd, evs = [Opened fd; Closed fd]) \/
       exists fd sends finish,
         evs = [Opened fd; Connected fd (address_of o)] ++ sends ++ finish ++ [Closed fd] /\
         only_sends fd sends /\
         (code = EXIT_SUCCESS /\ payload sends = workload (frames o) /\ finish = [Finished fd] \/
          code = EXIT_FAILURE /\ payload sends `prefix_of` workload (frames o) /\ finish = []))
  end.

Lemma main_spec t fuel argv w :
  plenty_of t fuel w ->
  wp t (main fuel argv) (fun code w' => exists evs, went w evs w' /\ load_done argv code evs) w.
Proof.
  intros Ht. unfold main, load_done.
  destruct (parseOptions argv default_options) as [code|[] o] eqn:Ep.
  - apply wp_ret. exists []. split; [apply went_refl|done].
  - pose proof (parse_accepted _ _ Ep) as Ho. apply wp_bind, wp_call. intros r w1 Hr.
    apply socket_law in Hr. destruct r as [fd|e].
    2: { apply wp_ret. exists []. split; [done|]. split; [done|]. left. by split; [|left]. }
    apply wp_bind, wp_call. intros r w2 Hr2. apply connect_law in Hr2.
    destruct r as [u|e]; cbn [is_ok negb] in *.
    + eapply wp_mono; [apply transmit_spec; [done|]|].
      { intros Ht'. specialize (Ht Ht'). destruct Hr, Hr2. lia. }
      intros code w3 (sends & finish & Hw & Hs & Hc).
      exists ([Opened fd] ++ [Connected fd (address_of o)] ++ sends ++ finish ++ [Closed fd]). split.
      * eapply went_trans; [done|]. by eapply went_trans.
      * split; [done|]. right. by exists fd, sends, finish.
    + apply close_and_spec. intros w3 Hc. exists ([Opened fd] ++ [] ++ [Closed fd]). split.
      * eapply went_trans; [done|]. by eapply went_trans.
      * split; [done|]. left. split; [done|]. right. by exists fd.
  - apply wp_ret. exists []. split; [apply went_refl|done].
Qed.

End specs.


(** A run other than help: what it has sent begins the workload, and is all of it
    when it succeeded. *)
Lemma load_done_payload argv o code evs :
  parseOptions argv default_options = Returns true o -> load_done argv code evs ->
  options_accepted o /\ payload evs `prefix_of` workload (frames o) /\
  (code = EXIT_SUCCESS -> payload evs = workload (frames o)).
Proof.
  unfold load_done. intros ->. intros (Ho & Hc). split; [done|].
  destruct Hc as [[-> Hc]|(fd & sends & finish & -> & _ & Hc)].
  - assert (payload evs = []) as -> by (by destruct Hc as [->|[fd ->]]). split; [apply prefix_nil|done].
  - rewrite !payload_app.
    destruct Hc as [(-> & -> & ->)|(-> & Hp & ->)]; cbn; rewrite !app_nil_r; [done|]. by split.
Qed.

Lemma workload_split k n :
  0 <= k <= n -> workload n = workload k ++ workload_from (S (Z.to_nat k)) (Z.to_nat (n - k)).
Proof.
  intros Hk. unfold workload. replace (Z.to_nat n) with (Z.to_nat k + Z.to_nat (n - k))%nat by lia.
  by rewrite workload_from_app.
Qed.

(** Of a beginning of the workload, the whole frames are published. *)
Lemma workload_valid_part n x :
  0 <= n <= 1000000 -> x `prefix_of` workload n ->
  let k := zlen x / kFrameSize in
  0 <= k <= n /\ ztake (valid_bytes x) x = workload k.
Proof.
  intros Hn [y Hy] k. pose proof (zlen_nonneg x). pose proof (zlen_nonneg y).
  assert (k * kFrameSize <= zlen x < k * kFrameSize + kFrameSize) as Hkx by (unfold k, kFrameSize; div_lia).
  clearbody k.
  assert (zlen (workload n) = n * kFrameSize) as Hw by (unfold workload; by rewrite zlen_workload_from, Z2Nat.id by lia).
  rewrite Hy, zlen_app in Hw. assert (0 <= k <= n) as Hk by (unfold kFrameSize in *; lia).
  split; [done|]. rewrite (workload_split k n Hk) in Hy.
  assert (zlen (workload k) = k * kFrameSize) as Hwk by (unfold workload; by rewrite zlen_workload_from, Z2Nat.id by lia).
  assert (x = workload k ++ zdrop (k * kFrameSize) x) as Hx.
  { rewrite <- (ztake_zdrop (k * kFrameSize) x) at 1. f_equal.
    apply (f_equal (ztake (k * kFrameSize))) in Hy.
    rewrite !ztake_app_le in Hy by (unfold kFrameSize in *; lia).
    rewrite <- Hy. apply ztake_ge. lia. }
  set (r := zdrop (k * kFrameSize) x) in *.
  assert (zlen r < kFrameSize) as Hr by (unfold r, kFrameSize in *; rewrite zlen_drop; lia).
  assert (valid_bytes r = 0) as Hv.
  { destruct (valid_bytes_range r) as [? [j Hj]]. unfold kFrameSize in *. lia. }
  rewrite Hx at 1. rewrite valid_bytes_app, Hv, Z.add_0_r.
  - rewrite Hx, ztake_app_le by lia. by apply ztake_ge.
  - apply workload_valid. lia.
  - rewrite Hwk. apply Z.divide_factor_r.
Qed.

Lemma decode_workload n :
  0 <= n <= 1000000 ->
  map decode (frames_of (workload n)) =
    map (fun k => {| record := load_record (Z.of_nat k); error := None_ |}) (seq 1 (Z.to_nat n)).
Proof.
  intros Hn. unfold workload. rewrite frames_of_workload, map_map. apply map_ext_in.
  intros k Hk%in_seq. apply decode_encode_eq, load_record_ok. unfold is_u. lia.
Qed.

(** ** An instance: calls that fail, or sends that are short, as a script says *)

Inductive hitch := Fails (errno : Z) | Takes (n : Z).

Record ScriptedPeer := { hitches : list hitch; peer_log : list client_event }.

(** A call of the script: [ev] happens unless it fails. *)
Definition peer_call {A} (v : A) (ev : client_event) (p : ScriptedPeer) : sysres A * ScriptedPeer :=
  match hitches p with
  | Fails errno :: rest => (Err errno, {| hitches := rest; peer_log := peer_log p |})
  | _ => (Ok v, {| hitches := hitches p; peer_log := peer_log p ++ [ev] |})
  end.

(** [send] of what the script says, else of all. *)
Definition peer_send (fd : Z) (bs : bytes) (p : ScriptedPeer) : sysres Z * ScriptedPeer :=
  match hitches p with
  | Fails errno :: rest => (Err errno, {| hitches := rest; peer_log := peer_log p |})
  | Takes n :: rest =>
      let k := Z.max 0 (Z.min n (zlen bs)) in
      (Ok k, {| hitches := rest; peer_log := peer_log p ++ [Sent fd (ztake k bs)] |})
  | [] => (Ok (zlen bs), {| hitches := []; peer_log := peer_log p ++ [Sent fd (ztake (zlen bs) bs)] |})
  end.

#[export] Instance peer_api : SendApi ScriptedPeer := {
  socket _ _ _ := peer_call 3 (Opened 3);
  connect fd a := peer_call tt (Connected fd a);
  send fd bs _ := peer_send fd bs;
  shutdown fd _ := peer_call tt (Finished fd);
  close fd p := (Ok tt, {| hitches := hitches p; peer_log := peer_log p ++ [Closed fd] |});
}.

Lemma peer_call_law {A} (v : A) ev p r p' :
  peer_call v ev p = (r, p') ->
  peer_log p' = peer_log p ++ (if is_ok r then [ev] else []) /\
  (length (hitches p') <= length (hitches p))%nat /\ (forall x, r = Ok x -> x = v).
Proof.
  unfold peer_call. destruct (hitches p) as [|[e|n] l] eqn:E; intros [= <- <-]; cbn [is_ok hitches peer_log];
    rewrite ?app_nil_r, ?E; split_and!; try done; try (cbn; lia); by intros x [= ->].
Qed.

#[export] Instance peer_laws : SendLaws ScriptedPeer.
Proof.
  refine {| c_log := peer_log; c_budget p := length (hitches p) |}.
  - intros d t p w r w' Hr. destruct (peer_call_law _ _ _ _ _ Hr) as (Hl & Hb & Hv).
    split; [|done]. rewrite Hl. destruct r as [fd|]; [by rewrite (Hv fd)|done].
  - intros fd a w r w' Hr. by destruct (peer_call_law _ _ _ _ _ Hr) as (? & ? & _).
  - intros fd bs fl w r w' Hr. cbn in Hr. unfold peer_send in Hr. pose proof (zlen_nonneg bs).
    destruct (hitches w) as [|[e|n] l]; injection Hr as <- <-; cbn [hitches peer_log length is_intr];
      split_and!; try done; lia.
  - intros fd h w r w' Hr. by destruct (peer_call_law _ _ _ _ _ Hr) as (? & ? & _).
  - intros fd w r w' [= <- <-]. by split.
Defined.

(** ** Properties *)

(** C36: the exact behaviour of [parseOptions], whatever the arguments are.  They are
    settings - an option the program knows with a whole number that fits it - and
    then a rest that no setting begins.  The program ends at once, with success, just
    when the rest begins with [--help]; otherwise [parseOptions] gives the defaults
    with the settings applied from left to right, of the fields' C++ types, and
    accepts them just when there is no rest and they are in the documented ranges. *)
Theorem load_options_typed argv :
  exists fs rest, settings (tail argv) fs rest /\
    let o := fold_left (fun o f => f o) fs default_options in
    options_ok o /\
    match parseOptions argv default_options with
    | Exits code => code = EXIT_SUCCESS /\ head rest = Some "--help"%string
    | Returns ok o' =>
        o' = o /\ head rest <> Some "--help"%string /\ no_setting rest /\
        (ok = true <-> rest = [] /\ options_accepted o)
    end.
Proof. apply (parse_loop_exact (tail argv) default_options). by split_and!. Qed.

(** C31: the sender's run.  It comes back when its socket calls do ([connect] and [send]
    block until the peer takes part) and signals are finitely many.  It
    succeeds only after help, or when the accepted options' number of frames, each
    encoded with the next timestamp, were sent in order on one connection to the
    port - whatever the batch size and however short [send] falls - and the
    connection was then finished.  Otherwise a beginning of them was sent.  The
    socket is closed on every path. *)
Theorem load_sends_workload {W} `{SendLaws W} fuel argv (w : W) :
  Z.of_nat (c_budget w) + 2000000 < Z.of_nat fuel ->
  exists code w' evs, main fuel argv w = Some (code, w') /\
    c_log w' = c_log w ++ evs /\ load_done argv code evs.
Proof.
  intros Hf. destruct (wp_total _ _ _ (main_spec true fuel argv w (fun _ => Hf)))
    as (code & w' & Hrun & evs & [Hl _] & Hd).
  by exists code, w', evs.
Qed.

(** A run of three frames, two at a time, with an interruption and a short [send]. *)
Definition sample_args : list string := ["load"; "--frames"; "3"; "--batch-frames"; "2"]%string.
Definition sample_peer : ScriptedPeer :=
  {| hitches := [Takes 10; Fails EINTR; Takes 20]; peer_log := [] |}.

Lemma load_sends_workload_witness :
  Z.of_nat (c_budget sample_peer) + 2000000 < Z.of_nat (Z.to_nat 2000010) /\
  exists code w' evs, main (Z.to_nat 2000010) sample_args sample_peer = Some (code, w') /\
    c_log w' = c_log sample_peer ++ evs /\ load_done sample_args code evs.
Proof.
  assert (Z.of_nat (c_budget sample_peer) + 2000000 < Z.of_nat (Z.to_nat 2000010)) as Hf
    by (rewrite Z2Nat.id by lia; change (c_budget sample_peer) with 3%nat; lia).
  split; [exact Hf|]. exact (load_sends_workload (Z.to_nat 2000010) sample_args sample_peer Hf).
Defined.

(** The same run, evaluated: three frames in four pieces. *)
Definition sample_sent : ScriptedPeer :=
  match main 100 sample_args sample_peer with Some (_, w) => w | None => sample_peer end.

Lemma sample_sends : main 100 sample_args sample_peer = Some (EXIT_SUCCESS, sample_sent).
Proof. by vm_compute. Qed.

Example sample_payload :
  payload (c_log sample_sent) = workload 3 /\ length (c_log sample_sent) = 8%nat.
Proof. by vm_compute. Qed.

End Load.
