(* ===== verification/Except.v ===== *)
(** * Exceptions and text

    [bench/profile_cpu.cpp] reports errors by throwing [std::runtime_error] and works
    on lines of text.  A value that may be an exception, computations that may throw,
    and the operations of [std::string] and [std::getline] the code uses. *)

From Stdlib Require Import Ascii.
From S2P Require Import Prelude.

Module Except.

(** ** Exceptions *)

(** A value, or an exception with its [what()]. *)
Inductive result (A : Type) := Value (a : A) | Throws (what : string).
Arguments Value {A} a.
Arguments Throws {A} what.

Definition and_then {A B} (f : A -> result B) (r : result A) : result B :=
  match r with Value a => f a | Throws what => Throws what end.

Definition returns {A} (r : result A) : bool := match r with Value _ => true | Throws _ => false end.

(** A computation on the world that may throw. *)
Definition throw {W A} (what : string) : M W (result A) := mret (Throws what).
Definition done {W A} (a : A) : M W (result A) := mret (Value a).
Definition ebind {W A B} (f : A -> M W (result B)) (m : M W (result A)) : M W (result B) :=
  r ← m; match r with Value a => f a | Throws what => throw what end.

(** [try { m } catch (const std::exception &error) { h }]. *)
Definition try_catch {W A} (m : M W (result A)) (h : string -> M W (result A)) : M W (result A) :=
  r ← m; match r with Value a => done a | Throws what => h what end.

(** [m], then [cleanup] on every path: a destructor. *)
Definition finally {W A} (m : M W (result A)) (cleanup : M W unit) : M W (result A) :=
  r ← m; cleanup;;; mret r.

(** A call that cannot throw, and one that may. *)
Definition plain {W A} (f : W -> A * W) : M W (result A) := a ← call f; done a.

(** ** Text *)

Definition newline : ascii := ascii_of_nat 10.
Definition carriage_return : ascii := ascii_of_nat 13.
Definition tab : ascii := ascii_of_nat 9.

(** The lines [std::getline] gives, one after the other. *)
Fixpoint lines (text : string) : list string :=
  match text with
  | EmptyString => []
  | String c rest =>
      if Ascii.eqb c newline then EmptyString :: lines rest
      else match lines rest with
           | [] => [String c EmptyString]
           | line :: more => String c line :: more
           end
  end.

(** [s.find(c)]: what is before the first [c], and what is after it. *)
Fixpoint find_char (c : ascii) (s : string) : option (string * string) :=
  match s with
  | EmptyString => None
  | String d rest =>
      if Ascii.eqb d c then Some (EmptyString, rest)
      else match find_char c rest with Some (a, b) => Some (String d a, b) | None => None end
  end.

(** [s.back()], and [s] without it. *)
Fixpoint last_char (s : string) : option ascii :=
  match s with
  | EmptyString => None
  | String c EmptyString => Some c
  | String _ rest => last_char rest
  end.
Fixpoint remove_suffix1 (s : string) : string :=
  match s with
  | EmptyString | String _ EmptyString => EmptyString
  | String c rest => String c (remove_suffix1 rest)
  end.

(** [s.rfind(p, 0) == 0]. *)
Definition starts_with (p s : string) : bool := String.prefix p s.

(** [s.find(sub)], and whether it finds anything. *)
Definition find (sub s : string) : option nat := String.index 0 sub s.
Definition contains (sub s : string) : bool := match find sub s with Some _ => true | None => false end.

(** [s.substr(pos)]. *)
Definition substr_from (pos : nat) (s : string) : string :=
  String.substring pos (String.length s - pos) s.

(** [s] without the blanks and tabs at its front. *)
Fixpoint skip_blanks (s : string) : string :=
  match s with
  | EmptyString => EmptyString
  | String c rest => if Ascii.eqb c " " || Ascii.eqb c tab then skip_blanks rest else s
  end.

(** ** Rules for [wp] *)

Lemma wp_throw {W A} t what (Q : result A -> W -> Prop) w :
  Q (Throws what) w -> wp t (throw what) Q w.
Proof. exact (fun H => H). Qed.

Lemma wp_done {W A} t (a : A) (Q : result A -> W -> Prop) w : Q (Value a) w -> wp t (done a) Q w.
Proof. exact (fun H => H). Qed.

Lemma wp_ebind {W A B} t (f : A -> M W (result B)) (m : M W (result A)) Q w :
  wp t m (fun r w' =>
    match r with Value a => wp t (f a) Q w' | Throws what => Q (Throws what) w' end) w ->
  wp t (ebind f m) Q w.
Proof.
  intros Hm. apply wp_bind. eapply wp_mono; [exact Hm|]. intros [a|what] w'; [exact (fun H => H)|].
  apply wp_throw.
Qed.

Lemma wp_try_catch {W A} t (m : M W (result A)) h Q w :
  wp t m (fun r w' =>
    match r with Value a => Q (Value a) w' | Throws what => wp t (h what) Q w' end) w ->
  wp t (try_catch m h) Q w.
Proof.
  intros Hm. apply wp_bind. eapply wp_mono; [exact Hm|]. intros [a|what] w'; [apply wp_done|].
  exact (fun H => H).
Qed.

Lemma wp_finally {W A} t (m : M W (result A)) cleanup Q w :
  wp t m (fun r w' => wp t cleanup (fun _ w'' => Q r w'') w') w -> wp t (finally m cleanup) Q w.
Proof.
  intros Hm. apply wp_bind. eapply wp_mono; [exact Hm|]. intros r w' Hc. cbn beta in Hc.
  apply wp_bind. eapply wp_mono; [exact Hc|]. intros u w''. exact (fun H => H).
Qed.

Lemma wp_plain {W A} t (f : W -> A * W) (Q : result A -> W -> Prop) w :
  (forall a w', f w = (a, w') -> Q (Value a) w') -> wp t (plain f) Q w.
Proof. intros Hf. apply wp_bind, wp_call. intros a w' E. apply wp_done. by apply Hf. Qed.

(** ** Lemmas on text *)

Lemma find_char_some c s a b :
  find_char c s = Some (a, b) -> s = a +:+ String c b /\ find_char c a = None.
Proof.
  revert a b. induction s as [|d s IH]; intros a b; cbn [find_char]; [discriminate|].
  destruct (Ascii.eqb_spec d c) as [->|Hne]; [by intros [= <- <-]|].
  destruct (find_char c s) as [[a' b']|]; [|discriminate]. intros [= <- <-].
  destruct (IH a' b' eq_refl) as [-> E]. split; [reflexivity|]. cbn [find_char].
  rewrite (proj2 (Ascii.eqb_neq d c) Hne). by rewrite E.
Qed.

Lemma find_char_app c a b :
  find_char c a = None -> find_char c (a +:+ String c b) = Some (a, b).
Proof.
  induction a as [|d a IH]; cbn [find_char].
  - intros _. change (find_char c (String c b) = Some (EmptyString, b)). cbn [find_char].
    by rewrite Ascii.eqb_refl.
  - destruct (Ascii.eqb d c) eqn:E; [discriminate|].
    destruct (find_char c a) as [[x y]|]; [discriminate|]. intros _.
    change (find_char c (String d (a +:+ String c b)) = Some (String d a, b)). cbn [find_char].
    by rewrite E, IH.
Qed.

Lemma remove_suffix1_snoc s c : remove_suffix1 (s +:+ String c EmptyString) = s.
Proof.
  induction s as [|d s IH]; [reflexivity|].
  change (remove_suffix1 (String d (s +:+ String c EmptyString)) = String d s).
  destruct s as [|e s]; [reflexivity|]. cbn [remove_suffix1]. by rewrite <- IH at 2.
Qed.

Lemma last_char_snoc s c : last_char (s +:+ String c EmptyString) = Some c.
Proof.
  induction s as [|d s IH]; [reflexivity|].
  change (last_char (String d (s +:+ String c EmptyString)) = Some c).
  destruct s as [|e s]; [reflexivity|]. exact IH.
Qed.

End Except.

Notation "x ⇐ m ; k" := (Except.ebind (fun x => k) m)
  (at level 20, m at level 100, k at level 200, only parsing) : telemetry_scope.
