(* ===== verification/Profile.v ===== *)
(** * The profiling controller

    [bench/profile_cpu.cpp]: it runs [perf] and the benchmark as child processes and
    checks what they leave in files.  The file system and the process calls are the
    parameter [HostApi].  Console output is left out. *)

From Stdlib Require Import Ascii.
From S2P Require Import Prelude Charconv Except FileStore Main.
Import Charconv Except.

Module Profile.

(** ** Options *)

Record Options := {
  frames : Z; batch : Z; port : Z; repeat : Z; timeout : Z;
  mode : string; output : string; perf : string; python : string;
  check : bool; selfTest : bool; checkWorkload : bool;
}.

(** [Options o;]. *)
Definition default_options : Options :=
  {| frames := 1000000; batch := 128; port := 19000; repeat := 20; timeout := 300;
     mode := "record"; output := "build-perf/cpu-profile"; perf := "perf"; python := "python3";
     check := false; selfTest := false; checkWorkload := false |}.

Definition parseNumber (value : string) (min max : Z) (name : string) : result Z :=
  let r := from_chars 32 value in
  let number := default 0 (parsed r) in
  if negb (match ec r with errc_ok => true | _ => false end) ||
     negb (bool_decide (ptr r = EmptyString)) || (number <? min) || (max <? number)
  then Throws ("invalid --" +:+ name +:+ " (expected " +:+ to_string_u min +:+ ".." +:+
               to_string_u max +:+ ")")
  else Value number.

Definition with_numbers (f b p r t : Z) (o : Options) : Options :=
  {| frames := f; batch := b; port := p; repeat := r; timeout := t;
     mode := mode o; output := output o; perf := perf o; python := python o;
     check := check o; selfTest := selfTest o; checkWorkload := checkWorkload o |}.
Definition with_texts (m out pe py : string) (o : Options) : Options :=
  {| frames := frames o; batch := batch o; port := port o; repeat := repeat o; timeout := timeout o;
     mode := m; output := out; perf := pe; python := py;
     check := check o; selfTest := selfTest o; checkWorkload := checkWorkload o |}.
Definition with_flags (c s w : bool) (o : Options) : Options :=
  {| frames := frames o; batch := batch o; port := port o; repeat := repeat o; timeout := timeout o;
     mode := mode o; output := output o; perf := perf o; python := python o;
     check := c; selfTest := s; checkWorkload := w |}.

(** The chain of [else if] on an option with a value. *)
Definition set_option (key value : string) (o : Options) : result Options :=
  if bool_decide (key = "--frames") then
    and_then (fun n => Value (with_numbers n (batch o) (port o) (repeat o) (timeout o) o))
      (parseNumber value 1 1000000 "frames")
  else if bool_decide (key = "--batch") then
    and_then (fun n => Value (with_numbers (frames o) n (port o) (repeat o) (timeout o) o))
      (parseNumber value 1 4096 "batch")
  else if bool_decide (key = "--repeat") then
    and_then (fun n => Value (with_numbers (frames o) (batch o) (port o) n (timeout o) o))
      (parseNumber value 1 20 "repeat")
  else if bool_decide (key = "--port") then
    and_then (fun n => Value (with_numbers (frames o) (batch o) n (repeat o) (timeout o) o))
      (parseNumber value 1 65535 "port")
  else if bool_decide (key = "--timeout") then
    and_then (fun n => Value (with_numbers (frames o) (batch o) (port o) (repeat o) n o))
      (parseNumber value 1 3600 "timeout")
  else if bool_decide (key = "--mode") then
    if negb (bool_decide (value = "record")) && negb (bool_decide (value = "stat")) &&
       negb (bool_decide (value = "both"))
    then Throws "--mode must be record, stat or both"
    else Value (with_texts value (output o) (perf o) (python o) o)
  else if bool_decide (key = "--output") then Value (with_texts (mode o) value (perf o) (python o) o)
  else if bool_decide (key = "--perf") then Value (with_texts (mode o) (output o) value (python o) o)
  else if bool_decide (key = "--python") then Value (with_texts (mode o) (output o) (perf o) value o)
  else Throws ("unknown option: " +:+ key).

(** [None] is [std::exit(0)]. *)
Fixpoint parse_loop (args : list string) (o : Options) : result (option Options) :=
  match args with
  | [] => Value (Some o)
  | key :: rest =>
      if bool_decide (key = "--help") || bool_decide (key = "-h") then Value None
      else if bool_decide (key = "--check") then
        parse_loop rest (with_flags true (selfTest o) (checkWorkload o) o)
      else if bool_decide (key = "--self-test") then
        parse_loop rest (with_flags (check o) true (checkWorkload o) o)
      else if bool_decide (key = "--self-check-workload") then
        parse_loop rest (with_flags (check o) (selfTest o) true o)
      else
        match rest with
        | [] => Throws ("missing value for " +:+ key)
        | value :: rest =>
            match set_option key value o with
            | Value o => parse_loop rest o
            | Throws what => Throws what
            end
        end
  end.

Definition parseOptions (argv : list string) : result (option Options) :=
  parse_loop (tail argv) default_options.

(** ** The host *)

(** [std::filesystem] calls that may throw give a [result]; [remove_all] is the
    overload that does not, and its answer says whether it left [ec] clear.  The spawn
    attributes are part of the world.  [posix_spawnp] gives its error number and the
    process; [waitpid] the process and its status, [0] when [WNOHANG] finds none, and
    is [None] when it waits for ever; [steady_now] counts nanoseconds. *)
Class HostApi (W : Type) := {
  read_file : string -> W -> option string * W;
  write_file : string -> string -> W -> unit * W;
  exists_ : string -> W -> result bool * W;
  is_regular_file : string -> W -> result bool * W;
  file_size : string -> W -> result Z * W;
  remove : string -> W -> result bool * W;
  create_directories : string -> W -> result bool * W;
  copy_file : string -> string -> W -> result bool * W;
  permissions_add_exec : string -> W -> result unit * W;
  canonical : string -> W -> result string * W;
  current_path : W -> result string * W;
  temp_directory_path : W -> result string * W;
  remove_all : string -> W -> bool * W;
  mkdtemp : string -> W -> sysres string * W;
  setenv : string -> string -> Z -> W -> Z * W;
  getpid : W -> Z * W;
  file_actions_init : W -> Z * W;
  spawnattr_init : W -> Z * W;
  file_actions_addopen : Z -> string -> Z -> Z -> W -> Z * W;
  file_actions_adddup2 : Z -> Z -> W -> Z * W;
  spawnattr_setflags : Z -> W -> Z * W;
  spawnattr_setpgroup : Z -> W -> Z * W;
  file_actions_destroy : W -> unit * W;
  spawnattr_destroy : W -> unit * W;
  posix_spawnp : list string -> W -> (Z * Z) * W;
  waitpid : Z -> Z -> W -> option (sysres (Z * Z) * W);
  kill : Z -> Z -> W -> sysres unit * W;
  steady_now : W -> Z * W;
  sleep_for : Z -> W -> unit * W;
  strerror : Z -> string;
}.

Definition STDOUT_FILENO : Z := 1.
Definition STDERR_FILENO : Z := 2.
Definition O_WRONLY : Z := 1.
Definition O_CREAT : Z := 64.
Definition O_TRUNC : Z := 512.
Definition POSIX_SPAWN_SETPGROUP : Z := 2.
Definition WNOHANG : Z := 1.
Definition nanoseconds : Z := 1000000000.
Definition milliseconds : Z := 1000000.

(** [fs::path::operator/]. *)
Definition join (p q : string) : string :=
  if starts_with "/" q then q
  else if bool_decide (p = EmptyString) || bool_decide (last_char p = Some FileStore.slash) then p +:+ q
  else p +:+ "/" +:+ q.

Definition nl : string := String newline EmptyString.

Section program.
Context {W : Type} `{HostApi W}.
Variable fuel : nat.

Definition readFile (path : string) : M W (result string) :=
  file ← call (read_file path);
  match (file : option string) with
  | None => throw ("cannot open " +:+ path)
  | Some text => done text
  end.

(** ** NativeBinaries *)

Record NativeBinaries := { m_dir : string; m_server : string; m_sender : string }.

Definition copyExecutable (source destination : string) : M W (result unit) :=
  _ ⇐ call (copy_file source destination);
  call (permissions_add_exec destination).

(** The constructor. *)
Definition make_native (server sender : string) : M W (result NativeBinaries) :=
  created ← call (mkdtemp "/tmp/telemetry-perf-XXXXXX");
  match (created : sysres string) with
  | Err errno => throw ("mkdtemp(/tmp) failed: " +:+ strerror errno)
  | Ok dir =>
      let native := {| m_dir := dir; m_server := join dir "telemetry-server";
                       m_sender := join dir "telemetry-load" |} in
      try_catch
        (_ ⇐ copyExecutable server (m_server native);
         _ ⇐ copyExecutable sender (m_sender native);
         done native)
        (fun what => call (remove_all dir);;; throw what)
  end.

(** A scope with a [NativeBinaries]; its destructor runs on every path. *)
Definition with_native {A} (server sender : string) (body : NativeBinaries -> M W (result A))
  : M W (result A) :=
  native ⇐ make_native server sender;
  finally (body native) (call (remove_all (m_dir native));;; mret tt).

(** ** Reports *)

(** What a line of a report adds: resolved and unresolved symbols. *)
Definition report_line (line : string) (resolved unresolved : Z) : Z * Z :=
  if negb (contains "telemetry-server" line) then (resolved, unresolved)
  else
    match find "[.]" line with
    | None => (resolved, unresolved)
    | Some marker =>
        let symbol := skip_blanks (substr_from (marker + 3) line) in
        if starts_with "0x" symbol || starts_with "[unknown]" symbol
        then (resolved, u64 (unresolved + 1))
        else (u64 (resolved + 1), unresolved)
    end.

Definition validateReport (path : string) : M W (result unit) :=
  text ⇐ readFile path;
  let '(resolved, unresolved) :=
    fold_left (fun '(r, u) line => report_line line r u) (lines text) (0, 0) in
  if resolved =? 0 then
    throw ("perf recorded no resolved telemetry-server C++ symbols. " +:+
           "Check report.txt, perf buildid-list and the native executable copies. " +:+
           "Docker Desktop VirtioFS may hide build IDs.")
  else done tt.

(** The last 30 lines. *)
Definition tail_push (kept : list string) (line : string) : list string :=
  (if (length kept =? 30)%nat then List.tl kept else kept) ++ [line].

Definition tail (path : string) : M W (result string) :=
  file ← call (read_file path);
  match (file : option string) with
  | None => done "(log not created)"%string
  | Some text =>
      done (fold_left (fun result entry => result +:+ entry +:+ nl)
              (fold_left tail_push (lines text) []) EmptyString)
  end.

(** ** Processes *)

(** [while (waitpid(pid, &status, 0) == -1 && errno == EINTR) {}]. *)
Definition wait_exit (pid : Z) : M W (sysres (Z * Z)) :=
  retry_eintr fuel (waitpid pid 0 : M W _).

(** The polling loop; it gives the status. *)
Fixpoint wait_loop (n : nat) (pid deadline : Z) (log : string) : M W (result Z) :=
  match n with
  | O => out_of_fuel
  | S n =>
      r ← (waitpid pid WNOHANG : M W _);
      let keep_waiting :=
        now ← call steady_now;
        if deadline <=? now then
          call (kill (- pid) Main.SIGKILL);;;
          wait_exit pid;;;
          throw ("profiling command timed out; log: " +:+ log)
        else
          call (sleep_for (20 * milliseconds));;;
          wait_loop n pid deadline log in
      match (r : sysres (Z * Z)) with
      | Ok (finished, status) => if finished =? pid then done status else keep_waiting
      | Err errno =>
          if negb (errno =? EINTR) then
            call (kill (- pid) Main.SIGKILL);;;
            throw ("waitpid failed: " +:+ strerror errno)
          else keep_waiting
      end
  end.

(** The calls that prepare the child, up to the first that fails. *)
Definition spawn_setup (log : string) : M W Z :=
  rc ← call (file_actions_addopen STDOUT_FILENO log
               (Z.lor (Z.lor O_WRONLY O_CREAT) O_TRUNC) 420);
  rc ← (if rc =? 0 then call (file_actions_adddup2 STDOUT_FILENO STDERR_FILENO) else mret rc);
  rc ← (if rc =? 0 then call (spawnattr_setflags POSIX_SPAWN_SETPGROUP) else mret rc);
  if rc =? 0 then call (spawnattr_setpgroup 0) else mret rc.

(** Whether the spawn objects could be initialised; the second only if the first. *)
Definition spawn_init : M W bool :=
  rc ← call file_actions_init;
  if negb (rc =? 0) then mret false
  else rc ← call spawnattr_init; mret (rc =? 0).

Definition spawn_destroy : M W unit := call file_actions_destroy;;; call spawnattr_destroy.

(** The message of a command that failed. *)
Definition failure_message (log details : string) : string :=
  let hint :=
    if contains "Permission" details || contains "permitted" details ||
       contains "perf_event" details || contains "No permission" details
    then "perf_event_open is restricted by the Linux kernel. Docker Desktop " +:+
         "may block it even for root. Check /proc/sys/kernel/perf_event_paranoid " +:+
         "or run on native Linux; do not add privileges to production."
    else "See the log above and inspect the command's output."%string in
  "command failed; log: " +:+ log +:+ nl +:+ details +:+ nl +:+ hint.

(** After the child has ended with [status]. *)
Definition check_status (pid status : Z) (log : string) : M W (result unit) :=
  if negb (Main.WIFEXITED status) || negb (Main.WEXITSTATUS status =? 0) then
    call (kill (- pid) Main.SIGKILL);;;
    details ⇐ tail log;
    throw (failure_message log details)
  else done tt.

Definition runCommand (arguments : list string) (log : string) (timeoutSeconds : Z)
  : M W (result unit) :=
  ready ← spawn_init;
  if negb ready then throw "cannot initialize posix_spawn"
  else
    rc ← spawn_setup log;
    if negb (rc =? 0) then
      spawn_destroy;;;
      throw ("posix_spawn setup failed: " +:+ strerror rc)
    else
      spawned ← call (posix_spawnp arguments);
      spawn_destroy;;;
      let '(rc, pid) := spawned in
      if negb (rc =? 0) then
        throw ("cannot start " +:+ hd EmptyString arguments +:+ ": " +:+ strerror rc +:+
               " (install perf or check PATH)")
      else
        now ← call steady_now;
        status ⇐ wait_loop fuel pid (now + timeoutSeconds * nanoseconds) log;
        check_status pid status log.

(** ** The benchmark's CSV file *)

(** The loop of [split] over what is left of the line. *)
Fixpoint split_loop (n : nat) (line : string) : list string :=
  match n with
  | O => []
  | S n =>
      match find_char "," line with
      | None => [line]
      | Some (field, rest) => field :: split_loop n rest
      end
  end.

Definition split (line : string) : list string :=
  let line :=
    if bool_decide (last_char line = Some carriage_return) then remove_suffix1 line else line in
  split_loop (S (String.length line)) line.

(** The lambda [column]. *)
Definition column (names : list string) (name : string) : result nat :=
  match list_find (fun n => n = name) names with
  | Some (i, _) => Value i
  | None => Throws ("CSV missing column " +:+ name)
  end.

Record Columns := { runCol : nat; batchCol : nat; framesCol : nat; bytesCol : nat; verifiedCol : nat }.

Definition columns (names : list string) : result Columns :=
  and_then (fun r => and_then (fun b => and_then (fun f => and_then (fun y => and_then (fun v =>
    Value {| runCol := r; batchCol := b; framesCol := f; bytesCol := y; verifiedCol := v |})
    (column names "verified_frames")) (column names "bytes")) (column names "frames"))
    (column names "batch_frames")) (column names "run").

(** The row is the [n]th of a run of [frames] frames in batches of [batch]. *)
Definition row_matches (c : Columns) (values : list string) (n frames batch : Z) : bool :=
  bool_decide (values !! runCol c = Some (to_string_u n)) &&
  bool_decide (values !! batchCol c = Some (to_string_u batch)) &&
  bool_decide (values !! framesCol c = Some (to_string_u frames)) &&
  bool_decide (values !! bytesCol c = Some (to_string_u (u64 (frames * 32)))) &&
  bool_decide (values !! verifiedCol c = Some (to_string_u frames)).

(** The [while] loop over the rows, after [n] of them, and the check after it. *)
Fixpoint verify_rows (names : list string) (c : Columns) (rows : list string)
    (n frames batch repeat : Z) : result unit :=
  match rows with
  | [] =>
      if negb (n =? repeat) then
        Throws ("benchmark completed only " +:+ to_string_u n +:+ "/" +:+ to_string_u repeat +:+ " runs")
      else Value tt
  | line :: rows =>
      if bool_decide (line = EmptyString) then verify_rows names c rows n frames batch repeat
      else
        let values := split line in
        if negb (length values =? length names)%nat then Throws "malformed benchmark CSV row"
        else
          let n := u32 (n + 1) in
          if (repeat <? n) || negb (row_matches c values n frames batch) then
            Throws ("benchmark CSV verification failed on run " +:+ to_string_u n)
          else verify_rows names c rows n frames batch repeat
  end.

(** [verifyCsv] on what the file holds. *)
Definition verify_text (text : string) (frames batch repeat : Z) : result unit :=
  match lines text with
  | [] => Throws "empty benchmark CSV"
  | line :: rows =>
      let names := split line in
      and_then (fun c => verify_rows names c rows 0 frames batch repeat) (columns names)
  end.

Definition verifyCsv (path : string) (frames batch repeat : Z) : M W (result unit) :=
  file ← call (read_file path);
  match (file : option string) with
  | None => throw ("benchmark did not create " +:+ path)
  | Some text => mret (verify_text text frames batch repeat)
  end.

(** ** Self-test *)

(** [try { m; } catch (const std::runtime_error &) { rejected = true; }
    if (!rejected) throw complaint;]. *)
Definition must_reject {A} (m : M W (result A)) (complaint : string) : M W (result unit) :=
  rejected ⇐ try_catch (_ ⇐ m; done false) (fun _ => done true);
  if negb rejected then throw complaint else done tt.

(** The body of the loop over the line ends. *)
Definition csv_test (path newline : string) : M W (result unit) :=
  call (write_file path
    ("batch_frames,run,frames,bytes,verified_frames" +:+ newline +:+
     "128,1,100,3200,100" +:+ newline +:+ "128,2,100,3200,100" +:+ newline));;;
  _ ⇐ verifyCsv path 100 128 2;
  _ ⇐ must_reject (verifyCsv path 100 128 3) "partial benchmark was accepted";
  must_reject (verifyCsv path 101 128 2) "incorrect frame count was accepted".

(** The scope of the staged binaries; it gives their directory. *)
Definition staging_test (executable : string) : M W (result string) :=
  with_native executable executable (fun binaries =>
    server ⇐ call (exists_ (m_server binaries));
    sender ⇐ (if (server : bool) then call (exists_ (m_sender binaries)) else done false);
    text ⇐ (if (server && sender : bool) then readFile (m_server binaries)
            else done EmptyString);
    if negb server || negb sender || negb (bool_decide (text = "test executable" +:+ nl)%string) then
      throw "native executable staging failed"
    else done (m_dir binaries)).

Definition report_test (path : string) : M W (result unit) :=
  call (write_file path
    ("  26.25% 279 telemetry-server [.] SharedRingBuffer::tryPop()" +:+ nl));;;
  _ ⇐ validateReport path;
  call (write_file path ("  26.25% 279 telemetry-server [.] 0x00000000005e58" +:+ nl));;;
  must_reject (validateReport path) "unresolved perf report was accepted".

(** The [try] block of [selfTest]. *)
Definition self_test_body (path executable : string) : M W (result unit) :=
  _ ⇐ csv_test path nl;
  _ ⇐ csv_test path (String carriage_return nl);
  call (write_file executable ("test executable" +:+ nl));;;
  staged ⇐ staging_test executable;
  _ ⇐ call (remove executable);
  left ⇐ call (exists_ staged);
  if (left : bool) then throw "native executable staging was not cleaned up"
  else
    _ ⇐ report_test path;
    _ ⇐ call (remove path);
    done tt.

Definition run_selfTest : M W (result unit) :=
  match parseNumber "128" 1 4096 "batch" with
  | Throws what => throw what
  | Value n =>
      if negb (n =? 128) then throw "parse error"
      else if returns (parseNumber "0" 1 4096 "batch") then throw "invalid number was accepted"
      else
        dir ⇐ call temp_directory_path;
        pid ← call getpid;
        let path := join dir ("telemetry-profiler-test-" +:+ to_string pid +:+ ".csv") in
        try_catch
          (pid ← call getpid;
           self_test_body path (join (FileStore.parent_path path) ("telemetry-profiler-probe-" +:+ to_string pid)))
          (fun what => _ ⇐ call (remove path); throw what)
  end.

(** The inner loop of [checkWorkload] is plain arithmetic; its result is printed. *)
Definition workload_step (accumulator : Z) (i : Z) : Z :=
  u64 (accumulator + Z.lxor (u64 (i * 31)) (Z.shiftr accumulator 3)).
Definition workload_pass (accumulator : Z) : Z :=
  fold_left workload_step (map Z.of_nat (seq 0 5000)) accumulator.

Fixpoint workload_loop (n : nat) (deadline accumulator : Z) : M W Z :=
  match n with
  | O => out_of_fuel
  | S n =>
      now ← call steady_now;
      if now <? deadline then workload_loop n deadline (workload_pass accumulator)
      else mret accumulator
  end.

Definition run_checkWorkload : M W Z :=
  now ← call steady_now;
  workload_loop fuel (now + 350 * milliseconds) 0.

(** ** Profiling *)

Definition checkPerf (o : Options) (executable : string) : M W (result unit) :=
  let data := join (output o) "check.data" in
  let log := join (output o) "check.log" in
  _ ⇐ try_catch
        (runCommand [perf o; "record"; "-e"; "cpu-clock:u"; "-F"; "99"; "-o"; data; "--"; executable;
                     "--self-check-workload"]%string log 20)
        (fun what => _ ⇐ call (remove data); throw what);
  _ ⇐ call (remove data);
  done tt.

(** The command of [runMode], and the files it clears first. *)
Definition mode_command (o : Options) (mode benchmark csv : string) : M W (result (list string)) :=
  let tail := ["--"; python o; benchmark; to_string_u (frames o); to_string_u (batch o);
               to_string_u (port o); "--repeat"; to_string_u (repeat o); "--csv"; csv]%string in
  if bool_decide (mode = "record") then
    let data := join (output o) "perf.data" in
    _ ⇐ call (remove data);
    done (app [perf o; mode; "-e"; "cpu-clock:u"; "-F"; "999"; "--call-graph"; "fp"; "-o"; data]%string
            tail)
  else
    let stats := join (output o) "stat.txt" in
    _ ⇐ call (remove stats);
    done (app [perf o; mode; "-e"; "task-clock,context-switches,page-faults"; "-o"; stats]%string tail).

(** One turn of the loop over the two binaries; a failure is only a warning. *)
Definition cache_binary (o : Options) (binary : string) : M W (result unit) :=
  try_catch
    (runCommand [perf o; "buildid-cache"; "--add"; binary]%string
       (join (output o) (FileStore.filename binary +:+ "-buildid.log")) 30)
    (fun _ => done tt).

(** [runMode] after a recording. *)
Definition report_mode (o : Options) (native : NativeBinaries) : M W (result unit) :=
  let data := join (output o) "perf.data" in
  there ⇐ call (exists_ data);
  size ⇐ (if (there : bool) then call (file_size data) else done 0);
  if negb there || (size =? 0) then throw "perf.data missing or empty"
  else
    _ ⇐ cache_binary o (m_server native);
    _ ⇐ cache_binary o (m_sender native);
    let report := join (output o) "report.txt" in
    _ ⇐ runCommand [perf o; "report"; "--stdio"; "--no-children"; "-g"; "none"; "-n"; "--comms";
                    "telemetry-serve"; "--percentage"; "relative"; "--sort"; "dso,symbol"; "-i";
                    data]%string report 60;
    validateReport report.

Definition runMode (o : Options) (benchmark : string) (native : NativeBinaries) (mode : string)
  : M W (result unit) :=
  let csv := join (output o) (mode +:+ "_runs.csv") in
  _ ⇐ call (remove csv);
  command ⇐ mode_command o mode benchmark csv;
  _ ⇐ runCommand command (join (output o) (mode +:+ ".log")) (timeout o);
  _ ⇐ verifyCsv csv (frames o) (batch o) (repeat o);
  if bool_decide (mode = "record") then report_mode o native
  else _ ⇐ tail (join (output o) "stat.txt"); done tt.

(** [runProfile] from the staging on. *)
Definition profile_staged (o : Options) (benchmark : string) (native : NativeBinaries)
  : M W (result unit) :=
  rc ← call (setenv "SERVER_BIN" (m_server native) 1);
  rc ← (if rc =? 0 then call (setenv "SENDER_BIN" (m_sender native) 1) else mret rc);
  if negb (rc =? 0) then throw "setenv for benchmark binaries failed"
  else
    _ ⇐ (if negb (bool_decide (mode o = "stat")) then runMode o benchmark native "record" else done tt);
    if negb (bool_decide (mode o = "record")) then runMode o benchmark native "stat" else done tt.

Definition runProfile (o : Options) (executable : string) : M W (result unit) :=
  _ ⇐ call (create_directories (output o));
  _ ⇐ checkPerf o executable;
  if check o then done tt
  else
    root ⇐ call current_path;
    let benchmark := join root "bench/run_benchmark.py" in
    let server := join root "build-perf/telemetry-server" in
    let sender := join root "build-perf/telemetry-load" in
    there ⇐ call (is_regular_file benchmark);
    if negb there then throw "run from the repository root (missing bench/run_benchmark.py)"
    else
      there ⇐ call (is_regular_file server);
      there ⇐ (if (there : bool) then call (is_regular_file sender) else done false);
      if negb there then throw "missing build-perf binaries; run make profile-cpu-build"
      else with_native server sender (profile_staged o benchmark).

(** [main]; [std::exit(0)] of the help ends it too. *)
Definition main (argv : list string) : M W Z :=
  match parseOptions argv with
  | Throws _ => mret 1
  | Value None => mret 0
  | Value (Some o) =>
      r ← (if selfTest o then run_selfTest
           else if checkWorkload o then _ ← run_checkWorkload; done tt
           else executable ⇐ call (canonical (hd EmptyString argv)); runProfile o executable);
      mret (if returns r then 0 else 1)
  end.

End program.

End Profile.
