(* ===== verification/ProfileProps.v ===== *)
(** * The profiling controller: what it checks, and what it leaves behind

    The laws of [HostApi], the properties of [Profile.v], and an instance of the host
    in memory on which the controller's own self-test passes. *)

From Stdlib Require Import Ascii.
From S2P Require Import Prelude Charconv Except FileStore Main Profile.
Import Charconv Except Profile.

Module ProfileProps.

(** ** The CSV file *)

(** The first column of this name. *)
Definition named (names : list string) (i : nat) (name : string) : Prop :=
  names !! i = Some name /\ forall j, (j < i)%nat -> names !! j <> Some name.

(** The cell of a row in that column holds the number. *)
Definition cell (names values : list string) (name : string) (v : Z) : Prop :=
  exists i, named names i name /\ values !! i = Some (to_string_u v).

(** A complete benchmark: a header with the five columns, and for each of [repeat]
    runs, in order, a row with the expected numbers. *)
Definition csv_ok (text : string) (frames batch repeat : Z) : Prop :=
  exists header rows, lines text = header :: rows /\
    let names := split header in
    let data := List.filter (fun line => negb (bool_decide (line = EmptyString))) rows in
    Forall (fun name => name ∈ names) ["run"; "batch_frames"; "frames"; "bytes"; "verified_frames"]%string /\
    Z.of_nat (length data) = repeat /\
    forall i line, data !! i = Some line ->
      let values := split line in
      length values = length names /\
      cell names values "run" (Z.of_nat i + 1) /\ cell names values "batch_frames" batch /\
      cell names values "frames" frames /\ cell names values "bytes" (frames * 32) /\
      cell names values "verified_frames" frames.

Lemma column_spec names name i : column names name = Value i <-> named names i name.
Proof.
  unfold column, named. destruct (list_find _ names) as [[j x]|] eqn:E.
  - apply list_find_Some in E as (Hx & -> & Hj). split.
    + intros [= <-]. split; [done|]. intros k Hk Hn. by apply (Hj k name Hn Hk).
    + intros [Hi Hbefore]. f_equal. destruct (Nat.lt_trichotomy j i) as [Hlt|[->|Hlt]]; [|done|].
      * by destruct (Hbefore j Hlt).
      * by destruct (Hj i name Hi Hlt).
  - split; [discriminate|]. intros [Hi _]. apply list_find_None in E.
    rewrite Forall_lookup in E. by destruct (E i name Hi).
Qed.

Lemma column_total names name : name ∈ names -> exists i, column names name = Value i.
Proof.
  intros Hin. unfold column. destruct (list_find _ names) as [[j x]|] eqn:E; [by eexists|].
  apply list_find_None in E. rewrite Forall_forall in E. by destruct (E name Hin).
Qed.

Lemma named_unique names i j name : named names i name -> named names j name -> i = j.
Proof. rewrite <- !column_spec. congruence. Qed.

Lemma named_elem names i name : named names i name -> name ∈ names.
Proof. intros [Hi _]. by eapply list_elem_of_lookup_2. Qed.

(** [columns] finds the five columns, or one is missing. *)
Lemma columns_spec names c :
  columns names = Value c <->
  named names (runCol c) "run" /\ named names (batchCol c) "batch_frames" /\
  named names (framesCol c) "frames" /\ named names (bytesCol c) "bytes" /\
  named names (verifiedCol c) "verified_frames".
Proof.
  unfold columns. rewrite <- !column_spec.
  destruct (column names "run") as [a|]; cbn [and_then]; [|split; [done|by intros (? & _)]].
  destruct (column names "batch_frames") as [b|]; cbn [and_then]; [|split; [done|by intros (_ & ? & _)]].
  destruct (column names "frames") as [f|]; cbn [and_then]; [|split; [done|by intros (_ & _ & ? & _)]].
  destruct (column names "bytes") as [y|]; cbn [and_then]; [|split; [done|by intros (_ & _ & _ & ? & _)]].
  destruct (column names "verified_frames") as [v|]; cbn [and_then];
    [|split; [done|by intros (_ & _ & _ & _ & ?)]].
  split; [by intros [= <-]|]. destruct c. cbn. intros (E1 & E2 & E3 & E4 & E5). congruence.
Qed.

Lemma cell_column names values name v i :
  named names i name -> cell names values name v <-> values !! i = Some (to_string_u v).
Proof.
  intros Hi. split; [|by exists i]. intros (j & Hj & Hv). by rewrite (named_unique names i j name).
Qed.

(** A row is what [csv_ok] asks of it. *)
Definition row_ok (names : list string) (frames batch : Z) (n : Z) (line : string) : Prop :=
  let values := split line in
  length values = length names /\
  cell names values "run" n /\ cell names values "batch_frames" batch /\
  cell names values "frames" frames /\ cell names values "bytes" (frames * 32) /\
  cell names values "verified_frames" frames.

Lemma row_matches_spec names c values n frames batch :
  columns names = Value c -> 0 <= frames < 2 ^ 32 ->
  row_matches c values n frames batch = true <->
  cell names values "run" n /\ cell names values "batch_frames" batch /\
  cell names values "frames" frames /\ cell names values "bytes" (frames * 32) /\
  cell names values "verified_frames" frames.
Proof.
  intros (H1 & H2 & H3 & H4 & H5)%columns_spec Hf. unfold row_matches.
  rewrite u64_small by (change (2 ^ 64) with (2 ^ 32 * 2 ^ 32) in *; lia).
  rewrite !andb_true_iff, !bool_decide_eq_true.
  rewrite (cell_column names values "run" n _ H1), (cell_column names values "batch_frames" batch _ H2),
    (cell_column names values "frames" frames _ H3), (cell_column names values "bytes" _ _ H4),
    (cell_column names values "verified_frames" frames _ H5).
  tauto.
Qed.

Lemma verify_rows_spec names c rows n frames batch repeat :
  columns names = Value c -> 0 <= frames < 2 ^ 32 -> 0 <= n <= repeat -> repeat < 2 ^ 32 - 1 ->
  let data := List.filter (fun line => negb (bool_decide (line = EmptyString))) rows in
  verify_rows names c rows n frames batch repeat = Value tt <->
  n + Z.of_nat (length data) = repeat /\
  forall i line, data !! i = Some line -> row_ok names frames batch (n + Z.of_nat i + 1) line.
Proof.
  intros Hc Hf. revert n. induction rows as [|line rows IH]; intros n Hn Hr; cbn [verify_rows List.filter].
  { cbn [length]. destruct (Z.eqb_spec n repeat) as [->|Hne]; cbn [negb].
    - split; [|done]. intros _. split; [lia|]. intros i line. by rewrite lookup_nil.
    - split; [done|]. lia. }
  case_bool_decide as El; cbn [negb]; [by apply IH|]. cbn [length].
  set (data := List.filter _ rows).
  assert ((forall i l, (line :: data) !! i = Some l -> row_ok names frames batch (n + Z.of_nat i + 1) l) ->
    row_ok names frames batch (n + 1) line) as Hhead.
  { intros Hall. specialize (Hall 0%nat line eq_refl). by rewrite Z.add_0_r in Hall. }
  destruct (Nat.eqb_spec (length (split line)) (length names)) as [Elen|Elen]; cbn [negb].
  2: { split; [done|]. intros [_ Hall]. by destruct (Hhead Hall). }
  rewrite u32_small by lia.
  destruct (Z.ltb_spec repeat (n + 1)) as [Hlt|Hle]; cbn [orb].
  { split; [done|]. lia. }
  destruct (row_matches c (split line) (n + 1) frames batch) eqn:Em; cbn [negb].
  2: { split; [done|]. intros [_ Hall]. destruct (Hhead Hall) as [_ Hcells].
       apply (row_matches_spec names c) in Hcells; [congruence|done..]. }
  apply (row_matches_spec names) in Em; [|done..].
  rewrite IH by lia. fold data. split.
  - intros [Hlen Hall]. split; [lia|]. intros [|i] l.
    + intros [= <-]. rewrite Z.add_0_r. by split.
    + cbn [lookup list_lookup]. intros Hl. replace (n + Z.of_nat (S i) + 1) with (n + 1 + Z.of_nat i + 1) by lia.
      by apply Hall.
  - intros [Hlen Hall]. split; [lia|]. intros i l Hl.
    replace (n + 1 + Z.of_nat i + 1) with (n + Z.of_nat (S i) + 1) by lia. by apply Hall.
Qed.

(** C35: the controller believes a benchmark exactly when its CSV file is complete: a
    header with the five columns, wherever they are, and for each run, in order,
    a row of the header's length with the run's number, the batch, the frames sent,
    their bytes and as many frames verified; blank lines do not matter.  Lines and
    cells are those [lines] and [split] give; [split_join] says what the latter are. *)
Theorem verify_text_exact text frames batch repeat :
  0 <= frames < 2 ^ 32 -> 0 <= repeat < 2 ^ 32 - 1 ->
  verify_text text frames batch repeat = Value tt <-> csv_ok text frames batch repeat.
Proof.
  intros Hf Hr. unfold verify_text, csv_ok.
  destruct (lines text) as [|header rows]; [by split; [|intros (? & ? & ? & _)]|].
  transitivity (Forall (fun name => name ∈ split header)
      ["run"; "batch_frames"; "frames"; "bytes"; "verified_frames"]%string /\
    let data := List.filter (fun line => negb (bool_decide (line = EmptyString))) rows in
    Z.of_nat (length data) = repeat /\
    forall i line, data !! i = Some line -> row_ok (split header) frames batch (Z.of_nat i + 1) line).
  2: { split; [intros (H1 & H2 & H3); by exists header, rows|].
       intros (h & r & [= <- <-] & H1 & H2 & H3). by split_and!. }
  destruct (columns (split header)) as [c|what] eqn:Ec; cbn [and_then].
  - rewrite (verify_rows_spec (split header) c) by (lia || done).
    pose proof Ec as (H1 & H2 & H3 & H4 & H5)%columns_spec.
    split; [|by intros (_ & ? & ?)]. intros [Hl Hall]. split; [|by split].
    repeat (constructor; [by eapply named_elem|]). constructor.
  - split; [done|]. intros [Hin _]. exfalso.
    rewrite !Forall_cons in Hin. destruct Hin as (H1 & H2 & H3 & H4 & H5 & _).
    destruct (column_total _ _ H1) as [a Ea], (column_total _ _ H2) as [b Eb],
      (column_total _ _ H3) as [f Ef], (column_total _ _ H4) as [y Ey], (column_total _ _ H5) as [v Ev].
    unfold columns in Ec. rewrite Ea, Eb, Ef, Ey, Ev in Ec. discriminate.
Qed.

(** ** Fields of a line *)

Definition comma : ascii := ","%char.

(** The fields with commas between them. *)
Fixpoint join_fields (fields : list string) : string :=
  match fields with
  | [] => EmptyString
  | [field] => field
  | field :: rest => field +:+ String comma (join_fields rest)
  end.

Lemma split_loop_join n fields :
  fields <> [] -> Forall (fun f => find_char comma f = None) fields -> (length fields <= n)%nat ->
  split_loop n (join_fields fields) = fields.
Proof.
  revert n. induction fields as [|f fields IH]; intros n Hne Hall Hn; [done|].
  destruct n as [|n]; [cbn [length] in Hn; lia|]. apply Forall_cons in Hall as [Hf Hall].
  destruct fields as [|g fields]; cbn [join_fields split_loop].
  - change (find_char "," f) with (find_char comma f). by rewrite Hf.
  - change (find_char "," ?x) with (find_char comma x).
    rewrite find_char_app by done. f_equal. apply IH; [done..|]. cbn [length] in *. lia.
Qed.

Lemma length_join_fields fields : (length fields <= S (String.length (join_fields fields)))%nat.
Proof.
  induction fields as [|f [|g fields] IH]; [cbn; lia..|].
  change (join_fields (f :: g :: fields)) with (f +:+ String comma (join_fields (g :: fields))).
  rewrite string_length_app. cbn [String.length length] in *. lia.
Qed.

(** Splitting undoes joining, with either line end. *)
Lemma split_join fields :
  fields <> [] -> Forall (fun f => find_char comma f = None) fields ->
  (last_char (join_fields fields) <> Some carriage_return -> split (join_fields fields) = fields) /\
  split (join_fields fields +:+ String carriage_return EmptyString) = fields.
Proof.
  intros Hne Hall. pose proof (length_join_fields fields). unfold split. split.
  - intros Hl. rewrite bool_decide_eq_false_2 by done. by apply split_loop_join.
  - rewrite last_char_snoc, bool_decide_eq_true_2, remove_suffix1_snoc by done.
    by apply split_loop_join.
Qed.

(** ** What the controller relies on *)

(** What happened to its child processes and temporary directories.  [Kills] and
    [RemoveAll] say whether the call succeeded; [WaitFailed] is a [waitpid] that failed
    otherwise than by an interruption. *)
Inductive host_event :=
| Spawned (pid : Z)
| Reaped (pid status : Z)
| WaitFailed (pid errno : Z)
| Kills (pid signal : Z) (ok : bool)
| MadeTemp (dir : string)
| RemoveAll (dir : string) (ok : bool).

(** The child [pid] has been started and not reaped; and its process group has been
    killed since it was started. *)
Definition unreaped (pid : Z) (h : list host_event) : bool :=
  fold_left (fun b ev => match ev with
    | Spawned p => b || (p =? pid) | Reaped p _ => b && negb (p =? pid) | _ => b end) h false.
Definition doomed (pid : Z) (h : list host_event) : bool :=
  fold_left (fun b ev => match ev with
    | Spawned p => b && negb (p =? pid)
    | Kills p signal ok => b || ((p =? - pid) && (signal =? Main.SIGKILL) && ok)
    | _ => b end) h false.

(** The calls that touch neither. *)
Inductive quiet_call {W} `{HostApi W} : forall A : Type, (W -> A * W) -> Prop :=
| q_read_file p : quiet_call _ (read_file p)
| q_write_file p t : quiet_call _ (write_file p t)
| q_exists p : quiet_call _ (exists_ p)
| q_is_regular_file p : quiet_call _ (is_regular_file p)
| q_file_size p : quiet_call _ (file_size p)
| q_remove p : quiet_call _ (remove p)
| q_create_directories p : quiet_call _ (create_directories p)
| q_copy_file p q : quiet_call _ (copy_file p q)
| q_permissions p : quiet_call _ (permissions_add_exec p)
| q_canonical p : quiet_call _ (canonical p)
| q_current_path : quiet_call _ current_path
| q_temp_directory_path : quiet_call _ temp_directory_path
| q_setenv n v o : quiet_call _ (setenv n v o)
| q_getpid : quiet_call _ getpid
| q_file_actions_init : quiet_call _ file_actions_init
| q_spawnattr_init : quiet_call _ spawnattr_init
| q_addopen fd p f m : quiet_call _ (file_actions_addopen fd p f m)
| q_adddup2 a b : quiet_call _ (file_actions_adddup2 a b)
| q_setflags f : quiet_call _ (spawnattr_setflags f)
| q_setpgroup g : quiet_call _ (spawnattr_setpgroup g)
| q_file_actions_destroy : quiet_call _ file_actions_destroy
| q_spawnattr_destroy : quiet_call _ spawnattr_destroy.
Create HintDb quiet discriminated.
#[export] Hint Constructors quiet_call : quiet.

(** Calls do what they say and no call changes the history otherwise; the clock does
    not go back, and sleeping moves it on; signals interrupt finitely many calls.
    Polling for a child does not wait, and waiting for one that was killed ends. *)
Class HostLaws (W : Type) `{HostApi W} := {
  h_log : W -> list host_event;
  h_now : W -> Z;
  h_budget : W -> nat;
  went (w : W) (evs : list host_event) (w' : W) : Prop :=
    h_log w' = h_log w ++ evs /\ h_now w <= h_now w' /\ (h_budget w' <= h_budget w)%nat;
  quiet_law A (f : W -> A * W) w r w' : quiet_call A f -> f w = (r, w') -> went w [] w';
  spawn_law args w rc pid w' : posix_spawnp args w = ((rc, pid), w') ->
    went w (if rc =? 0 then [Spawned pid] else []) w' /\ (rc = 0 -> 0 < pid);
  waitpid_law pid opts w r w' : waitpid pid opts w = Some (r, w') ->
    went w (match r with
            | Ok (p, st) => if p =? pid then [Reaped pid st] else []
            | Err errno => if errno =? EINTR then [] else [WaitFailed pid errno]
            end) w' /\
    (is_intr r = true -> (h_budget w' < h_budget w)%nat);
  waitpid_which pid opts w p st w' : 0 < pid -> waitpid pid opts w = Some (Ok (p, st), w') ->
    p = pid \/ opts = WNOHANG /\ p = 0;
  waitpid_polls pid w : waitpid pid WNOHANG w <> None;
  waitpid_ends pid w : doomed pid (h_log w) = true -> waitpid pid 0 w <> None;
  kill_law pid signal w r w' : kill pid signal w = (r, w') -> went w [Kills pid signal (is_ok r)] w';
  mkdtemp_law template w r w' : mkdtemp template w = (r, w') ->
    went w (match r with Ok dir => [MadeTemp dir] | Err _ => [] end) w';
  remove_all_law dir w ok w' : remove_all dir w = (ok, w') -> went w [RemoveAll dir ok] w';
  now_law w r w' : steady_now w = (r, w') -> went w [] w' /\ h_now w <= r <= h_now w';
  sleep_law d w r w' : 0 <= d -> sleep_for d w = (r, w') -> went w [] w' /\ h_now w + d <= h_now w';
}.

(** A child that has not been reaped can be killed. *)
Definition kills_reach (W : Type) `{HostLaws W} : Prop :=
  forall pid w, unreaped pid (h_log w) = true -> is_ok (kill (- pid) Main.SIGKILL w).1 = true.

(** What happened to the child [pid] after its start: it was reaped; or waiting for it
    failed, and a kill of its whole process group was sent. *)
Definition child_ended (pid : Z) (after : list host_event) : Prop :=
  (exists status, Reaped pid status ∈ after) \/
  (exists errno ok, WaitFailed pid errno ∈ after /\ Kills (- pid) Main.SIGKILL ok ∈ after).

(** Every child has ended since it was started. *)
Fixpoint children_ended (evs : list host_event) : Prop :=
  match evs with
  | [] => True
  | Spawned pid :: after => child_ended pid after /\ children_ended after
  | _ :: after => children_ended after
  end.

Definition is_temp (ev : host_event) : bool :=
  match ev with MadeTemp _ | RemoveAll _ _ => true | _ => false end.

(** What was done about temporary directories. *)
Definition temps (evs : list host_event) : list host_event := List.filter is_temp evs.

Lemma child_ended_app pid a b : child_ended pid a -> child_ended pid (a ++ b).
Proof. unfold child_ended. set_solver. Qed.

Lemma children_ended_app a b : children_ended a -> children_ended b -> children_ended (a ++ b).
Proof.
  intros Ha Hb. induction a as [|ev a IH]; [done|].
  destruct ev; cbn [children_ended app] in *; try by apply IH.
  destruct Ha as [Hc Ha]. split; [by apply child_ended_app|by apply IH].
Qed.

Lemma temps_app a b : temps (a ++ b) = temps a ++ temps b.
Proof. apply List.filter_app. Qed.

Section specs.
Context {W : Type} `{HostLaws W}.
Variable t : bool.
Variable fuel : nat.
Hypothesis kills : t = true -> kills_reach W.
Implicit Types w : W.

Lemma host_went_refl w : went w [] w.
Proof. split_and!; [by rewrite app_nil_r|lia|done]. Qed.

Lemma host_went_trans w1 w2 w3 a b : went w1 a w2 -> went w2 b w3 -> went w1 (a ++ b) w3.
Proof. intros (E1 & N1 & B1) (E2 & N2 & B2). split_and!; [by rewrite E2, E1, app_assoc|lia|lia]. Qed.

Lemma went_then w1 w2 w3 b : went w1 [] w2 -> went w2 b w3 -> went w1 b w3.
Proof. apply (host_went_trans w1 w2 w3 []). Qed.

(** Fuel for the longest timeout, an hour polled every 20 ms, and for interruptions. *)
Definition enough w : Prop := t = true -> Z.of_nat (h_budget w) + 200000 < Z.of_nat fuel.

Lemma enough_went w evs w' : enough w -> went w evs w' -> enough w'.
Proof. intros He (_ & _ & Hb) Ht. specialize (He Ht). lia. Qed.

(** ** A command *)

Definition is_throw {A} (r : result A) : Prop := returns r = false.

(** How a wait for the child can end. *)
Definition wait_end (pid : Z) (ev : host_event) : Prop :=
  (exists status, ev = Reaped pid status) \/ exists errno, ev = WaitFailed pid errno.

(** The polling has ended: the child was reaped; or the deadline has passed, and the
    group was killed and then waited for; or a poll failed, and the group was
    killed. *)
Definition waited (pid deadline : Z) w (r : result Z) w' : Prop :=
  (exists status, r = Value status /\ went w [Reaped pid status] w') \/
  is_throw r /\
  ((exists ok last, went w [Kills (- pid) Main.SIGKILL ok; last] w' /\ wait_end pid last /\
      deadline <= h_now w') \/
   exists errno ok, went w [WaitFailed pid errno; Kills (- pid) Main.SIGKILL ok] w').

Lemma doomed_killed pid h : doomed pid (h ++ [Kills (- pid) Main.SIGKILL true]) = true.
Proof. unfold doomed. rewrite fold_left_app. cbn. by rewrite Z.eqb_refl, orb_true_r. Qed.

Lemma unreaped_spawned pid h : unreaped pid (h ++ [Spawned pid]) = true.
Proof. unfold unreaped. rewrite fold_left_app. cbn. by rewrite Z.eqb_refl, orb_true_r. Qed.

Lemma went_nil_log w w' : went w [] w' -> h_log w' = h_log w.
Proof. intros (-> & _). apply app_nil_r. Qed.

Lemma waited_after pid deadline w1 w2 r w3 :
  went w1 [] w2 -> waited pid deadline w2 r w3 -> waited pid deadline w1 r w3.
Proof.
  intros Hw [(st & -> & H3)|(Ht & [(ok & ev & H3 & He)|(e & ok & H3)])];
    pose proof (went_then _ _ _ _ Hw H3) as H13.
  - left. by exists st.
  - right. split; [done|]. left. by exists ok, ev.
  - right. split; [done|]. right. by exists e, ok.
Qed.

(** Waiting for a child that was killed. *)
Lemma wait_exit_spec pid w Q :
  enough w -> 0 < pid -> (t = true -> doomed pid (h_log w) = true) ->
  (forall r w' ev, went w [ev] w' -> wait_end pid ev -> Q r w') ->
  wp t (wait_exit fuel pid) Q w.
Proof.
  intros He Hp Hd HQ. unfold wait_exit.
  apply (wp_retry t fuel _ (fun w1 => went w [] w1) h_budget).
  - intros w1 Hw. unfold wp. destruct (waitpid pid 0 w1) as [[r w2]|] eqn:Hr.
    + destruct (waitpid_law _ _ _ _ _ Hr) as [Hw2 Hi]. destruct (is_intr r) eqn:Ei.
      * split; [|by apply Hi]. destruct r as [|e]; [done|]. cbn [is_intr] in Ei. rewrite Ei in Hw2.
        by eapply went_then.
      * destruct r as [[p st]|e].
        -- destruct (waitpid_which _ _ _ _ _ _ Hp Hr) as [->|[Hne _]]; [|discriminate Hne].
           rewrite Z.eqb_refl in Hw2. eapply HQ; [by eapply went_then|]. left. by exists st.
        -- cbn [is_intr] in Ei. rewrite Ei in Hw2. eapply HQ; [by eapply went_then|].
           right. by exists e.
    + destruct t; [|done]. destruct (waitpid_ends pid w1); [|done].
      by rewrite (went_nil_log _ _ Hw), Hd.
  - apply host_went_refl.
  - intros Ht. specialize (He Ht). lia.
Qed.

(** The deadline has passed. *)
Lemma timed_out_spec pid deadline what w0 w :
  enough w -> 0 < pid -> unreaped pid (h_log w) = true -> went w0 [] w -> deadline <= h_now w ->
  wp t (call (kill (- pid) Main.SIGKILL);;; wait_exit fuel pid;;; throw what)
    (waited pid deadline w0) w.
Proof.
  intros He Hp Hu Hw Hd. apply wp_bind, wp_call. intros u w1 Hr.
  pose proof (kill_law _ _ _ _ _ Hr) as Hk. apply wp_bind.
  apply wait_exit_spec; [by eapply enough_went|done|..].
  - intros Ht. pose proof (kills Ht pid w Hu) as Hok. rewrite Hr in Hok. cbn [fst] in Hok.
    rewrite Hok in Hk. destruct Hk as (-> & _). apply doomed_killed.
  - intros r w2 ev Hw2 Hev. apply wp_throw. right. split; [done|]. left. exists (is_ok u), ev.
    split; [|split; [done|]].
    + eapply went_then; [done|]. by apply (host_went_trans w w1 w2 [_] [_]).
    + destruct Hk as (_ & ? & _), Hw2 as (_ & ? & _). lia.
Qed.

Lemma wait_loop_spec n pid deadline log w :
  enough w -> 0 < pid -> unreaped pid (h_log w) = true ->
  (t = true -> deadline - h_now w < Z.of_nat (pred n) * (20 * milliseconds) /\ (0 < n)%nat) ->
  wp t (wait_loop fuel n pid deadline log) (waited pid deadline w) w.
Proof.
  revert w. induction n as [|n IH]; intros w He Hp Hu Hn; cbn [wait_loop].
  { apply wp_out_of_fuel. destruct t; [|done]. specialize (Hn eq_refl). lia. }
  apply wp_bind. unfold wp at 1. destruct (waitpid pid WNOHANG w) as [[r w1]|] eqn:Hr;
    [|by destruct (waitpid_polls pid w)].
  destruct (waitpid_law _ _ _ _ _ Hr) as [Hw1 Hi].
  set (keep := (now ← call steady_now; _)). cbv zeta.
  assert (went w [] w1 -> wp t keep (waited pid deadline w) w1) as Hkeep.
  { intros Hq. unfold keep. apply wp_bind, wp_call. intros now w2 Hr2.
    destruct (now_law _ _ _ Hr2) as [Hw2 Hnow]. pose proof (went_then _ _ _ _ Hq Hw2) as Hw02.
    assert (unreaped pid (h_log w2) = true) as Hu2 by by rewrite (went_nil_log _ _ Hw02).
    destruct (Z.leb_spec deadline now) as [Hle|Hlt].
    - apply timed_out_spec; [by eapply enough_went|done..|lia].
    - apply wp_bind, wp_call. intros u w3 Hr3.
      destruct (sleep_law (20 * milliseconds) _ _ _ ltac:(done) Hr3) as [Hw3 Hsl].
      pose proof (went_then _ _ _ _ Hw02 Hw3) as Hw03.
      eapply wp_mono; [apply IH; [by eapply enough_went|done|by rewrite (went_nil_log _ _ Hw03)|]|].
      { intros Ht. specialize (Hn Ht). destruct Hq as (_ & ? & _).
        unfold milliseconds in *. cbn [pred] in *. destruct n; cbn [pred] in *; lia. }
      intros r4 w4. by apply waited_after. }
  destruct r as [[finished status]|errno].
  - destruct (Z.eqb_spec finished pid) as [->|Hne]; [|by apply Hkeep].
    apply wp_done. left. exists status. by split.
  - destruct (errno =? EINTR) eqn:Ee; cbn [negb]; [by apply Hkeep|].
    apply wp_bind, wp_call. intros u w2 Hr2. pose proof (kill_law _ _ _ _ _ Hr2) as Hk.
    apply wp_throw. right. split; [done|]. right. exists errno, (is_ok u).
    by apply (host_went_trans w w1 w2 [_] [_]).
Qed.

(** ** Computations that leave nothing behind *)

(** [m] comes back having ended its children, and with no temporary directory. *)
Definition calm {A} (m : M W (result A)) : Prop :=
  forall w, enough w ->
    wp t m (fun _ w' => exists evs, went w evs w' /\ children_ended evs /\ temps evs = []) w.

(** The same of a computation that may make one temporary directory, and then asks
    once for it to be removed with all that is in it. *)
Definition removed (evs : list host_event) : Prop :=
  temps evs = [] \/ exists dir ok, temps evs = [MadeTemp dir; RemoveAll dir ok].
Definition neat {A} (m : M W (result A)) : Prop :=
  forall w, enough w ->
    wp t m (fun _ w' => exists evs, went w evs w' /\ children_ended evs /\ removed evs) w.

Lemma calm_done {A} (a : A) : calm (done a).
Proof. intros w _. apply wp_done. exists []. split_and!; [apply host_went_refl|exact I|done]. Qed.

Lemma calm_throw {A} what : calm (@throw W A what).
Proof. intros w _. apply wp_throw. exists []. split_and!; [apply host_went_refl|exact I|done]. Qed.

Lemma calm_ret {A} (r : result A) : calm (mret r).
Proof. intros w _. apply wp_ret. exists []. split_and!; [apply host_went_refl|exact I|done]. Qed.

Lemma calm_call {A} (f : W -> result A * W) : quiet_call _ f -> calm (call f).
Proof.
  intros Hq w _. apply wp_call. intros r w' Hr. exists [].
  split_and!; [by eapply quiet_law|exact I|done].
Qed.

(** After a quiet call. *)
Lemma calm_then {A B} (f : W -> B * W) (k : B -> M W (result A)) :
  quiet_call _ f -> (forall b, calm (k b)) -> calm (b ← call f; k b).
Proof.
  intros Hq Hk w He. apply wp_bind, wp_call. intros b w1 Hb. pose proof (quiet_law _ _ _ _ _ Hq Hb) as Hw.
  eapply wp_mono; [apply Hk; by eapply enough_went|]. intros r w2 (evs & Hw2 & Hr). exists evs.
  split; [by eapply went_then|done].
Qed.

Lemma calm_seq {A B} (m : M W (result A)) (k : result A -> M W (result B)) :
  calm m -> (forall r, calm (k r)) -> calm (r ← m; k r).
Proof.
  intros Hm Hk w He. apply wp_bind. eapply wp_mono; [by apply Hm|].
  intros r w1 (e1 & Hw1 & Hc1 & Ht1). eapply wp_mono; [apply Hk; by eapply enough_went|].
  intros r2 w2 (e2 & Hw2 & Hc2 & Ht2). exists (e1 ++ e2).
  split_and!; [by eapply host_went_trans|by apply children_ended_app|by rewrite temps_app, Ht1, Ht2].
Qed.

Lemma calm_ebind {A B} (m : M W (result A)) (k : A -> M W (result B)) :
  calm m -> (forall a, calm (k a)) -> calm (ebind k m).
Proof. intros Hm Hk. apply calm_seq; [done|]. intros [a|what]; [done|apply calm_throw]. Qed.

Lemma calm_try {A} (m : M W (result A)) h :
  calm m -> (forall what, calm (h what)) -> calm (try_catch m h).
Proof. intros Hm Hh. apply calm_seq; [done|]. intros [a|what]; [apply calm_done|done]. Qed.

Lemma neat_calm {A} (m : M W (result A)) : calm m -> neat m.
Proof.
  intros Hm w He. eapply wp_mono; [by apply Hm|]. intros r w' (evs & Hw & Hc & Ht). exists evs.
  split_and!; [done|done|by left].
Qed.

(** One part of a sequence may be neat if the other is calm. *)
Lemma neat_after {A B} (m : M W (result A)) (k : A -> M W (result B)) :
  calm m -> (forall a, neat (k a)) -> neat (ebind k m).
Proof.
  intros Hm Hk w He. apply wp_ebind. eapply wp_mono; [by apply Hm|].
  intros [a|what] w1 (e1 & Hw1 & Hc1 & Ht1).
  - eapply wp_mono; [apply Hk; by eapply enough_went|]. intros r2 w2 (e2 & Hw2 & Hc2 & Ht2).
    exists (e1 ++ e2). unfold removed. rewrite temps_app, Ht1.
    split_and!; [by eapply host_went_trans|by apply children_ended_app|exact Ht2].
  - exists e1. split_and!; [done|done|by left].
Qed.

Lemma neat_before {A B} (m : M W (result A)) (k : A -> M W (result B)) :
  neat m -> (forall a, calm (k a)) -> neat (ebind k m).
Proof.
  intros Hm Hk w He. apply wp_ebind. eapply wp_mono; [by apply Hm|].
  intros [a|what] w1 (e1 & Hw1 & Hc1 & Ht1); [|by exists e1].
  eapply wp_mono; [apply Hk; by eapply enough_went|]. intros r2 w2 (e2 & Hw2 & Hc2 & Ht2).
  exists (e1 ++ e2). unfold removed. rewrite temps_app, Ht2, app_nil_r.
  split_and!; [by eapply host_went_trans|by apply children_ended_app|exact Ht1].
Qed.

Lemma neat_try {A} (m : M W (result A)) h :
  neat m -> (forall what, calm (h what)) -> neat (try_catch m h).
Proof.
  intros Hm Hh w He. apply wp_try_catch. eapply wp_mono; [by apply Hm|].
  intros [a|what] w1 (e1 & Hw1 & Hc1 & Ht1); [by exists e1|].
  eapply wp_mono; [apply Hh; by eapply enough_went|]. intros r2 w2 (e2 & Hw2 & Hc2 & Ht2).
  exists (e1 ++ e2). unfold removed. rewrite temps_app, Ht2, app_nil_r.
  split_and!; [by eapply host_went_trans|by apply children_ended_app|exact Ht1].
Qed.

Lemma neat_then {A B} (f : W -> B * W) (k : B -> M W (result A)) :
  quiet_call _ f -> (forall b, neat (k b)) -> neat (b ← call f; k b).
Proof.
  intros Hq Hk w He. apply wp_bind, wp_call. intros b w1 Hb. pose proof (quiet_law _ _ _ _ _ Hq Hb) as Hw.
  eapply wp_mono; [apply Hk; by eapply enough_went|]. intros r w2 (evs & Hw2 & Hr). exists evs.
  split; [by eapply went_then|done].
Qed.

(** A scope with staged binaries: its directory is removed on every path. *)
Lemma with_native_neat {A} server sender (body : NativeBinaries -> M W (result A)) :
  (forall native, calm (body native)) -> neat (with_native server sender body).
Proof.
  intros Hbody w He. unfold with_native, make_native. apply wp_ebind, wp_bind, wp_call.
  intros created w1 Hr. pose proof (mkdtemp_law _ _ _ _ Hr) as Hw1. destruct created as [dir|errno].
  2: { apply wp_throw. exists []. split_and!; [done|exact I|by left]. }
  set (native := {| m_dir := dir; m_server := _; m_sender := _ |}).
  assert (forall a b, calm (copyExecutable a b)) as Hcopy
    by (intros; apply calm_ebind; intros; apply calm_call; constructor).
  assert (forall w2 w3 e2 e3 ok, went w1 e2 w2 -> children_ended e2 -> temps e2 = [] ->
    went w2 (e3 ++ [RemoveAll dir ok]) w3 -> children_ended e3 -> temps e3 = [] ->
    exists evs, went w evs w3 /\ children_ended evs /\ removed evs) as Hend.
  { intros w2 w3 e2 e3 ok H2 C2 T2 H3 C3 T3. exists ([MadeTemp dir] ++ e2 ++ e3 ++ [RemoveAll dir ok]).
    split_and!.
    - eapply host_went_trans; [done|]. by eapply host_went_trans.
    - by repeat apply children_ended_app.
    - right. exists dir, ok. rewrite !temps_app, T2, T3. done. }
  assert (forall what w2 e2, went w1 e2 w2 -> children_ended e2 -> temps e2 = [] ->
    wp t (call (remove_all dir);;; @throw W NativeBinaries what) (fun r w3 =>
      is_throw r /\ exists evs, went w evs w3 /\ children_ended evs /\ removed evs) w2) as Hthrow.
  { intros what w2 e2 H2 C2 T2. apply wp_bind, wp_call. intros u w3 Hr3.
    pose proof (remove_all_law _ _ _ _ Hr3) as Hw3. apply wp_throw. split; [done|].
    by apply (Hend w2 w3 e2 [] u). }
  apply wp_try_catch, wp_ebind. eapply wp_mono; [apply Hcopy; by eapply enough_went|].
  intros [u|what] w2 (e2 & Hw2 & Hc2 & Ht2).
  2: { eapply wp_mono; [by eapply Hthrow|]. by intros [n|what'] w3 [? Hev]. }
  apply wp_ebind. eapply wp_mono; [apply Hcopy; eapply enough_went; [|done]; by eapply enough_went|].
  intros [u'|what] w3 (e3 & Hw3 & Hc3 & Ht3).
  2: { eapply wp_mono; [eapply (Hthrow what w3 (e2 ++ e3)); [by eapply host_went_trans|by apply children_ended_app|]|].
       - by rewrite temps_app, Ht2, Ht3.
       - by intros [n|what'] w4 [? Hev]. }
  apply wp_done, wp_finally. assert (went w ([MadeTemp dir] ++ e2 ++ e3) w3) as Hw03
    by (eapply host_went_trans; [done|]; by eapply host_went_trans).
  eapply wp_mono; [apply Hbody; by eapply enough_went|].
  intros r w4 (e4 & Hw4 & Hc4 & Ht4). apply wp_bind, wp_call. intros ok w5 Hr5.
  pose proof (remove_all_law _ _ _ _ Hr5) as Hw5. apply wp_ret.
  apply (Hend w3 w5 (e2 ++ e3) e4 ok); try done.
  - by eapply host_went_trans.
  - by apply children_ended_app.
  - by rewrite temps_app, Ht2, Ht3.
  - by eapply host_went_trans.
Qed.

(** ** The controller's parts *)

(** The child exited by itself with status 0. *)
Definition exited_zero (status : Z) : Prop :=
  Main.WIFEXITED status = true /\ Main.WEXITSTATUS status = 0.

(** A call that prepares or starts the child failed. *)
Definition setup_failed (args : list string) (log : string) w : Prop :=
  exists w1, spawn_init w = Some (false, w1) \/
    spawn_init w = Some (true, w1) /\ exists rc w2, spawn_setup log w1 = Some (rc, w2) /\
      (rc <> 0 \/ rc = 0 /\ (posix_spawnp args w2).1.1 <> 0).

(** What happened to a child once it was started, and the answer that goes with it. *)
Definition child_fate (pid secs : Z) w (r : result unit) w' (after : list host_event) : Prop :=
  (exists status, after = [Reaped pid status] /\ exited_zero status /\ r = Value tt) \/
  is_throw r /\
  ((exists status ok, after = [Reaped pid status; Kills (- pid) Main.SIGKILL ok] /\
      ~ exited_zero status) \/
   (exists ok last, after = [Kills (- pid) Main.SIGKILL ok; last] /\ wait_end pid last /\
      h_now w + secs * nanoseconds <= h_now w') \/
   (exists errno ok, after = [WaitFailed pid errno; Kills (- pid) Main.SIGKILL ok])).

(** What [runCommand] did: nothing was started because a call failed, or one child
    was. *)
Definition command_ran (args : list string) (log : string) (secs : Z) w (r : result unit) w'
    (evs : list host_event) : Prop :=
  evs = [] /\ is_throw r /\ setup_failed args log w \/
  exists pid after, evs = Spawned pid :: after /\ child_fate pid secs w r w' after.

Lemma calm_tail path : calm (tail path).
Proof.
  unfold tail. apply calm_then; [constructor|]. intros [text|]; apply calm_done.
Qed.

Lemma quiet_bind_spec {A B} (f : W -> A * W) (k : A -> M W B) Q w :
  quiet_call _ f -> (forall a w', went w [] w' -> wp t (k a) Q w') -> wp t (a ← call f; k a) Q w.
Proof.
  intros Hq Hk. apply wp_bind, wp_call. intros a w' Ha. apply Hk. by eapply quiet_law.
Qed.

Lemma quiet_if_spec {A} (c : bool) (f : W -> A * W) (a : A) Q w :
  quiet_call _ f -> (forall a w', went w [] w' -> Q a w') -> wp t (if c then call f else mret a) Q w.
Proof.
  intros Hq HQ. destruct c; [|apply wp_ret, HQ, host_went_refl].
  apply wp_call. intros b w' Hb. apply HQ. by eapply quiet_law.
Qed.

Lemma spawn_init_spec w Q :
  (forall b w', went w [] w' -> Q b w') -> wp t spawn_init Q w.
Proof.
  intros HQ. unfold spawn_init. apply quiet_bind_spec; [constructor|]. intros rc w1 Hw1.
  destruct (rc =? 0); cbn [negb]; [|by apply wp_ret, HQ].
  apply quiet_bind_spec; [constructor|]. intros rc2 w2 Hw2. apply wp_ret, HQ. by eapply went_then.
Qed.

Lemma spawn_setup_spec log w Q :
  (forall rc w', went w [] w' -> Q rc w') -> wp t (spawn_setup log) Q w.
Proof.
  intros HQ. unfold spawn_setup. apply quiet_bind_spec; [constructor|]. intros rc w1 Hw1.
  apply wp_bind, quiet_if_spec; [constructor|]. intros rc2 w2 Hw2.
  apply wp_bind, quiet_if_spec; [constructor|]. intros rc3 w3 Hw3.
  apply quiet_if_spec; [constructor|]. intros rc4 w4 Hw4. apply HQ.
  eapply went_then; [done|]. eapply went_then; [done|]. by eapply went_then.
Qed.

Lemma spawn_destroy_spec {A} (m : M W A) w Q :
  (forall w', went w [] w' -> wp t m Q w') -> wp t (spawn_destroy;;; m) Q w.
Proof.
  intros HQ. apply wp_bind. unfold spawn_destroy. apply quiet_bind_spec; [constructor|].
  intros _ w1 Hw1. apply wp_call. intros u w2 Hu. apply HQ. eapply went_then; [done|].
  eapply quiet_law; [|exact Hu]. constructor.
Qed.

Lemma tail_spec path w : wp t (tail path) (fun r w' => returns r = true /\ went w [] w') w.
Proof.
  unfold tail. apply wp_bind, wp_call. intros file w' Hf.
  pose proof (quiet_law _ _ _ _ _ (q_read_file path) Hf). by destruct file; apply wp_done.
Qed.

(** The end of a command whose child has ended. *)
Lemma check_status_spec pid status log w :
  wp t (check_status pid status log)
    (fun r w' => (r = Value tt /\ went w [] w' /\ exited_zero status) \/
       is_throw r /\ ~ exited_zero status /\ exists ok, went w [Kills (- pid) Main.SIGKILL ok] w') w.
Proof.
  unfold check_status, exited_zero.
  destruct (Main.WIFEXITED status) eqn:E1, (Z.eqb_spec (Main.WEXITSTATUS status) 0) as [E2|E2];
    cbn [negb orb];
    [apply wp_done; left; split; [done|]; split; [apply host_went_refl|done]|..];
    (apply wp_bind, wp_call; intros u w1 Hr; pose proof (kill_law _ _ _ _ _ Hr) as Hw1;
     apply wp_ebind; eapply wp_mono; [apply tail_spec|]; intros [details|what] w2 [Hd Hw2]; [|done];
     apply wp_throw; right; split; [done|]; (split; [by intros []|]);
     exists (is_ok u); by apply (host_went_trans w w1 w2 [_] [])).
Qed.

(** The command from its child's start on. *)
Lemma child_spec pid log secs w :
  0 <= secs <= 3600 -> enough w -> 0 < pid -> unreaped pid (h_log w) = true ->
  wp t (now ← call steady_now;
        status ⇐ wait_loop fuel fuel pid (now + secs * nanoseconds) log;
        check_status pid status log)
    (fun r w' => exists after, went w after w' /\ child_fate pid secs w r w' after) w.
Proof.
  intros Hs He Hp Hu. apply wp_bind, wp_call. intros now w1 Hr1.
  destruct (now_law _ _ _ Hr1) as [Hw1 Hnow]. pose proof (went_nil_log _ _ Hw1) as El.
  apply wp_ebind. eapply wp_mono; [apply wait_loop_spec; [by eapply enough_went|done|by rewrite El|]|].
  { intros Ht. specialize (He Ht). unfold nanoseconds, milliseconds. lia. }
  intros r w2 [(st & -> & Hw2)|(Hth & Hend)].
  - pose proof (went_then _ _ _ _ Hw1 Hw2) as Hw02. eapply wp_mono; [apply check_status_spec|].
    intros r w3 [(-> & Hw3 & Hz)|(Hth & Hz & ok & Hw3)].
    + exists [Reaped pid st]. split; [by apply (host_went_trans w w2 w3 [_] [])|]. left. by exists st.
    + exists [Reaped pid st; Kills (- pid) Main.SIGKILL ok].
      split; [by apply (host_went_trans w w2 w3 [_] [_])|]. right. split; [done|]. left. by exists st, ok.
  - destruct r as [st|what]; [done|].
    destruct Hend as [(ok & ev & Hw2 & Hev & Hd)|(errno & ok & Hw2)];
      (eexists; split; [by eapply went_then|]; right; split; [done|]; right).
    + left. exists ok, ev. split; [done|]. split; [done|]. lia.
    + right. by exists errno, ok.
Qed.

Lemma runCommand_spec args log secs w :
  0 <= secs <= 3600 -> enough w ->
  wp t (runCommand fuel args log secs)
    (fun r w' => exists evs, went w evs w' /\ command_ran args log secs w r w' evs) w.
Proof.
  intros Hs He. unfold runCommand.
  assert (forall what w', setup_failed args log w -> went w [] w' -> wp t (@throw W unit what)
    (fun r w' => exists evs, went w evs w' /\ command_ran args log secs w r w' evs) w') as Hthrow.
  { intros what w' Hf Hw. apply wp_throw. exists []. split; [done|by left]. }
  apply wp_bind, wp_eq, spawn_init_spec. intros ready w1 Hw1 E1.
  destruct ready; cbn [negb]; [|by apply Hthrow; [exists w1; left|]].
  apply wp_bind, wp_eq, spawn_setup_spec. intros rc w2 Hw2 E2.
  pose proof (went_then _ _ _ _ Hw1 Hw2) as Hw02.
  destruct (Z.eqb_spec rc 0) as [->|Hrc]; cbn [negb].
  2: { apply spawn_destroy_spec. intros w3 Hw3. apply Hthrow; [|by eapply went_then].
       exists w1. right. split; [done|]. exists rc, w2. split; [done|by left]. }
  apply wp_bind, wp_call. intros [rc pid] w3 Hr3. destruct (spawn_law _ _ _ _ _ Hr3) as [Hw3 Hpid].
  apply spawn_destroy_spec. intros w4 Hw4.
  destruct (Z.eqb_spec rc 0) as [->|Hrc]; cbn [negb].
  2: { apply Hthrow; [|eapply went_then; [done|]; by eapply went_then].
       exists w1. right. split; [done|]. exists 0, w2. split; [done|]. right. by rewrite Hr3. }
  assert (went w [Spawned pid] w4) as Hw04
    by (eapply went_then; [done|]; by apply (host_went_trans w2 w3 w4 [_] [])).
  eapply wp_mono; [apply child_spec; [done|by eapply enough_went|by apply Hpid|]|].
  { destruct Hw04 as (-> & _). apply unreaped_spawned. }
  intros r w5 (after & Hw5 & Hfate). exists (Spawned pid :: after).
  split; [by apply (host_went_trans w w4 w5 [_] after)|]. right. exists pid, after. split; [done|].
  destruct Hw04 as (_ & Hn & _). unfold child_fate in *.
  destruct Hfate as [?|(? & [?|[(ok & ev & ? & ? & ?)|?]])]; [by left|right; split; [done|]..];
    [by left|right; left|by right; right].
  exists ok, ev. split; [done|]. split; [done|]. lia.
Qed.

(** The child has ended in every case. *)
Lemma fate_ended pid secs w r w' after :
  child_fate pid secs w r w' after -> children_ended (Spawned pid :: after) /\ temps after = [].
Proof.
  unfold child_ended.
  intros [(st & -> & _)|(_ & [(st & ok & -> & _)|[(ok & ev & -> & [[st ->]|[e ->]] & _)|(e & ok & ->)]])];
    (split; [|done]); (split; [|done]); unfold child_ended;
    first [left; exists st; set_solver | right; exists e, ok; set_solver].
Qed.

Lemma calm_runCommand args log secs : 0 <= secs <= 3600 -> calm (runCommand fuel args log secs).
Proof.
  intros Hs w He. eapply wp_mono; [by apply runCommand_spec|].
  intros r w' (evs & Hw & Hran). exists evs. split; [done|].
  destruct Hran as [(-> & _)|(pid & after & -> & Hfate)]; [done|].
  exact (fate_ended _ _ _ _ _ _ Hfate).
Qed.

Lemma calm_if_then {A B} (c : bool) (f : W -> B * W) (b : B) (k : B -> M W (result A)) :
  quiet_call _ f -> (forall b, calm (k b)) -> calm (b ← (if c then call f else mret b); k b).
Proof.
  intros Hq Hk w He. apply wp_bind, quiet_if_spec; [done|]. intros b' w1 Hw1.
  eapply wp_mono; [apply Hk; by eapply enough_went|]. intros r w2 (evs & Hw2 & Hr). exists evs.
  split; [by eapply went_then|done].
Qed.

(** One step of a computation that leaves nothing behind. *)
Ltac calm_step :=
  first [ apply calm_done | apply calm_throw | apply calm_ret | apply calm_tail
        | apply calm_runCommand; lia
        | apply calm_call; constructor
        | apply calm_if_then; [constructor|intros ?]
        | apply calm_then; [constructor|intros ?]
        | apply calm_ebind; [|intros ?]
        | apply calm_try; [|intros ?]
        | case_match ].
Ltac calm := repeat calm_step.

Lemma calm_readFile path : calm (readFile path).
Proof. unfold readFile. calm. Qed.

Lemma calm_validateReport path : calm (validateReport path).
Proof. unfold validateReport. apply calm_ebind; [apply calm_readFile|]. intros text. calm. Qed.

Lemma calm_verifyCsv path f b r : calm (verifyCsv path f b r).
Proof. unfold verifyCsv. calm. Qed.

Lemma calm_must_reject {A} (m : M W (result A)) complaint : calm m -> calm (must_reject m complaint).
Proof. intros Hm. unfold must_reject. apply calm_ebind; [calm; exact Hm|]. intros rejected. calm. Qed.

Lemma calm_csv_test path newline : calm (csv_test path newline).
Proof.
  unfold csv_test. apply calm_then; [constructor|]. intros _.
  apply calm_ebind; [apply calm_verifyCsv|]. intros _.
  apply calm_ebind; [apply calm_must_reject, calm_verifyCsv|]. intros _.
  apply calm_must_reject, calm_verifyCsv.
Qed.

Lemma calm_report_test path : calm (report_test path).
Proof.
  unfold report_test. apply calm_then; [constructor|]. intros _.
  apply calm_ebind; [apply calm_validateReport|]. intros _.
  apply calm_then; [constructor|]. intros _. apply calm_must_reject, calm_validateReport.
Qed.

Lemma neat_staging_test executable : neat (staging_test executable).
Proof.
  apply with_native_neat. intros native.
  apply calm_ebind; [calm|]. intros server. apply calm_ebind; [calm|]. intros sender.
  apply calm_ebind; [destruct (server && sender); [apply calm_readFile|calm]|]. intros text. calm.
Qed.

Lemma neat_self_test_body path executable : neat (self_test_body path executable).
Proof.
  unfold self_test_body. apply neat_after; [apply calm_csv_test|]. intros _.
  apply neat_after; [apply calm_csv_test|]. intros _. apply neat_then; [constructor|]. intros _.
  apply neat_before; [apply neat_staging_test|]. intros staged.
  apply calm_ebind; [calm|]. intros _. apply calm_ebind; [calm|]. intros left.
  destruct left; [calm|]. apply calm_ebind; [apply calm_report_test|]. intros _. calm.
Qed.

Lemma neat_selfTest : neat run_selfTest.
Proof.
  unfold run_selfTest. destruct (parseNumber "128" 1 4096 "batch") as [n|what]; [|apply neat_calm; calm].
  destruct (negb (n =? 128)); [apply neat_calm; calm|].
  destruct (returns _); [apply neat_calm; calm|].
  apply neat_after; [calm|]. intros dir. apply neat_then; [constructor|]. intros pid. cbv zeta.
  apply neat_try; [|intros what; calm]. apply neat_then; [constructor|]. intros pid'.
  apply neat_self_test_body.
Qed.

Lemma calm_checkPerf o executable : calm (checkPerf fuel o executable).
Proof. unfold checkPerf. calm. Qed.

Lemma calm_report_mode o native : calm (report_mode fuel o native).
Proof.
  unfold report_mode, cache_binary. calm.
Qed.

Lemma calm_runMode o benchmark native mode :
  0 <= timeout o <= 3600 -> calm (runMode fuel o benchmark native mode).
Proof.
  intros Ht. unfold runMode, mode_command. apply calm_ebind; [calm|]. intros _.
  apply calm_ebind; [calm|]. intros command. apply calm_ebind; [calm|]. intros _.
  apply calm_ebind; [apply calm_verifyCsv|]. intros _.
  case_match; [apply calm_report_mode|calm].
Qed.

Lemma neat_runProfile o executable :
  0 <= timeout o <= 3600 -> neat (runProfile fuel o executable).
Proof.
  intros Ht. unfold runProfile. apply neat_after; [calm|]. intros _.
  apply neat_after; [apply calm_checkPerf|]. intros _.
  destruct (check o); [apply neat_calm; calm|].
  apply neat_after; [calm|]. intros root. cbv zeta. apply neat_after; [calm|]. intros there.
  destruct there; cbn [negb]; [|apply neat_calm; calm].
  apply neat_after; [calm|]. intros there. apply neat_after; [calm|]. intros there2.
  destruct there2; cbn [negb]; [|apply neat_calm; calm].
  apply with_native_neat. intros native. unfold profile_staged.
  apply calm_then; [constructor|]. intros rc. apply calm_if_then; [constructor|]. intros rc2.
  destruct (rc2 =? 0); cbn [negb]; [|calm].
  apply calm_ebind; [case_match; [by apply calm_runMode|calm]|]. intros _.
  case_match; [by apply calm_runMode|calm].
Qed.

End specs.

(** ** Options *)

(** Every number is in its documented range, and the mode is one of the three. *)
Definition options_ok (o : Options) : Prop :=
  1 <= frames o <= 1000000 /\ 1 <= batch o <= 4096 /\ 1 <= port o <= 65535 /\
  1 <= repeat o <= 20 /\ 1 <= timeout o <= 3600 /\
  mode o ∈ ["record"; "stat"; "both"]%string.

Lemma parseNumber_range value min max name n :
  parseNumber value min max name = Value n -> min <= n <= max.
Proof.
  unfold parseNumber. destruct (negb _ || _ || _ || _) eqn:E; [discriminate|]. intros [= <-].
  rewrite !orb_false_iff, !Z.ltb_ge in E. lia.
Qed.

Lemma set_option_ok key value o o' : options_ok o -> set_option key value o = Value o' -> options_ok o'.
Proof.
  intros (H1 & H2 & H3 & H4 & H5 & H6). unfold set_option.
  repeat (case_bool_decide; [
    try (destruct (parseNumber _ _ _ _) as [n|] eqn:E; cbn [and_then]; [|discriminate];
         apply parseNumber_range in E; by intros [= <-]);
    try (by intros [= <-])|]); try discriminate.
  all: cbn [negb andb]; intros [= <-]; subst value; try discriminate;
    refine (conj H1 (conj H2 (conj H3 (conj H4 (conj H5 _))))); by apply (bool_decide_unpack _).
Qed.

Lemma parse_loop_ok args o o' :
  options_ok o -> Profile.parse_loop args o = Value (Some o') -> options_ok o'.
Proof.
  assert (forall n args o o', (length args <= n)%nat -> options_ok o ->
    Profile.parse_loop args o = Value (Some o') -> options_ok o') as Hind; [|by eapply Hind].
  clear. induction n as [|n IH]; intros [|key rest] o o' Hn Ho; cbn [Profile.parse_loop length] in *;
    try (by intros [= <-]); try lia.
  destruct (_ || _); [discriminate|].
  repeat (case_bool_decide; [apply IH; [lia|exact Ho]|]).
  destruct rest as [|value rest]; [discriminate|]. cbn [length] in Hn.
  destruct (set_option key value o) as [o1|] eqn:E; [|discriminate].
  apply IH; [lia|]. by eapply set_option_ok.
Qed.

(** The busy loop makes no call but the clock's. *)
Lemma workload_calm {W} `{HostLaws W} (w : W) n deadline acc :
  wp false (workload_loop n deadline acc) (fun _ w' => went w [] w') w.
Proof.
  revert w acc. induction n as [|n IH]; intros w acc; cbn [workload_loop]; [by apply wp_out_of_fuel|].
  apply wp_bind, wp_call. intros now w1 Hr. destruct (now_law _ _ _ Hr) as [Hw1 _].
  destruct (now <? deadline); [|by apply wp_ret].
  eapply wp_mono; [apply IH|]. intros a w2 Hw2. by eapply went_then.
Qed.

Lemma calm_workload {W} `{HostLaws W} fuel : calm (W:=W) false fuel (_ ← run_checkWorkload fuel; done tt).
Proof.
  intros w _. apply wp_bind. unfold run_checkWorkload. apply wp_bind, wp_call. intros now w1 Hr.
  destruct (now_law _ _ _ Hr) as [Hw1 _]. eapply wp_mono; [by apply workload_calm|].
  intros a w2 Hw2. apply wp_done. exists []. by split; [eapply went_then|].
Qed.

Lemma main_tidy_spec {W} `{HostLaws W} t fuel argv (w : W) :
  (t = true -> kills_reach W) ->
  (t = true -> forall o, parseOptions argv = Value (Some o) -> checkWorkload o = false) ->
  enough t fuel w ->
  wp t (main fuel argv) (fun code w' => exists evs,
    went w evs w' /\ children_ended evs /\ removed evs /\ (code = 0 \/ code = 1)) w.
Proof.
  intros Hk Hno He. unfold main.
  assert (went w [] w /\ children_ended [] /\ removed []) as (H1 & H2 & H3)
    by (split_and!; [apply host_went_refl|exact I|by left]).
  destruct (parseOptions argv) as [[o|]|what] eqn:Ep;
    [|by apply wp_ret; exists []; split_and!; try done; left|
      by apply wp_ret; exists []; split_and!; try done; right].
  assert (options_ok o) as (_ & _ & _ & _ & Ht & _).
  { eapply parse_loop_ok; [|exact Ep]. split_and!; try done. by left. }
  assert (neat t fuel (if selfTest o then run_selfTest
    else if checkWorkload o then _ ← run_checkWorkload fuel; done tt
    else executable ⇐ call (canonical (hd EmptyString argv)); runProfile fuel o executable)) as Hneat.
  { destruct (selfTest o); [apply neat_selfTest|]. destruct (checkWorkload o) eqn:Ew.
    - destruct t; [by rewrite (Hno eq_refl o eq_refl) in Ew|]. apply neat_calm, calm_workload.
    - apply neat_after; [apply calm_call; constructor|]. intros executable.
      apply neat_runProfile; [done|lia]. }
  apply wp_bind. eapply wp_mono; [by apply Hneat|].
  intros r w' (evs & Hw & Hc & Hr). apply wp_ret. exists evs.
  split_and!; [done..|]. destruct (returns r); [by left|by right].
Qed.

(** ** Properties *)

(** C33: what became of the child of a command, exactly.  When [runCommand] comes back,
    either nothing was started, an exception is thrown and one of the calls that
    prepare or start the child had failed; or one child was started and one of four
    things followed: it was reaped, having exited with status 0, and that alone is
    success; it was reaped with another status, its whole group killed, an exception;
    the time was over, its group was killed and then waited for, an exception; polling
    failed, its group was killed, an exception.  It comes back within the fuel of its
    timeout, when signals are finitely many and a child that is still there can be
    killed. *)
Theorem command_never_left {W} `{HostLaws W} fuel args log secs (w : W) :
  0 <= secs <= 3600 -> Z.of_nat (h_budget w) + 200000 < Z.of_nat fuel ->
  (forall r w', runCommand fuel args log secs w = Some (r, w') ->
     exists evs, h_log w' = h_log w ++ evs /\ command_ran args log secs w r w' evs) /\
  (kills_reach W -> runCommand fuel args log secs w <> None).
Proof.
  intros Hs Hf. split.
  - intros r w' Hrun.
    destruct (wp_run _ _ _ _ _ _ (runCommand_spec false fuel ltac:(done) args log secs w Hs ltac:(done)) Hrun)
      as (evs & (Hl & _) & Hran). by exists evs.
  - intros Hk.
    destruct (wp_total _ _ _ (runCommand_spec true fuel (fun _ => Hk) args log secs w Hs (fun _ => Hf)))
      as (r & w' & Hrun & _). by rewrite Hrun.
Qed.

(** C32: the controller leaves nothing running and cleans up.  Whatever the arguments - a
    profile, a check, the self-test, the busy loop, help, an error - and whatever
    fails on the way, when [main] comes back its status is 0 or 1, and every child it
    started has since been reaped, or else waiting for it failed and its group was sent
    a kill; and if it made the temporary directory for the staged binaries, it has
    asked exactly once for its removal with everything in it, which only an error of
    [remove_all] itself, ignored by the code, can have prevented.  It does come back, except for the busy loop of [--self-check-workload],
    which ends when the clock says so, when signals are finitely many and a child that
    is still there can be killed. *)
Theorem controller_leaves_nothing {W} `{HostLaws W} fuel argv (w : W) :
  Z.of_nat (h_budget w) + 200000 < Z.of_nat fuel ->
  (forall code w', main fuel argv w = Some (code, w') ->
     exists evs, (code = 0 \/ code = 1) /\
       h_log w' = h_log w ++ evs /\ children_ended evs /\ removed evs) /\
  (kills_reach W -> (forall o, parseOptions argv = Value (Some o) -> checkWorkload o = false) ->
     main fuel argv w <> None).
Proof.
  intros Hf. split.
  - intros code w' Hrun.
    destruct (wp_run _ _ _ _ _ _ (main_tidy_spec false fuel argv w ltac:(done) ltac:(done) ltac:(done)) Hrun)
      as (evs & (Hl & _) & Hc & Hr & Hcode). by exists evs.
  - intros Hk Hno.
    destruct (wp_total _ _ _ (main_tidy_spec true fuel argv w (fun _ => Hk) (fun _ => Hno) (fun _ => Hf)))
      as (code & w' & Hrun & _). by rewrite Hrun.
Qed.

(** ** A host in memory *)

(** A command to come: how many polls it takes, its status, and the files it
    leaves. *)
Record Kid := { polls : nat; kid_status : Z; leaves : list (string * string) }.

Record MemHost := {
  host_files : gmap string string;
  host_clock : Z;
  host_log : list host_event;
  kids : list Kid;
  running : option Kid;
}.

Definition with_files (f : gmap string string) (h : MemHost) : MemHost :=
  {| host_files := f; host_clock := host_clock h; host_log := host_log h; kids := kids h;
     running := running h |}.
Definition host_event_happens (ev : list host_event) (h : MemHost) : MemHost :=
  {| host_files := host_files h; host_clock := host_clock h; host_log := host_log h ++ ev;
     kids := kids h; running := running h |}.
Definition with_running (k : option Kid) (h : MemHost) : MemHost :=
  {| host_files := host_files h; host_clock := host_clock h; host_log := host_log h;
     kids := kids h; running := k |}.
Definition with_clock (c : Z) (h : MemHost) : MemHost :=
  {| host_files := host_files h; host_clock := c; host_log := host_log h; kids := kids h;
     running := running h |}.

Definition below (dir : string) (path : string) : bool := starts_with (dir +:+ "/") path.

(** A file, or a directory with a file in it. *)
Definition mem_exists (path : string) (h : MemHost) : bool :=
  bool_decide (is_Some (host_files h !! path)) ||
  existsb (fun kv => below path kv.1) (map_to_list (host_files h)).

Definition kid_pid : Z := 4242.

Definition mem_spawn (h : MemHost) : (Z * Z) * MemHost :=
  match kids h with
  | [] => ((2, 0), h)
  | k :: rest =>
      ((0, kid_pid),
       {| host_files := list_to_map (leaves k) ∪ host_files h; host_clock := host_clock h;
          host_log := host_log h ++ [Spawned kid_pid]; kids := rest; running := Some k |})
  end.

Definition ECHILD : Z := 10.

Definition mem_waitpid (pid opts : Z) (h : MemHost) : option (sysres (Z * Z) * MemHost) :=
  match running h with
  | None => Some (Err ECHILD, host_event_happens [WaitFailed pid ECHILD] h)
  | Some k =>
      match polls k with
      | S n =>
          if opts =? WNOHANG then
            Some (Ok (if pid =? 0 then 1 else 0, 0),
              with_running (Some {| polls := n; kid_status := kid_status k; leaves := leaves k |}) h)
          else if doomed pid (host_log h) then
            Some (Ok (pid, Main.SIGKILL), host_event_happens [Reaped pid Main.SIGKILL] (with_running None h))
          else None
      | O => Some (Ok (pid, kid_status k), host_event_happens [Reaped pid (kid_status k)] (with_running None h))
      end
  end.

Definition mem_copy (source destination : string) (h : MemHost) : result bool * MemHost :=
  match host_files h !! source, host_files h !! destination with
  | Some text, None => (Value true, with_files (<[destination := text]> (host_files h)) h)
  | _, _ => (Throws "copy_file", h)
  end.

#[export] Instance memhost_api : HostApi MemHost := {
  read_file p h := (host_files h !! p, h);
  write_file p text h := (tt, with_files (<[p := text]> (host_files h)) h);
  exists_ p h := (Value (mem_exists p h), h);
  is_regular_file p h := (Value (bool_decide (is_Some (host_files h !! p))), h);
  file_size p h :=
    (match host_files h !! p with Some text => Value (Z.of_nat (String.length text)) | None => Throws "file_size" end, h);
  remove p h := (Value (bool_decide (is_Some (host_files h !! p))), with_files (delete p (host_files h)) h);
  create_directories p h := (Value true, h);
  copy_file := mem_copy;
  permissions_add_exec p h :=
    (if bool_decide (is_Some (host_files h !! p)) then Value tt else Throws "permissions", h);
  canonical p h := (Value (join "/repo" p), h);
  current_path h := (Value "/repo"%string, h);
  temp_directory_path h := (Value "/tmp"%string, h);
  remove_all dir h :=
    (true, host_event_happens [RemoveAll dir true]
           (with_files (list_to_map (List.filter (fun kv => negb (below dir kv.1)) (map_to_list (host_files h)))) h));
  mkdtemp template h := (Ok template, host_event_happens [MadeTemp template] h);
  setenv n v o h := (0, h);
  getpid h := (77, h);
  file_actions_init h := (0, h);
  spawnattr_init h := (0, h);
  file_actions_addopen fd p f m h := (0, h);
  file_actions_adddup2 a b h := (0, h);
  spawnattr_setflags f h := (0, h);
  spawnattr_setpgroup g h := (0, h);
  file_actions_destroy h := (tt, h);
  spawnattr_destroy h := (tt, h);
  posix_spawnp args := mem_spawn;
  waitpid := mem_waitpid;
  kill pid signal h := (Ok tt, host_event_happens [Kills pid signal true] h);
  steady_now h := (host_clock h, h);
  sleep_for d h := (tt, with_clock (host_clock h + d) h);
  strerror _ := "error"%string;
}.

Ltac mem_went := split_and!; cbn; rewrite ?app_nil_r; first [done | lia].

#[export] Instance memhost_laws : HostLaws MemHost.
Proof.
  refine {| h_log := host_log; h_now := host_clock; h_budget _ := 0%nat |}.
  - intros A f w r w' Hq Hr. destruct Hq; cbn in Hr; try (injection Hr as <- <-);
      try (unfold mem_copy in Hr; repeat case_match; injection Hr as <- <-);
      mem_went.
  - intros args w rc pid w' Hr. cbn in Hr. unfold mem_spawn in Hr.
    destruct (kids w); injection Hr as <- <- <-; (split; [mem_went|done]).
  - intros pid opts w r w' Hr. cbn in Hr. unfold mem_waitpid in Hr.
    destruct (running w) as [[[|n] st l]|]; cbn [polls kid_status] in Hr;
      repeat case_match; simplify_eq; cbn [is_intr]; rewrite ?Z.eqb_refl; (split; [|done]);
      try (assert ((if pid =? 0 then 1 else 0) =? pid = false) as E by (destruct (Z.eqb_spec pid 0); lia));
      mem_went.
  - intros pid opts w p st w' Hp Hr. cbn in Hr. unfold mem_waitpid in Hr.
    destruct (running w) as [[[|n] st' l]|]; cbn [polls kid_status] in Hr; repeat case_match;
      simplify_eq; try (by left); right; (split; [by apply Z.eqb_eq|lia]).
  - intros pid w. cbn. unfold mem_waitpid. destruct (running w) as [[[|n] st' l]|]; done.
  - intros pid w Hd. cbn. unfold mem_waitpid. rewrite Hd. destruct (running w) as [[[|n] st' l]|]; done.
  - intros pid sg w r w' Hr. injection Hr as <- <-. mem_went.
  - intros template w r w' Hr. injection Hr as <- <-. mem_went.
  - intros dir w r w' Hr. injection Hr as <- <-. mem_went.
  - intros w r w' Hr. injection Hr as <- <-. mem_went.
  - intros d w r w' Hd Hr. injection Hr as <- <-. mem_went.
Defined.

Definition crlf : string := String carriage_return nl.

(** Two commands that work, one that fails, and the repository's files. *)
Definition sample_csv : string :=
  "run,batch_frames,frames,bytes,verified_frames" +:+ crlf +:+ "1,128,100,3200,100" +:+ crlf.

Definition sample_kids : list Kid :=
  [{| polls := 2; kid_status := 0; leaves := [] |};
   {| polls := 3; kid_status := 0;
      leaves := [("build-perf/cpu-profile/record_runs.csv", sample_csv);
                 ("build-perf/cpu-profile/perf.data", "data")]%string |};
   {| polls := 0; kid_status := 256; leaves := [] |};
   {| polls := 0; kid_status := 0; leaves := [] |};
   {| polls := 0; kid_status := 0;
      leaves := [("build-perf/cpu-profile/report.txt",
                  "  26.25% 279 telemetry-server [.] SharedRingBuffer::tryPop()")]%string |}].

Definition sample_host (k : list Kid) : MemHost :=
  {| host_files := list_to_map
       [("/repo/bench/run_benchmark.py", "py"); ("/repo/build-perf/telemetry-server", "elf");
        ("/repo/build-perf/telemetry-load", "elf")]%string;
     host_clock := 5; host_log := []; kids := k; running := None |}.

Definition sample_args : list string := ["profile"; "--frames"; "100"; "--repeat"; "1"]%string.

(** The self-test passes, a whole profile succeeds, and a command that hangs fails. *)
Example self_test_passes :
  fst <$> main 100 ["profile"; "--self-test"]%string (sample_host []) = Some 0.
Proof. by vm_compute. Qed.

Example sample_profile : fst <$> main 100 sample_args (sample_host sample_kids) = Some 0.
Proof. by vm_compute. Qed.

Example sample_hangs :
  fst <$> main 2000 sample_args
    (sample_host [{| polls := 100000; kid_status := 0; leaves := [] |}]) = Some 1.
Proof. by vm_compute. Qed.

Lemma verify_text_exact_witness :
  verify_text sample_csv 100 128 1 = Value tt /\ csv_ok sample_csv 100 128 1.
Proof.
  assert (verify_text sample_csv 100 128 1 = Value tt) as Hv by (vm_compute; reflexivity).
  split; [exact Hv|].
  exact (proj1 (verify_text_exact sample_csv 100 128 1 ltac:(lia) ltac:(lia)) Hv).
Defined.

Definition sample_fuel : nat := Z.to_nat 200010.

Lemma sample_fuel_enough k : Z.of_nat (h_budget (sample_host k)) + 200000 < Z.of_nat sample_fuel.
Proof. unfold sample_fuel. rewrite Z2Nat.id by lia. cbn. lia. Qed.

(** A child that ends with an error. *)
Definition sample_failing : MemHost :=
  sample_host [{| polls := 2; kid_status := 256; leaves := [] |}].

Lemma sample_kills_reach : kills_reach MemHost.
Proof. done. Qed.

Lemma command_never_left_witness :
  0 <= 30 <= 3600 /\
  exists r w' evs, runCommand sample_fuel ["perf"; "report"]%string "log" 30 sample_failing = Some (r, w') /\
    h_log w' = h_log sample_failing ++ evs /\
    command_ran ["perf"; "report"]%string "log" 30 sample_failing r w' evs.
Proof.
  assert (0 <= 30 <= 3600) as Hs by lia. split; [exact Hs|].
  destruct (command_never_left sample_fuel ["perf"; "report"]%string "log" 30 sample_failing Hs
    (sample_fuel_enough _)) as [Hran Hret].
  specialize (Hret sample_kills_reach).
  destruct (runCommand sample_fuel ["perf"; "report"]%string "log" 30 sample_failing) as [[r w']|].
  - destruct (Hran r w' eq_refl) as (evs & Hl & Hc). exists r, w', evs.
    split; [reflexivity|]. split; [exact Hl|exact Hc].
  - exfalso. apply Hret. reflexivity.
Defined.

Lemma sample_no_workload o : parseOptions sample_args = Value (Some o) -> checkWorkload o = false.
Proof.
  assert (match parseOptions sample_args with Value (Some o) => checkWorkload o = false | _ => True end)
    as Hp by (vm_compute; reflexivity).
  intros E. rewrite E in Hp. exact Hp.
Qed.

Lemma controller_leaves_nothing_witness :
  exists code w' evs, main sample_fuel sample_args (sample_host sample_kids) = Some (code, w') /\
    (code = 0 \/ code = 1) /\ h_log w' = h_log (sample_host sample_kids) ++ evs /\
    children_ended evs /\ removed evs.
Proof.
  destruct (controller_leaves_nothing sample_fuel sample_args (sample_host sample_kids)
    (sample_fuel_enough _)) as [Htidy Hret].
  specialize (Hret sample_kills_reach sample_no_workload).
  destruct (main sample_fuel sample_args (sample_host sample_kids)) as [[code w']|].
  - destruct (Htidy code w' eq_refl) as (evs & H1 & H2 & H3 & H4). exists code, w', evs.
    split; [reflexivity|]. split; [exact H1|]. split; [exact H2|]. split; [exact H3|exact H4].
  - exfalso. apply Hret. reflexivity.
Defined.

End ProfileProps.
