(* ===== verification/System.v ===== *)
(** * The two processes together

    The wake-up protocol between server and reader, one ring operation or event at a
    time, and the composition of what is proved of the server's and the reader's
    run. *)

From S2P Require Import Prelude Codec Frames Ring Buffer EventFd FsApi MemFs FileStore Reader.
From S2P Require Import Producer NetApi Server ServerSpec ServerProps Sessions Load.

Module System.
Import Codec.

(** ** The wake-up protocol

    Every step is one ring operation, one operation on an event descriptor or one
    decision, so the processes interleave between any two of them. *)

(** Where the server's process is: at the head of the event loop; in [epoll_wait];
    handling what it reported; after a push; about to notify the reader, having found
    the ring above the pause threshold or not; having taken the space event; after
    [Server::run]; about to wake the reader for the last time; waiting for the
    reader's exit. *)
Inductive server_pc :=
  SHead | SBlocked | SEvent | SPushed | SNotify (pause : bool) | SSpace | SClose | SWake | SDone.

(** Where the reader is: in the inner loop; before the notification; about to read
    the close flag; about to check the ring once more; before [consumeEvent]; at the
    end.  [any] is [consumedAny]. *)
Inductive reader_pc := RPop (any : bool) | RNotify (any : bool) | RCheck | REmpty | RSleep | RDone.

(** The frames in the ring, its close flag, the counters of the two event
    descriptors, the server's modes, whether the space event is among the reported
    events still to be handled, and both processes. *)
Record state := mk {
  queued : Z;
  closed : bool;
  data : Z;
  space : Z;
  paused : bool;
  draining : bool;
  reported : bool;
  spc : server_pc;
  rpc : reader_pc;
}.

Definition initial : state := mk 0 false 0 0 false false false SHead (RPop false).

Definition queued_bytes (s : state) : Z := queued s * kFrameSize.

(** The server is going to notify the reader, or to end. *)
Definition will_notify (pc : server_pc) : bool :=
  match pc with
  | SPushed | SNotify _ | SClose | SWake => true
  | SHead | SBlocked | SEvent | SSpace | SDone => false
  end.

(** The reader is going to report space. *)
Definition will_report (pc : reader_pc) : bool :=
  match pc with RPop any | RNotify any => any | _ => false end.

(** What one process loads of the other's may be old, until it has heard of the news:
    a notification is in the descriptor, or still to come. *)
Definition reader_may_miss (s : state) : Prop := 0 < data s \/ will_notify (spc s) = true.
Definition server_may_miss (s : state) : Prop := 0 < space s \/ will_report (rpc s) = true.

(** Steps from outside: [epoll_wait] reports something else than the space event, or
    is interrupted; a client's frames are published (there is headroom while ingress
    is not paused); a signal asks to stop; the server stops on an error, wherever it
    is. *)
Inductive env_step (s : state) : state -> Prop :=
| E_report (b : bool) :
    spc s = SBlocked -> (b = true -> 0 < space s) ->
    env_step s (mk (queued s) (closed s) (data s) (space s) (paused s) (draining s) b SEvent (rpc s))
| E_publish n :
    spc s = SEvent -> draining s = false -> paused s = false -> 0 < n ->
    queued s + n <= Ring.capacityFrames ->
    env_step s (mk (queued s + n) (closed s) (data s) (space s) false false (reported s) SPushed (rpc s))
| E_signal :
    spc s = SEvent ->
    env_step s (mk (queued s) (closed s) (data s) (space s) (paused s) true (reported s) SEvent (rpc s))
| E_stop :
    spc s ∈ [SHead; SBlocked; SEvent; SPushed; SNotify false; SNotify true; SSpace] ->
    env_step s (mk (queued s) (closed s) (data s) (space s) (paused s) (draining s) false SClose (rpc s)).

(** [readClient] after a push: the threshold, then the notification, then the
    pause in [handleEvent]. *)
Inductive publish_step (s : state) : state -> Prop :=
| P_pending :
    spc s = SPushed ->
    publish_step s (mk (queued s) (closed s) (data s) (space s) (paused s) (draining s) (reported s)
      (SNotify (Server.kPauseIngressBytes <=? queued_bytes s)) (rpc s))
| P_pending_old :
    spc s = SPushed -> server_may_miss s ->
    publish_step s (mk (queued s) (closed s) (data s) (space s) (paused s) (draining s) (reported s)
      (SNotify true) (rpc s))
| P_notify p :
    spc s = SNotify p ->
    publish_step s (mk (queued s) (closed s) (data s + 1) (space s) (paused s || p) (draining s)
      (reported s) SEvent (rpc s)).

(** [handleEvent] on the space event. *)
Inductive space_step (s : state) : state -> Prop :=
| S_consume :
    spc s = SEvent -> reported s = true -> 0 < space s ->
    space_step s (mk (queued s) (closed s) (data s) 0 (paused s) (draining s) false SSpace (rpc s))
| S_resume :
    spc s = SSpace ->
    space_step s (mk (queued s) (closed s) (data s) (space s)
      (if negb (draining s) && paused s && (queued_bytes s <=? Server.kResumeIngressBytes)
       then false else paused s) (draining s) (reported s) SEvent (rpc s))
| S_resume_old :
    spc s = SSpace -> server_may_miss s ->
    space_step s (mk (queued s) (closed s) (data s) (space s) (paused s) (draining s) (reported s)
      SEvent (rpc s)).

(** The event loop: the check at its head, [epoll_wait] returning for the space
    event, and the end of the reported events. *)
Inductive loop_step (s : state) : state -> Prop :=
| L_head :
    spc s = SHead ->
    loop_step s (mk (queued s) (closed s) (data s) (space s) (paused s) (draining s) false
      (if draining s && (queued s =? 0) then SClose else SBlocked) (rpc s))
| L_head_old :
    spc s = SHead -> server_may_miss s ->
    loop_step s (mk (queued s) (closed s) (data s) (space s) (paused s) (draining s) false SBlocked
      (rpc s))
| L_report :
    spc s = SBlocked -> 0 < space s ->
    loop_step s (mk (queued s) (closed s) (data s) (space s) (paused s) (draining s) true SEvent (rpc s))
| L_handled :
    spc s = SEvent -> reported s = false ->
    loop_step s (mk (queued s) (closed s) (data s) (space s) (paused s) (draining s) false SHead (rpc s)).

(** [main] after the server. *)
Inductive main_step (s : state) : state -> Prop :=
| M_close :
    spc s = SClose ->
    main_step s (mk (queued s) true (data s) (space s) (paused s) (draining s) false SWake (rpc s))
| M_wake :
    spc s = SWake ->
    main_step s (mk (queued s) (closed s) (data s + 1) (space s) (paused s) (draining s) false SDone
      (rpc s)).

(** [Reader::run].  A pop may take less than what is queued, and with an old copy of the
    head nothing.  A reader that has seen the ring closed sees all that was published
    before. *)
Inductive reader_step (s : state) : state -> Prop :=
| R_pop any n :
    rpc s = RPop any -> 0 < n -> n <= queued s -> n * kFrameSize <= Reader.ipcBatchBytes ->
    reader_step s (mk (queued s - n) (closed s) (data s) (space s) (paused s) (draining s)
      (reported s) (spc s) (RPop true))
| R_pop_none any :
    rpc s = RPop any -> queued s = 0 ->
    reader_step s (mk 0 (closed s) (data s) (space s) (paused s) (draining s) (reported s) (spc s)
      (RNotify any))
| R_pop_none_old any :
    rpc s = RPop any -> reader_may_miss s ->
    reader_step s (mk (queued s) (closed s) (data s) (space s) (paused s) (draining s) (reported s)
      (spc s) (RNotify any))
| R_notify (any : bool) :
    rpc s = RNotify any ->
    reader_step s (mk (queued s) (closed s) (data s) (if any then space s + 1 else space s)
      (paused s) (draining s) (reported s) (spc s) RCheck)
| R_closed :
    rpc s = RCheck ->
    reader_step s (mk (queued s) (closed s) (data s) (space s) (paused s) (draining s) (reported s)
      (spc s) (if closed s then REmpty else RSleep))
| R_closed_old :
    rpc s = RCheck -> reader_may_miss s ->
    reader_step s (mk (queued s) (closed s) (data s) (space s) (paused s) (draining s) (reported s)
      (spc s) RSleep)
| R_empty :
    rpc s = REmpty ->
    reader_step s (mk (queued s) (closed s) (data s) (space s) (paused s) (draining s) (reported s)
      (spc s) (if queued s =? 0 then RDone else RSleep))
| R_consume :
    rpc s = RSleep -> 0 < data s ->
    reader_step s (mk (queued s) (closed s) 0 (space s) (paused s) (draining s) (reported s) (spc s)
      (RPop false)).

(** A step the two processes take by themselves. *)
Definition inner_step (s s' : state) : Prop :=
  publish_step s s' \/ space_step s s' \/ loop_step s s' \/ main_step s s' \/ reader_step s s'.

Definition step (s s' : state) : Prop := env_step s s' \/ inner_step s s'.

Definition reachable (s : state) : Prop := rtc step initial s.

(** ** Nobody sleeps through a wake-up *)

(** The reader has found the ring empty and has not been woken since. *)
Definition past_pop (pc : reader_pc) : bool :=
  match pc with RNotify _ | RCheck | REmpty | RSleep => true | _ => false end.

(** The server looks at the ring again before it blocks, for the end of the drain
    and for the threshold of a pause. *)
Definition will_check (pc : server_pc) : bool :=
  match pc with SBlocked => false | _ => true end.
Definition will_resume (pc : server_pc) : bool :=
  match pc with SSpace | SClose | SWake | SDone => true | _ => false end.

Definition server_ended (pc : server_pc) : bool :=
  match pc with SWake | SDone => true | _ => false end.

Record inv (s : state) : Prop := {
  i_range : 0 <= queued s /\ 0 <= data s /\ 0 <= space s;
  i_data : past_pop (rpc s) = true -> queued s = 0 \/ 0 < data s \/ will_notify (spc s) = true;
  i_closed : closed s = server_ended (spc s);
  i_asleep : rpc s = RSleep -> closed s = true -> 0 < data s \/ spc s = SWake;
  i_empty : rpc s = REmpty \/ rpc s = RDone -> closed s = true;
  i_done : rpc s = RDone -> queued s = 0;
  i_resume : draining s = false -> will_resume (spc s) = false ->
    paused s = true \/ spc s = SNotify true ->
    0 < queued s \/ 0 < space s \/ will_report (rpc s) = true;
  i_drain : draining s = true -> will_check (spc s) = false ->
    0 < queued s \/ 0 < space s \/ will_report (rpc s) = true;
  i_reported : reported s = true -> 0 < space s;
  i_modes : spc s = SPushed \/ spc s = SNotify false \/ spc s = SNotify true ->
    paused s = false /\ draining s = false;
}.

Lemma start_inv : inv initial.
Proof. constructor; cbn; intros; try done; try lia; intuition (done || discriminate). Qed.

(** Use the invariant of the state before, where the processes are known. *)
Ltac use_inv I :=
  destruct I as [I1 I2 I3 I4 I5 I6 I7 I8 I9 I10];
  repeat match goal with Hpc : spc _ = _ |- _ => rewrite Hpc in * end;
  repeat match goal with Hpc : rpc _ = _ |- _ => rewrite Hpc in * end;
  constructor;
  cbn [queued closed data space paused draining reported spc rpc past_pop will_notify will_report
       will_check will_resume server_ended orb andb negb] in *.

(** What is left is propositional, with linear arithmetic. *)
Ltac solve_inv := intros; simplify_eq; intuition (done || discriminate || congruence || lia).

Lemma env_step_inv s s' : inv s -> env_step s s' -> inv s'.
Proof.
  intros I St. destruct St as [b Hpc Hb|n Hpc Hd Hp Hn Hq|Hpc|Hpc].
  1-3: use_inv I; solve_inv.
  repeat setoid_rewrite elem_of_cons in Hpc.
  destruct Hpc as [Hpc|[Hpc|[Hpc|[Hpc|[Hpc|[Hpc|[Hpc|Hpc]]]]]]]; [..|by apply elem_of_nil in Hpc];
    use_inv I; solve_inv.
Qed.

Lemma publish_step_inv s s' : inv s -> publish_step s s' -> inv s'.
Proof.
  intros I St. destruct St as [Hpc|Hpc Hm|p Hpc].
  - destruct (Z.leb_spec Server.kPauseIngressBytes (queued_bytes s)) as [Hle|Hlt];
      unfold queued_bytes, Server.kPauseIngressBytes, kFrameSize in *; use_inv I; solve_inv.
  - unfold server_may_miss in Hm. use_inv I; solve_inv.
  - assert (paused s = false) as Ep by (apply (i_modes s I); destruct p; tauto).
    rewrite Ep. cbn [orb]. destruct p; use_inv I; solve_inv.
Qed.

Lemma space_step_inv s s' : inv s -> space_step s s' -> inv s'.
Proof.
  intros I St. destruct St as [Hpc Hr Hs|Hpc|Hpc Hm];
    [use_inv I; solve_inv| |unfold server_may_miss in Hm; use_inv I; solve_inv].
  destruct (draining s) eqn:Ed, (paused s) eqn:Ep,
    (Z.leb_spec (queued_bytes s) Server.kResumeIngressBytes) as [Hle|Hlt];
    unfold queued_bytes, Server.kResumeIngressBytes, kFrameSize in *; use_inv I; solve_inv.
Qed.

Lemma loop_step_inv s s' : inv s -> loop_step s s' -> inv s'.
Proof.
  intros I St. destruct St as [Hpc|Hpc Hm|Hpc Hs|Hpc Hr];
    [|unfold server_may_miss in Hm; use_inv I; solve_inv|use_inv I; solve_inv..].
  destruct (draining s) eqn:Ed, (Z.eqb_spec (queued s) 0) as [Eq|Eq]; use_inv I; solve_inv.
Qed.

Lemma main_step_inv s s' : inv s -> main_step s s' -> inv s'.
Proof. intros I St. destruct St as [Hpc|Hpc]; use_inv I; solve_inv. Qed.

Lemma reader_step_inv s s' : inv s -> reader_step s s' -> inv s'.
Proof.
  intros I St. destruct St as [any n Hpc Hn Hq Hb|any Hpc Hq|any Hpc Hm|any Hpc|Hpc|Hpc Hm|Hpc|Hpc Hd].
  - use_inv I; solve_inv.
  - use_inv I; solve_inv.
  - unfold reader_may_miss in Hm. use_inv I; solve_inv.
  - use_inv I; destruct any; solve_inv.
  - destruct (closed s) eqn:Ec; use_inv I; solve_inv.
  - unfold reader_may_miss in Hm. use_inv I; try solve_inv.
    intros _ Hc. destruct (spc s); cbn in *; solve_inv.
  - destruct (Z.eqb_spec (queued s) 0) as [Eq|Eq]; use_inv I; try solve_inv.
    intros _ Hc. destruct (spc s); cbn in *; solve_inv.
  - use_inv I; solve_inv.
Qed.

Lemma inner_step_inv s s' : inv s -> inner_step s s' -> inv s'.
Proof.
  intros I [St|[St|[St|[St|St]]]]; eauto using publish_step_inv, space_step_inv, loop_step_inv,
    main_step_inv, reader_step_inv.
Qed.

Lemma reached_inv s : reachable s -> inv s.
Proof.
  unfold reachable. apply (rtc_ind_r inv); [apply start_inv|].
  intros y z _ [St|St] I; eauto using env_step_inv, inner_step_inv.
Qed.

(** ** Left alone, the processes come to rest *)

(** Each process asleep with everything received and ingress open, or both at their
    end. *)
Definition at_rest (s : state) : Prop :=
  queued s = 0 /\
  (spc s = SBlocked /\ draining s = false /\ paused s = false /\ rpc s = RSleep \/
   spc s = SDone /\ rpc s = RDone).

(** The steps still to come. *)
Definition server_work (pc : server_pc) (reported : bool) : Z :=
  match pc with
  | SDone => 0 | SWake => 6 | SClose => 7 | SBlocked => 8 | SHead => 9
  | SEvent => if reported then 7 else 10
  | SSpace => 11 | SNotify _ => 16 | SPushed => 17
  end.
Definition reader_work (pc : reader_pc) : Z :=
  match pc with
  | RSleep | RDone => 0 | REmpty => 1 | RCheck => 2
  | RNotify any => if any then 8 else 3
  | RPop any => if any then 9 else 4
  end.
Definition work (s : state) : Z :=
  6 * queued s + 5 * data s + 5 * space s + server_work (spc s) (reported s) + reader_work (rpc s).

Lemma work_nonneg s : inv s -> 0 <= work s.
Proof.
  intros I. destruct (i_range s I) as (? & ? & ?). unfold work.
  assert (0 <= server_work (spc s) (reported s)) by (destruct (spc s), (reported s); cbn; lia).
  assert (0 <= reader_work (rpc s)) by (destruct (rpc s) as [[]|[]| | | |]; cbn; lia).
  lia.
Qed.

(** Every step the processes take by themselves is one of finitely many. *)
Lemma work_decreases s s' : inv s -> inner_step s s' -> work s' < work s.
Proof.
  intros I St. destruct (i_range s I) as (? & ? & ?).
  assert (0 < space s \/ reported s = false).
  { destruct (reported s) eqn:E; [left; by apply (i_reported s I)|by right]. }
  destruct St as [St|[St|[St|[St|St]]]]; destruct St; unfold work;
    cbn [queued data space spc rpc reported];
    repeat match goal with Hpc : spc _ = _ |- _ => rewrite Hpc in * end;
    repeat match goal with Hpc : rpc _ = _ |- _ => rewrite Hpc in * end;
    repeat match goal with
    | |- context [if ?b then _ else _] => destruct b
    | b : bool |- _ => destruct b
    end; cbn [server_work reader_work]; repeat case_match; lia.
Qed.

Lemma runs_end s : inv s -> Acc (flip inner_step) s.
Proof.
  intros I. remember (Z.to_nat (work s)) as n eqn:En. revert s I En.
  induction n as [n IH] using lt_wf_ind. intros s I En. constructor. intros s' St.
  pose proof (work_decreases s s' I St). pose proof (inner_step_inv s s' I St) as I'.
  pose proof (work_nonneg s' I'). apply (IH (Z.to_nat (work s'))); [lia|done|done].
Qed.

(** A process that is not asleep has a step. *)
Ltac find_step :=
  first [ right; right; right; right; by econstructor
        | right; left; by econstructor
        | left; by econstructor
        | right; right; left; by econstructor
        | right; right; right; left; by econstructor ].

Lemma reader_moves s : inv s -> rpc s <> RDone -> (rpc s = RSleep -> 0 < data s) ->
  exists s', inner_step s s'.
Proof.
  intros I Hd Hs. destruct (i_range s I) as (Hq & _).
  destruct (rpc s) as [any|any| | | |] eqn:Hpc;
    [|eexists; find_step|eexists; find_step|eexists; find_step| |done].
  - destruct (Z.eqb_spec (queued s) 0) as [E|E]; [eexists; find_step|].
    eexists. do 4 right. eapply (R_pop s any 1); [done|lia..|].
    unfold kFrameSize, Reader.ipcBatchBytes. lia.
  - eexists. do 4 right. eapply R_consume; [done|]. by apply Hs.
Qed.

Lemma server_moves s : inv s -> spc s <> SDone -> (spc s = SBlocked -> 0 < space s) ->
  exists s', inner_step s s'.
Proof.
  intros I Hd Hs. pose proof (i_reported s I) as Hr.
  destruct (spc s) as [| | | |p| | | |] eqn:Hpc; [eexists; find_step|..].
  - eexists. right; right; left. eapply L_report; auto.
  - destruct (reported s) eqn:E.
    + eexists. right; left. eapply S_consume; auto.
    + eexists. right; right; left. eapply L_handled; auto.
  - eexists; find_step.
  - eexists; find_step.
  - eexists; find_step.
  - eexists; find_step.
  - eexists; find_step.
  - done.
Qed.

Lemma stuck_at_rest s : inv s -> (forall s', ~ inner_step s s') -> at_rest s.
Proof.
  intros I Hn.
  assert (rpc s = RDone \/ rpc s = RSleep /\ data s = 0) as Hr.
  { destruct (decide (0 < data s)) as [Hd|Hd].
    - left. destruct (rpc s) eqn:E; try done; exfalso;
        (destruct (reader_moves s I) as [s' St]; [congruence|done|by apply (Hn s')]).
    - destruct (i_range s I) as (_ & ? & _).
      destruct (rpc s) eqn:E; [..|by left]; try (right; split; [done|lia]);
        exfalso; (destruct (reader_moves s I) as [s' St]; [congruence|congruence|by apply (Hn s')]). }
  assert (spc s = SDone \/ spc s = SBlocked /\ space s = 0) as Hs.
  { destruct (decide (0 < space s)) as [Hd|Hd].
    - left. destruct (spc s) eqn:E; try done; exfalso;
        (destruct (server_moves s I) as [s' St]; [congruence|done|by apply (Hn s')]).
    - destruct (i_range s I) as (_ & _ & ?).
      destruct (spc s) eqn:E; try (by left); try (right; split; [done|lia]);
        exfalso; (destruct (server_moves s I) as [s' St]; [congruence|congruence|by apply (Hn s')]). }
  destruct I as [I1 I2 I3 I4 I5 I6 I7 I8 I9 I10]. unfold at_rest.
  destruct Hr as [Er|[Er Ed]], Hs as [Es|[Es Ep]]; rewrite Er, Es in *;
    cbn [past_pop will_notify will_check will_resume will_report server_ended] in *.
  - split; [by apply I6|by right].
  - rewrite I5 in I3 by tauto. done.
  - destruct I4 as [?|?]; [done..|lia|done].
  - assert (queued s = 0) as Eq by (destruct I2 as [?|[?|?]]; [done|done|lia|done]).
    split; [done|]. left. split_and!; try done.
    + destruct (draining s); [|done]. destruct I8 as [?|[?|?]]; [done..|lia|lia|done].
    + destruct (draining s); [destruct I8 as [?|[?|?]]; [done..|lia|lia|done]|].
      destruct (paused s); [|done]. destruct I7 as [?|[?|?]]; [done..|by left|lia|lia|done].
Qed.

Lemma rtc_inner_inv s s' : inv s -> rtc inner_step s s' -> inv s'.
Proof. intros I Hs. induction Hs; eauto using inner_step_inv. Qed.

(** C5: nobody sleeps through a wake-up.  However the two processes interleave with
    each other, with clients, signals and errors, and although each may see the other's
    counters late, until it has been notified, once nothing more comes from
    outside they take finitely many more steps, and stop only where the reader has
    received everything that was published and sleeps while the server waits with
    ingress open, or where both have ended.  In particular a paused or draining
    server is always woken, and a closed ring always ends the reader. *)
Theorem comes_to_rest s :
  reachable s ->
  Acc (flip inner_step) s /\
  forall s', rtc inner_step s s' -> (forall s'', ~ inner_step s' s'') -> at_rest s'.
Proof.
  intros Hr. pose proof (reached_inv s Hr) as I. split; [by apply runs_end|].
  intros s' Hs Hn. apply stuck_at_rest; [|done]. by apply (rtc_inner_inv s).
Qed.

(** The server has just paused: 3 MiB published, the reader at its first pop. *)
Definition sample_paused : state := mk 98304 false 1 0 true false false SEvent (RPop false).

Lemma sample_paused_reachable : reachable sample_paused.
Proof.
  eapply rtc_l; [right; right; right; left; by apply L_head|].
  eapply rtc_l; [left; by apply (E_report _ false)|].
  eapply rtc_l; [left; by apply (E_publish _ 98304)|].
  eapply rtc_l; [right; left; by apply P_pending|].
  eapply rtc_l; [right; left; by eapply P_notify|].
  apply rtc_refl.
Qed.

(** Nothing has come yet, and both processes sleep. *)
Definition sample_asleep : state := mk 0 false 0 0 false false false SBlocked RSleep.

Lemma sample_asleep_reached : rtc inner_step initial sample_asleep.
Proof.
  eapply rtc_l; [right; right; left; by apply L_head|].
  eapply rtc_l; [do 4 right; by eapply R_pop_none|].
  eapply rtc_l; [do 4 right; by eapply R_notify|].
  eapply rtc_l; [do 4 right; by eapply R_closed|].
  apply rtc_refl.
Qed.

Lemma sample_asleep_stuck s : ~ inner_step sample_asleep s.
Proof. intros [St|[St|[St|[St|St]]]]; destruct St; cbn in *; try discriminate; lia. Qed.

Lemma comes_to_rest_witness :
  (reachable sample_paused /\ Acc (flip inner_step) sample_paused) /\
  reachable initial /\ rtc inner_step initial sample_asleep /\ at_rest sample_asleep.
Proof.
  pose proof (rtc_refl step initial : reachable initial) as Hi. split.
  - split; [exact sample_paused_reachable|].
    exact (proj1 (comes_to_rest sample_paused sample_paused_reachable)).
  - split; [exact Hi|]. split; [exact sample_asleep_reached|].
    exact (proj2 (comes_to_rest initial Hi) sample_asleep sample_asleep_reached
      sample_asleep_stuck).
Defined.

End System.

(** ** From the sockets to the files *)

Module Pipeline.
Import Codec Frames EventFd FsApi FileStore Producer NetApi Server ServerSpec.


(** C8: from the sockets to the files.  When the server's run comes back, the
    reader's run succeeds, and what the reader's ring has published is what the
    server's ring was given, then the data files hold what was found at the start
    followed by exactly the valid frames of the connections' streams, as [ingest]
    makes them of the history of accepted, received and closed; all of it are valid
    frames, sealed and synced as if appended one by one, and a crash takes none. *)
Theorem stored_end_to_end {C E N W2 F} `{RingProducerLaws C} `{EventFdLaws E} `{NetLaws N}
    `{ClientOrder} `{Reader.ReaderWorld W2} `{FsLaws F}
    fuel dfd sfd gfd pid ext config (s s' : SSt C E N) code
    fuel2 R rconfig (t t' : Reader.RSt W2 F) :
  start_ok sfd gfd ext s -> run fuel config dfd sfd gfd pid s = Some (Some code, s') ->
  clock_avoids (F:=F) R -> Reader.run_pre R rconfig t ->
  Reader.run fuel2 dfd sfd rconfig t = Some (EXIT_SUCCESS, t') ->
  Reader.published (Reader.ipc t') = pushed (ring s') ->
  let all := published (ingest (k_trace (kview (net s')))) in
  let name := filename (Reader.dataFilePath rconfig) in
  let v := view (fs (Reader.disk t')) in
  valid_frames all /\
  exists arch,
    stream v arch name = Reader.found rconfig t ++ all /\
    crash_stream v arch name = stream v arch name /\
    map (file_bytes v) arch =
      sealed (fold_left (log_append (Reader.store_config rconfig)) (frames_of all)
        (Reader.log_found rconfig t)).
Proof.
  intros S Hs Hc Hp Ht Heq. cbv zeta.
  destruct (wp_run _ _ _ _ _ _ (server_run_spec fuel dfd sfd gfd pid ext config false s S
    ltac:(done)) Hs) as [Hpub _].
  destruct (wp_run _ _ _ _ _ _ (Reader.run_spec fuel2 R Hc false dfd sfd rconfig t Hp
    ltac:(done) ltac:(done)) Ht) as [[_ HA]|[HF _]]; [|done].
  destruct HA as (_ & Hv & HA). rewrite Heq, <- Hpub in *. done.
Qed.
Import MemFs.

#[local] Existing Instances Reader.shared_consumer Reader.shared_events Reader.shared_event_laws
  Reader.shared_laws.

(** The server of the sample run, whose client sends one frame; and a reader that
    finds it in the closed ring. *)
Definition sample_source : Reader.RSt Reader.SharedRing MemFs.MemFs :=
  Reader.mk_RSt (Reader.sending (encode default_record) [EINTR]) sample_state [] 0 [].

Definition sample_stored : Reader.RSt Reader.SharedRing MemFs.MemFs :=
  end_state sample_source (Reader.run 300 3 4 Reader.sample_reader_config sample_source).

Lemma sample_code :
  fst <$> Reader.run 300 3 4 Reader.sample_reader_config sample_source = Some EXIT_SUCCESS.
Proof. vm_compute. reflexivity. Qed.

Lemma sample_stores :
  Reader.run 300 3 4 Reader.sample_reader_config sample_source = Some (EXIT_SUCCESS, sample_stored).
Proof. apply ends_in. exact sample_code. Qed.

Lemma sample_source_pre : Reader.run_pre sample_names Reader.sample_reader_config sample_source.
Proof.
  constructor; [exact sample_config_ok|exact sample_known|split; [by apply Reader.sending_ok|done]|by vm_compute].
Qed.

Lemma sample_same_ring :
  Reader.published (Reader.ipc sample_stored) = pushed (ring ServerProps.sample_end).
Proof. vm_compute. reflexivity. Qed.

Lemma stored_end_to_end_witness :
  Reader.published (Reader.ipc sample_stored) = pushed (ring ServerProps.sample_end) /\
  exists arch,
    stream (view (fs (Reader.disk sample_stored))) arch "t.bin" =
      Reader.found Reader.sample_reader_config sample_source ++
      published (ingest (k_trace (kview (net ServerProps.sample_end)))).
Proof.
  split; [exact sample_same_ring|].
  destruct (stored_end_to_end 20 3 4 5 77 ServerProps.given default_config ServerProps.sample_start
    ServerProps.sample_end EXIT_SUCCESS 300 sample_names Reader.sample_reader_config
    sample_source sample_stored ServerProps.sample_start_ok ServerProps.sample_ends sample_clock
    sample_source_pre sample_stores sample_same_ring) as (_ & arch & Ha & _).
  exists arch. exact Ha.
Defined.

(** ** From the sender to the files *)

(** What a reader that succeeds has stored of what the server published, [all]. *)
Definition stored (config : Reader.ReaderConfig) {W F} `{FsLaws F}
    (t t' : Reader.RSt W F) (all : bytes) : Prop :=
  exists arch,
    let v := view (fs (Reader.disk t')) in
    let name := filename (Reader.dataFilePath config) in
    stream v arch name = Reader.found config t ++ all /\
    crash_stream v arch name = stream v arch name.

(** C6: from the sender to the files.  The server's run is over, and the reader's run on
    the server's ring is over and succeeded; a sender has run, with success or not, and
    connection [c] has received some beginning of what it sent ([TCP] keeps order, and
    a server that shuts down may leave the rest).  Then the files hold, after what was
    there before, what [taken] says connection by connection: of every connection the
    valid part of its stream in order, and of connection [c] exactly the sender's
    frames that had arrived whole, which decode to its records numbered from 1 on; they
    are all its records when it succeeded and all it sent has arrived.  A crash takes
    none of it. *)
Theorem sender_to_files {C E N W2 F W} `{RingProducerLaws C} `{EventFdLaws E} `{NetLaws N}
    `{ClientOrder} `{Reader.ReaderWorld W2} `{FsLaws F} `{Load.SendLaws W}
    fuel dfd sfd gfd pid ext config (s s' : SSt C E N) code
    fuel2 R rconfig (t t' : Reader.RSt W2 F)
    fuel3 argv o (w w' : W) lcode evs c :
  start_ok sfd gfd ext s -> run fuel config dfd sfd gfd pid s = Some (Some code, s') ->
  clock_avoids (F:=F) R -> Reader.run_pre R rconfig t ->
  Reader.run fuel2 dfd sfd rconfig t = Some (EXIT_SUCCESS, t') ->
  Reader.published (Reader.ipc t') = pushed (ring s') ->
  Load.parseOptions argv Load.default_options = Load.Returns true o ->
  Load.main fuel3 argv w = Some (lcode, w') -> Load.c_log w' = Load.c_log w ++ evs ->
  let arrived := Sessions.stream c (k_trace (kview (net s'))) in
  arrived `prefix_of` Load.payload evs ->
  let n := zlen arrived / kFrameSize in
  exists taken,
    stored rconfig t t' (Sessions.together taken) /\
    (forall d, Sessions.from d taken =
       Sessions.valid_part (Sessions.stream d (k_trace (kview (net s'))))) /\
    Sessions.from c taken = Load.workload n /\
    map decode (frames_of (Sessions.from c taken)) =
      map (fun k => {| record := Load.load_record (Z.of_nat k); error := None_ |})
        (seq 1 (Z.to_nat n)) /\
    (lcode = EXIT_SUCCESS -> arrived = Load.payload evs -> n = Load.frames o).
Proof.
  intros S Hs Hc Hp Ht Heq Ho Hl Hev arrived Htcp n.
  destruct (wp_run _ _ _ _ _ _ (server_run_spec fuel dfd sfd gfd pid ext config false s S
    ltac:(done)) Hs) as [Hpub _].
  destruct (wp_run _ _ _ _ _ _ (Reader.run_spec fuel2 R Hc false dfd sfd rconfig t Hp
    ltac:(done) ltac:(done)) Ht) as [[_ HA]|[HF _]]; [|done].
  destruct (Sessions.ingest_shares (k_trace (kview (net s')))) as (taken & Hall & Hfrom).
  exists taken. rewrite Hall.
  destruct (wp_run _ _ _ _ _ _ (Load.main_spec false fuel3 argv w ltac:(done)) Hl)
    as (evs' & [Hl' _] & Hd).
  rewrite Hev in Hl'. apply app_inv_head in Hl' as <-.
  destruct (Load.load_done_payload argv o lcode evs Ho Hd) as ((Hr & _ & _) & Hpay & Hfull).
  destruct (Load.workload_valid_part (Load.frames o) arrived ltac:(lia) ltac:(by etrans)) as [Hn Hpart].
  fold n in Hn, Hpart.
  assert (Sessions.from c taken = Load.workload n) as Hfc by (by rewrite Hfrom).
  split_and!; [|done|done| |].
  - destruct HA as (_ & _ & arch & Hst & Hcr & _). exists arch. rewrite Heq, <- Hpub in Hst.
    by split.
  - rewrite Hfc. apply Load.decode_workload. lia.
  - intros Hok Harr. unfold n. rewrite Harr, (Hfull Hok). unfold Load.workload.
    rewrite Load.zlen_workload_from, Z2Nat.id by lia. by apply Z.div_mul.
Qed.

(** The sender of [Load.sample_sends], a server that receives its three frames in
    other pieces than they were sent, and a reader that finds them in the ring. *)
Definition sample_script3 : list happening :=
  [ServerProps.wake ServerProps.lfd0 EPOLLIN; HConnect; ServerProps.wake ServerProps.client0 EPOLLIN;
   HBytes (ztake 50 (Load.workload 3)); HBytes (zdrop 50 (Load.workload 3));
   HFail EINTR; ServerProps.wake 5 EPOLLIN;
   HSignal {| ssi_signo := SIGTERM; ssi_pid := 0; ssi_code := 0 |}].

Definition sample_start3 : ServerProps.sample_st :=
  mk_SSt {| all_sent := []; eager_closed := false |} {| script := [EINTR]; log := [] |}
    (ServerProps.sample_net sample_script3) ∅ (-1) Running false.

Lemma sample_start3_ok : start_ok 4 5 ServerProps.given sample_start3.
Proof. constructor; try done. exact ServerProps.sample_given. Qed.

#[local] Existing Instances ServerProps.sample_order Load.peer_api Load.peer_laws.

Definition sample_end3 : ServerProps.sample_st :=
  end_state sample_start3 (run 20 default_config 3 4 5 77 sample_start3).

Lemma sample_ends3 :
  run 20 default_config 3 4 5 77 sample_start3 = Some (Some EXIT_SUCCESS, sample_end3).
Proof. by vm_compute. Qed.

Definition sample_source3 : Reader.RSt Reader.SharedRing MemFs.MemFs :=
  Reader.mk_RSt (Reader.sending (Load.workload 3) []) sample_state [] 0 [].

Definition sample_stored3 : Reader.RSt Reader.SharedRing MemFs.MemFs :=
  end_state sample_source3 (Reader.run 300 3 4 Reader.sample_reader_config sample_source3).

Lemma sample_code3 :
  fst <$> Reader.run 300 3 4 Reader.sample_reader_config sample_source3 = Some EXIT_SUCCESS.
Proof. vm_compute. reflexivity. Qed.

Lemma sample_stores3 :
  Reader.run 300 3 4 Reader.sample_reader_config sample_source3 = Some (EXIT_SUCCESS, sample_stored3).
Proof. apply ends_in. exact sample_code3. Qed.

Lemma sample_source3_pre : Reader.run_pre sample_names Reader.sample_reader_config sample_source3.
Proof.
  constructor; [exact sample_config_ok|exact sample_known|split; [by apply Reader.sending_ok|done]|by vm_compute].
Qed.

Lemma sample_same_ring3 :
  Reader.published (Reader.ipc sample_stored3) = pushed (ring sample_end3).
Proof. vm_compute. reflexivity. Qed.

Definition sample_options3 : Load.Options :=
  {| Load.frames := 3; Load.batchFrames := 2; Load.port := 19000 |}.

Lemma sample_parses3 :
  Load.parseOptions Load.sample_args Load.default_options = Load.Returns true sample_options3.
Proof. vm_compute. reflexivity. Qed.

Lemma sample_log3 : Load.c_log Load.sample_sent = Load.c_log Load.sample_peer ++ Load.c_log Load.sample_sent.
Proof. vm_compute. reflexivity. Qed.

Lemma sample_arrived3 :
  Sessions.stream 0 (k_trace (kview (net sample_end3))) = Load.payload (Load.c_log Load.sample_sent).
Proof. vm_compute. reflexivity. Qed.

Lemma sample_tcp3 :
  Sessions.stream 0 (k_trace (kview (net sample_end3))) `prefix_of` Load.payload (Load.c_log Load.sample_sent).
Proof. by rewrite sample_arrived3. Qed.

Lemma sample_three : zlen (Sessions.stream 0 (k_trace (kview (net sample_end3)))) / kFrameSize = 3.
Proof. vm_compute. reflexivity. Qed.

Lemma sender_to_files_witness :
  Load.main 100 Load.sample_args Load.sample_peer = Some (EXIT_SUCCESS, Load.sample_sent) /\
  exists taken, stored Reader.sample_reader_config sample_source3 sample_stored3
    (Sessions.together taken) /\ Sessions.from 0 taken = Load.workload 3.
Proof.
  split; [exact Load.sample_sends|].
  destruct (sender_to_files 20 3 4 5 77 ServerProps.given default_config sample_start3 sample_end3
    EXIT_SUCCESS 300 sample_names Reader.sample_reader_config sample_source3 sample_stored3
    100 Load.sample_args sample_options3 Load.sample_peer Load.sample_sent
    EXIT_SUCCESS (Load.c_log Load.sample_sent) 0%nat sample_start3_ok sample_ends3 sample_clock
    sample_source3_pre sample_stores3 sample_same_ring3 sample_parses3 Load.sample_sends sample_log3
    sample_tcp3) as (taken & Hs & _ & Hf & _).
  exists taken. split; [exact Hs|]. rewrite sample_three in Hf. exact Hf.
Defined.

End Pipeline.
